(* ===== verification/_CoqProject ===== *)
-Q . S2P
Prelude.v
Leb128.v
Varint.v
VBuffer.v
LpStream.v
ZeroQueue.v
BufferStream.v
Protocol.v
Multistream.v
Endians.v
Nimcrypto.v
Minasn1.v
Minasn1Codec.v
Minasn1Safety.v
MinProtobuf.v
Ed25519Field.v
Ed25519Scalar.v
Ed25519Prime.v
Edwards.v
Ed25519Group.v
Ed25519Tables.v
Ed25519Mult.v
CCommon.v
CLogic.v
CExamples.v
CNetwork.v
Rng.v
Ed25519.v
Chronos.v
KadTypes.v
KadRegistry.v
KadTable.v
KadLookup.v
IpTree.v
DnsMessage.v
AdvertisementCache.v
TimedCache.v
MCache.v
PeerTable.v
GossipMesh.v
YamuxHeader.v
YamuxChannel.v
YamuxAccounts.v
YamuxStream.v
