(* ===== verification/Prelude.v ===== *)
(** * nim-libp2p: a verification library

** What the program is

nim-libp2p is a peer-to-peer networking stack in Nim (src/libp2p/) with a C interface
(src/cbind/) and C client programs over it (src/cbind/examples/).  A node dials or accepts
connections; on each connection the sides negotiate a protocol by name (multistream-select),
first for the secure channel and the stream muxer, then for every stream the muxer opens.
Application protocols run on those streams: the Kademlia DHT, gossipsub, identify, relays.
Their messages are protobuf messages behind varint length prefixes.

This library models the part of that stack that computes: codecs, arithmetic, data
structures, state machines and the protocols between two endpoints.  Each file is one
component; its definitions follow the procedures of the source in name and order, and its
theorems state what the component promises.

** Files, and the code they model

- Prelude: machine integers, sequences, results, tactics and hint databases.
- Leb128, Endians: classes for the [stew] package (LEB128 and endianness), with a concrete
  instance of each for evaluation.  Chronos: a class for the clock of the [chronos] package.
  Nimcrypto: classes for SHA-512 and the hexadecimal decoder of [nimcrypto] and the comparison
  of [stew].
- Varint: src/libp2p/varint.nim.  VBuffer: src/libp2p/vbuffer.nim.
- LpStream: src/libp2p/stream/lpstream.nim ([readExactly], [readVarint], [readLp], [writeLp])
  over the class [ByteSource] of streams.  BufferStream: src/libp2p/stream/bufferstream.nim, an
  instance of that class over the class [AsyncQueue] of chronos.
- Protocol: src/libp2p/protocols/protocol.nim, the stream budgets.
- Multistream: src/libp2p/multistream.nim, both sides of a negotiation, as processes, and the
  registry of handlers.
- MinProtobuf: src/libp2p/protobuf/minprotobuf.nim.
- Minasn1: src/libp2p/crypto/minasn1.nim, the DER encoder and decoder; Minasn1Codec is their
  round trip, Minasn1Safety what the decoder does on arbitrary bytes.
- DnsMessage: src/libp2p/nameresolving/dnsmessage.nim.
- Ed25519Field, Ed25519Scalar: the arithmetic of src/libp2p/crypto/ed25519/ed25519.nim modulo
  2^255-19 and modulo the group order, with every int32 and int64 operation checked.
  Ed25519Prime: the modulus and the order are prime.  Edwards: the points of the curve and the
  proof that they are a group.  Ed25519Group, Ed25519Tables, Ed25519Mult: the same source, the
  representations of points and their operations, the tables of constants.nim, the multiples of
  a point.  Ed25519: keys, [sign] and [verify].
- CCommon, CLogic, CExamples, CNetwork: the C programs of src/cbind/examples/ (CCommon is
  common.h; CLogic is the logic of contexts and exit codes; CExamples holds echo, peerstore,
  metrics, kad and libp2p_mobile_check, CNetwork relay, gossipsub and service_disco).
- Rng: src/libp2p/crypto/rng.nim over the class [Drbg] of the BearSSL generator.
- KadTypes, KadRegistry, KadTable, KadLookup: src/libp2p/protocols/kademlia/ (types,
  key_value, peer_registry, routing_table).
- IpTree: src/libp2p/utils/iptree.nim.  AdvertisementCache:
  src/libp2p/protocols/service_discovery/advertisement_cache.nim.
- TimedCache, MCache, PeerTable, GossipMesh: src/libp2p/protocols/pubsub/ (timedcache.nim, mcache.nim;
  peertable.nim and the mesh maintenance of gossipsub/behavior.nim).
- ZeroQueue, YamuxHeader, YamuxChannel, YamuxAccounts, YamuxStream:
  src/libp2p/utils/zeroqueue.nim and src/libp2p/muxers/yamux/yamux.nim (header, channel
  procedures, laws of each procedure, and the two ends of one stream with frames under way).

** How the components interact

Varint is used by VBuffer, MinProtobuf and LpStream; LpStream by Multistream, whose accepted
streams are counted by Protocol; BufferStream keeps its bytes in a ZeroQueue and implements the
streams LpStream reads from, so that the theorems of LpStream hold of it.  The point operations of
Ed25519Group run on Ed25519Field and are specified by the group of Edwards, an instance of the
class [EdwardsCurve]; Ed25519 signs with them and with Ed25519Scalar.  Rng is used by Ed25519,
KadLookup and GossipMesh, Chronos by KadRegistry, AdvertisementCache, TimedCache and GossipMesh.
AdvertisementCache keeps the addresses of its ads in an IpTree.  DnsMessage has its type of
IP addresses.  KadTable works over the registry of KadRegistry, which several tables share: the
theorem about them is about all of them at once.  YamuxChannel queues received bytes in a
ZeroQueue; YamuxStream composes two channels and the frames between them.  A C client of CExamples
or CNetwork is a program over the environment of CCommon, which answers its requests; CLogic
follows the contexts and the events of its trace.  What a component needs of code that is not in
the repository is a class with laws ([Leb128], [Endians], [Chronos], [AsyncQueue], [Drbg],
[Sha256], [Sha512], [CtOps], [NcrUtils], [IpText]; [ByteSource] for the streams): theorems are
proved against the class, and the witnesses evaluate them at an instance.

** Conventions

A Nim [Defect] (a failed [doAssert], an index or a range error) is [None] of an option; a
[Result] is [result]; an exception of a stream is a value of the outcome of the read.  Unsigned
integers wrap, and are [Z] with the wrap-around written out; signed overflow is checked where
the arithmetic can come near it (a counter of objects in memory cannot).  The state a procedure changes is an argument and a result.
References shared by several objects (the nodes of TimedCache, the registry of the Kademlia
tables, the C contexts) are indices or keys into an explicit store.  Clocks, random bytes and
the scheduler are arguments: a theorem holds for whatever they give.  Logs and metrics are left
out.

** What the theorems show

- Round trips and equivalences of the codecs: Varint, VBuffer, MinProtobuf (also a refinement of
  a specification of protobuf messages, and totality on arbitrary bytes), Minasn1Codec (values and
  composites of them), DnsMessage (encoding succeeds exactly on the messages that fit and whose
  addresses are of their family; what is read back is the message without the fields of other
  kinds), YamuxHeader, LpStream.  Minasn1Safety: on arbitrary bytes the DER decoder returns a field
  inside the buffer or an error, and the two inputs it does not check; the readers of DnsMessage
  always return, and what they return is a message the wire can carry.
- Functional correctness without overflow: Ed25519Field, Ed25519Scalar; Ed25519Group and
  Ed25519Mult against the group of the curve, to signatures and keys (Ed25519): what is signed is
  verified, [verify] decides the equation of the signature, and the public keys accepted are the
  points of the order.
- Protocols between two endpoints, for every interleaving: Multistream (agreement, and
  completion) and YamuxStream (flow control is never violated, bytes arrive in order, no
  deadlock, when a channel is released, and the race of its own Fin with the peer's).
- Concurrent calls: BufferStream (a pipe, whatever the interleaving of pushes, reads, cancellations
  and close; closing ends every wait, if no read is cancelled after it).
- Invariants of shared state: KadTable (tables and registry agree), Protocol (budgets), CNetwork
  (C contexts are used while alive and destroyed once, except those that come with an error, which
  [await_create] drops; what the calls and replies were when a client exits with 0),
  AdvertisementCache (capacity, count, tree of addresses), with the effect of each of its
  operations.
- Refinements of data structures: TimedCache (a linked list in a store against a list of dated
  keys), MCache (a circular buffer against rounds), ZeroQueue (chunks against bytes), IpTree (a tree of
  counters against a multiset of addresses, with its scores).
- Queries: KadTypes (the XOR metric), KadLookup (closest peers, samples, refresh keys), Rng
  (ranges, uniformity of the accepted words, permutations), GossipMesh (whom a heartbeat grafts
  and prunes, and the size of the mesh it leaves).

** Fuel and bounds

[tryHandle] runs at most [fuel] turns; one turn reads one message and the theorems ask for one
more than the client can send, so that the model never stops on its own.  [readExactly_loop]
has one turn more than the bytes asked for, and each turn reads a byte or meets the end of the
stream; [expire_loop] and [search_back] of TimedCache have the number of nodes ever allocated,
which bounds the length of the list.  The loops of MinProtobuf have the length of the message.
The loops of Rng that reject words take the words drawn as a list, and their theorems are
about the accepted ones.  [slide_while] of Ed25519Mult has the six turns that the condition of
the source allows; [read_loop] of Minasn1 has two (a context tag is followed by another tag or
an error) and [octets_loop] eight, one for each byte of a length; [readName_loop] of DnsMessage has 300, more than
the 255 bytes and 16 pointers of a name, and [readTxt_loop] one more than the bytes of the record;
the loops over 64 and 256 digits are recursions over them.
In every case a theorem says that the result is reached.

** Not modelled, and why

Transports, dialing and listening (sockets, TLS, QUIC, WebSocket, Tor), name resolution and NAT
traversal are input and output.  Noise, TLS, RSA, ECDSA, secp256k1, curve25519 and ChaCha20 call
BearSSL, secp256k1 or other C code and are their parameters more than their own logic.  The
printing of Ed25519 keys and of ASN.1 fields, multihash, multibase, multiaddress and CID codecs,
the connection manager, the scoring and the RPC layer of gossipsub, the messages and queries of
Kademlia, the messages and waiting times of service discovery, rendezvous, relays, autonat, hole
punching, identify and the ACME client are parts of the program that this library does not reach;
so are the tables of a Yamux muxer that holds many streams (the close of the muxer is modelled as
what it does to one channel), and mplex, the older muxer.  *)
From stdpp Require Export base tactics option list numbers gmap strings sorting.
From Stdlib Require Export ZArith Lia.

#[global] Set Default Proof Using "Type".

(** ** Notations *)
Declare Scope nim_scope.
Delimit Scope nim_scope with nim.

(** A byte string: every element is meant to lie in [0, 256), see [bytes_ok]. *)
Abbreviation bytes := (list Z).

#[local] Open Scope Z_scope.

(** ** Results

[result E A] is nim-results' [Result[A, E]].  A Nim [Defect] ([doAssert], an index
out of range) aborts the program; operations that can raise one return an [option],
[None] being the defect. *)

Inductive result (E A : Type) : Type :=
| Ok (a : A)
| Err (e : E).

Arguments Ok {E A} a.
Arguments Err {E A} e.

Definition isOk {E A} (r : result E A) : bool :=
  match r with Ok _ => true | Err _ => false end.

#[export] Instance result_ret E : MRet (result E) := fun A a => Ok a.

#[export] Instance result_bind E : MBind (result E) :=
  fun A B f r => match r with Ok a => f a | Err e => Err e end.

#[export] Instance result_eq_dec E A `{EqDecision E, EqDecision A} :
  EqDecision (result E A).
Proof. solve_decision. Defined.

(** [doAssert cond]: the defect is [None]. *)
Definition doAssert (b : bool) : option unit := if b then Some tt else None.

(** ** Machine integers

A [w]-bit unsigned integer is a [Z] in [0, 2^w); [wrap] is the conversion (or the
wrap-around of an unsigned operation), [to_signed] is [cast[intW]]. *)

Definition wrap (w x : Z) : Z := x mod 2 ^ w.

Definition to_signed (w x : Z) : Z := if x <? 2 ^ (w - 1) then x else x - 2 ^ w.

Definition uint_ok (w x : Z) : Prop := 0 <= x < 2 ^ w.

Definition int_ok (w x : Z) : Prop := - 2 ^ (w - 1) <= x < 2 ^ (w - 1).

Definition byte_ok (b : Z) : Prop := 0 <= b < 256.

Definition bytes_ok (bs : bytes) : Prop := Forall byte_ok bs.

(** ** Sequences

[set_len] is Nim's [setLen] (growing a [seq[byte]] fills it with zeroes), [blit] is
the slice assignment [dst[i ..< i + src.len] = src] (also [copyMem]) inside [dst]. *)

Definition set_len {A} (d : A) (n : nat) (l : list A) : list A :=
  take n l ++ replicate (n - length l) d.

Definition blit {A} (i : nat) (src dst : list A) : list A :=
  take i dst ++ src ++ drop (i + length src) dst.

(** Nim's [seq.del(i)]: the last element takes the place of the [i]-th. *)
Definition seq_del {A} (i : nat) (l : list A) : list A :=
  match last l with
  | None => l
  | Some x => take (length l - 1) (<[i := x]> l)
  end.

(** Nim's [seq.delete(i)]: the elements after the [i]-th move down by one. *)
Definition seq_delete {A} (i : nat) (l : list A) : list A :=
  take i l ++ drop (S i) l.

(** Nim's [find]: the index of the first element equal to [x]. *)
Fixpoint seq_find {A} `{EqDecision A} (x : A) (l : list A) : option nat :=
  match l with
  | [] => None
  | y :: r => if decide (x = y) then Some O else S <$> seq_find x r
  end.

(** ** Automation *)

Create HintDb nim.
Create Rewrite HintDb nim_len.

Ltac split_and_all := repeat match goal with |- _ /\ _ => split end.

(** Case analysis on the boolean comparisons of the goal and of the hypotheses. *)
Ltac zbool :=
  repeat match goal with
  | |- context [?a <? ?b] => destruct (Z.ltb_spec a b)
  | |- context [?a <=? ?b] => destruct (Z.leb_spec a b)
  | |- context [?a =? ?b] => destruct (Z.eqb_spec a b)
  | H : context [?a <? ?b] |- _ => destruct (Z.ltb_spec a b)
  | H : context [?a <=? ?b] |- _ => destruct (Z.leb_spec a b)
  | H : context [?a =? ?b] |- _ => destruct (Z.eqb_spec a b)
  end.

(** Evaluates the powers of two with a closed exponent in the goal and the context. *)
Ltac pow2_value k :=
  let k' := eval vm_compute in k in
  lazymatch isZcst k' with true => eval vm_compute in (2 ^ k') end.

Ltac pow2 :=
  repeat match goal with
  | |- context [2 ^ ?k] => let v := pow2_value k in change (2 ^ k) with v
  | H : context [2 ^ ?k] |- _ => let v := pow2_value k in change (2 ^ k) with v in H
  end.

(** ** Lemmas on machine integers *)

Lemma wrap_small w x : uint_ok w x -> wrap w x = x.
Proof. intros H. apply Z.mod_small, H. Qed.

Lemma wrap_ok w x : 0 <= w -> uint_ok w (wrap w x).
Proof. intros H. apply Z.mod_pos_bound. lia. Qed.

(** A condition on bytes that holds of each. *)
Lemma byte_forall (P : Z -> bool) b : forallb (fun n => P (Z.of_nat n)) (seq 0 256) = true ->
  byte_ok b -> P b = true.
Proof.
  rewrite forallb_forall. unfold byte_ok. intros H Hb.
  specialize (H (Z.to_nat b) ltac:(apply in_seq; lia)). by rewrite Z2Nat.id in H by lia.
Qed.

Lemma wrap_wrap w x : wrap w (wrap w x) = wrap w x.
Proof. apply Zmod_mod. Qed.

Lemma to_signed_ok w x : 0 < w -> uint_ok w x -> int_ok w (to_signed w x).
Proof.
  unfold uint_ok, int_ok, to_signed. intros Hw Hx.
  assert (2 ^ w = 2 * 2 ^ (w - 1)) by (rewrite <- Z.pow_succ_r by lia; f_equal; lia).
  zbool; lia.
Qed.

Lemma to_signed_wrap w x : 0 < w -> int_ok w x -> to_signed w (wrap w x) = x.
Proof.
  unfold int_ok, to_signed, wrap. intros Hw Hx.
  assert (2 ^ w = 2 * 2 ^ (w - 1)) by (rewrite <- Z.pow_succ_r by lia; f_equal; lia).
  destruct (decide (0 <= x)).
  - rewrite Z.mod_small by lia. zbool; lia.
  - rewrite <- (Z_mod_plus_full x 1 (2 ^ w)), Z.mod_small by lia. zbool; lia.
Qed.

Lemma wrap_to_signed w x : uint_ok w x -> wrap w (to_signed w x) = x.
Proof.
  unfold uint_ok, to_signed, wrap. intros Hx. zbool; [by apply Z.mod_small|].
  replace (x - 2 ^ w) with (x + -1 * 2 ^ w) by lia.
  rewrite Z_mod_plus_full. by apply Z.mod_small.
Qed.

(** Complementing the [w] low bits. *)
Lemma lxor_ones w a : 0 <= w -> uint_ok w a -> Z.lxor a (2 ^ w - 1) = 2 ^ w - 1 - a.
Proof.
  intros Hw Ha. unfold uint_ok in Ha.
  assert (E : 2 ^ w - 1 = Z.ones w) by (rewrite Z.ones_equiv; lia). rewrite E.
  assert (Hl : Z.lxor a (Z.lxor a (Z.ones w)) = Z.ones w)
    by (rewrite <- Z.lxor_assoc, Z.lxor_nilpotent; apply Z.lxor_0_l).
  rewrite <- (Z.add_nocarry_lxor a (Z.lxor a (Z.ones w))) in Hl; [lia|].
  apply Z.bits_inj'. intros n Hn.
  rewrite Z.land_spec, Z.lxor_spec, Z.bits_0.
  destruct (decide (n < w)).
  - rewrite Z.ones_spec_low by lia. by destruct (Z.testbit a n).
  - assert (Hp : 2 ^ w <= 2 ^ n) by (apply Z.pow_le_mono_r; lia).
    rewrite (Z.testbit_eqb a), Z.div_small by lia. done.
Qed.

Lemma lor_shiftl a b n : 0 <= n -> 0 <= a < 2 ^ n -> Z.lor a (Z.shiftl b n) = a + b * 2 ^ n.
Proof.
  intros Hn Ha. rewrite <- Z.shiftl_mul_pow2 by done.
  rewrite <- Z.add_lor_land.
  assert (E : Z.land a (Z.shiftl b n) = 0); [|lia].
  apply Z.bits_inj'. intros i Hi. rewrite Z.land_spec, Z.bits_0.
  destruct (decide (i < n)).
  - rewrite Z.shiftl_spec_low by done. apply andb_false_r.
  - rewrite (Z.testbit_eqb a) by done. rewrite Z.div_small; [done|].
    pose proof (Z.pow_le_mono_r 2 n i). lia.
Qed.

Lemma land_shiftl_0 a b n : 0 <= n -> 0 <= a < 2 ^ n -> Z.land a (Z.shiftl b n) = 0.
Proof.
  intros Hn Ha. pose proof (lor_shiftl a b n Hn Ha) as E.
  rewrite <- Z.shiftl_mul_pow2 in E by done.
  pose proof (Z.add_lor_land a (Z.shiftl b n)). lia.
Qed.

Lemma lxor_bound a b n : 0 <= n -> 0 <= a < 2 ^ n -> 0 <= b < 2 ^ n -> 0 <= Z.lxor a b < 2 ^ n.
Proof.
  intros Hn Ha Hb. assert (H0 : 0 <= Z.lxor a b) by (apply Z.lxor_nonneg; lia).
  split; [done|]. destruct (Z.eq_dec (Z.lxor a b) 0) as [->|]; [lia|].
  apply Z.log2_lt_pow2; [lia|]. pose proof (Z.log2_lxor a b ltac:(lia) ltac:(lia)).
  assert (Hlog : forall x, 0 <= x < 2 ^ n -> Z.log2 x < n \/ x = 0).
  { intros x Hx. destruct (Z.eq_dec x 0); [by right|left]. apply Z.log2_lt_pow2; lia. }
  destruct (Hlog a Ha) as [| ->], (Hlog b Hb) as [| ->]; [lia|..];
    rewrite ?Z.lxor_0_r, ?Z.lxor_0_l in *; try done.
  all: change (Z.log2 0) with 0 in *; lia.
Qed.

(** Exclusive or, limb by limb. *)
Lemma lxor_limbs x y u v n : 0 <= n -> 0 <= u < 2 ^ n -> 0 <= v < 2 ^ n ->
  Z.lxor (x * 2 ^ n + u) (y * 2 ^ n + v) = Z.lxor x y * 2 ^ n + Z.lxor u v.
Proof.
  intros Hn Hu Hv.
  assert (H : forall a b, 0 <= a < 2 ^ n -> b * 2 ^ n + a = Z.lxor a (Z.shiftl b n)).
  { intros a b Ha. rewrite <- Z.add_nocarry_lxor by (by apply land_shiftl_0).
    rewrite Z.shiftl_mul_pow2 by done. lia. }
  rewrite (H u x), (H v y), (H (Z.lxor u v)) by (done || by apply lxor_bound).
  rewrite Z.shiftl_lxor, !Z.lxor_assoc. f_equal.
  rewrite <- !Z.lxor_assoc. f_equal. apply Z.lxor_comm.
Qed.

(** ** Lemmas on sequences *)

Section Seq.
Context {A : Type}.
Implicit Types (l k : list A) (x d : A).

Lemma set_len_length d n l : length (set_len d n l) = n.
Proof. unfold set_len. rewrite length_app, length_take, length_replicate. lia. Qed.

Lemma set_len_grow d n l : (length l <= n)%nat -> set_len d n l = l ++ replicate (n - length l) d.
Proof. intros H. unfold set_len. by rewrite take_ge by lia. Qed.

Lemma set_len_shrink d n l : (n <= length l)%nat -> set_len d n l = take n l.
Proof.
  intros H. unfold set_len. replace (n - length l)%nat with O by lia.
  apply app_nil_r.
Qed.

Lemma blit_length i k l : (i + length k <= length l)%nat -> length (blit i k l) = length l.
Proof. intros H. unfold blit. rewrite !length_app, length_take, length_drop. lia. Qed.

Lemma blit_prefix k l : blit 0 k l = k ++ drop (length k) l.
Proof. done. Qed.

(** Writing at the end of [l] into the room a [set_len] made. *)
Lemma blit_grow d l k n :
  (length k <= n)%nat ->
  blit (length l) k (l ++ replicate n d) = l ++ k ++ replicate (n - length k) d.
Proof.
  intros H. unfold blit. rewrite take_app_length.
  rewrite drop_app_ge by lia.
  replace (length l + length k - length l)%nat with (length k) by lia.
  by rewrite drop_replicate.
Qed.

Lemma filter_id (P : A -> Prop) `{forall x, Decision (P x)} l : Forall P l -> filter P l = l.
Proof. induction 1; [done|]. rewrite filter_cons, decide_True by done. by f_equal. Qed.

Lemma Forall_filter_2 (P Q : A -> Prop) `{forall x, Decision (Q x)} l :
  Forall P l -> Forall P (filter Q l).
Proof. rewrite !Forall_forall. intros HP x [_ Hx]%list_elem_of_filter. by apply HP. Qed.

Lemma seq_delete_length i l : (i < length l)%nat -> length (seq_delete i l) = (length l - 1)%nat.
Proof. intros H. unfold seq_delete. rewrite length_app, length_take, length_drop. lia. Qed.

Lemma seq_del_perm i l x : l !! i = Some x -> l ≡ₚ x :: seq_del i l.
Proof.
  intros Hi. unfold seq_del.
  destruct (last l) as [y|] eqn:Hl; [|by apply last_None in Hl as ->].
  apply last_Some in Hl as [l' ->].
  rewrite length_app; simpl. replace (length l' + 1 - 1)%nat with (length l') by lia.
  destruct (decide (i < length l')%nat) as [Hlt|Hge].
  - rewrite lookup_app_l in Hi by done.
    rewrite insert_app_l, take_app_le by (rewrite ?length_insert; lia).
    rewrite take_ge by (rewrite length_insert; lia).
    rewrite Permutation_app_comm. simpl.
    rewrite (insert_take_drop _ _ _ Hlt).
    rewrite <- (take_drop_middle l' i x Hi) at 1.
    rewrite (Permutation_app_comm _ (x :: _)), (Permutation_app_comm _ (y :: _)).
    simpl. rewrite Permutation_swap. done.
  - pose proof (lookup_lt_Some _ _ _ Hi) as Hb. rewrite length_app in Hb; simpl in Hb.
    assert (i = length l') as -> by lia.
    rewrite list_lookup_middle in Hi by done. simplify_eq.
    rewrite insert_app_r_alt, Nat.sub_diag by lia. simpl.
    rewrite take_app_length. by rewrite Permutation_app_comm.
Qed.

Context `{EqDecision A}.

Lemma seq_find_Some x l i : seq_find x l = Some i -> l !! i = Some x.
Proof.
  revert i. induction l as [|y r IH]; intros i; simpl; [done|].
  case_decide; intros; simplify_eq/=; [done|].
  destruct (seq_find x r) as [j|] eqn:E; simplify_eq/=. by apply IH.
Qed.

Lemma seq_find_None x l : seq_find x l = None <-> x ∉ l.
Proof.
  induction l as [|y r IH]; simpl; [split; [intros _; apply not_elem_of_nil|done]|].
  rewrite not_elem_of_cons, <- IH. case_decide.
  - split; [done|]. intros []; done.
  - rewrite fmap_None. tauto.
Qed.

Lemma seq_find_is_Some x l : is_Some (seq_find x l) <-> x ∈ l.
Proof.
  rewrite <- not_eq_None_Some, seq_find_None. destruct (decide (x ∈ l)); naive_solver.
Qed.

Lemma seq_delete_perm i l x : l !! i = Some x -> l ≡ₚ x :: seq_delete i l.
Proof.
  intros H. unfold seq_delete. rewrite <- (take_drop_middle l i x H) at 1.
  by rewrite <- Permutation_middle.
Qed.

End Seq.

#[export] Hint Resolve wrap_ok to_signed_ok : nim.
#[export] Hint Rewrite @set_len_length @length_app @length_take @length_drop
  @length_replicate @length_insert @length_fmap : nim_len.
