(* ===== verification/Leb128.v ===== *)
(** * Leb128: the interface of [stew/leb128]

The LEB128 codec is a dependency of the repository (package [stew]).  Its contract is
the class [Leb128]: three operations, and the laws that state the LEB128 format.  The
components that use it (Varint, and through it VBuffer, MinProtobuf, LpStream,
MplexCoder) are proved against the class.  [leb128_ref] is a concrete function that
satisfies the laws, at which the witnesses evaluate. *)
From S2P Require Import Prelude.

#[local] Open Scope Z_scope.

(** ** The format *)

(** Seven bits per byte, least significant group first. *)
Fixpoint leb_value (bs : bytes) : Z :=
  match bs with
  | [] => 0
  | b :: r => b mod 128 + 128 * leb_value r
  end.

(** One encoded integer: every byte but the last has its top bit set. *)
Fixpoint leb_group (bs : bytes) : Prop :=
  match bs with
  | [] => False
  | [b] => 0 <= b < 128
  | b :: r => 128 <= b < 256 /\ leb_group r
  end.

(** The widths of Nim's unsigned integer types. *)
Definition uint_width (w : Z) : Prop := w = 8 \/ w = 16 \/ w = 32 \/ w = 64.

(** The number of groups a [w]-bit integer needs, at most. *)
Definition leb_maxLen (w : Z) : nat := Z.to_nat ((w + 6) / 7).

(** [leb_len x] is [Leb128.len(x)], [leb_toBytes x] is [toBytes(x, Leb128)], and
[leb_fromBytes w bs] is [T.fromBytes(bs, Leb128)] at a [w]-bit type [T]: the value and
the number of bytes read, 0 when the input ends early, negative on overflow. *)
Class Leb128 := {
  leb_len : Z -> nat;
  leb_toBytes : Z -> bytes;
  leb_fromBytes : Z -> bytes -> Z * Z;
  leb_toBytes_group x : 0 <= x -> leb_group (leb_toBytes x);
  leb_toBytes_value x : 0 <= x -> leb_value (leb_toBytes x) = x;
  leb_toBytes_shortest x bs :
    0 <= x -> leb_group bs -> leb_value bs = x ->
    (length (leb_toBytes x) <= length bs)%nat;
  leb_len_toBytes x : 0 <= x -> leb_len x = length (leb_toBytes x);
  leb_fromBytes_group w bs rest :
    uint_width w -> leb_group bs -> leb_value bs < 2 ^ w ->
    (length bs <= leb_maxLen w)%nat ->
    leb_fromBytes w (bs ++ rest) = (leb_value bs, Z.of_nat (length bs));
  leb_fromBytes_overflow w bs rest :
    uint_width w -> leb_group bs -> 2 ^ w <= leb_value bs ->
    snd (leb_fromBytes w (bs ++ rest)) < 0;
  leb_fromBytes_short w bs :
    uint_width w -> Forall (fun b => 128 <= b < 256) bs ->
    (length bs < leb_maxLen w)%nat -> snd (leb_fromBytes w bs) = 0;
  leb_fromBytes_sound w l :
    uint_width w -> bytes_ok l -> 0 < snd (leb_fromBytes w l) ->
    exists bs rest, l = bs ++ rest /\ leb_group bs /\ leb_value bs < 2 ^ w /\
      leb_fromBytes w l = (leb_value bs, Z.of_nat (length bs));
}.

(** ** A concrete implementation *)

Fixpoint ref_toBytes_aux (fuel : nat) (x : Z) : bytes :=
  match fuel with
  | O => []
  | S f => if x <? 128 then [x] else (128 + x mod 128) :: ref_toBytes_aux f (x / 128)
  end.

Definition ref_toBytes (x : Z) : bytes := ref_toBytes_aux (S (Z.to_nat (Z.log2 x))) x.

(** The bytes up to and including the first one whose top bit is clear. *)
Fixpoint ref_split (bs : bytes) : option bytes :=
  match bs with
  | [] => None
  | b :: r => if b <? 128 then Some [b] else cons b <$> ref_split r
  end.

Definition ref_fromBytes (w : Z) (bs : bytes) : Z * Z :=
  match ref_split bs with
  | Some g =>
      if (length g <=? leb_maxLen w)%nat && (leb_value g <? 2 ^ w)
      then (leb_value g, Z.of_nat (length g)) else (0, - Z.of_nat (length g))
  | None =>
      if (length bs <? leb_maxLen w)%nat then (0, 0) else (0, - Z.of_nat (length bs))
  end.

(** ** Lemmas on the format *)

Lemma leb_group_cons b r : leb_group (b :: r) ->
  (0 <= b < 128 /\ r = []) \/ (128 <= b < 256 /\ leb_group r).
Proof. destruct r; simpl; [by left|by right]. Qed.

Lemma leb_group_nonempty bs : leb_group bs -> (0 < length bs)%nat.
Proof. destruct bs; simpl; [done|lia]. Qed.

Lemma leb_value_nonneg bs : 0 <= leb_value bs.
Proof.
  induction bs as [|b r IH]; simpl; [done|].
  pose proof (Z.mod_pos_bound b 128). lia.
Qed.

Lemma leb_group_bytes bs : leb_group bs -> bytes_ok bs.
Proof.
  induction bs as [|b r IH]; [done|].
  intros [[? ->]|[? ?]]%leb_group_cons; constructor;
    first [by constructor|unfold byte_ok; lia|by apply IH].
Qed.

Lemma leb_value_upper bs : leb_value bs < 128 ^ Z.of_nat (length bs).
Proof.
  induction bs as [|b r IH]; [done|]. cbn [leb_value length].
  rewrite Nat2Z.inj_succ, Z.pow_succ_r by lia.
  pose proof (Z.mod_pos_bound b 128). lia.
Qed.

(** A group whose last byte is not zero has the largest value its length allows from
below: this is what makes the shortest encoding unique. *)
Lemma leb_group_inj bs bs' : leb_group bs -> leb_group bs' ->
  leb_value bs = leb_value bs' -> length bs = length bs' -> bs = bs'.
Proof.
  revert bs'. induction bs as [|b r IH]; intros [|b' r']; try done.
  intros Hg Hg' Hv Hl. cbn [leb_value length] in Hv, Hl.
  assert (Hm : b mod 128 = b' mod 128).
  { pose proof (Z.mod_pos_bound b 128). pose proof (Z.mod_pos_bound b' 128). lia. }
  apply leb_group_cons in Hg as [[? ->]|[Hb Hr]];
  apply leb_group_cons in Hg' as [[? ->]|[Hb' Hr']].
  - rewrite !Z.mod_small in Hm by lia. by subst.
  - destruct r'; simpl in *; [done|lia].
  - destruct r; simpl in *; [done|lia].
  - f_equal; [|apply IH; [done|done|lia|lia]].
    rewrite <- (Z.mod_unique_pos b 128 1 (b - 128)) in Hm by lia.
    rewrite <- (Z.mod_unique_pos b' 128 1 (b' - 128)) in Hm by lia. lia.
Qed.

Lemma leb_group_app_inj bs bs' k k' : leb_group bs -> leb_group bs' ->
  bs ++ k = bs' ++ k' -> bs = bs' /\ k = k'.
Proof.
  revert bs'. induction bs as [|b r IH]; intros [|b' r']; try done.
  intros Hg Hg' [= <- He].
  apply leb_group_cons in Hg as [[? ->]|[Hb Hr]];
  apply leb_group_cons in Hg' as [[? ->]|[Hb' Hr']]; try lia; [by simpl in He|].
  destruct (IH r' Hr Hr' He) as [-> ->]. done.
Qed.

(** ** Lemmas on the implementation *)

Lemma ref_split_group bs k : leb_group bs -> ref_split (bs ++ k) = Some bs.
Proof.
  induction bs as [|b r IH]; [done|].
  intros [[? ->]|[Hb Hr]]%leb_group_cons; simpl; zbool; try lia; [done|].
  by rewrite IH.
Qed.

Lemma ref_split_sound l g : bytes_ok l -> ref_split l = Some g ->
  exists rest, l = g ++ rest /\ leb_group g.
Proof.
  revert g. induction l as [|b r IH]; intros g Hl; simpl; [done|].
  apply Forall_cons in Hl as [Hb Hr]. unfold byte_ok in Hb.
  zbool; intros He; simplify_eq/=; [exists r; simpl; split; [done|lia]|].
  apply fmap_Some in He as (g' & He & ->).
  destruct (IH g' Hr He) as (rest & -> & Hg). exists rest. split; [done|].
  destruct g'; [done|]. simpl. split; [lia|done].
Qed.

Lemma ref_split_short bs : Forall (fun b => 128 <= b < 256) bs -> ref_split bs = None.
Proof. induction 1 as [|b r Hb _ IH]; simpl; [done|]. zbool; [lia|]. by rewrite IH. Qed.

Lemma ref_aux_group f x : 0 <= x < 128 ^ Z.of_nat f -> (0 < f)%nat ->
  leb_group (ref_toBytes_aux f x) /\ leb_value (ref_toBytes_aux f x) = x.
Proof.
  revert x. induction f as [|f IH]; intros x Hx Hf; [lia|].
  rewrite Nat2Z.inj_succ, Z.pow_succ_r in Hx by lia. cbn [ref_toBytes_aux].
  zbool.
  { simpl. split; [lia|]. rewrite Z.mod_small by lia. lia. }
  assert (Hd : 0 <= x / 128 < 128 ^ Z.of_nat f).
  { split; [apply Z.div_pos; lia|]. apply Z.div_lt_upper_bound; lia. }
  assert (0 < f)%nat by (destruct f; [simpl in Hx; lia|lia]).
  destruct (IH (x / 128)) as [Hg Hv]; [done..|].
  pose proof (Z.mod_pos_bound x 128). split.
  - destruct (ref_toBytes_aux f (x / 128)); [done|]. split; [lia|done].
  - cbn [leb_value]. rewrite Hv.
    rewrite <- (Z.mod_unique_pos (128 + x mod 128) 128 1 (x mod 128)) by lia.
    pose proof (Z.div_mod x 128). lia.
Qed.

Lemma ref_aux_shortest f x bs : leb_group bs -> leb_value bs = x ->
  (length (ref_toBytes_aux f x) <= length bs)%nat.
Proof.
  revert x bs. induction f as [|f IH]; intros x bs Hg Hv; [simpl; lia|].
  cbn [ref_toBytes_aux]. pose proof (leb_group_nonempty _ Hg).
  zbool; [simpl; lia|].
  destruct bs as [|b r]; [done|]. cbn [leb_value] in Hv.
  pose proof (Z.mod_pos_bound b 128).
  apply leb_group_cons in Hg as [[? ->]|[Hb Hr]]; [simpl in Hv; lia|].
  cbn [length]. apply le_n_S, IH; [done|].
  rewrite <- Hv. replace (b mod 128 + 128 * leb_value r) with (b mod 128 + leb_value r * 128) by lia.
  rewrite Z.div_add, Z.div_small by lia. lia.
Qed.

Lemma ref_fuel x : 0 <= x -> x < 128 ^ Z.of_nat (S (Z.to_nat (Z.log2 x))).
Proof.
  intros Hx. pose proof (Z.log2_nonneg x).
  rewrite Nat2Z.inj_succ, Z2Nat.id by done.
  destruct (decide (x = 0)) as [->|]; [done|].
  destruct (Z.log2_spec x) as [_ Hu]; [lia|].
  eapply Z.lt_le_trans; [apply Hu|]. apply Z.pow_le_mono_l. lia.
Qed.

Definition leb128_ref : Leb128.
Proof.
  refine {| leb_len := fun x => length (ref_toBytes x);
            leb_toBytes := ref_toBytes; leb_fromBytes := ref_fromBytes |}.
  - intros x Hx. apply ref_aux_group; [|lia]. pose proof (ref_fuel x). lia.
  - intros x Hx. apply ref_aux_group; [|lia]. pose proof (ref_fuel x). lia.
  - intros x bs _. apply ref_aux_shortest.
  - done.
  - intros w bs rest _ Hg Hv Hl. unfold ref_fromBytes.
    rewrite ref_split_group by done.
    by rewrite (proj2 (Nat.leb_le _ _) Hl), (proj2 (Z.ltb_lt _ _) Hv).
  - intros w bs rest _ Hg Hv. unfold ref_fromBytes.
    rewrite ref_split_group by done.
    rewrite (proj2 (Z.ltb_ge _ _) Hv), andb_false_r.
    pose proof (leb_group_nonempty _ Hg). simpl. lia.
  - intros w bs _ Hb Hl. unfold ref_fromBytes.
    by rewrite (ref_split_short _ Hb), (proj2 (Nat.ltb_lt _ _) Hl).
  - intros w l _ Hl. unfold ref_fromBytes.
    destruct (ref_split l) as [g|] eqn:Hs.
    + destruct (ref_split_sound _ _ Hl Hs) as (rest & -> & Hg).
      destruct (_ && _) eqn:E; [|simpl; lia].
      apply andb_true_iff in E as [_ Hv%Z.ltb_lt]. eauto 10.
    + destruct (_ <? _)%nat; simpl; lia.
Defined.
