(* ===== verification/Varint.v ===== *)
(** * Varint: libp2p/varint.nim

The two variable-length integer codecs: Protocol Buffers' ([PB], up to 64 bits) and
libp2p's ([LP], up to 63 bits), over the LEB128 interface.  A Nim procedure with [var]
parameters becomes a function that returns the result and the final values of those
parameters.  Integers are [Z] at the width of their type ([width]); the types a
procedure accepts ([SomeVarint]) are the constructors of [SomeVarint]. *)
From S2P Require Import Prelude Leb128.

#[local] Open Scope Z_scope.

(** ** Data *)

Inductive VarintError := Error | Overflow | Incomplete | Overlong | Overrun.

#[export] Instance VarintError_eq_dec : EqDecision VarintError.
Proof. solve_decision. Defined.

Abbreviation VarintResult := (result VarintError).

(** The type parameter [T: PB | LP]. *)
Inductive codec := PB | LP.

#[export] Instance codec_eq_dec : EqDecision codec.
Proof. solve_decision. Defined.

Inductive SomeVarint :=
| uint | uint64 | uint32 | uint16 | uint8
| hint | hint64 | hint32
| zint | zint64 | zint32.

#[export] Instance SomeVarint_eq_dec : EqDecision SomeVarint.
Proof. solve_decision. Defined.

(** [8 * sizeof(T)] on a 64-bit target. *)
Definition width (k : SomeVarint) : Z :=
  match k with
  | uint | uint64 | hint | hint64 | zint | zint64 => 64
  | uint32 | hint32 | zint32 => 32
  | uint16 => 16
  | uint8 => 8
  end.

Definition is_PBSomeUVarint (k : SomeVarint) : bool :=
  match k with uint | uint64 | uint32 => true | _ => false end.

Definition is_PBSomeSVarint (k : SomeVarint) : bool :=
  match k with hint | hint64 | hint32 => true | _ => false end.

Definition is_PBZigVarint (k : SomeVarint) : bool :=
  match k with zint | zint64 | zint32 => true | _ => false end.

Definition is_LPSomeUVarint (k : SomeVarint) : bool :=
  match k with uint | uint64 | uint32 | uint16 | uint8 => true | _ => false end.

(** Whether a type is signed, and the values it holds. *)
Definition is_signed (k : SomeVarint) : bool := is_PBSomeSVarint k || is_PBZigVarint k.

Definition value_ok (k : SomeVarint) (x : Z) : Prop :=
  if is_signed k then int_ok (width k) x else uint_ok (width k) x.

(** ** Conversions to and from the unsigned carrier *)

Definition toUleb_zint64 (x : Z) : Z :=
  let v := wrap 64 x in
  Z.lxor (wrap 64 (Z.shiftl v 1)) (wrap 64 (0 - Z.shiftr v 63)).

Definition toUleb_zint32 (x : Z) : Z :=
  let v := wrap 32 x in
  Z.lxor (wrap 32 (Z.shiftl v 1)) (wrap 32 (0 - Z.shiftr v 31)).

Definition toUleb_hint64 (x : Z) : Z := wrap 64 x.

Definition toUleb_hint32 (x : Z) : Z := wrap 32 x.

Definition toUleb (k : SomeVarint) (x : Z) : Z :=
  match k with
  | uint | uint64 | uint32 | uint16 | uint8 => x
  | zint64 => toUleb_zint64 x
  | zint32 => toUleb_zint32 x
  | hint64 => toUleb_hint64 x
  | hint32 => toUleb_hint32 x
  | zint => toUleb_zint64 x
  | hint => toUleb_hint64 x
  end.

(** [None]: the source has no [fromUleb] overload for the type. *)
Definition fromUleb (x : Z) (k : SomeVarint) : option Z :=
  match k with
  | uint64 | uint32 => Some x
  | zint64 =>
      Some (to_signed 64 (Z.lxor (Z.shiftr x 1) (wrap 64 (0 - Z.land x 1))))
  | zint32 =>
      Some (to_signed 32 (Z.lxor (Z.shiftr x 1) (wrap 32 (0 - Z.land x 1))))
  | hint64 => Some (to_signed 64 x)
  | hint32 => Some (to_signed 32 x)
  | _ => None
  end.

(** ** Operations *)

Section Varint.
Context `{Leb128}.

Definition vsizeof (k : SomeVarint) (x : Z) : nat := leb_len (toUleb k x).

(** Returns the result, [outlen] and [outval].  [k] is an unsigned type. *)
Definition getUVarint (T : codec) (k : SomeVarint) (pbytes : bytes)
    : VarintResult unit * Z * Z :=
  let '(v, len) := leb_fromBytes (width k) pbytes in
  if len =? 0 then (Err Incomplete, 0, 0)
  else if len <? 0 then (Err Overflow, 0, 0)
  else if (match T with LP => width k =? 64 | PB => false end)
          && (0x8000000000000000 <=? v)
  then (Err Overflow, 0, 0)
  else if negb (Z.of_nat (vsizeof k v) =? len) then (Err Overlong, 0, 0)
  else (Ok tt, len, v).

(** Returns the result, the buffer and [outlen]. *)
Definition putUVarint (T : codec) (k : SomeVarint) (pbytes : bytes) (outlen : Z)
    (outval : Z) : VarintResult unit * bytes * Z :=
  if (match T with LP => width k =? 64 | PB => false end)
     && negb (Z.land outval 0x8000000000000000 =? 0)
  then (Err Overflow, pbytes, outlen)
  else
    let bs := leb_toBytes outval in
    let outlen := Z.of_nat (length bs) in
    if outlen <=? Z.of_nat (length pbytes)
    then (Ok tt, blit 0 bs pbytes, outlen)
    else (Err Overrun, pbytes, outlen).

(** [k] is a signed type; [value] has the unsigned type of the same size. *)
Definition getSVarint (k : SomeVarint) (pbytes : bytes) (outval : Z)
    : option (VarintResult unit * Z * Z) :=
  let kv := if width k =? 64 then uint64 else uint32 in
  let '(res, outsize, value) := getUVarint PB kv pbytes in
  if isOk res then v ← fromUleb value k; Some (res, outsize, v)
  else Some (res, outsize, outval).

Definition unsigned_kind (k : SomeVarint) : SomeVarint :=
  match k with zint => uint64 | hint => uint | zint64 | hint64 => uint64
             | zint32 | hint32 => uint32 | u => u end.

Definition putSVarint (k : SomeVarint) (pbytes : bytes) (outsize : Z) (outval : Z)
    : VarintResult unit * bytes * Z :=
  putUVarint PB (unsigned_kind k) pbytes outsize (toUleb k outval).

(** [None] is the [varintFatal] branch: the call does not compile. *)
Definition putVarint (T : codec) (k : SomeVarint) (pbytes : bytes) (nbytes value : Z)
    : option (VarintResult unit * bytes * Z) :=
  match T with
  | PB =>
      if is_PBSomeSVarint k || is_PBZigVarint k
      then Some (putSVarint k pbytes nbytes value)
      else if is_PBSomeUVarint k then Some (putUVarint PB k pbytes nbytes value)
      else None
  | LP =>
      if is_LPSomeUVarint k then Some (putUVarint LP k pbytes nbytes value) else None
  end.

Definition getVarint (T : codec) (k : SomeVarint) (pbytes : bytes) (value : Z)
    : option (VarintResult unit * Z * Z) :=
  match T with
  | PB =>
      if is_PBSomeSVarint k || is_PBZigVarint k then getSVarint k pbytes value
      else if is_PBSomeUVarint k then Some (getUVarint PB k pbytes)
      else None
  | LP => if is_LPSomeUVarint k then Some (getUVarint LP k pbytes) else None
  end.

(** [toBytes(PB, value)]. *)
Definition PB_toBytes (k : SomeVarint) (value : Z) : bytes := leb_toBytes (toUleb k value).

(** The scratch buffer sizes of [encodeVarint]. *)
Definition PB_buffer_len (k : SomeVarint) : nat := if width k =? 32 then 5 else 10.

Definition LP_buffer_len (k : SomeVarint) : nat :=
  if width k =? 8 then 2 else if width k =? 16 then 3 else if width k =? 32 then 5 else 9.

(** [PB.encodeVarint]: a fixed scratch buffer, cut to the encoded size. *)
Definition encodeVarint_PB (k : SomeVarint) (value : Z) : VarintResult bytes :=
  let buffer := replicate (PB_buffer_len k) 0 in
  let '(res, buffer, outsize) :=
    if is_PBSomeSVarint k || is_PBZigVarint k then putSVarint k buffer 0 value
    else putUVarint PB k buffer 0 value in
  match res with
  | Ok _ => Ok (set_len 0 (Z.to_nat outsize) buffer)
  | Err e => Err e
  end.

Definition encodeVarint_LP (k : SomeVarint) (value : Z) : VarintResult bytes :=
  let buffer := replicate (LP_buffer_len k) 0 in
  let '(res, buffer, outsize) := putUVarint LP k buffer 0 value in
  match res with
  | Ok _ => Ok (set_len 0 (Z.to_nat outsize) buffer)
  | Err e => Err e
  end.

Definition encodeVarint (T : codec) (k : SomeVarint) (value : Z) : VarintResult bytes :=
  match T with PB => encodeVarint_PB k value | LP => encodeVarint_LP k value end.

(** The types each codec encodes, and the values it can encode. *)
Definition encodable (T : codec) (k : SomeVarint) (x : Z) : Prop :=
  value_ok k x /\
  match T with
  | PB => is_PBSomeUVarint k || is_PBSomeSVarint k || is_PBZigVarint k
  | LP => is_LPSomeUVarint k
  end = true /\
  (T = LP -> x < 2 ^ 63).

End Varint.

Arguments vsizeof : simpl never.
Arguments getUVarint : simpl never.
Arguments putUVarint : simpl never.

(** ** Lemmas *)

Lemma width_cases k : uint_width (width k).
Proof. unfold uint_width. destruct k; simpl; lia. Qed.

Lemma toUleb_zig w x : (w = 32 \/ w = 64) -> int_ok w x ->
  Z.lxor (wrap w (Z.shiftl (wrap w x) 1)) (wrap w (0 - Z.shiftr (wrap w x) (w - 1))) =
  (if x <? 0 then -2 * x - 1 else 2 * x).
Proof.
  intros Hw Hx. unfold int_ok in Hx.
  assert (E : 2 ^ w = 2 * 2 ^ (w - 1)) by (rewrite <- Z.pow_succ_r by lia; f_equal; lia).
  assert (0 < 2 ^ (w - 1)) by lia.
  rewrite Z.shiftl_mul_pow2, Z.shiftr_div_pow2 by lia.
  unfold wrap. change (2 ^ 1) with 2. zbool.
  - rewrite <- (Z.mod_unique_pos x (2 ^ w) (-1) (x + 2 ^ w)) by lia.
    rewrite <- (Z.div_unique_pos (x + 2 ^ w) (2 ^ (w - 1)) 1 (x + 2 ^ (w - 1))) by lia.
    rewrite <- (Z.mod_unique_pos ((x + 2 ^ w) * 2) (2 ^ w) 1 (2 * x + 2 ^ w)) by lia.
    rewrite <- (Z.mod_unique_pos (0 - 1) (2 ^ w) (-1) (2 ^ w - 1)) by lia.
    rewrite lxor_ones by (unfold uint_ok; lia). lia.
  - rewrite (Z.mod_small x) by lia. rewrite Z.div_small, Z.mod_0_l by lia.
    rewrite Z.lxor_0_r, Z.mod_small by lia. lia.
Qed.

Lemma fromUleb_zig w v : (w = 32 \/ w = 64) -> uint_ok w v ->
  to_signed w (Z.lxor (Z.shiftr v 1) (wrap w (0 - Z.land v 1))) =
  (if Z.odd v then - (v / 2) - 1 else v / 2).
Proof.
  intros Hw Hv. unfold uint_ok in Hv.
  assert (E : 2 ^ w = 2 * 2 ^ (w - 1)) by (rewrite <- Z.pow_succ_r by lia; f_equal; lia).
  change 1 with (Z.ones 1) at 2. rewrite Z.land_ones, Z.shiftr_div_pow2 by lia.
  change (2 ^ 1) with 2. rewrite Zmod_odd.
  pose proof (Z.div_mod v 2). pose proof (Z.mod_pos_bound v 2).
  unfold wrap, to_signed. destruct (Z.odd v).
  - rewrite <- (Z.mod_unique_pos (0 - 1) (2 ^ w) (-1) (2 ^ w - 1)) by lia.
    rewrite lxor_ones by (unfold uint_ok; lia). zbool; lia.
  - rewrite Z.mod_0_l, Z.lxor_0_r by lia. zbool; lia.
Qed.

(** The carrier of a value is an unsigned integer of the same width... *)
Lemma toUleb_ok k x : value_ok k x -> uint_ok (width k) (toUleb k x).
Proof.
  unfold value_ok. destruct k; cbn [is_signed is_PBSomeSVarint is_PBZigVarint orb toUleb width];
    try done; intros Hx;
    try (unfold toUleb_hint64, toUleb_hint32; apply wrap_ok; lia);
    unfold toUleb_zint64, toUleb_zint32; change 63 with (64 - 1); change 31 with (32 - 1);
    rewrite toUleb_zig by (try done; lia); unfold uint_ok, int_ok in *; pow2; zbool; lia.
Qed.

(** ... from which the value is recovered, for every type that has a decoder. *)
Lemma fromUleb_toUleb k x v : value_ok k x -> fromUleb (toUleb k x) k = Some v -> v = x.
Proof.
  intros Hx. pose proof (toUleb_ok k x Hx) as Hu. revert Hu Hx. unfold value_ok.
  destruct k; cbn [is_signed is_PBSomeSVarint is_PBZigVarint orb toUleb width fromUleb];
    intros Hu Hx [= <-]; try done;
    unfold toUleb_hint64, toUleb_hint32; try (apply to_signed_wrap; [lia|done]).
  - rewrite fromUleb_zig by (try done; lia). unfold toUleb_zint64. change 63 with (64 - 1).
    rewrite toUleb_zig by (try done; lia). destruct (Z.ltb_spec x 0).
    + replace (-2 * x - 1) with (1 + 2 * (- x - 1)) by lia.
      rewrite Z.odd_add_mul_2, <- (Z.div_unique_pos _ 2 (- x - 1) 1) by lia. simpl. lia.
    + replace (2 * x) with (0 + 2 * x) by lia.
      rewrite Z.odd_add_mul_2, <- (Z.div_unique_pos _ 2 x 0) by lia. done.
  - rewrite fromUleb_zig by (try done; lia). unfold toUleb_zint32. change 31 with (32 - 1).
    rewrite toUleb_zig by (try done; lia). destruct (Z.ltb_spec x 0).
    + replace (-2 * x - 1) with (1 + 2 * (- x - 1)) by lia.
      rewrite Z.odd_add_mul_2, <- (Z.div_unique_pos _ 2 (- x - 1) 1) by lia. simpl. lia.
    + replace (2 * x) with (0 + 2 * x) by lia.
      rewrite Z.odd_add_mul_2, <- (Z.div_unique_pos _ 2 x 0) by lia. done.
Qed.

Lemma land_pow2 x n : 0 <= n -> Z.land x (2 ^ n) = if Z.testbit x n then 2 ^ n else 0.
Proof.
  intros Hn. apply Z.bits_inj'. intros i Hi.
  rewrite Z.land_spec, Z.pow2_bits_eqb by done.
  destruct (Z.eqb_spec n i) as [->|].
  - rewrite andb_true_r. destruct (Z.testbit x i);
      [by rewrite Z.pow2_bits_true|by rewrite Z.bits_0].
  - rewrite andb_false_r. destruct (Z.testbit x n);
      [by rewrite Z.pow2_bits_false|by rewrite Z.bits_0].
Qed.

Lemma lp_top_bit x : uint_ok 64 x ->
  (Z.land x 0x8000000000000000 =? 0) = (x <? 0x8000000000000000).
Proof.
  unfold uint_ok. intros Hx. change 0x8000000000000000 with (2 ^ 63).
  rewrite land_pow2, Z.testbit_eqb by lia. pow2.
  destruct (Z.ltb_spec x 9223372036854775808).
  - by rewrite Z.div_small by lia.
  - rewrite <- (Z.div_unique_pos x 9223372036854775808 1 (x - 9223372036854775808)) by lia.
    done.
Qed.

Section VarintFacts.
Context `{Leb128}.
Implicit Types (T : codec) (k : SomeVarint) (x : Z) (buf rest : bytes).

Lemma toBytes_length_fuel f x : 0 <= x < 128 ^ Z.of_nat f -> (0 < f)%nat ->
  (length (leb_toBytes x) <= f)%nat.
Proof.
  intros Hx Hf. destruct (ref_aux_group f x) as [Hg Hv]; [done..|].
  etrans; [apply (leb_toBytes_shortest x _ (proj1 Hx) Hg Hv)|].
  clear. revert x. induction f as [|f IH]; intros x; cbn [ref_toBytes_aux]; [done|].
  destruct (x <? 128); simpl; [lia|]. specialize (IH (x / 128)). lia.
Qed.

Lemma maxLen_spec w : uint_width w ->
  2 ^ w <= 128 ^ Z.of_nat (leb_maxLen w) /\ (0 < leb_maxLen w)%nat.
Proof.
  intros [-> | [-> | [-> | ->]]]; vm_compute; (split; [discriminate|lia]).
Qed.

Lemma toBytes_length_max w x : uint_width w -> uint_ok w x ->
  (length (leb_toBytes x) <= leb_maxLen w)%nat.
Proof.
  unfold uint_ok. intros Hw Hx. destruct (maxLen_spec w Hw).
  apply toBytes_length_fuel; lia.
Qed.

Lemma toBytes_nonempty x : 0 <= x -> (0 < length (leb_toBytes x))%nat.
Proof. intros. by apply leb_group_nonempty, leb_toBytes_group. Qed.

Lemma toBytes_bytes_ok x : 0 <= x -> bytes_ok (leb_toBytes x).
Proof. intros. by apply leb_group_bytes, leb_toBytes_group. Qed.

(** A byte string that decodes to [x] at the length of [x]'s encoding is that encoding. *)
Lemma toBytes_canonical x bs : leb_group bs -> leb_value bs = x ->
  length bs = leb_len x -> bs = leb_toBytes x.
Proof.
  intros Hg Hv Hl. assert (0 <= x) by (subst; apply leb_value_nonneg).
  apply leb_group_inj; [done|by apply leb_toBytes_group| |].
  - by rewrite leb_toBytes_value.
  - by rewrite Hl, leb_len_toBytes.
Qed.

(** Decoding what [toBytes] wrote. *)
Lemma getUVarint_toBytes T k x rest : is_signed k = false ->
  uint_ok (width k) x -> (T = LP -> x < 2 ^ 63) ->
  getUVarint T k (leb_toBytes x ++ rest) =
    (Ok tt, Z.of_nat (length (leb_toBytes x)), x).
Proof.
  intros Hk Hx Hlp. unfold getUVarint, uint_ok in *.
  rewrite leb_fromBytes_group; rewrite ?leb_toBytes_value by lia;
    [|apply width_cases|by apply leb_toBytes_group; lia|lia
     |apply toBytes_length_max; [apply width_cases|done]].
  pose proof (toBytes_nonempty x).
  rewrite (proj2 (Z.eqb_neq _ 0)), (proj2 (Z.ltb_ge _ 0)) by lia.
  assert (E : vsizeof k x = length (leb_toBytes x)).
  { unfold vsizeof. replace (toUleb k x) with x by (by destruct k).
    apply leb_len_toBytes. lia. }
  rewrite E, Z.eqb_refl. simpl negb.
  assert ((match T with LP => width k =? 64 | PB => false end)
     && (0x8000000000000000 <=? x) = false) as ->; [|done].
  destruct T; [done|]. specialize (Hlp eq_refl). revert Hlp. pow2. intros Hlp.
  by rewrite (proj2 (Z.leb_gt _ _) Hlp), andb_false_r.
Qed.

(** What a successful decode says about the input: it starts with the canonical
encoding of the value. *)
Lemma getUVarint_Ok T k l n v : is_signed k = false -> bytes_ok l ->
  getUVarint T k l = (Ok tt, n, v) ->
  uint_ok (width k) v /\ (T = LP -> width k = 64 -> v < 2 ^ 63) /\
  n = Z.of_nat (length (leb_toBytes v)) /\ exists rest, l = leb_toBytes v ++ rest.
Proof.
  unfold getUVarint. intros Hk Hl.
  destruct (leb_fromBytes (width k) l) as [v' len] eqn:E.
  destruct (Z.eqb_spec len 0); [done|]. destruct (Z.ltb_spec len 0); [done|].
  destruct (_ && _) eqn:Elp; [done|].
  destruct (Z.eqb_spec (Z.of_nat (vsizeof k v')) len) as [Hs|]; simpl; [|done].
  intros [= <- <-].
  destruct (leb_fromBytes_sound (width k) l) as (bs & rest & -> & Hg & Hv & E');
    [apply width_cases|done|rewrite E; simpl; lia|].
  rewrite E in E'. injection E' as -> ->. unfold vsizeof in Hs.
  assert (Ht : toUleb k (leb_value bs) = leb_value bs) by (by destruct k).
  rewrite Ht in Hs. apply Nat2Z.inj in Hs.
  rewrite (toBytes_canonical (leb_value bs) bs Hg eq_refl (eq_sym Hs)).
  rewrite leb_toBytes_value by apply leb_value_nonneg. split_and_all.
  - split; [apply leb_value_nonneg|done].
  - intros -> Hw. rewrite Hw in Elp. simpl in Elp. by apply Z.leb_gt in Elp.
  - done.
  - eauto.
Qed.

Lemma putUVarint_Ok T k buf o x : uint_ok (width k) x ->
  (T = LP -> width k = 64 -> x < 2 ^ 63) ->
  (length (leb_toBytes x) <= length buf)%nat ->
  putUVarint T k buf o x =
    (Ok tt, leb_toBytes x ++ drop (length (leb_toBytes x)) buf,
     Z.of_nat (length (leb_toBytes x))).
Proof.
  intros Hx Hlp Hl. unfold putUVarint.
  assert ((match T with LP => width k =? 64 | PB => false end)
     && negb (Z.land x 0x8000000000000000 =? 0) = false) as ->.
  { destruct T; [done|]. destruct (Z.eqb_spec (width k) 64) as [Hw|]; [|done].
    rewrite Hw in Hx. rewrite lp_top_bit by done.
    specialize (Hlp eq_refl Hw). revert Hlp. pow2. intros Hlp.
    by rewrite (proj2 (Z.ltb_lt _ _) Hlp). }
  rewrite (proj2 (Z.leb_le _ _)) by lia. by rewrite blit_prefix.
Qed.

(** The scratch buffers of [encodeVarint] are large enough. *)
Lemma PB_buffer_enough k x : width k = 32 \/ width k = 64 -> uint_ok (width k) x ->
  (length (leb_toBytes x) <= PB_buffer_len k)%nat.
Proof.
  intros Hw Hx. pose proof (toBytes_length_max _ _ (width_cases k) Hx) as Hm.
  unfold PB_buffer_len. destruct Hw as [E|E]; rewrite E in *; exact Hm.
Qed.

Lemma LP_buffer_enough k x : uint_ok (width k) x -> x < 2 ^ 63 ->
  (length (leb_toBytes x) <= LP_buffer_len k)%nat.
Proof.
  intros Hx Hlt. pose proof (toBytes_length_max _ _ (width_cases k) Hx) as Hm.
  unfold LP_buffer_len.
  destruct (width_cases k) as [E|[E|[E|E]]]; rewrite E in *; try exact Hm.
  simpl. apply toBytes_length_fuel; [|lia]. unfold uint_ok in Hx.
  change (128 ^ Z.of_nat 9) with (2 ^ 63). lia.
Qed.

Lemma scratch_encode T k n x : is_signed k = false -> uint_ok (width k) x ->
  (T = LP -> width k = 64 -> x < 2 ^ 63) -> (length (leb_toBytes x) <= n)%nat ->
  (let '(res, buffer, outsize) := putUVarint T k (replicate n 0) 0 x in
   match res with
   | Ok _ => Ok (set_len 0 (Z.to_nat outsize) buffer)
   | Err e => Err e
   end) = Ok (leb_toBytes x).
Proof.
  intros Hk Hx Hlp Hn. rewrite putUVarint_Ok by (rewrite ?length_replicate; done).
  rewrite Nat2Z.id, set_len_shrink by (rewrite length_app; lia).
  by rewrite take_app_length.
Qed.

Lemma unsigned_kind_width k : width (unsigned_kind k) = width k.
Proof. by destruct k. Qed.

Lemma unsigned_kind_unsigned k : is_signed (unsigned_kind k) = false.
Proof. by destruct k. Qed.

Lemma encodeVarint_toBytes T k x : encodable T k x ->
  encodeVarint T k x = Ok (leb_toBytes (toUleb k x)).
Proof.
  intros (Hx & Hk & Hlp). pose proof (toUleb_ok k x Hx) as Hu.
  destruct T; simpl.
  - unfold encodeVarint_PB.
    assert (Hw : width k = 32 \/ width k = 64) by (destruct k; simpl in *; lia || done).
    pose proof (PB_buffer_enough k _ Hw Hu) as Hb.
    destruct (is_PBSomeSVarint k || is_PBZigVarint k) eqn:Es.
    + unfold putSVarint. apply scratch_encode;
        [apply unsigned_kind_unsigned|by rewrite unsigned_kind_width|done|done].
    + assert (Ht : toUleb k x = x) by (by destruct k). rewrite Ht in *.
      apply scratch_encode; [by destruct k|done|done|done].
  - unfold encodeVarint_LP. assert (Ht : toUleb k x = x) by (by destruct k). rewrite Ht in *.
    apply scratch_encode; [by destruct k|done|auto|].
    apply LP_buffer_enough; auto.
Qed.

Lemma vsizeof_length k x : value_ok k x -> vsizeof k x = length (leb_toBytes (toUleb k x)).
Proof. intros Hx. apply leb_len_toBytes. apply (toUleb_ok k x Hx). Qed.

End VarintFacts.

#[export] Hint Resolve toBytes_bytes_ok toBytes_nonempty width_cases : nim.

(** ** Properties *)

Section VarintProperties.
Context `{Leb128}.

(** C12: every value a codec can encode (all the [PB] types, signed ones included, and
the [LP] types below 2^63) survives a round trip: [encodeVarint] succeeds with exactly
[vsizeof] bytes, and [getVarint], applied to those bytes followed by anything, returns
the value and the number of bytes.  The types without a decoder ([hint], [zint]) are
excluded. *)
Theorem encodeVarint_roundtrip (T : codec) (k : SomeVarint) (x : Z) :
  encodable T k x -> k <> hint -> k <> zint ->
  exists bs, encodeVarint T k x = Ok bs /\ bytes_ok bs /\ length bs = vsizeof k x /\
    forall rest v0,
      getVarint T k (bs ++ rest) v0 = Some (Ok tt, Z.of_nat (length bs), x).
Proof.
  intros He Hh Hz. exists (leb_toBytes (toUleb k x)). destruct He as (Hx & Hk & Hlp) eqn:E.
  clear E. pose proof (toUleb_ok k x Hx) as Hu.
  split; [by apply encodeVarint_toBytes|]. split; [apply toBytes_bytes_ok, Hu|].
  split; [by rewrite vsizeof_length|]. intros rest v0. unfold getVarint.
  destruct T, k; try done; simpl in *;
    rewrite ?(getUVarint_toBytes _ _ x) by (try done; auto); try done.
  all: unfold getSVarint; simpl; rewrite getUVarint_toBytes by done; simpl.
  all: pose proof (fun v => fromUleb_toUleb _ x v Hx) as Hf; simpl in Hf.
  all: by rewrite (Hf _ eq_refl).
Qed.

(** C13: decoding accepts exactly the canonical encodings.  [getUVarint] succeeds with
value [v] and length [n] on an input if and only if the input starts with the [n] bytes
that [encodeVarint] writes for [v] (so overlong and out-of-range encodings never
decode); on every error both output parameters are reset to 0. *)
Theorem getUVarint_iff_encoded (T : codec) (k : SomeVarint) (l : bytes) (n v : Z) :
  (match T with PB => is_PBSomeUVarint k | LP => is_LPSomeUVarint k end) = true ->
  bytes_ok l ->
  (getUVarint T k l = (Ok tt, n, v) <->
   encodable T k v /\ exists bs rest,
     encodeVarint T k v = Ok bs /\ l = bs ++ rest /\ n = Z.of_nat (length bs)) /\
  (forall e n' v', getUVarint T k l = (Err e, n', v') -> n' = 0 /\ v' = 0).
Proof.
  intros Hk Hl. assert (Hs : is_signed k = false) by (by destruct T, k).
  assert (Ht : forall y, toUleb k y = y) by (by destruct T, k).
  split; [split|].
  - intros Hg. apply getUVarint_Ok in Hg as (Hv & Hlp & -> & rest & ->); [|done..].
    assert (He : encodable T k v).
    { unfold encodable, value_ok. rewrite Hs. split; [done|]. split; [by destruct T, k|].
      intros ->. destruct (decide (width k = 64)); [auto|]. unfold uint_ok in Hv.
      destruct (width_cases k) as [E|[E|[E|E]]]; rewrite E in *; pow2; lia. }
    split; [done|]. exists (leb_toBytes v), rest.
    by rewrite encodeVarint_toBytes, Ht.
  - intros (He & bs & rest & Henc & -> & ->). rewrite encodeVarint_toBytes, Ht in Henc by done.
    injection Henc as <-. destruct He as (Hx & _ & Hlp). unfold value_ok in Hx.
    rewrite Hs in Hx. by apply getUVarint_toBytes.
  - intros e n' v'. unfold getUVarint. destruct (leb_fromBytes _ _) as [v1 len].
    repeat case_match; naive_solver.
Qed.

(** [putUVarint] on every branch.  The [LP] codec refuses a 64-bit value with its top
bit set ([Overflow], [outlen] and buffer untouched); a buffer that is too short is refused
([Overrun], buffer untouched, [outlen] the size that is needed); otherwise the encoding
is written at the front and the rest of the buffer is kept. *)
Theorem putUVarint_branches (T : codec) (k : SomeVarint) (buf : bytes) (o x : Z) :
  uint_ok (width k) x ->
  let n := length (leb_toBytes x) in
  putUVarint T k buf o x =
  (if decide (T = LP /\ width k = 64 /\ 2 ^ 63 <= x) then (Err Overflow, buf, o)
   else if decide (n <= length buf)%nat
   then (Ok tt, leb_toBytes x ++ drop n buf, Z.of_nat n)
   else (Err Overrun, buf, Z.of_nat n)).
Proof.
  intros Hx n. case_decide as Hd.
  - destruct Hd as (-> & Hw & Hge). unfold putUVarint. rewrite Hw in *. simpl.
    rewrite lp_top_bit by done. revert Hge. pow2. intros Hge.
    by rewrite (proj2 (Z.ltb_ge _ _) Hge).
  - assert (Hlp : T = LP -> width k = 64 -> x < 2 ^ 63).
    { intros ? ?. apply Z.nle_gt. intros ?. by apply Hd. }
    case_decide; [by apply putUVarint_Ok|].
    unfold putUVarint. fold n. rewrite (proj2 (Z.leb_gt (Z.of_nat n) _)) by lia.
    destruct T; [done|]. destruct (Z.eqb_spec (width k) 64) as [E|]; [|done].
    simpl. rewrite E in Hx. rewrite lp_top_bit by done.
    specialize (Hlp eq_refl E). revert Hlp. pow2. intros Hlp.
    by rewrite (proj2 (Z.ltb_lt _ _) Hlp).
Qed.

(** the errors of [getUVarint].  On a proper prefix of an encoding that could still
fit the type it reports [Incomplete]; on a complete encoding it reports [Overflow] when
the value exceeds the type (or 63 bits, for a 64-bit [LP] integer), and [Overlong] when
the value fits but the encoding is not the shortest one. *)
Theorem getUVarint_errors (T : codec) (k : SomeVarint) (bs rest : bytes) :
  (match T with PB => is_PBSomeUVarint k | LP => is_LPSomeUVarint k end) = true ->
  (Forall (fun b => 128 <= b < 256) bs -> (length bs < leb_maxLen (width k))%nat ->
   getUVarint T k bs = (Err Incomplete, 0, 0)) /\
  (leb_group bs -> 2 ^ width k <= leb_value bs ->
   getUVarint T k (bs ++ rest) = (Err Overflow, 0, 0)) /\
  (leb_group bs -> T = LP -> width k = 64 -> 2 ^ 63 <= leb_value bs < 2 ^ 64 ->
   (length bs <= leb_maxLen 64)%nat ->
   getUVarint T k (bs ++ rest) = (Err Overflow, 0, 0)) /\
  (leb_group bs -> leb_value bs < 2 ^ 63 -> leb_value bs < 2 ^ width k ->
   (length (leb_toBytes (leb_value bs)) < length bs <= leb_maxLen (width k))%nat ->
   getUVarint T k (bs ++ rest) = (Err Overlong, 0, 0)).
Proof.
  intros Hk. assert (Ht : forall y, toUleb k y = y) by (by destruct T, k).
  pose proof (width_cases k) as Hw. unfold getUVarint. split_and_all.
  - intros Hf Hl. pose proof (leb_fromBytes_short _ _ Hw Hf Hl) as Hs.
    destruct (leb_fromBytes _ _). simpl in Hs. by subst.
  - intros Hg Hv. pose proof (leb_fromBytes_overflow _ _ rest Hw Hg Hv) as Hs.
    destruct (leb_fromBytes _ _) as [v len]. simpl in Hs.
    by rewrite (proj2 (Z.eqb_neq _ _)), (proj2 (Z.ltb_lt _ _)) by lia.
  - intros Hg -> E Hv Hl. rewrite E in *. pose proof (leb_group_nonempty _ Hg).
    rewrite leb_fromBytes_group by (done || lia).
    rewrite (proj2 (Z.eqb_neq _ _)), (proj2 (Z.ltb_ge _ 0)) by lia.
    destruct Hv as [Hv _]. revert Hv. pow2. intros Hv.
    by rewrite (proj2 (Z.leb_le _ _) Hv).
  - intros Hg Hv Hvw Hl. pose proof (leb_group_nonempty _ Hg).
    rewrite leb_fromBytes_group by (done || lia).
    rewrite (proj2 (Z.eqb_neq _ 0)), (proj2 (Z.ltb_ge _ 0)) by lia.
    revert Hv. pow2. intros Hv. rewrite (proj2 (Z.leb_gt _ (leb_value bs)) Hv), andb_false_r.
    unfold vsizeof. rewrite Ht, leb_len_toBytes by apply leb_value_nonneg.
    rewrite (proj2 (Z.eqb_neq _ _)) by lia. done.
Qed.

End VarintProperties.

(** ** Witnesses *)

Lemma encodeVarint_roundtrip_witness :
  exists bs, @encodeVarint leb128_ref PB zint32 (-300) = Ok bs /\ bytes_ok bs /\
    length bs = 2%nat /\
    forall rest v0, @getVarint leb128_ref PB zint32 (bs ++ rest) v0 = Some (Ok tt, 2, -300).
Proof.
  destruct (@encodeVarint_roundtrip leb128_ref PB zint32 (-300)) as (bs & E & H1 & H2 & H3).
  - split; [|split; [reflexivity|discriminate]]. vm_compute. split; discriminate || reflexivity.
  - discriminate.
  - discriminate.
  - exists bs. vm_compute in E. injection E as <-. simpl in H3.
    split; [reflexivity|]. split; [exact H1|]. split; [reflexivity|exact H3].
Defined.

Lemma getUVarint_iff_encoded_witness :
  @getUVarint leb128_ref LP uint16 [0xAC; 0x02; 0x7F] = (Ok tt, 2, 300) /\
  exists bs rest, @encodeVarint leb128_ref LP uint16 300 = Ok bs /\
    [0xAC; 0x02; 0x7F] = bs ++ rest /\ 2 = Z.of_nat (length bs).
Proof.
  destruct (@getUVarint_iff_encoded leb128_ref LP uint16 [0xAC; 0x02; 0x7F] 2 300)
    as [[H1 _] _].
  - reflexivity.
  - repeat constructor; vm_compute; discriminate || reflexivity.
  - split; [vm_compute; reflexivity|]. apply H1. vm_compute. reflexivity.
Defined.

Lemma putUVarint_branches_witness :
  @putUVarint leb128_ref PB uint32 [1; 2; 3] 0 300 = (Ok tt, [0xAC; 0x02; 3], 2).
Proof.
  rewrite (@putUVarint_branches leb128_ref PB uint32 [1; 2; 3] 0 300).
  - vm_compute. reflexivity.
  - vm_compute. split; discriminate || reflexivity.
Defined.

Lemma getUVarint_errors_witness :
  @getUVarint leb128_ref LP uint64 [0x80; 0x00] = (Err Overlong, 0, 0).
Proof.
  destruct (@getUVarint_errors leb128_ref LP uint64 [0x80; 0x00] []) as (_ & _ & _ & H).
  - reflexivity.
  - apply H.
    + repeat split; vm_compute; discriminate || reflexivity.
    + vm_compute. reflexivity.
    + vm_compute. reflexivity.
    + vm_compute. split; repeat constructor.
Defined.
