(* ===== verification/VBuffer.v ===== *)
(** * VBuffer: libp2p/vbuffer.nim

The variable buffer: a byte sequence and an offset.  Writers grow the sequence and
write at the offset; readers consume from the offset.  A procedure that can hit a
[doAssert] (or index past the buffer) returns an [option]; readers return the Nim
result ([-1] on error) with the output parameter. *)
From S2P Require Import Prelude Leb128 Varint.

#[local] Open Scope Z_scope.

(** ** State *)

Record VBuffer := mkVBuffer { buffer : bytes; offset : nat }.

(** ** Operations *)

Definition isEmpty (vb : VBuffer) : bool := (length (buffer vb) <=? offset vb)%nat.

Definition isEnough (vb : VBuffer) (length_ : nat) : bool :=
  (offset vb + length_ <=? length (buffer vb))%nat.

(** The assertion fails when the buffer has no byte left. *)
Definition high (vb : VBuffer) : option nat :=
  doAssert (offset vb + 1 <=? length (buffer vb))%nat;;
  Some (length (buffer vb) - 1 - offset vb)%nat.

Definition len (vb : VBuffer) : option nat :=
  doAssert (offset vb <=? length (buffer vb))%nat;;
  Some (length (buffer vb) - offset vb)%nat.

Definition initVBuffer_data (data : bytes) (off : nat) : VBuffer := mkVBuffer data off.

(** The capacity is not observable. *)
Definition initVBuffer (cap : Z) : option VBuffer :=
  doAssert (0 <=? cap);; Some (mkVBuffer [] 0).

(** [vb.buffer.toOpenArray(vb.offset, vb.buffer.high)]. *)
Definition unread (vb : VBuffer) : bytes := drop (offset vb) (buffer vb).

Arguments unread : simpl never.

Section VBuffer.
Context `{Leb128}.

(** [putUVarint] at the offset, its result asserted, then [vb.offset += length]. *)
Definition putAt (T : codec) (k : SomeVarint) (vb : VBuffer) (v : Z) : option VBuffer :=
  doAssert (offset vb <=? length (buffer vb))%nat;;
  let '(res, view, length_) := putUVarint T k (unread vb) 0 v in
  doAssert (isOk res);;
  Some (mkVBuffer (take (offset vb) (buffer vb) ++ view) (offset vb + Z.to_nat length_)).

(** [copyMem(addr vb.buffer[vb.offset], addr value[0], len(value))], then the offset
moves; [None] when the copy would leave the buffer. *)
Definition copyAt (vb : VBuffer) (value : bytes) : option VBuffer :=
  doAssert (offset vb + length value <=? length (buffer vb))%nat;;
  Some (mkVBuffer (blit (offset vb) value (buffer vb)) (offset vb + length value)).

Definition grow (vb : VBuffer) (n : nat) : VBuffer :=
  mkVBuffer (set_len 0 (length (buffer vb) + n) (buffer vb)) (offset vb).

Definition writePBVarint (k : SomeVarint) (vb : VBuffer) (value : Z) : option VBuffer :=
  let v := Z.land value (wrap (width k) 0xFFFFFFFFFFFFFFFF) in
  putAt PB k (grow vb (vsizeof k v)) v.

Definition writeLPVarint (k : SomeVarint) (vb : VBuffer) (value : Z) : option VBuffer :=
  let v := Z.land value (wrap (width k) 0x7FFFFFFFFFFFFFFF) in
  putAt LP k (grow vb (vsizeof k v)) v.

Definition writeVarint (k : SomeVarint) (vb : VBuffer) (value : Z) : option VBuffer :=
  writeLPVarint k vb value.

Definition writeSeq (vb : VBuffer) (value : bytes) : option VBuffer :=
  let n := Z.of_nat (length value) in
  vb ← putAt LP uint (grow vb (vsizeof uint n + length value)) n;
  if (0 <? length value)%nat then copyAt vb value else Some vb.

Definition writeArray (vb : VBuffer) (value : bytes) : option VBuffer :=
  if (0 <? length value)%nat then copyAt (grow vb (length value)) value else Some vb.

Definition finish (vb : VBuffer) : VBuffer := mkVBuffer (buffer vb) 0.

Definition peekVarint (k : SomeVarint) (vb : VBuffer) : Z * Z :=
  if isEmpty vb then (-1, 0)
  else
    let '(res, length_, value) := getUVarint LP k (unread vb) in
    (if isOk res then length_ else -1, value).

Definition peekSeq (vb : VBuffer) : Z * bytes :=
  if isEmpty vb then (-1, [])
  else
    let '(res, length_, size) := getUVarint LP uint64 (unread vb) in
    if isOk res && (size <=? Z.of_nat (length (unread vb)) - length_)
    then (length_ + size, take (Z.to_nat size) (drop (Z.to_nat length_) (unread vb)))
    else (-1, []).

(** [value] is the output array: overwritten as a whole on success. *)
Definition peekArray (vb : VBuffer) (value : bytes) : Z * bytes :=
  let length_ := length value in
  if isEnough vb length_ then (Z.of_nat length_, take length_ (unread vb)) else (-1, value).

(** [if r != -1: vb.offset += r]. *)
Definition advance (vb : VBuffer) (r : Z) : VBuffer :=
  if r =? -1 then vb else mkVBuffer (buffer vb) (offset vb + Z.to_nat r).

Definition readVarint (k : SomeVarint) (vb : VBuffer) : VBuffer * Z * Z :=
  let '(r, value) := peekVarint k vb in (advance vb r, r, value).

Definition readSeq (vb : VBuffer) : VBuffer * Z * bytes :=
  let '(r, value) := peekSeq vb in (advance vb r, r, value).

Definition readArray (vb : VBuffer) (value : bytes) : VBuffer * Z * bytes :=
  let '(r, value) := peekArray vb value in (advance vb r, r, value).

End VBuffer.

(** ** Specification

What a buffer is used for: a list of items written one after the other and read back in
the same order. *)

Inductive item :=
| IVarint (k : SomeVarint) (v : Z)
| ISeq (bs : bytes)
| IArray (bs : bytes).

Definition item_ok (i : item) : Prop :=
  match i with
  | IVarint k v => is_LPSomeUVarint k = true /\ uint_ok (width k) v /\ v < 2 ^ 63
  | ISeq bs => Z.of_nat (length bs) < 2 ^ 63
  | IArray bs => True
  end.

Section Spec.
Context `{Leb128}.

Definition item_bytes (i : item) : bytes :=
  match i with
  | IVarint k v => leb_toBytes v
  | ISeq bs => leb_toBytes (Z.of_nat (length bs)) ++ bs
  | IArray bs => bs
  end.

Definition writeItem (vb : VBuffer) (i : item) : option VBuffer :=
  match i with
  | IVarint k v => writeVarint k vb v
  | ISeq bs => writeSeq vb bs
  | IArray bs => writeArray vb bs
  end.

Fixpoint writeItems (vb : VBuffer) (l : list item) : option VBuffer :=
  match l with
  | [] => Some vb
  | i :: r => vb ← writeItem vb i; writeItems vb r
  end.

(** Reads an item of the shape of [i] (for an array, its length). *)
Definition readLike (vb : VBuffer) (i : item) : option (VBuffer * item) :=
  match i with
  | IVarint k _ =>
      let '(vb, r, v) := readVarint k vb in
      if r =? -1 then None else Some (vb, IVarint k v)
  | ISeq _ =>
      let '(vb, r, bs) := readSeq vb in
      if r =? -1 then None else Some (vb, ISeq bs)
  | IArray a =>
      let '(vb, r, bs) := readArray vb (replicate (length a) 0) in
      if r =? -1 then None else Some (vb, IArray bs)
  end.

Fixpoint readItems (vb : VBuffer) (l : list item) : option (VBuffer * list item) :=
  match l with
  | [] => Some (vb, [])
  | i :: r =>
      '(vb, i') ← readLike vb i;
      '(vb, r') ← readItems vb r;
      Some (vb, i' :: r')
  end.

End Spec.

(** A buffer being written: the offset is at its end. *)
Definition appending (vb : VBuffer) : Prop := offset vb = length (buffer vb).

(** ** Lemmas *)

Section VBufferFacts.
Context `{Leb128}.
Implicit Types (T : codec) (k : SomeVarint) (vb : VBuffer) (v : Z).

Lemma unread_app pre rest : unread (mkVBuffer (pre ++ rest) (length pre)) = rest.
Proof. apply drop_app_length. Qed.

(** Writing a varint at the end, into room for it and [m] more bytes. *)
Lemma putAt_append T k vb v m : appending vb -> is_signed k = false ->
  uint_ok (width k) v -> (T = LP -> v < 2 ^ 63) ->
  putAt T k (grow vb (vsizeof k v + m)) v =
    Some (mkVBuffer (buffer vb ++ leb_toBytes v ++ replicate m 0)
                    (length (buffer vb) + length (leb_toBytes v))).
Proof.
  intros Ha Hs Hv Hlp. destruct vb as [b o]. unfold appending in Ha. simpl in *. subst o.
  assert (E : vsizeof k v = length (leb_toBytes v)).
  { unfold vsizeof. replace (toUleb k v) with v by (by destruct k).
    apply leb_len_toBytes, Hv. }
  unfold grow. simpl. rewrite set_len_grow by lia. rewrite E.
  replace (length b + (length (leb_toBytes v) + m) - length b)%nat
    with (length (leb_toBytes v) + m)%nat by lia.
  unfold putAt. cbn [buffer offset]. rewrite (proj2 (Nat.leb_le _ _))
    by (rewrite length_app; lia). cbn.
  rewrite unread_app, putUVarint_Ok by (rewrite ?length_replicate; auto; lia). cbn.
  by rewrite take_app_length, drop_replicate, Nat.add_sub', Nat2Z.id.
Qed.

Lemma putAt_append0 T k vb v : appending vb -> is_signed k = false ->
  uint_ok (width k) v -> (T = LP -> v < 2 ^ 63) ->
  putAt T k (grow vb (vsizeof k v)) v =
    Some (mkVBuffer (buffer vb ++ leb_toBytes v)
                    (length (buffer vb) + length (leb_toBytes v))).
Proof.
  intros. rewrite <- (Nat.add_0_r (vsizeof k v)), putAt_append by done.
  by rewrite app_nil_r.
Qed.

Lemma copyAt_append b value : copyAt (mkVBuffer (b ++ replicate (length value) 0) (length b)) value
  = Some (mkVBuffer (b ++ value) (length b + length value)).
Proof.
  unfold copyAt. cbn [buffer offset].
  rewrite (proj2 (Nat.leb_le _ _)) by (rewrite length_app, length_replicate; lia).
  simpl. rewrite blit_grow by done. by rewrite Nat.sub_diag, app_nil_r.
Qed.

Lemma land_mask63 k v : is_LPSomeUVarint k = true -> uint_ok (width k) v -> v < 2 ^ 63 ->
  Z.land v (wrap (width k) 0x7FFFFFFFFFFFFFFF) = v.
Proof.
  intros Hk Hv Hlt. unfold uint_ok in Hv.
  assert (exists n, 0 <= n /\ wrap (width k) 0x7FFFFFFFFFFFFFFF = Z.ones n /\ v < 2 ^ n)
    as (n & Hn & -> & Hvn).
  { destruct (width_cases k) as [E|[E|[E|E]]]; rewrite E in *;
      [exists 8|exists 16|exists 32|exists 63]; (split; [lia|]; split; [reflexivity|lia]). }
  rewrite Z.land_ones by done. apply Z.mod_small. lia.
Qed.

Lemma writeItem_append vb i : appending vb -> item_ok i ->
  exists vb', writeItem vb i = Some vb' /\ appending vb' /\
    buffer vb' = buffer vb ++ item_bytes i.
Proof.
  intros Ha Hi. destruct i as [k v|bs|bs]; simpl in *.
  - destruct Hi as (Hk & Hv & Hlt). assert (is_signed k = false) by (by destruct k).
    unfold writeVarint, writeLPVarint. rewrite land_mask63 by done.
    rewrite putAt_append0 by auto. eexists. split; [done|].
    unfold appending. simpl. by rewrite length_app.
  - unfold writeSeq. rewrite putAt_append; simpl; auto;
      [|unfold uint_ok; revert Hi; pow2; lia].
    destruct (Nat.ltb_spec 0 (length bs)).
    + rewrite app_assoc, <- length_app, copyAt_append. eexists. split; [done|].
      unfold appending. simpl. by rewrite !length_app, !app_assoc.
    + destruct bs; simpl in *; [|lia]. eexists. split; [done|].
      unfold appending. simpl. by rewrite !app_nil_r, length_app.
  - unfold writeArray. destruct (Nat.ltb_spec 0 (length bs)).
    + destruct vb as [b o]. unfold appending in Ha. simpl in *. subst o. unfold grow. simpl.
      rewrite set_len_grow, Nat.add_sub' by lia. rewrite copyAt_append.
      eexists. split; [done|]. unfold appending. simpl. by rewrite length_app.
    + destruct bs; simpl in *; [|lia]. exists vb. by rewrite app_nil_r.
Qed.

Lemma writeItems_append vb l : appending vb -> Forall item_ok l ->
  exists vb', writeItems vb l = Some vb' /\ appending vb' /\
    buffer vb' = buffer vb ++ mjoin (item_bytes <$> l).
Proof.
  revert vb. induction l as [|i r IH]; intros vb Ha Hl; simpl.
  { exists vb. by rewrite app_nil_r. }
  apply Forall_cons in Hl as [Hi Hr].
  destruct (writeItem_append vb i Ha Hi) as (vb1 & -> & Ha1 & Hb1).
  destruct (IH vb1 Ha1 Hr) as (vb2 & E2 & Ha2 & Hb2). exists vb2. simpl.
  split; [done|]. split; [done|]. by rewrite Hb2, Hb1, app_assoc.
Qed.

Lemma not_empty b o : (o < length b)%nat -> isEmpty (mkVBuffer b o) = false.
Proof. intros. unfold isEmpty. simpl. by apply Nat.leb_gt. Qed.

Lemma advance_nat vb n : advance vb (Z.of_nat n) = mkVBuffer (buffer vb) (offset vb + n).
Proof. unfold advance. rewrite (proj2 (Z.eqb_neq _ _)) by lia. by rewrite Nat2Z.id. Qed.

Lemma readLike_item pre i rest : item_ok i ->
  readLike (mkVBuffer (pre ++ item_bytes i ++ rest) (length pre)) i =
    Some (mkVBuffer (pre ++ item_bytes i ++ rest) (length pre + length (item_bytes i)), i).
Proof.
  destruct i as [k v|bs|bs]; simpl; intros Hi.
  - destruct Hi as (Hk & Hv & Hlt). assert (is_signed k = false) by (by destruct k).
    pose proof (toBytes_nonempty v (proj1 Hv)).
    unfold readVarint, peekVarint. rewrite not_empty by (rewrite !length_app; lia).
    rewrite unread_app, getUVarint_toBytes by auto. cbn.
    rewrite advance_nat. cbn. by rewrite (proj2 (Z.eqb_neq _ _)) by lia.
  - pose proof (toBytes_nonempty (Z.of_nat (length bs)) ltac:(lia)).
    unfold readSeq, peekSeq. rewrite not_empty by (rewrite !length_app; lia).
    rewrite unread_app, <- !app_assoc, getUVarint_toBytes
      by (unfold uint_ok; simpl; auto; revert Hi; pow2; lia).
    simpl. rewrite (proj2 (Z.leb_le _ _)) by (rewrite !length_app; lia).
    rewrite !Nat2Z.id, drop_app_length, take_app_length.
    rewrite <- Nat2Z.inj_add, advance_nat. cbn.
    rewrite (proj2 (Z.eqb_neq _ _)) by lia. by rewrite length_app.
  - unfold readArray, peekArray, isEnough. rewrite length_replicate. cbn [buffer offset].
    rewrite (proj2 (Nat.leb_le _ _)) by (rewrite !length_app; lia).
    rewrite unread_app, take_app_length, advance_nat. cbn.
    by rewrite (proj2 (Z.eqb_neq _ _)) by lia.
Qed.

Lemma readItems_items pre l rest : Forall item_ok l ->
  readItems (mkVBuffer (pre ++ mjoin (item_bytes <$> l) ++ rest) (length pre)) l =
    Some (mkVBuffer (pre ++ mjoin (item_bytes <$> l) ++ rest)
            (length pre + length (mjoin (item_bytes <$> l))), l).
Proof.
  revert pre. induction l as [|i r IH]; intros pre Hl; simpl.
  { by rewrite Nat.add_0_r. }
  apply Forall_cons in Hl as [Hi Hr].
  rewrite <- !app_assoc, readLike_item by done. cbn.
  rewrite <- length_app, (app_assoc pre), IH by done. cbn.
  by rewrite <- !app_assoc, !length_app, Nat.add_assoc.
Qed.

End VBufferFacts.

(** ** Properties *)

Section VBufferProperties.
Context `{Leb128}.

(** writing any list of items (varints below 2^63, length-prefixed sequences, raw
arrays) into a fresh buffer never fails an assertion, produces the concatenation of their
encodings, and after [finish] the readers return the same items in the same order and
leave the offset at the end of the buffer. *)
Theorem vbuffer_roundtrip (l : list item) :
  Forall item_ok l ->
  exists vb0 vb,
    initVBuffer 128 = Some vb0 /\ writeItems vb0 l = Some vb /\
    buffer vb = mjoin (item_bytes <$> l) /\
    readItems (finish vb) l = Some (mkVBuffer (buffer vb) (length (buffer vb)), l).
Proof.
  intros Hl. exists (mkVBuffer [] 0).
  destruct (writeItems_append (mkVBuffer [] 0) l eq_refl Hl) as (vb & E & _ & Hb).
  exists vb. split; [done|]. split; [done|]. simpl in Hb. split; [done|].
  unfold finish. rewrite Hb. pose proof (readItems_items [] l [] Hl) as Hr.
  by rewrite !app_nil_r, app_nil_l in Hr.
Qed.

(** no reader leaves the buffer.  On any bytes at any offset inside the buffer, each
reader either fails ([-1], the buffer and its offset unchanged) or consumes [r >= 0] bytes
that are in the buffer, so the offset stays inside; a sequence it returns is a part of
the buffer that ends at the new offset. *)
Theorem vbuffer_reads_in_bounds (vb : VBuffer) (k : SomeVarint) (a : bytes) :
  bytes_ok (buffer vb) -> (offset vb <= length (buffer vb))%nat ->
  is_LPSomeUVarint k = true ->
  (forall vb' r v, readVarint k vb = (vb', r, v) ->
     (r = -1 /\ vb' = vb) \/
     (0 < r /\ vb' = mkVBuffer (buffer vb) (offset vb + Z.to_nat r) /\
      (offset vb' <= length (buffer vb'))%nat)) /\
  (forall vb' r v, readSeq vb = (vb', r, v) ->
     (r = -1 /\ vb' = vb /\ v = []) \/
     (0 < r /\ vb' = mkVBuffer (buffer vb) (offset vb + Z.to_nat r) /\
      (offset vb' <= length (buffer vb'))%nat /\
      v = drop (offset vb' - length v) (take (offset vb') (buffer vb)))) /\
  (forall vb' r v, readArray vb a = (vb', r, v) ->
     (r = -1 /\ vb' = vb /\ v = a) \/
     (r = Z.of_nat (length a) /\ length v = length a /\
      (offset vb' <= length (buffer vb'))%nat)).
Proof.
  destruct vb as [b o]. simpl. intros Hb Ho Hk.
  assert (Hu : bytes_ok (unread (mkVBuffer b o))) by (by apply Forall_drop).
  assert (Hlen : length (unread (mkVBuffer b o)) = (length b - o)%nat)
    by (unfold unread; simpl; by rewrite length_drop).
  split_and_all; intros vb' r v.
  - unfold readVarint, peekVarint. destruct (isEmpty _); [intros [= <- <- <-]; by left|].
    destruct (getUVarint LP k (unread _)) as [[[[]|e] n] v1] eqn:E;
      simpl; intros [= <- <- <-]; [|by left].
    apply getUVarint_Ok in E as (Hv & _ & -> & rest & Hr); [|by destruct k|done].
    right. pose proof (toBytes_nonempty v1 (proj1 Hv)).
    rewrite advance_nat, Nat2Z.id. split; [lia|]. split; [done|]. simpl.
    rewrite Hr, length_app in Hlen. lia.
  - unfold readSeq, peekSeq. destruct (isEmpty _); [intros [= <- <- <-]; by left|].
    destruct (getUVarint LP uint64 (unread _)) as [[[[]|e] n] v1] eqn:E;
      simpl; [|intros [= <- <- <-]; by left].
    apply getUVarint_Ok in E as (Hv & _ & -> & rest & Hr); [|done|done].
    pose proof (toBytes_nonempty v1 (proj1 Hv)). unfold uint_ok in Hv.
    destruct (Z.leb_spec v1 (Z.of_nat (length (unread (mkVBuffer b o)))
                             - Z.of_nat (length (leb_toBytes v1))));
      intros [= <- <- <-]; [|by left]. right. split; [lia|].
    replace (Z.of_nat (length (leb_toBytes v1)) + v1)
      with (Z.of_nat (length (leb_toBytes v1) + Z.to_nat v1)) by lia.
    rewrite advance_nat, !Nat2Z.id. cbn [buffer offset].
    split; [done|]. split; [lia|].
    assert (Hlv : length (take (Z.to_nat v1)
      (drop (length (leb_toBytes v1)) (unread (mkVBuffer b o)))) = Z.to_nat v1)
      by (rewrite length_take, length_drop; lia).
    rewrite Hlv. unfold unread. cbn [buffer offset]. rewrite drop_drop.
    rewrite take_drop_commute. f_equal; [lia|f_equal; lia].
  - unfold readArray, peekArray, isEnough. cbn [buffer offset].
    destruct (Nat.leb_spec (o + length a) (length b)); intros [= <- <- <-]; [|by left].
    right. rewrite advance_nat. split; [done|]. cbn. rewrite length_take. lia.
Qed.

End VBufferProperties.

(** ** Witnesses *)

Lemma vbuffer_roundtrip_witness :
  exists vb0 vb, initVBuffer 128 = Some vb0 /\
    @writeItems leb128_ref vb0 [IVarint uint16 300; ISeq [1; 2]; IArray [9]] = Some vb /\
    buffer vb = mjoin (@item_bytes leb128_ref <$> [IVarint uint16 300; ISeq [1; 2]; IArray [9]])
    /\ @readItems leb128_ref (finish vb) [IVarint uint16 300; ISeq [1; 2]; IArray [9]] =
       Some (mkVBuffer (buffer vb) (length (buffer vb)),
             [IVarint uint16 300; ISeq [1; 2]; IArray [9]]).
Proof.
  apply (@vbuffer_roundtrip leb128_ref).
  repeat constructor; vm_compute; discriminate || reflexivity.
Defined.

Lemma vbuffer_reads_in_bounds_witness :
  @readSeq leb128_ref (mkVBuffer [2; 7; 8; 5] 0) = (mkVBuffer [2; 7; 8; 5] 3, 3, [7; 8]) /\
  Nat.le (offset (mkVBuffer [2; 7; 8; 5] 3)) 4.
Proof.
  destruct (@vbuffer_reads_in_bounds leb128_ref (mkVBuffer [2; 7; 8; 5] 0) uint8 [])
    as (_ & H & _).
  - repeat constructor; vm_compute; discriminate || reflexivity.
  - vm_compute. repeat constructor.
  - reflexivity.
  - split; [vm_compute; reflexivity|].
    destruct (H (mkVBuffer [2; 7; 8; 5] 3) 3 [7; 8]) as [[E _]|(_ & _ & Hb & _)];
      [vm_compute; reflexivity|discriminate|exact Hb].
Defined.
