(* ===== verification/LpStream.v ===== *)
(** * LpStream: exact and length-prefixed reads (src/libp2p/stream/lpstream.nim)

Every stream of the program overrides [readOnce] and [atEof]; [readExactly], [readVarint],
[readLp] and [writeLp] are written once over them.  [ByteSource] is that interface and
[ByteSourceLaws] what a stream promises: bytes come in order, in chunks of any size.  The
procedures are proved against it; [Queue] is the plain instance, BufferStream gives another. *)
From S2P Require Import Prelude Leb128 Varint.

#[local] Open Scope Z_scope.

Inductive StreamError := LPStreamEOFError | LPStreamIncompleteError | InvalidVarintError | MaxSizeError.

(** What an asynchronous read does on the bytes that have arrived: it returns, waits for
more, raises, or dies of a defect (a failed assertion, a loop that does not end). *)
Inductive outcome (S A : Type) : Type :=
| Done (s : S) (a : A)
| Blocked
| Raised (s : S) (e : StreamError)
| Crashed.
Arguments Done {S A}.
Arguments Blocked {S A}.
Arguments Raised {S A}.
Arguments Crashed {S A}.

Definition obind {S A B} (m : outcome S A) (f : S -> A -> outcome S B) : outcome S B :=
  match m with
  | Done s a => f s a
  | Blocked => Blocked
  | Raised s e => Raised s e
  | Crashed => Crashed
  end.

(** [pending] and [ended] say what a stream holds: the bytes that have arrived and were not
read, and whether the end of the stream has arrived behind them. *)
Class ByteSource (S : Type) := {
  readOnce : S -> nat -> outcome S bytes;
  atEof : S -> bool;
  pending : S -> bytes;
  ended : S -> bool;
  source_ok : S -> Prop;
}.

(** A read of at least one byte returns a prefix of what is pending, an empty one only at the
end of the stream; it waits only when less than it asks is pending and more can arrive; it
raises only at the end.  [atEof] is not announced while bytes are pending. *)
Class ByteSourceLaws (S : Type) `{ByteSource S} : Prop := {
  readOnce_Done s n s' d : source_ok s -> (0 < n)%nat -> readOnce s n = Done s' d ->
    source_ok s' /\ ended s' = ended s /\ pending s = d ++ pending s' /\ (length d <= n)%nat /\
    (d = [] -> atEof s' = true);
  readOnce_Blocked s n : source_ok s -> (0 < n)%nat -> readOnce s n = Blocked ->
    ended s = false /\ (length (pending s) < n)%nat;
  readOnce_Raised s n s' e : source_ok s -> (0 < n)%nat -> readOnce s n = Raised s' e ->
    ended s = true /\ pending s = [] /\ e = LPStreamEOFError;
  readOnce_Crashed s n : source_ok s -> (0 < n)%nat -> readOnce s n <> Crashed;
  atEof_pending s : source_ok s -> atEof s = true -> pending s = [] /\ ended s = true;
}.

Section Model.
Context `{Leb128} {S : Type} `{ByteSource S}.
Implicit Types (s : S).

(** The loop of [readExactly] and what follows it; [acc] is what is in the buffer. *)
Fixpoint readExactly_loop (fuel : nat) s (nbytes : nat) (acc : bytes) : outcome S bytes :=
  if (length acc <? nbytes)%nat && negb (atEof s) then
    match fuel with
    | O => Crashed
    | Datatypes.S fuel =>
        obind (readOnce s (nbytes - length acc)) (fun s d => readExactly_loop fuel s nbytes (acc ++ d))
    end
  else if (length acc =? 0)%nat then
    if atEof s then
      obind (readOnce s (nbytes - length acc)) (fun s _ => Raised s LPStreamEOFError)
    else Crashed
  else if (length acc <? nbytes)%nat then Raised s LPStreamIncompleteError
  else Done s acc.

Definition readExactly s (nbytes : nat) : outcome S bytes :=
  if atEof s then obind (readOnce s 1) (fun s _ => Raised s LPStreamEOFError)
  else if (nbytes =? 0)%nat then Done s []
  else readExactly_loop (Datatypes.S nbytes) s nbytes [].

(** [is] turns of the loop are left, [buffer] holds the bytes read. *)
Fixpoint readVarint_loop (is_ : nat) s (buffer : bytes) : outcome S Z :=
  match is_ with
  | O => Raised s InvalidVarintError
  | Datatypes.S is_ =>
      obind (readExactly s 1) (fun s b =>
        let buffer := buffer ++ b in
        let '(res, _, varint) := getUVarint PB uint64 buffer in
        match res with
        | Ok _ => Done s varint
        | Err Incomplete => readVarint_loop is_ s buffer
        | Err _ => Raised s InvalidVarintError
        end)
  end.

Definition readVarint s : outcome S Z := readVarint_loop 10 s [].

Definition readLp s (maxSize : Z) : outcome S bytes :=
  obind (readVarint s) (fun s length =>
    let maxLen := if maxSize <? 0 then 2 ^ 63 - 1 else maxSize in
    if maxLen <? length then Raised s MaxSizeError
    else if length =? 0 then Done s []
    else readExactly s (Z.to_nat length)).

(** The bytes [writeLp] gives to [write]. *)
Definition writeLp (msg : bytes) : bytes := PB_toBytes uint64 (Z.of_nat (length msg)) ++ msg.

End Model.

(** ** Facts of the reads *)
Section Facts.
#[local] Set Default Proof Using "Type*".
Context {S : Type} `{L : ByteSourceLaws S}.
Implicit Types (s : S).

(** What the reads promise, in terms of what is pending: [n] bytes, or to wait for more, or
to raise at the end of the stream, and nothing else. *)
Definition exact_outcome (n : nat) s (p : bytes) (r : outcome S bytes) : Prop :=
  match r with
  | Done s' d => source_ok s' /\ ended s' = ended s /\ p = d ++ pending s' /\ length d = n
  | Blocked => ended s = false /\ (length p < n)%nat
  | Raised _ e => ended s = true /\ (length p < n)%nat /\
      (e = LPStreamEOFError \/ e = LPStreamIncompleteError)
  | Crashed => False
  end.

Lemma at_eof_raises s n : source_ok s -> atEof s = true -> (0 < n)%nat ->
  exists s', obind (readOnce s n) (fun s _ => Raised s LPStreamEOFError : outcome S bytes) =
    Raised s' LPStreamEOFError.
Proof.
  intros Hok Eof Hn. destruct (atEof_pending s Hok Eof) as [Hp He].
  destruct (readOnce s n) as [s' d| |s' e|] eqn:E; cbn [obind].
  - by exists s'.
  - apply readOnce_Blocked in E as [? _]; [|done..]. congruence.
  - apply readOnce_Raised in E as (_ & _ & ->); [|done..]. by exists s'.
  - by apply readOnce_Crashed in E.
Qed.

(** At the end of the stream the loop stops, whatever the fuel. *)
Lemma readExactly_loop_eof n fuel s acc : source_ok s -> atEof s = true -> (length acc < n)%nat ->
  exact_outcome n s (acc ++ pending s) (readExactly_loop fuel s n acc).
Proof.
  intros Hok Eof Hacc. destruct (atEof_pending s Hok Eof) as [Hp He].
  rewrite Hp, app_nil_r. replace (readExactly_loop fuel s n acc) with
    (if (length acc =? 0)%nat then
       obind (readOnce s (n - length acc)) (fun s _ => Raised s LPStreamEOFError : outcome S bytes)
     else Raised s LPStreamIncompleteError).
  - destruct (Nat.eqb_spec (length acc) 0) as [Hz|Hz]; [|cbn; tauto].
    destruct (at_eof_raises s (n - length acc) Hok Eof ltac:(lia)) as [s' ->]. cbn. tauto.
  - destruct fuel; cbn [readExactly_loop]; rewrite Eof, andb_false_r;
      by rewrite (proj2 (Nat.ltb_lt _ _) Hacc).
Qed.

Lemma readExactly_loop_spec n fuel s acc : source_ok s -> (0 < n)%nat ->
  (length acc <= n)%nat -> (n - length acc < fuel)%nat ->
  exact_outcome n s (acc ++ pending s) (readExactly_loop fuel s n acc).
Proof.
  revert s acc. induction fuel as [|fuel IH]; intros s acc Hok Hn Hacc Hf; [lia|].
  destruct (decide (length acc < n)%nat) as [Hlt|Hge].
  2: { assert (Hl : length acc = n) by lia. cbn [readExactly_loop].
       rewrite (proj2 (Nat.ltb_ge _ _)), (proj2 (Nat.eqb_neq _ _)) by lia. done. }
  destruct (atEof s) eqn:Eof; [by apply readExactly_loop_eof|].
  cbn [readExactly_loop]. rewrite (proj2 (Nat.ltb_lt _ _) Hlt), Eof; cbn [negb andb].
  destruct (readOnce s (n - length acc)) as [s' d| |s' e|] eqn:E; cbn [obind].
  - apply readOnce_Done in E as (Hok' & He & Hp & Hd & Hnil); [|done|lia].
    assert (G : exact_outcome n s' ((acc ++ d) ++ pending s') (readExactly_loop fuel s' n (acc ++ d))).
    { destruct d as [|b d].
      - rewrite app_nil_r. apply readExactly_loop_eof; [done|by apply Hnil|done].
      - apply IH; rewrite ?length_app in *; cbn in *; try done; lia. }
    rewrite <- app_assoc, <- Hp in G. destruct (readExactly_loop _ _ _ _); cbn in *; by rewrite <- ?He.
  - apply readOnce_Blocked in E; [|done|lia]. cbn. rewrite length_app. split; [tauto|lia].
  - apply readOnce_Raised in E as (He & Hp & ->); [|done|lia]. cbn. rewrite Hp, app_nil_r. tauto.
  - by destruct (readOnce_Crashed s (n - length acc) Hok ltac:(lia)).
Qed.

Lemma readExactly_spec s n : source_ok s -> (0 < n)%nat ->
  exact_outcome n s (pending s) (readExactly s n).
Proof.
  intros Hok Hn. unfold readExactly. destruct (atEof s) eqn:Eof.
  - destruct (at_eof_raises s 1 Hok Eof ltac:(lia)) as [s' ->].
    destruct (atEof_pending s Hok Eof) as [Hp He]. cbn. rewrite Hp; cbn. auto.
  - rewrite (proj2 (Nat.eqb_neq _ _)) by lia.
    apply (readExactly_loop_spec n (Datatypes.S n) s []); cbn; [done..|lia|lia].
Qed.

(** Exactly [n] bytes are there; or fewer, and the read waits or raises. *)
Lemma readExactly_enough s n d rest : source_ok s -> (0 < n)%nat -> length d = n ->
  pending s = d ++ rest -> exists s', readExactly s n = Done s' d /\
    source_ok s' /\ ended s' = ended s /\ pending s' = rest.
Proof.
  intros Hok Hn Hd Hp. pose proof (readExactly_spec s n Hok Hn) as E. rewrite Hp in E.
  destruct (readExactly s n) as [s' d'| |s' e|]; cbn in E; rewrite ?length_app in E.
  - destruct E as (? & ? & Ea & ?). apply app_inj_1 in Ea as [-> ->]; [by exists s'|congruence].
  - lia.
  - lia.
  - done.
Qed.

Lemma readExactly_short s n : source_ok s -> (length (pending s) < n)%nat ->
  if ended s then exists s' e, readExactly s n = Raised s' e /\
    (e = LPStreamEOFError \/ e = LPStreamIncompleteError)
  else readExactly s n = Blocked.
Proof.
  intros Hok Hn. pose proof (readExactly_spec s n Hok ltac:(lia)) as E.
  destruct (readExactly s n) as [s' d'| |s' e|]; cbn in E.
  - destruct E as (_ & _ & Ep & ?). rewrite Ep, length_app in Hn. lia.
  - by destruct E as [-> _].
  - destruct E as (-> & _ & He). by exists s', e.
  - done.
Qed.
End Facts.

Section Framing.
#[local] Set Default Proof Using "Type*".
Context `{LB : Leb128} {S : Type} `{L : ByteSourceLaws S}.
Implicit Types (s : S).

Lemma leb_group_prefix a b : leb_group (a ++ b) -> b <> [] -> Forall (fun b => 128 <= b < 256) a.
Proof using.
  induction a as [|x a IH]; intros Hg Hb; [constructor|].
  rewrite <- app_comm_cons in Hg. apply leb_group_cons in Hg as [[_ Hg]|[? Hg]].
  - by apply app_eq_nil in Hg as [_ ?].
  - constructor; [done|by apply IH].
Qed.

(** A strict prefix of an encoding is [Incomplete]. *)
Lemma getUVarint_prefix x a b : uint_ok 64 x -> leb_toBytes x = a ++ b -> b <> [] ->
  exists n v, getUVarint PB uint64 a = (Err Incomplete, n, v).
Proof using.
  intros Hx E Hb. assert (Hg : leb_group (a ++ b)).
  { rewrite <- E. apply leb_toBytes_group. unfold uint_ok in Hx. lia. }
  assert (Hl : (length (a ++ b) <= leb_maxLen 64)%nat).
  { rewrite <- E. apply toBytes_length_max; [|done]. unfold uint_width. tauto. }
  assert (Hb' : (0 < length b)%nat) by (destruct b; [done|cbn; lia]). rewrite length_app in Hl.
  unfold getUVarint. pose proof (leb_fromBytes_short 64 a) as Hs. cbn [width].
  specialize (Hs ltac:(unfold uint_width; tauto) (leb_group_prefix a b Hg Hb) ltac:(lia)).
  destruct (leb_fromBytes 64 a) as [v len]. cbn in Hs. subst len. by eexists _, _.
Qed.

Lemma readVarint_loop_enc s x is_ buffer todo rest : source_ok s -> uint_ok 64 x ->
  leb_toBytes x = buffer ++ todo -> todo <> [] -> (length todo <= is_)%nat ->
  pending s = todo ++ rest ->
  exists s', readVarint_loop is_ s buffer = Done s' x /\ source_ok s' /\ ended s' = ended s /\
    pending s' = rest.
Proof.
  intros Hok Hx. revert s buffer todo Hok.
  induction is_ as [|is_ IH]; intros s buffer todo Hok E Ht Hl Hp; destruct todo as [|b todo]; cbn in Hl; [done|lia|done|].
  destruct (readExactly_enough s 1 [b] (todo ++ rest) Hok) as (s1 & Er & Hok1 & He1 & Hp1); [lia|done|done|].
  cbn [readVarint_loop]. rewrite Er; cbn [obind].
  assert (E' : leb_toBytes x = (buffer ++ [b]) ++ todo) by (by rewrite <- app_assoc).
  destruct todo as [|b' todo].
  - rewrite app_nil_r in E'. rewrite <- E'. rewrite <- (app_nil_r (leb_toBytes x)).
    rewrite getUVarint_toBytes by done. by exists s1.
  - destruct (getUVarint_prefix x _ _ Hx E' ltac:(done)) as (n & v & ->).
    destruct (IH s1 (buffer ++ [b]) (b' :: todo) Hok1 E') as (s2 & -> & ? & He2 & ?);
      [done|cbn in *; lia|done|]. exists s2. by rewrite He2.
Qed.

Lemma toBytes_length_10 x : uint_ok 64 x -> (length (leb_toBytes x) <= 10)%nat.
Proof using.
  intros Hx. apply (toBytes_length_max 64); [|done]. unfold uint_width. tauto.
Qed.

Lemma readVarint_enc s x rest : source_ok s -> uint_ok 64 x -> pending s = leb_toBytes x ++ rest ->
  exists s', readVarint s = Done s' x /\ source_ok s' /\ ended s' = ended s /\ pending s' = rest.
Proof.
  intros Hok Hx Hp. apply (readVarint_loop_enc s x 10 [] (leb_toBytes x)); try done.
  - intros E. pose proof (toBytes_nonempty x) as Hn. rewrite E in Hn. unfold uint_ok in Hx. cbn in Hn. lia.
  - by apply toBytes_length_10.
Qed.

(** The length prefix has not arrived completely. *)
Lemma readVarint_loop_short s x is_ buffer todo missing : source_ok s -> uint_ok 64 x ->
  leb_toBytes x = buffer ++ todo ++ missing -> missing <> [] -> (length todo < is_)%nat ->
  pending s = todo ->
  if ended s then exists s' e, readVarint_loop is_ s buffer = Raised s' e /\
    (e = LPStreamEOFError \/ e = LPStreamIncompleteError)
  else readVarint_loop is_ s buffer = Blocked.
Proof.
  intros Hok Hx. revert s buffer todo Hok.
  induction is_ as [|is_ IH]; intros s buffer todo Hok E Hm Hl Hp; [lia|]. cbn [readVarint_loop].
  destruct todo as [|b todo].
  - pose proof (readExactly_short s 1 Hok) as Hs. rewrite Hp in Hs. specialize (Hs ltac:(cbn; lia)).
    destruct (ended s); [|by rewrite Hs]. destruct Hs as (s' & e & -> & He). by exists s', e.
  - destruct (readExactly_enough s 1 [b] todo Hok) as (s1 & -> & Hok1 & He1 & Hp1); [lia|done|done|].
    cbn [obind]. rewrite app_assoc in E.
    assert (E' : leb_toBytes x = (buffer ++ [b]) ++ todo ++ missing) by (by rewrite E, <- !app_assoc).
    destruct (getUVarint_prefix x _ _ Hx E') as (n & v & ->); [by destruct todo|].
    rewrite <- He1. apply (IH s1 (buffer ++ [b]) todo Hok1 E' Hm); [cbn in Hl; lia|done].
Qed.

(** *** No read dies *)

Lemma readExactly_not_crashed s n : source_ok s -> (0 < n)%nat ->
  readExactly s n <> Crashed /\ forall s' d, readExactly s n = Done s' d -> source_ok s'.
Proof using L.
  intros Hok Hn. pose proof (readExactly_spec s n Hok Hn) as E.
  destruct (readExactly s n); cbn in E; [|done..]. split; [done|]. intros s' d [= <- <-]. tauto.
Qed.

Lemma readVarint_loop_not_crashed is_ s buffer : source_ok s ->
  readVarint_loop is_ s buffer <> Crashed /\
  forall s' d, readVarint_loop is_ s buffer = Done s' d -> source_ok s'.
Proof.
  revert s buffer. induction is_ as [|is_ IH]; intros s buffer Hok; cbn [readVarint_loop]; [done|].
  destruct (readExactly_not_crashed s 1 Hok ltac:(lia)) as [Hc Ho].
  destruct (readExactly s 1) as [s1 b| | |]; cbn [obind]; [|done..].
  specialize (Ho _ _ eq_refl). destruct (getUVarint _ _ _) as [[[u|[]] n] v]; try done; [|by apply IH].
  split; [done|]. by intros s' d [= <- <-].
Qed.
End Framing.

(** ** A plain source: the bytes that have arrived, and whether more can come *)

Record Queue := mkQueue { q_data : bytes; q_ended : bool; q_eof : bool }.

#[export] Instance queue_source : ByteSource Queue := {
  readOnce q n :=
    match q_data q with
    | [] => if q_eof q then Raised q LPStreamEOFError
            else if q_ended q then Done (mkQueue [] true true) [] else Blocked
    | d => Done (mkQueue (drop n d) (q_ended q) (q_eof q)) (take n d)
    end;
  atEof q := q_eof q && match q_data q with [] => true | _ => false end;
  pending := q_data;
  ended := q_ended;
  source_ok q := q_eof q = true -> q_ended q = true;
}.

#[export] Instance queue_laws : ByteSourceLaws Queue.
Proof.
  split; unfold readOnce, atEof, pending, ended, source_ok; cbn.
  - intros [d en eof] n s' d'. cbn. intros Hok Hn. destruct d as [|b d].
    + destruct eof; [done|]. destruct en; [|done]. intros [= <- <-]. cbn. split_and!; auto with lia.
    + intros [= <- <-]. cbn [q_data q_ended q_eof]. rewrite take_drop, length_take.
      split_and!; try done; [lia|]. destruct n; [lia|done].
  - intros [[|b d] en eof] n; cbn; [|done]. by destruct eof, en.
  - intros [[|b d] en eof] n s' e; cbn; [|done]. destruct eof; [|by destruct en].
    intros Hok _ [= <- <-]. auto.
  - intros [[|b d] en eof] n; cbn; [|done]. by destruct eof, en.
  - intros [[|b d] en eof]; cbn; [|by rewrite andb_false_r]. destruct eof; [|done]. auto.
Qed.

(** ** Framing *)

Definition maxLen (maxSize : Z) : Z := if maxSize <? 0 then 2 ^ 63 - 1 else maxSize.

Section Properties.
#[local] Set Default Proof Using "Type*".
Context `{LB : Leb128} {S : Type} `{L : ByteSourceLaws S}.
Implicit Types (s : S) (max : Z) (msg rest missing : bytes).

Lemma length_uint (msg : bytes) :
  Z.of_nat (length msg) < 2 ^ 63 -> uint_ok 64 (Z.of_nat (length msg)).
Proof using. unfold uint_ok. pow2. lia. Qed.

Lemma writeLp_nonempty msg : writeLp msg <> [].
Proof using.
  intros [E _]%app_eq_nil. pose proof (toBytes_nonempty (Z.of_nat (length msg)) ltac:(lia)) as Hn.
  unfold PB_toBytes in E. cbn [toUleb] in E. rewrite E in Hn. cbn in Hn. lia.
Qed.

Lemma readLp_frame s max msg rest : source_ok s -> max < 2 ^ 63 ->
  Z.of_nat (length msg) <= maxLen max -> pending s = writeLp msg ++ rest ->
  exists s', readLp s max = Done s' msg /\ source_ok s' /\ ended s' = ended s /\ pending s' = rest.
Proof.
  intros Hok Hmax Hlen Hp. unfold writeLp in Hp. rewrite <- app_assoc in Hp.
  assert (Hm : maxLen max < 2 ^ 63) by (unfold maxLen; zbool; [pow2; lia|done]).
  destruct (readVarint_enc s (Z.of_nat (length msg)) (msg ++ rest) Hok) as (s1 & E1 & Hok1 & He1 & Hp1);
    [apply length_uint; lia|exact Hp|].
  unfold readLp. rewrite E1; cbn [obind]. fold (maxLen max).
  rewrite (proj2 (Z.ltb_ge _ _)) by done. destruct (Z.eqb_spec (Z.of_nat (length msg)) 0) as [Hz|Hz].
  - assert (msg = []) as -> by (by apply length_zero_iff_nil; lia). by exists s1.
  - rewrite Nat2Z.id. rewrite <- He1. apply readExactly_enough; [done|lia|done|done].
Qed.

Lemma readLp_too_long s max msg rest : source_ok s ->
  Z.of_nat (length msg) < 2 ^ 63 -> maxLen max < Z.of_nat (length msg) ->
  pending s = writeLp msg ++ rest ->
  exists s', readLp s max = Raised s' MaxSizeError /\ pending s' = msg ++ rest.
Proof.
  intros Hok Hlen Hmax Hp. unfold writeLp in Hp. rewrite <- app_assoc in Hp.
  destruct (readVarint_enc s (Z.of_nat (length msg)) (msg ++ rest) Hok) as (s1 & E1 & Hok1 & He1 & Hp1);
    [by apply length_uint|exact Hp|].
  unfold readLp. rewrite E1; cbn [obind]. fold (maxLen max).
  rewrite (proj2 (Z.ltb_lt _ _)) by done. by exists s1.
Qed.

Lemma readLp_short s max msg missing : source_ok s -> max < 2 ^ 63 ->
  Z.of_nat (length msg) <= maxLen max -> pending s ++ missing = writeLp msg -> missing <> [] ->
  if ended s then exists s' e, readLp s max = Raised s' e /\
    (e = LPStreamEOFError \/ e = LPStreamIncompleteError)
  else readLp s max = Blocked.
Proof.
  intros Hok Hmax Hlen Hp Hm.
  assert (Hm' : maxLen max < 2 ^ 63) by (unfold maxLen; zbool; [pow2; lia|done]).
  pose proof (length_uint msg ltac:(lia)) as Hu.
  set (enc := leb_toBytes (Z.of_nat (length msg))) in *. unfold readLp, readVarint.
  apply app_eq_inv in Hp as [(k & Hk & Hmsg)|(k & Hk & ->)].
  - (* the prefix is there, the message is not *)
    destruct (readVarint_enc s (Z.of_nat (length msg)) k Hok Hu Hk) as (s1 & E1 & Hok1 & He1 & Hp1).
    unfold readVarint in E1. rewrite E1; cbn [obind]. fold (maxLen max).
    rewrite (proj2 (Z.ltb_ge _ _)) by done.
    assert (0 < length missing)%nat by (destruct missing; [done|cbn; lia]).
    assert (Hl : (length k < length msg)%nat) by (rewrite Hmsg, length_app; lia).
    rewrite (proj2 (Z.eqb_neq _ _)), Nat2Z.id by lia. rewrite <- He1.
    apply readExactly_short; [done|]. by rewrite Hp1.
  - (* the prefix is not complete *)
    destruct (decide (k = [])) as [->|Hne].
    + rewrite app_nil_r in Hk. destruct (readVarint_enc s (Z.of_nat (length msg)) [] Hok Hu)
        as (s1 & E1 & Hok1 & He1 & Hp1); [by rewrite app_nil_r|].
      unfold readVarint in E1. rewrite E1; cbn [obind]. fold (maxLen max).
      rewrite (proj2 (Z.ltb_ge _ _)) by done. cbn in Hm.
      rewrite (proj2 (Z.eqb_neq _ _)) by (destruct msg; [done|cbn; lia]).
      rewrite <- He1. apply readExactly_short; [done|]. rewrite Hp1; cbn. destruct msg; [done|cbn; lia].
    + pose proof (readVarint_loop_short s _ 10 [] (pending s) k Hok Hu Hk Hne) as Hs.
      pose proof (toBytes_length_10 _ Hu) as H10. fold enc in H10. unfold PB_toBytes in Hk.
      change (toUleb uint64 (Z.of_nat (length msg))) with (Z.of_nat (length msg)) in Hk. fold enc in Hk.
      assert (0 < length k)%nat by (destruct k; [done|cbn; lia]).
      rewrite Hk, length_app in H10. specialize (Hs ltac:(lia) eq_refl).
      destruct (ended s); [|by rewrite Hs]. destruct Hs as (s' & e & -> & He). by exists s', e.
Qed.

Lemma readLp_not_crashed s max : source_ok s -> readLp s max <> Crashed.
Proof.
  intros Hok. unfold readLp, readVarint.
  destruct (readVarint_loop_not_crashed 10 s [] Hok) as [Hc Ho].
  destruct (readVarint_loop 10 s []) as [s1 n| | |]; cbn [obind]; [|done..].
  specialize (Ho _ _ eq_refl). destruct (_ <? n); [done|]. destruct (Z.eqb_spec n 0); [done|].
  destruct (decide (0 < n)).
  - apply readExactly_not_crashed; [done|lia].
  - replace (Z.to_nat n) with O by lia. unfold readExactly.
    destruct (atEof s1) eqn:E; [|done]. by destruct (at_eof_raises s1 1 Ho E ltac:(lia)) as [s' ->].
Qed.

(** C26: On any stream, whatever the chunks the bytes come in: a message written by [writeLp]
is read back whole and nothing behind it is read; a longer one than the limit is refused
before its body is read; one that has arrived in part is waited for, and raises when the
stream has ended; no read fails an assertion or loops. *)
Theorem readLp_framing s (max : Z) (msg rest : bytes) : source_ok s -> max < 2 ^ 63 ->
  Z.of_nat (length msg) < 2 ^ 63 ->
  (pending s = writeLp msg ++ rest -> Z.of_nat (length msg) <= maxLen max ->
    exists s', readLp s max = Done s' msg /\ pending s' = rest /\ ended s' = ended s) /\
  (pending s = writeLp msg ++ rest -> maxLen max < Z.of_nat (length msg) ->
    exists s', readLp s max = Raised s' MaxSizeError /\ pending s' = msg ++ rest) /\
  (pending s ++ rest = writeLp msg -> rest <> [] -> Z.of_nat (length msg) <= maxLen max ->
    if ended s then exists s' e, readLp s max = Raised s' e /\
      (e = LPStreamEOFError \/ e = LPStreamIncompleteError)
    else readLp s max = Blocked) /\
  readLp s max <> Crashed.
Proof.
  intros Hok Hmax Hlen. split_and!.
  - intros Hp Hl. destruct (readLp_frame s max msg rest Hok Hmax Hl Hp) as (s' & ? & _ & ? & ?).
    by exists s'.
  - intros Hp Hl. by apply readLp_too_long.
  - intros Hp Hr Hl. by apply (readLp_short s max msg rest).
  - by apply readLp_not_crashed.
Qed.

End Properties.

Definition demo_queue : Queue := mkQueue ([3; 104; 105; 10] ++ [2; 1]) false false.

Lemma readLp_framing_witness :
  (exists s', @readLp leb128_ref Queue _ demo_queue 1024 = Done s' [104; 105; 10] /\ pending s' = [2; 1]) /\
  @readLp leb128_ref Queue _ (mkQueue [2; 1] false false) 1024 = Blocked.
Proof.
  split.
  - destruct (@readLp_framing leb128_ref Queue _ _ demo_queue 1024 [104; 105; 10] [2; 1])
      as (H & _); [done|done|done|]. destruct H as (s' & E & P & _); [by vm_compute|vm_compute; discriminate|].
    by exists s'.
  - destruct (@readLp_framing leb128_ref Queue _ _ (mkQueue [2; 1] false false) 1024 [1; 7] [7])
      as (_ & _ & H & _); [done|done|done|]. apply H; [by vm_compute|done|vm_compute; discriminate].
Defined.
