(* ===== verification/ZeroQueue.v ===== *)
(** * ZeroQueue: libp2p/utils/zeroqueue.nim

A queue of byte chunks, popped without copying: a partial pop returns a view of the first
chunk and moves its start.  The refinement theorem gives its meaning as a byte string. *)
From S2P Require Import Prelude.

#[local] Open Scope Z_scope.

Module ZeroQueue.

Record Chunk := mkChunk { data : bytes; size : Z; start : Z }.

Record ZeroQueue := mkQueue { chunks : list Chunk; queuedBytes : Z }.

(** ** Operations *)

Definition newChunk (b : bytes) : Chunk := mkChunk b (Z.of_nat (length b)) 0.

Definition chunk_len (c : Chunk) : Z := size c - start c.

Definition empty : ZeroQueue := mkQueue [] 0.

Definition clear (q : ZeroQueue) : ZeroQueue := mkQueue [] 0.

Definition isEmpty (q : ZeroQueue) : bool := (length (chunks q) =? 0)%nat.

Definition len (q : ZeroQueue) : Z := queuedBytes q.

Definition push (q : ZeroQueue) (b : bytes) : ZeroQueue :=
  if 0 <? Z.of_nat (length b) then
    mkQueue (chunks q ++ [newChunk b]) (queuedBytes q + Z.of_nat (length b))
  else q.

(** [popFirst] of an empty deque raises. *)
Definition popChunk (q : ZeroQueue) (count : Z) : option (Chunk * ZeroQueue) :=
  doAssert (0 <? count);;
  match chunks q with
  | [] => None
  | first :: rest =>
      if chunk_len first <=? count then
        Some (first, mkQueue rest (queuedBytes q - chunk_len first))
      else
        let ret := mkChunk (data first) (start first + count) (start first) in
        let first := mkChunk (data first) (size first) (start first + count) in
        Some (ret, mkQueue (first :: rest) (queuedBytes q - count))
  end.

(** The bytes [copyMem] reads from a chunk; [None] past the end of its data. *)
Definition chunk_copy (c : Chunk) : option bytes :=
  if (0 <=? start c) && (start c + chunk_len c <=? Z.of_nat (length (data c))) then
    Some (take (Z.to_nat (chunk_len c)) (drop (Z.to_nat (start c)) (data c)))
  else None.

(** Every iteration removes a chunk or is the last, so [S (length (chunks q))] is enough
fuel; the result is the bytes written to the caller's buffer. *)
Fixpoint consumeTo_loop (fuel : nat) (q : ZeroQueue) (nbytes : Z) (out : bytes) :
    option (bytes * ZeroQueue) :=
  match fuel with
  | O => None
  | S fuel =>
      if (Z.of_nat (length out) <? nbytes) && negb (isEmpty q) then
        '(chunk, q) ← popChunk q (nbytes - Z.of_nat (length out));
        b ← chunk_copy chunk;
        consumeTo_loop fuel q nbytes (out ++ b)
      else Some (out, q)
  end.

Definition consumeTo (q : ZeroQueue) (nbytes : Z) : option (bytes * ZeroQueue) :=
  consumeTo_loop (S (length (chunks q))) q nbytes [].

Definition popChunkSeq (q : ZeroQueue) (count : Z) : option (bytes * ZeroQueue) :=
  doAssert (0 <=? count);;
  if (count =? 0) || isEmpty q then Some ([], q)
  else '(chunk, q) ← popChunk q count; b ← chunk_copy chunk; Some (b, q).

(** ** Meaning *)

Definition chunk_bytes (c : Chunk) : bytes :=
  take (Z.to_nat (chunk_len c)) (drop (Z.to_nat (start c)) (data c)).

Definition contents (q : ZeroQueue) : bytes := concat (chunk_bytes <$> chunks q).

Definition chunk_ok (c : Chunk) : Prop := 0 <= start c < size c /\ size c <= Z.of_nat (length (data c)).

Definition queue_ok (q : ZeroQueue) : Prop :=
  Forall chunk_ok (chunks q) /\ queuedBytes q = Z.of_nat (length (contents q)).

(** ** Lemmas *)

Lemma chunk_copy_ok c : chunk_ok c ->
  chunk_copy c = Some (chunk_bytes c) /\ Z.of_nat (length (chunk_bytes c)) = chunk_len c.
Proof.
  unfold chunk_ok, chunk_copy, chunk_bytes, chunk_len. intros Hc.
  destruct (Z.leb_spec 0 (start c)); [|lia].
  destruct (Z.leb_spec (start c + (size c - start c)) (Z.of_nat (length (data c)))); [|lia].
  split; [done|]. rewrite length_take, length_drop. lia.
Qed.

Lemma contents_cons c rest n :
  contents (mkQueue (c :: rest) n) = chunk_bytes c ++ contents (mkQueue rest n).
Proof. done. Qed.

Lemma isEmpty_contents q : queue_ok q -> isEmpty q = true <-> contents q = [].
Proof.
  intros [Hc _]. unfold isEmpty, contents. destruct (chunks q) as [|c cs]; [done|].
  split; [done|]. apply Forall_cons in Hc as [Hc _]. cbn. intros E.
  apply app_eq_nil in E as [E _]. destruct (chunk_copy_ok c Hc) as [_ Hl].
  rewrite E in Hl. unfold chunk_ok, chunk_len in *. cbn in Hl. lia.
Qed.

Lemma empty_ok : queue_ok empty.
Proof. split; [constructor|done]. Qed.

Lemma push_ok q b : queue_ok q -> queue_ok (push q b) /\ contents (push q b) = contents q ++ b.
Proof.
  intros [Hc Hq]. unfold push. destruct (Z.ltb_spec 0 (Z.of_nat (length b))) as [Hb|Hb].
  - assert (Hn : chunk_bytes (newChunk b) = b).
    { unfold chunk_bytes, chunk_len, newChunk. cbn. rewrite Z.sub_0_r, Nat2Z.id.
      by apply take_ge. }
    assert (E : contents (mkQueue (chunks q ++ [newChunk b]) (queuedBytes q + Z.of_nat (length b)))
      = contents q ++ b).
    { unfold contents. cbn [chunks]. rewrite fmap_app, concat_app. cbn. by rewrite Hn, app_nil_r. }
    split; [split|exact E]; cbn [chunks queuedBytes].
    + apply Forall_app. split; [done|]. apply Forall_singleton. unfold chunk_ok, newChunk. cbn. lia.
    + rewrite E, length_app, Hq. lia.
  - destruct b; [|cbn in Hb; lia]. by rewrite app_nil_r.
Qed.

(** A pop takes a non-empty prefix, at most [count] bytes and no more than the first chunk. *)
Lemma popChunk_ok q count : queue_ok q -> contents q <> [] -> 0 < count ->
  exists c q', popChunk q count = Some (c, q') /\ chunk_ok c /\ queue_ok q' /\
    contents q = chunk_bytes c ++ contents q' /\ chunk_len c <= count /\
    (chunk_len c = count \/ (length (chunks q') < length (chunks q))%nat).
Proof.
  intros [Hc Hq] Hne Hcount. unfold popChunk. destruct (Z.ltb_spec 0 count); [|lia]. cbn.
  destruct q as [cs n]. destruct cs as [|first rest]; [done|]. cbn [chunks queuedBytes] in *.
  rewrite contents_cons in Hq. apply Forall_cons in Hc as [Hf Hc].
  destruct (chunk_copy_ok first Hf) as [_ Hl].
  destruct (Z.leb_spec (chunk_len first) count).
  - exists first. eexists. split; [done|]. split; [done|]. split; [split|].
    + done.
    + rewrite length_app in Hq. change (contents (mkQueue rest n)) with
        (contents (mkQueue rest (n - chunk_len first))) in Hq. cbn [queuedBytes]. lia.
    + split; [done|]. split; [done|]. right. cbn. lia.
  - eexists _, _. split; [done|].
    set (ret := mkChunk (data first) (start first + count) (start first)).
    set (first' := mkChunk (data first) (size first) (start first + count)).
    assert (Hb : chunk_bytes first = chunk_bytes ret ++ chunk_bytes first').
    { unfold chunk_bytes, chunk_len, ret, first'. cbn [data size start].
      unfold chunk_ok, chunk_len in *.
      replace (Z.to_nat (start first + count)) with (Z.to_nat (start first) + Z.to_nat count)%nat by lia.
      rewrite <- drop_drop.
      replace (Z.to_nat (start first + count - start first)) with (Z.to_nat count) by lia.
      replace (Z.to_nat (size first - start first))
        with (Z.to_nat count + Z.to_nat (size first - (start first + count)))%nat by lia.
      by rewrite take_take_drop. }
    assert (Hr : chunk_ok ret /\ chunk_ok first')
      by (unfold chunk_ok, chunk_len, ret, first' in *; cbn in *; lia).
    destruct Hr as [Hr Hf']. split; [done|].
    assert (E : contents (mkQueue (first :: rest) n) =
      chunk_bytes ret ++ contents (mkQueue (first' :: rest) (n - count))).
    { rewrite !contents_cons, Hb, <- app_assoc. done. }
    split; [split; [by constructor|]|].
    + cbn [queuedBytes]. destruct (chunk_copy_ok ret Hr) as [_ Hlr].
      assert (chunk_len ret = count) by (unfold chunk_len, ret; cbn; lia).
      rewrite <- contents_cons, E, length_app in Hq. lia.
    + split; [done|]. unfold chunk_len, ret. cbn. split; [lia|left; lia].
Qed.

Lemma consumeTo_loop_ok fuel q nbytes out : queue_ok q -> (length (chunks q) < fuel)%nat ->
  Z.of_nat (length out) <= Z.max 0 nbytes ->
  exists q', consumeTo_loop fuel q nbytes out =
      Some (out ++ take (Z.to_nat nbytes - length out) (contents q), q') /\
    queue_ok q' /\ contents q' = drop (Z.to_nat nbytes - length out) (contents q).
Proof.
  revert q out. induction fuel as [|fuel IH]; intros q out Hq Hf Hout; [lia|].
  cbn [consumeTo_loop].
  destruct (Z.ltb_spec (Z.of_nat (length out)) nbytes) as [Hlt|Hge]; cbn [andb].
  - destruct (isEmpty q) eqn:Ee; cbn [negb].
    { apply isEmpty_contents in Ee; [|done]. exists q. rewrite Ee, take_nil, drop_nil, app_nil_r.
      done. }
    assert (Hne : contents q <> []).
    { intros E. apply isEmpty_contents in E; [congruence|done]. }
    destruct (popChunk_ok q (nbytes - Z.of_nat (length out)) Hq Hne)
      as (c & q1 & -> & Hc & Hq1 & E & Hcl & Hdec); [lia|].
    destruct (chunk_copy_ok c Hc) as [Ec Hl]. cbn [mbind option_bind]. rewrite Ec.
    cbn [mbind option_bind].
    assert (Hpos : 0 < chunk_len c) by (unfold chunk_ok, chunk_len in *; lia).
    set (b := chunk_bytes c) in *.
    assert (Hsplit : forall k, (length b <= k)%nat ->
      take k (contents q) = b ++ take (k - length b) (contents q1) /\
      drop k (contents q) = drop (k - length b) (contents q1)).
    { intros k Hk. rewrite E. by rewrite take_app_ge, drop_app_ge by lia. }
    destruct Hdec as [Hall|Hless].
    + destruct (Hsplit (Z.to_nat nbytes - length out)%nat ltac:(lia)) as [-> ->].
      replace (Z.to_nat nbytes - length out - length b)%nat with O by lia.
      rewrite take_0, drop_0, app_nil_r. exists q1. split; [|done].
      destruct fuel as [|fuel']; [destruct q as [[|]]; cbn in *; lia|]. cbn [consumeTo_loop].
      destruct (Z.ltb_spec (Z.of_nat (length (out ++ b))) nbytes) as [Hx|Hx]; [|done].
      rewrite length_app in Hx. lia.
    + destruct (IH q1 (out ++ b) Hq1) as (q' & E' & Hq' & Ec'); [lia|rewrite length_app; lia|].
      exists q'. rewrite E'. rewrite length_app in *.
      destruct (Hsplit (Z.to_nat nbytes - length out)%nat ltac:(lia)) as [-> ->].
      rewrite <- app_assoc. replace (Z.to_nat nbytes - (length out + length b))%nat
        with (Z.to_nat nbytes - length out - length b)%nat in * by lia. done.
  - exists q. replace (Z.to_nat nbytes - length out)%nat with O by lia.
    by rewrite take_0, app_nil_r, drop_0.
Qed.

Lemma consumeTo_ok q nbytes : queue_ok q ->
  exists q', consumeTo q nbytes = Some (take (Z.to_nat nbytes) (contents q), q') /\
    queue_ok q' /\ contents q' = drop (Z.to_nat nbytes) (contents q).
Proof.
  intros Hq. destruct (consumeTo_loop_ok (S (length (chunks q))) q nbytes []) as (q' & E & H);
    [done|lia|cbn; lia|]. cbn [length app] in *. rewrite Nat.sub_0_r in *. by exists q'.
Qed.

Lemma popChunkSeq_ok q count : queue_ok q -> 0 <= count ->
  exists b q', popChunkSeq q count = Some (b, q') /\ queue_ok q' /\
    contents q = b ++ contents q' /\ Z.of_nat (length b) <= count /\
    (b = [] <-> count = 0 \/ contents q = []).
Proof.
  intros Hq Hc. unfold popChunkSeq. destruct (Z.leb_spec 0 count); [|lia]. cbn.
  destruct (Z.eqb_spec count 0) as [->|Hne]; cbn [orb].
  { exists [], q. split_and!; try done. naive_solver. }
  destruct (isEmpty q) eqn:Ee.
  { exists [], q. split_and!; try done. apply isEmpty_contents in Ee; naive_solver. }
  assert (Hcne : contents q <> []).
  { intros E. apply isEmpty_contents in E; [congruence|done]. }
  destruct (popChunk_ok q count Hq Hcne) as (c & q1 & -> & Hck & Hq1 & E & Hcl & _); [lia|].
  destruct (chunk_copy_ok c Hck) as [Ec Hl]. cbn [mbind option_bind]. rewrite Ec. cbn.
  exists (chunk_bytes c), q1. split_and!; try done; [lia|]. split; [|naive_solver].
  intros E0. rewrite E0 in Hl. unfold chunk_ok, chunk_len in *. cbn in Hl. lia.
Qed.

(** ** Properties *)

Inductive op := Push (b : bytes) | Consume (nbytes : Z) | PopSeq (count : Z) | Clear.

(** The queue after an operation, and the bytes it returned. *)
Definition exec (q : ZeroQueue) (o : op) : option (bytes * ZeroQueue) :=
  match o with
  | Push b => Some ([], push q b)
  | Consume n => consumeTo q n
  | PopSeq n => popChunkSeq q n
  | Clear => Some ([], clear q)
  end.

Fixpoint run (q : ZeroQueue) (ops : list op) : option (bytes * ZeroQueue) :=
  match ops with
  | [] => Some ([], q)
  | o :: ops => '(out, q) ← exec q o; '(rest, q) ← run q ops; Some (out ++ rest, q)
  end.

(** Everything pushed by a sequence of operations. *)
Definition pushed (ops : list op) : bytes :=
  concat ((fun o => match o with Push b => b | _ => [] end) <$> ops).

Definition op_ok (o : op) : Prop :=
  match o with PopSeq n => 0 <= n | Clear => False | _ => True end.

(** the queue is a first-in first-out byte string: after any sequence of pushes and pops
(no assertion fails for counts that are not negative), the bytes returned followed by the
bytes queued are the bytes pushed; [consumeTo] of [n] bytes then returns exactly the next
[min(n, len)], [len] is the number of bytes queued and [isEmpty] says there are none. *)
Theorem zeroqueue_fifo (ops : list op) (n : Z) : Forall op_ok ops ->
  exists out q, run empty ops = Some (out, q) /\ out ++ contents q = pushed ops /\
    len q = Z.of_nat (length (contents q)) /\ (isEmpty q = true <-> contents q = []) /\
    exists q', consumeTo q n = Some (take (Z.to_nat n) (contents q), q') /\
      contents q' = drop (Z.to_nat n) (contents q) /\
      contents (clear q) = [] /\ len (clear q) = 0.
Proof.
  intros Hops.
  assert (H : forall q, queue_ok q -> exists out q', run q ops = Some (out, q') /\ queue_ok q' /\
    out ++ contents q' = contents q ++ pushed ops).
  { induction Hops as [|o ops Ho Hops IH]; intros q Hq; cbn [run].
    { exists [], q. by rewrite app_nil_r. }
    assert (Hstep : exists out1 q1, exec q o = Some (out1, q1) /\ queue_ok q1 /\
      out1 ++ contents q1 = contents q ++ match o with Push b => b | _ => [] end).
    { destruct o as [b|k|k|]; cbn [exec op_ok] in *.
      - destruct (push_ok q b Hq) as [Hq1 E]. by exists [], (push q b).
      - destruct (consumeTo_ok q k Hq) as (q1 & E & Hq1 & Ec). rewrite E. eexists _, q1.
        split; [done|]. split; [done|]. by rewrite Ec, take_drop, app_nil_r.
      - destruct (popChunkSeq_ok q k Hq Ho) as (b & q1 & E & Hq1 & Ec & _). rewrite E.
        exists b, q1. by rewrite app_nil_r.
      - done. }
    destruct Hstep as (out1 & q1 & -> & Hq1 & E1). cbn.
    destruct (IH q1 Hq1) as (out2 & q2 & -> & Hq2 & E2). cbn.
    eexists _, q2. split; [done|]. split; [done|]. unfold pushed in *. cbn.
    by rewrite <- app_assoc, E2, app_assoc, E1, app_assoc. }
  destruct (H empty empty_ok) as (out & q & E & Hq & Ec). exists out, q.
  split; [done|]. split; [done|]. split; [apply Hq|]. split; [by apply isEmpty_contents|].
  destruct (consumeTo_ok q n Hq) as (q' & E' & _ & Ec'). by exists q'.
Qed.

Lemma zeroqueue_fifo_witness :
  exists out q, run empty [Push [1; 2; 3]; Consume 2; Push [4]; PopSeq 5] = Some (out, q) /\
    out ++ contents q = [1; 2; 3; 4].
Proof.
  destruct (zeroqueue_fifo [Push [1; 2; 3]; Consume 2; Push [4]; PopSeq 5] 1)
    as (out & q & E & H & _).
  - repeat constructor. cbn. lia.
  - exists out, q. split; [exact E|exact H].
Defined.

End ZeroQueue.
