(* ===== verification/BufferStream.v ===== *)
(** * BufferStream: libp2p/stream/bufferstream.nim

A stream filled by [pushData] and [pushEof] and emptied by [readOnce].  Between the two is an
[AsyncQueue] of chronos with room for one chunk; an empty chunk is the marker of the end.  The
procedures wait on that queue, so that a push, a read, a cancellation and [closeImpl] interleave.

[step] runs a procedure up to its wait, or one that waits from there on: a push is [Adding]
until the queue takes its chunk, and [Added] until the caller goes on; a read is [Waiting] until
its pop of the queue is done, and [Popped] until it goes on.  The flags [pushing] and [reading]
of the object, and [pendingRead.finished()], are functions of these states.  The queue is the
class [AsyncQueue]. *)
From S2P Require Import Prelude LpStream ZeroQueue.

#[local] Open Scope Z_scope.

(** The procedures of a queue that do not wait; [None] is AsyncQueueFullError or
AsyncQueueEmptyError.  [addLast] waits for [addLastNoWait] to succeed, [popFirst] for
[popFirstNoWait]. *)
Class AsyncQueue : Type := {
  aqueue : Type;
  newAsyncQueue : nat -> aqueue;
  aq_head : aqueue -> option bytes;
  addLastNoWait : bytes -> aqueue -> option aqueue;
  popFirstNoWait : aqueue -> option (bytes * aqueue);
}.

(** [items] are the chunks in the queue, at most [maxsize] of them. *)
Class AsyncQueueLaws `(Q : AsyncQueue) : Type := {
  items : aqueue -> list bytes;
  maxsize : aqueue -> nat;
  new_items n : items (newAsyncQueue n) = [] /\ maxsize (newAsyncQueue n) = n;
  head_items q : aq_head q = head (items q);
  add_items x q : match addLastNoWait x q with
    | Some q' => (length (items q) < maxsize q)%nat /\ items q' = items q ++ [x] /\
        maxsize q' = maxsize q
    | None => (maxsize q <= length (items q))%nat
    end;
  pop_items q : match popFirstNoWait q with
    | Some (x, q') => items q = x :: items q' /\ maxsize q' = maxsize q
    | None => items q = []
    end;
}.

(** [Eof]: the empty chunk. *)
Definition Eof : bytes := [].

Inductive pusher : Type := NoPush | Adding (data : bytes) | Added.

Inductive reader : Type := NoRead | Waiting (nbytes : nat) | Popped (nbytes : nat) (buf : bytes).

Inductive event : Type :=
| Queued (data : bytes)
| PushDone
| PushClosed
| ReadDone (data : bytes)
| ReadEof
| Cancelled.

Inductive act : Type :=
| PushData (data : bytes)
| PushEof
| ResumeAdd
| ResumePush
| CancelPush
| ReadOnce (nbytes : nat)
| ResumePop
| ResumeRead
| CancelRead
| Close.

Section Model.
Context `{Q : AsyncQueue}.

Record BufferStream : Type := mkBufferStream {
  readQueue : aqueue;
  readBuf : ZeroQueue.ZeroQueue;
  push : pusher;
  read : reader;
  isClosed : bool;
  isEof : bool;
  pushedEof : bool;
  returnedEof : bool;
}.

Implicit Types (s : BufferStream) (data : bytes).

Definition set_queue (q : aqueue) s : BufferStream :=
  mkBufferStream q (readBuf s) (push s) (read s) (isClosed s) (isEof s) (pushedEof s) (returnedEof s).

Definition set_readBuf (b : ZeroQueue.ZeroQueue) s : BufferStream :=
  mkBufferStream (readQueue s) b (push s) (read s) (isClosed s) (isEof s) (pushedEof s) (returnedEof s).

Definition set_push (p : pusher) s : BufferStream :=
  mkBufferStream (readQueue s) (readBuf s) p (read s) (isClosed s) (isEof s) (pushedEof s) (returnedEof s).

Definition set_read (r : reader) s : BufferStream :=
  mkBufferStream (readQueue s) (readBuf s) (push s) r (isClosed s) (isEof s) (pushedEof s) (returnedEof s).

Definition set_isEof s : BufferStream :=
  mkBufferStream (readQueue s) (readBuf s) (push s) (read s) (isClosed s) true (pushedEof s) (returnedEof s).

Definition set_pushedEof s : BufferStream :=
  mkBufferStream (readQueue s) (readBuf s) (push s) (read s) (isClosed s) (isEof s) true (returnedEof s).

Definition set_returnedEof (b : bool) s : BufferStream :=
  mkBufferStream (readQueue s) (readBuf s) (push s) (read s) (isClosed s) (isEof s) (pushedEof s) b.

(** [close] sets [isClosed], then [closeImpl] the other two. *)
Definition set_closed s : BufferStream :=
  mkBufferStream (readQueue s) (readBuf s) (push s) (read s) true true true (returnedEof s).

Definition pushing s : bool := match push s with NoPush => false | _ => true end.

Definition reading s : bool := match read s with NoRead => false | _ => true end.

Definition initStream : BufferStream :=
  mkBufferStream (newAsyncQueue 1) ZeroQueue.empty NoPush NoRead false false false false.

(** [await s.readQueue.addLast(data)], without waiting when there is room. *)
Definition addLast data s : BufferStream * list event :=
  match addLastNoWait data (readQueue s) with
  | Some q => (set_queue q s, [Queued data; PushDone])
  | None => (set_push (Adding data) s, [])
  end.

Definition pushData data s : option (BufferStream * list event) :=
  doAssert (negb (pushing s));;
  if isClosed s || pushedEof s then Some (s, [PushClosed])
  else if (length data =? 0)%nat then Some (s, [PushDone])
  else Some (addLast data s).

Definition pushEof s : option (BufferStream * list event) :=
  if pushedEof s then Some (s, [PushDone])
  else
    doAssert (negb (pushing s));;
    Some (addLast Eof (set_pushedEof s)).

Definition atEof s : bool := isEof s && ZeroQueue.isEmpty (readBuf s).

(** The end of [readOnce]. *)
Definition consume (nbytes : nat) s : option (BufferStream * list event) :=
  '(out, b) ← ZeroQueue.consumeTo (readBuf s) (Z.of_nat nbytes);
  Some (set_returnedEof (length out =? 0)%nat (set_readBuf b s), [ReadDone out]).

(** What [readOnce] does once it has popped [buf]. *)
Definition resumeRead (nbytes : nat) (buf : bytes) s : option (BufferStream * list event) :=
  consume nbytes
    (if (length buf =? 0)%nat then set_isEof s else set_readBuf (ZeroQueue.push (readBuf s) buf) s).

Definition readOnce (nbytes : nat) s : option (BufferStream * list event) :=
  doAssert (0 <? nbytes)%nat;;
  doAssert (negb (reading s));;
  if returnedEof s then Some (s, [ReadEof])
  else if negb (isEof s) && (ZeroQueue.len (readBuf s) <? Z.of_nat nbytes) then
    match popFirstNoWait (readQueue s) with
    | Some (buf, q) => resumeRead nbytes buf (set_queue q s)
    | None => Some (set_read (Waiting nbytes) s, [])
    end
  else consume nbytes s.

(** The [CancelledError] branch of [readOnce]. *)
Definition cancelRead s : option (BufferStream * list event) :=
  let s := set_read NoRead s in
  if isEof s && bool_decide (aq_head (readQueue s) = Some Eof) then
    '(_, q) ← popFirstNoWait (readQueue s); Some (set_queue q s, [Cancelled])
  else Some (s, [Cancelled]).

(** [close] and [closeImpl]; the base method closes the connection below. *)
Definition close s : option (BufferStream * list event) :=
  if isClosed s then Some (s, [])
  else
    let s := set_readBuf (ZeroQueue.clear (readBuf s)) (set_closed s) in
    match read s with
    | Waiting _ =>
        match aq_head (readQueue s) with
        | None => q ← addLastNoWait Eof (readQueue s); Some (set_queue q s, [])
        | Some _ => Some (s, [])
        end
    | _ =>
        if pushing s then
          match aq_head (readQueue s) with
          | Some _ => '(_, q) ← popFirstNoWait (readQueue s); Some (set_queue q s, [])
          | None => Some (s, [])
          end
        else Some (s, [])
    end.

(** One turn of the scheduler or a call; what cannot go on stays as it is. *)
Definition step s (a : act) : option (BufferStream * list event) :=
  match a with
  | PushData data => pushData data s
  | PushEof => pushEof s
  | ResumeAdd =>
      match push s with
      | Adding data =>
          match addLastNoWait data (readQueue s) with
          | Some q => Some (set_push Added (set_queue q s), [Queued data])
          | None => Some (s, [])
          end
      | _ => Some (s, [])
      end
  | ResumePush =>
      match push s with Added => Some (set_push NoPush s, [PushDone]) | _ => Some (s, []) end
  | CancelPush =>
      match push s with Adding _ => Some (set_push NoPush s, [Cancelled]) | _ => Some (s, []) end
  | ReadOnce nbytes => readOnce nbytes s
  | ResumePop =>
      match read s with
      | Waiting nbytes =>
          match popFirstNoWait (readQueue s) with
          | Some (buf, q) => Some (set_read (Popped nbytes buf) (set_queue q s), [])
          | None => Some (s, [])
          end
      | _ => Some (s, [])
      end
  | ResumeRead =>
      match read s with
      | Popped nbytes buf => resumeRead nbytes buf (set_read NoRead s)
      | _ => Some (s, [])
      end
  | CancelRead =>
      match read s with Waiting _ => cancelRead s | _ => Some (s, []) end
  | Close => close s
  end.

Fixpoint run s (acts : list act) : option (BufferStream * list event) :=
  match acts with
  | [] => Some (s, [])
  | a :: acts =>
      '(s, ev) ← step s a;
      '(s, ev') ← run s acts;
      Some (s, ev ++ ev')
  end.

End Model.

Arguments consume {Q} nbytes s : simpl never.

Arguments resumeRead {Q} nbytes buf s : simpl never.

(** ** Invariants *)

Section Facts.
Context `{L : AsyncQueueLaws}.
Implicit Types (s : BufferStream) (data : bytes).

(** Holds of every state, closed or not. *)
Record base s : Prop := {
  b_buf : ZeroQueue.queue_ok (readBuf s);
  b_max : maxsize (readQueue s) = 1%nat;
  b_items : (length (items (readQueue s)) <= 1)%nat;
  b_read : match read s with Waiting n | Popped n _ => (0 < n)%nat | NoRead => True end;
}.

(** The bytes between the queue and the reader. *)
Definition in_stream s : bytes :=
  ZeroQueue.contents (readBuf s) ++ match read s with Popped _ buf => buf | _ => [] end ++
  concat (items (readQueue s)).

Definition read_bytes (evs : list event) : bytes :=
  concat ((fun e => match e with ReadDone b => b | _ => [] end) <$> evs).

Definition queued_bytes (evs : list event) : bytes :=
  concat ((fun e => match e with Queued b => b | _ => [] end) <$> evs).

Lemma read_bytes_app ev ev' : read_bytes (ev ++ ev') = read_bytes ev ++ read_bytes ev'.
Proof. unfold read_bytes. by rewrite fmap_app, concat_app. Qed.

Lemma queued_bytes_app ev ev' : queued_bytes (ev ++ ev') = queued_bytes ev ++ queued_bytes ev'.
Proof. unfold queued_bytes. by rewrite fmap_app, concat_app. Qed.

(** Where the marker of the end is, while the stream is not closed. *)
Record open_inv s : Prop := {
  o_open : isClosed s = false;
  o_unmarked : pushedEof s = false -> isEof s = false /\
    match push s with Adding data => data <> [] | _ => True end /\
    match read s with Popped _ buf => buf <> [] | _ => True end /\ Eof ∉ items (readQueue s);
  o_marked : pushedEof s = true -> match push s with Adding data => data = [] | _ => True end;
  o_eof : isEof s = true -> items (readQueue s) = [] /\ read s = NoRead /\
    match push s with Adding _ => False | _ => True end;
  o_popped : match read s with
    | Popped _ [] => items (readQueue s) = [] /\ match push s with Adding _ => False | _ => True end
    | _ => True end;
  o_items : Eof ∈ items (readQueue s) -> match push s with Adding _ => False | _ => True end;
  o_returned : returnedEof s = true -> isEof s = true /\ ZeroQueue.contents (readBuf s) = [];
}.

(** What a call does besides the state: the bytes it delivers were in the stream. *)
Definition pipe s s' (ev : list event) : Prop :=
  in_stream s ++ queued_bytes ev = read_bytes ev ++ in_stream s'.

Lemma pop_cases q : match popFirstNoWait q with
  | Some (x, q') => items q = x :: items q' /\ maxsize q' = maxsize q
  | None => items q = []
  end.
Proof. apply pop_items. Qed.

(** The end of a read, in general. *)
Lemma consume_ok n s : ZeroQueue.queue_ok (readBuf s) ->
  exists b, consume n s = Some (set_returnedEof
      (length (take n (ZeroQueue.contents (readBuf s))) =? 0)%nat (set_readBuf b s),
      [ReadDone (take n (ZeroQueue.contents (readBuf s)))]) /\
    ZeroQueue.queue_ok b /\ ZeroQueue.contents b = drop n (ZeroQueue.contents (readBuf s)).
Proof.
  intros Hq. destruct (ZeroQueue.consumeTo_ok (readBuf s) (Z.of_nat n) Hq) as (b & E & Hb & Hc).
  rewrite Nat2Z.id in *. exists b. unfold consume. rewrite E. done.
Qed.

(** A read that has popped [buf]: the state, the bytes, and the end. *)
Lemma resumeRead_ok n buf s : base s -> (0 < n)%nat -> read s = NoRead ->
  exists s' out, resumeRead n buf s = Some (s', [ReadDone out]) /\ base s' /\
    ZeroQueue.contents (readBuf s) ++ buf = out ++ ZeroQueue.contents (readBuf s') /\
    (length out <= n)%nat /\
    isEof s' = isEof s || (length buf =? 0)%nat /\ returnedEof s' = (length out =? 0)%nat /\
    readQueue s' = readQueue s /\ push s' = push s /\ read s' = NoRead /\
    isClosed s' = isClosed s /\ pushedEof s' = pushedEof s /\
    (out = [] -> buf = [] /\ ZeroQueue.contents (readBuf s') = []).
Proof.
  intros [Hq Hm Hi _] Hn Hr. unfold resumeRead.
  set (s1 := if (length buf =? 0)%nat then set_isEof s
             else set_readBuf (ZeroQueue.push (readBuf s) buf) s).
  assert (H1 : ZeroQueue.queue_ok (readBuf s1) /\
    ZeroQueue.contents (readBuf s1) = ZeroQueue.contents (readBuf s) ++ buf).
  { unfold s1. destruct buf; [by rewrite app_nil_r|]. by apply ZeroQueue.push_ok. }
  destruct H1 as [Hq1 Hc1]. destruct (consume_ok n s1 Hq1) as (b & -> & Hb & Hcb).
  eexists _, _. split; [done|].
  assert (Hr1 : read s1 = NoRead) by (unfold s1; by destruct (length buf =? 0)%nat).
  split; [split; cbn; unfold s1; destruct (length buf =? 0)%nat; cbn; by rewrite ?Hr|].
  cbn. rewrite Hcb, <- Hc1, take_drop. split; [done|]. rewrite length_take. split; [lia|].
  split; [unfold s1; destruct buf; cbn; by rewrite ?orb_true_r, ?orb_false_r|].
  split; [done|]. split; [by unfold s1; destruct buf|]. split; [by unfold s1; destruct buf|].
  split; [done|]. split; [by unfold s1; destruct buf|]. split; [by unfold s1; destruct buf|].
  intros E. destruct (ZeroQueue.contents (readBuf s1)) as [|x l] eqn:E1.
  - symmetry in Hc1. apply app_eq_nil in Hc1 as [_ ->]. by rewrite drop_nil.
  - destruct n; [lia|]. done.
Qed.

(** Calls that two tasks may not make at once. *)
Definition misuse s (a : act) : bool :=
  match a with
  | PushData _ => pushing s
  | PushEof => negb (pushedEof s) && pushing s
  | ReadOnce n => (n =? 0)%nat || reading s
  | _ => false
  end.

Lemma step_misuse s a : misuse s a = true -> step s a = None.
Proof.
  destruct a as [data| | | | |n| | | |]; cbn; try done.
  - unfold pushData. by intros ->.
  - unfold pushEof. intros [Hp ->]%andb_true_iff. by destruct (pushedEof s).
  - unfold readOnce. intros [Hn|Hr]%orb_true_iff.
    + by apply Nat.eqb_eq in Hn as ->.
    + rewrite Hr. by destruct (0 <? n)%nat.
Qed.

Lemma pushing_false s : pushing s = false -> push s = NoPush.
Proof. unfold pushing. by destruct (push s). Qed.

Lemma reading_false s : reading s = false -> read s = NoRead.
Proof. unfold reading. by destruct (read s). Qed.

(** [addLast], and [ResumeAdd]. *)
Lemma add_ok data s : base s ->
  match addLastNoWait data (readQueue s) with
  | Some q => base (set_queue q s) /\ items (readQueue s) = [] /\ items q = [data] /\
      in_stream (set_queue q s) = in_stream s ++ data
  | None => exists x, items (readQueue s) = [x]
  end.
Proof.
  intros [Hq Hm Hi Hr]. pose proof (add_items data (readQueue s)) as H.
  destruct (addLastNoWait data (readQueue s)) as [q|].
  - destruct H as (Hlt & Hit & Hmx).
    assert (E : items (readQueue s) = [])
      by (destruct (items (readQueue s)); [done|cbn in *; lia]).
    rewrite E in Hit. split; [split; cbn; rewrite ?Hit; cbn; (done || congruence || lia)|].
    split; [done|]. split; [done|]. unfold in_stream. cbn. rewrite Hit, E. cbn.
    by rewrite !app_nil_r, app_assoc.
  - rewrite Hm in H. destruct (items (readQueue s)) as [|x [|]]; cbn in *; try lia. by exists x.
Qed.

Lemma addLast_ok data s : base s -> push s = NoPush ->
  let '(s', ev) := addLast data s in base s' /\ pipe s s' ev.
Proof.
  intros Hb Hp. unfold addLast. pose proof (add_ok data s Hb) as H.
  destruct (addLastNoWait data (readQueue s)) as [q|].
  - destruct H as (Hb' & _ & _ & E). split; [done|]. unfold pipe. rewrite E.
    cbn. by rewrite app_nil_r.
  - split; [by destruct Hb|]. unfold pipe. cbn. by rewrite app_nil_r.
Qed.

Lemma pipe_refl s s' : in_stream s' = in_stream s -> pipe s s' [].
Proof. intros E. unfold pipe. cbn. by rewrite E, app_nil_r. Qed.

#[local] Ltac same_state := eexists _, _; split_and!; [reflexivity|assumption|auto].

(** A call that is not a misuse does not fail, and only [close] loses bytes. *)
Lemma step_ok s a : base s -> misuse s a = false ->
  exists s' ev, step s a = Some (s', ev) /\ base s' /\ (a <> Close -> pipe s s' ev).
Proof.
  intros Hb Ha. pose proof Hb as [Hq Hm Hi Hr].
  assert (Hsame : forall ev, queued_bytes ev = [] -> read_bytes ev = [] -> pipe s s ev).
  { intros ev E1 E2. unfold pipe. by rewrite E1, E2, app_nil_r. }
  destruct a as [data| | | | |n| | | |]; cbn [step misuse] in Ha |- *.
  - unfold pushData. rewrite Ha. cbn. destruct (isClosed s || pushedEof s); [by same_state|].
    destruct (length data =? 0)%nat; [by same_state|].
    pose proof (addLast_ok data s Hb (pushing_false _ Ha)) as H.
    destruct (addLast data s) as [s' ev]. exists s', ev. by destruct H.
  - unfold pushEof. destruct (pushedEof s); [by same_state|].
    cbn in Ha. rewrite Ha. cbn.
    pose proof (addLast_ok Eof (set_pushedEof s)) as H.
    destruct (addLast Eof (set_pushedEof s)) as [s' ev]. exists s', ev.
    destruct H as [H1 H2]; [done|by apply pushing_false|]. done.
  - destruct (push s) as [|data|] eqn:Ep; [by same_state| |
      by same_state].
    pose proof (add_ok data s Hb) as H. destruct (addLastNoWait data (readQueue s)) as [q|].
    + destruct H as (Hb' & _ & _ & E). eexists _, _. split; [done|]. split; [by destruct Hb'|].
      intros _. unfold pipe. cbn. rewrite app_nil_r. symmetry. exact E.
    + by same_state.
  - destruct (push s); try (by same_state). eexists _, _. split; [done|].
    split; [by destruct Hb|]. intros _. unfold pipe. cbn. by rewrite app_nil_r.
  - destruct (push s); try (by same_state). eexists _, _. split; [done|].
    split; [by destruct Hb|]. intros _. unfold pipe. cbn. by rewrite app_nil_r.
  - apply orb_false_iff in Ha as [Hn Hrd]. apply Nat.eqb_neq in Hn. unfold readOnce.
    rewrite (proj2 (Nat.ltb_lt 0 n)), Hrd by lia. cbn [doAssert mbind option_bind negb].
    pose proof (reading_false _ Hrd) as Er.
    destruct (returnedEof s); [by same_state|].
    destruct (negb (isEof s) && _).
    + pose proof (pop_items (readQueue s)) as H. destruct (popFirstNoWait (readQueue s)) as [[buf q]|].
      * destruct H as [Hit Hmx].
        destruct (resumeRead_ok n buf (set_queue q s)) as
          (s' & out & -> & Hb' & E & _ & _ & _ & Eq & _ & Er' & _); [|lia|done|].
        { rewrite Hit in Hi. cbn in Hi. split; cbn; try done; [congruence|lia]. }
        eexists _, _. split; [done|]. split; [done|]. intros _. unfold pipe, in_stream.
        rewrite Er, Er', Eq, Hit. cbn in *. rewrite !app_nil_r, app_assoc, E, <- app_assoc. done.
      * eexists _, _. split; [done|]. split; [by split; cbn; try lia|].
        intros _. apply pipe_refl. unfold in_stream. by rewrite Er.
    + destruct (consume_ok n s Hq) as (b & -> & Hbq & Hbc). eexists _, _. split; [done|].
      split; [by split|]. intros _. unfold pipe, in_stream. cbn.
      rewrite Er, Hbc, !app_nil_r.
      by rewrite (app_assoc (take _ _)), take_drop.
  - destruct (read s) as [|n|] eqn:Er; try (by same_state).
    pose proof (pop_items (readQueue s)) as H. destruct (popFirstNoWait (readQueue s)) as [[buf q]|].
    + destruct H as [Hit Hmx]. rewrite Hit in Hi. cbn in Hi. eexists _, _. split; [done|].
      split; [split; cbn; try done; [congruence|lia]|]. intros _. apply pipe_refl.
      unfold in_stream. cbn. by rewrite Er, Hit.
    + by same_state.
  - destruct (read s) as [| |n buf] eqn:Er; try (by same_state).
    destruct (resumeRead_ok n buf (set_read NoRead s)) as
      (s' & out & -> & Hb' & E & _ & _ & _ & Eq & _ & Er' & _); [by split|done|done|].
    eexists _, _. split; [done|]. split; [done|]. intros _. unfold pipe, in_stream.
    rewrite Er, Er', Eq. cbn in *. by rewrite !app_nil_r, app_assoc, E, <- app_assoc.
  - destruct (read s) as [|n|] eqn:Er; try (by same_state).
    unfold cancelRead. destruct (isEof _ && _) eqn:Ec.
    + apply andb_true_iff in Ec as [_ Eh%bool_decide_eq_true]. cbn in Eh. rewrite head_items in Eh.
      cbn. pose proof (pop_items (readQueue s)) as H.
      destruct (popFirstNoWait (readQueue s)) as [[buf q]|]; [|by rewrite H in Eh].
      destruct H as [Hit Hmx]. rewrite Hit in Eh. cbn in Eh. simplify_eq.
      rewrite Hit in Hi. cbn in Hi. eexists _, _. split; [done|].
      split; [split; cbn; try done; [congruence|lia]|]. intros _. unfold pipe, in_stream. cbn.
      by rewrite Er, Hit, app_nil_r.
    + eexists _, _. split; [done|]. split; [by split|]. intros _. unfold pipe, in_stream. cbn.
      by rewrite Er, app_nil_r.
  - assert (Hc : forall q, maxsize q = 1%nat -> (length (items q) <= 1)%nat ->
      base (set_queue q (set_readBuf (ZeroQueue.clear (readBuf s)) (set_closed s)))).
    { intros q H1 H2. split; cbn; done || apply ZeroQueue.empty_ok. }
    unfold close. destruct (isClosed s); [by exists s, []|].
    cbn [read readQueue set_readBuf set_closed].
    pose proof (head_items (readQueue s)) as Eh. pose proof (pop_items (readQueue s)) as Hpop.
    pose proof (add_items Eof (readQueue s)) as Hadd.
    destruct (read s) as [|n|n buf] eqn:Er, (aq_head (readQueue s)) as [x|] eqn:Ehd;
      try (destruct (pushing (set_readBuf _ _)));
      cbn [mbind option_bind]; try (eexists _, _; split; [done|]; split; [by apply (Hc (readQueue s))|done]).
    all: try (destruct (popFirstNoWait (readQueue s)) as [[y q]|]; [|by rewrite Hpop in Eh];
      destruct Hpop as [Hit Hmx]; rewrite Hit in Hi; cbn in Hi; eexists _, _; split; [done|];
      split; [apply (Hc q); [congruence|lia]|done]).
    all: destruct (addLastNoWait Eof (readQueue s)) as [q|];
      [destruct Hadd as (Hlt & Hit & Hmx); eexists _, _; split; [done|];
       split; [apply (Hc q); [congruence|rewrite Hit, length_app; cbn; lia]|done]|].
    all: destruct (items (readQueue s)); cbn in *; [lia|done].
Qed.

End Facts.

Section Open.
Context `{L : AsyncQueueLaws}.
Implicit Types (s : BufferStream) (data : bytes).

Lemma add_open data s q : base s -> open_inv s -> addLastNoWait data (readQueue s) = Some q ->
  (pushedEof s = false -> data <> []) -> isEof s = false ->
  (match read s with Popped _ [] => False | _ => True end) ->
  (forall p, p = NoPush \/ p = Added -> open_inv (set_push p (set_queue q s))).
Proof.
  intros Hb [Ho Hu Hm He Hp Hi Hr] E Hd HnE HnP p Hpp. pose proof (add_ok data s Hb) as H.
  rewrite E in H. destruct H as (_ & E0 & Eq & _).
  split; cbn; rewrite ?Eq; [done| | | | | |done].
  - intros Hf. destruct (Hu Hf) as (? & _ & ? & _). specialize (Hd Hf).
    split; [done|]. split; [by destruct Hpp as [->| ->]|]. split; [done|].
    intros E1%list_elem_of_singleton. by apply Hd.
  - intros _. by destruct Hpp as [->| ->].
  - congruence.
  - destruct (read s) as [| |n []]; done.
  - intros _. by destruct Hpp as [->| ->].
Qed.

(** [NoPush] when it was not pushing already. *)
Lemma set_push_same s : push s = NoPush -> set_push NoPush s = s.
Proof. destruct s; cbn. by intros ->. Qed.

Lemma addLast_open data s : base s -> open_inv s -> push s = NoPush ->
  (if pushedEof s then data = [] /\ (Eof ∉ items (readQueue s)) /\ isEof s = false /\
     (match read s with Popped _ [] => False | _ => True end) else data <> []) ->
  open_inv (addLast data s).1.
Proof.
  intros Hb Ho Hp Hd. unfold addLast.
  assert (Hx : isEof s = false /\ (match read s with Popped _ [] => False | _ => True end)).
  { destruct (pushedEof s) eqn:E; [tauto|]. destruct (o_unmarked _ Ho E) as (? & _ & ? & _).
    split; [done|]. by destruct (read s) as [| |n []]. }
  destruct Hx as [HE HP].
  destruct (addLastNoWait data (readQueue s)) as [q|] eqn:E.
  - cbn. rewrite <- (set_push_same (set_queue q s)) by done.
    eapply add_open; [done|done|exact E| |done|done|by left].
    intros Hf. by rewrite Hf in Hd.
  - destruct Ho as [Ho Hu Hm He Hpp Hi Hr]. cbn. split; cbn; try done.
    + intros Hf. rewrite Hf in Hd. destruct (Hu Hf) as (? & _ & ? & ?). done.
    + intros Ht. rewrite Ht in Hd. tauto.
    + congruence.
    + by destruct (read s) as [| |n []].
    + intros Hin. destruct (pushedEof s) eqn:Ef; [tauto|].
      by destruct (Hu eq_refl) as (_ & _ & _ & ?).
Qed.

Lemma pop_open n buf q s : base s -> open_inv s -> popFirstNoWait (readQueue s) = Some (buf, q) ->
  (match read s with Popped _ _ => False | _ => True end) -> returnedEof s = false ->
  open_inv (set_read (Popped n buf) (set_queue q s)).
Proof.
  intros Hb [Ho Hu Hm He Hp Hi Hr] E HnP Hret. pose proof (pop_items (readQueue s)) as H.
  rewrite E in H. destruct H as [Hit Hmx].
  assert (E0 : items q = []).
  { pose proof (b_items _ Hb) as Hl. rewrite Hit in Hl. destruct (items q); [done|cbn in Hl; lia]. }
  rewrite Hit in Hu, He, Hi. split; cbn; rewrite ?E0; try done.
  - intros Hf. destruct (Hu Hf) as (? & ? & _ & Hn). apply not_elem_of_cons in Hn as [Hn _].
    split_and!; [done|done|by intros ->|apply not_elem_of_nil].
  - intros HE. by destruct (He HE).
  - destruct buf; [|done]. split; [done|]. apply Hi. set_solver.
  - intros ?%elem_of_nil. done.
Qed.

Lemma resumeRead_open n buf s s' ev : base s -> read s = NoRead -> (0 < n)%nat ->
  open_inv (set_read (Popped n buf) s) -> resumeRead n buf s = Some (s', ev) ->
  open_inv s' /\ (ReadDone [] ∈ ev -> returnedEof s' = true) /\ (ReadEof ∉ ev).
Proof.
  intros Hb Hr Hn [Ho Hu Hm He Hp Hi Hret] E. cbn in *.
  destruct (resumeRead_ok n buf s Hb Hn Hr)
    as (s1 & out & E1 & Hb' & Ec & _ & EE & Er & Eq & Ep & Erd & Ecl & Epe & Hout).
  rewrite E in E1. simplify_eq.
  assert (HE : isEof s = false) by (destruct (isEof s) eqn:HE; [by destruct (He eq_refl) as (_ & ? & _)|done]).
  rewrite HE in EE. cbn in EE. split; [|split].
  - split; rewrite ?Ecl, ?Epe, ?Eq, ?Ep, ?Erd, ?EE, ?Er; try done.
    + intros Hf. destruct (Hu Hf) as (? & ? & ? & ?). by destruct buf.
    + intros Hz. destruct buf; [|done]. tauto.
    + intros Hz. destruct out; [|done]. destruct (Hout eq_refl) as [-> ->]. done.
  - intros Hin%list_elem_of_singleton. by simplify_eq.
  - by intros Hin%list_elem_of_singleton.
Qed.

(** A read at the end of the stream, or of bytes already there. *)
Lemma consume_open n s s' ev : base s -> open_inv s -> read s = NoRead -> returnedEof s = false ->
  (0 < n)%nat -> isEof s = true \/ (n <= length (ZeroQueue.contents (readBuf s)))%nat ->
  consume n s = Some (s', ev) ->
  open_inv s' /\ (ReadDone [] ∈ ev -> returnedEof s' = true) /\ (ReadEof ∉ ev).
Proof.
  intros Hb [Ho Hu Hm He Hp Hi Hret] Hr Hf Hn HnE E.
  destruct (consume_ok n s (b_buf _ Hb)) as (b & E1 & Hbq & Hbc). rewrite E in E1. simplify_eq.
  split; [|split].
  - split; cbn; try done. intros Hz%Nat.eqb_eq. rewrite Hbc, length_take in *.
    destruct HnE as [HE|HE]; [|lia]. split; [done|].
    by destruct (ZeroQueue.contents (readBuf s)); [apply drop_nil|destruct n; cbn in Hz; lia].
  - intros Hin%list_elem_of_singleton. injection Hin as Hin. cbn. by rewrite <- Hin.
  - by intros Hin%list_elem_of_singleton.
Qed.

#[local] Ltac quiet := first [assumption|reflexivity|rewrite ?elem_of_cons, ?elem_of_nil; intuition discriminate].

(** The end is announced once: a read that returned nothing stays the last. *)
Lemma step_open s a s' ev : base s -> open_inv s -> a <> Close -> step s a = Some (s', ev) ->
  open_inv s' /\ (returnedEof s = true -> returnedEof s' = true) /\
  (ReadDone [] ∈ ev -> returnedEof s' = true) /\ (ReadEof ∈ ev -> returnedEof s = true).
Proof.
  intros Hb Hinv Ha E.
  assert (Hquiet : forall s', open_inv s' -> returnedEof s' = returnedEof s ->
    forall ev : list event, (ReadDone [] ∉ ev) -> (ReadEof ∉ ev) -> open_inv s' /\
    (returnedEof s = true -> returnedEof s' = true) /\
    (ReadDone [] ∈ ev -> returnedEof s' = true) /\ (ReadEof ∈ ev -> returnedEof s = true)).
  { intros s1 H1 <- ev1 H2 H3. done. }
  destruct a as [data| | | | |n| | | |]; cbn [step] in E; [| | | | | | | | |done].
  - unfold pushData in E. destruct (pushing s) eqn:Ep; [done|]. cbn [doAssert negb mbind option_bind] in E.
    destruct (isClosed s || pushedEof s) eqn:Ec; [simplify_eq; apply Hquiet; quiet|].
    destruct (length data =? 0)%nat eqn:El; [simplify_eq; apply Hquiet; quiet|].
    apply orb_false_iff in Ec as [_ Ec]. apply Nat.eqb_neq in El.
    pose proof (addLast_open data s Hb Hinv (pushing_false _ Ep)) as H. rewrite Ec in H.
    specialize (H ltac:(by intros ->)). simplify_eq. unfold addLast in *.
    destruct (addLastNoWait data (readQueue s)); simplify_eq; apply Hquiet; quiet.
  - unfold pushEof in E. destruct (pushedEof s) eqn:Ec; [simplify_eq; apply Hquiet; quiet|].
    destruct (pushing s) eqn:Ep; [done|]. cbn [doAssert negb mbind option_bind] in E.
    destruct (o_unmarked _ Hinv Ec) as (HE & HA & HP & HI).
    pose proof (addLast_open Eof (set_pushedEof s)) as H. cbn in H.
    assert (H' : open_inv (addLast Eof (set_pushedEof s)).1).
    { apply H; [by destruct Hb| |by apply pushing_false|
        split_and!; [done|done|done|by destruct (read s) as [| |? []]]].
      destruct Hinv. split; cbn; try done. intros _. by rewrite (pushing_false _ Ep). }
    simplify_eq. unfold addLast in *.
    destruct (addLastNoWait _ _); simplify_eq; apply Hquiet; quiet.
  - destruct (push s) as [|data|] eqn:Ep; [simplify_eq; apply Hquiet; quiet| |
      simplify_eq; apply Hquiet; quiet].
    destruct (addLastNoWait data (readQueue s)) as [q|] eqn:Eq;
      [|simplify_eq; apply Hquiet; quiet].
    simplify_eq. apply Hquiet; [|done|quiet|quiet].
    pose proof Hinv as [Ho Hu Hm He Hp Hi Hret]. rewrite Ep in *.
    eapply add_open; [done|done|exact Eq| | | |by right].
    + intros Hf. by destruct (Hu Hf) as (_ & ? & _).
    + destruct (isEof s); [|done]. by destruct (He eq_refl) as (_ & _ & ?).
    + destruct (read s) as [| |? []]; try done. by destruct Hp.
  - destruct (push s) eqn:Ep; simplify_eq; apply Hquiet; try (quiet; fail).
    destruct Hinv as [Ho Hu Hm He Hp Hi Hret]. rewrite Ep in *. by split.
  - destruct (push s) eqn:Ep; simplify_eq; apply Hquiet; try (quiet; fail).
    destruct Hinv as [Ho Hu Hm He Hp Hi Hret]. rewrite Ep in *. split; cbn; try done.
    + intros Hf. by destruct (Hu Hf) as (? & _ & ? & ?).
    + intros Hf. by destruct (He Hf) as (? & ? & _).
    + destruct (read s) as [| |? []]; try done. by destruct Hp.
  - unfold readOnce in E. destruct (0 <? n)%nat eqn:Hn; [|done]. apply Nat.ltb_lt in Hn.
    destruct (reading s) eqn:Erd; [done|]. apply reading_false in Erd.
    cbn [doAssert negb mbind option_bind] in E.
    destruct (returnedEof s) eqn:Hret; [simplify_eq; set_solver|].
    destruct (negb (isEof s) && (ZeroQueue.len (readBuf s) <? Z.of_nat n)) eqn:Hc.
    + destruct (popFirstNoWait (readQueue s)) as [[buf q]|] eqn:Epop.
      * pose proof (pop_items (readQueue s)) as Hpop. rewrite Epop in Hpop. destruct Hpop as [Hit Hmx].
        apply (resumeRead_open n buf) in E as (H1 & H2 & H3); [set_solver| |done|done|].
        { destruct Hb as [? ? Hl ?]. rewrite Hit in Hl. cbn in Hl. split; cbn; try done; [congruence|lia]. }
        apply (pop_open n) in Epop; [done|done|done|by rewrite Erd|done].
      * simplify_eq. split; [|set_solver]. destruct Hinv as [Ho Hu Hm He Hp Hi Hr].
        rewrite Erd in *. split; cbn; try done. intros HE. by rewrite HE in Hc.
    + apply consume_open in E as (H1 & H2 & H3); try done.
      destruct (isEof s) eqn:HE; [by left|right]. cbn in Hc. apply Z.ltb_ge in Hc.
      unfold ZeroQueue.len in Hc. rewrite (proj2 (b_buf _ Hb)) in Hc. lia.
  - destruct (read s) as [|n|] eqn:Er; try (simplify_eq; apply Hquiet; quiet).
    destruct (popFirstNoWait (readQueue s)) as [[buf q]|] eqn:Epop;
      [|simplify_eq; apply Hquiet; quiet].
    simplify_eq. apply Hquiet; [|done|quiet|quiet].
    apply (pop_open n) in Epop; [done|done|done|by rewrite Er|].
    destruct (returnedEof s) eqn:Hret; [|done]. destruct (o_returned _ Hinv Hret) as [HE _].
    destruct (o_eof _ Hinv HE) as (_ & ? & _). congruence.
  - destruct (read s) as [| |n buf] eqn:Er; try (simplify_eq; apply Hquiet; quiet).
    apply (resumeRead_open n buf) in E as (H1 & H2 & H3).
    + split; [done|]. split; [|set_solver]. intros Hret.
      destruct (o_returned _ Hinv Hret) as [HE _].
      destruct (o_eof _ Hinv HE) as (_ & ? & _). congruence.
    + by split; destruct Hb.
    + done.
    + pose proof (b_read _ Hb) as H. by rewrite Er in H.
    + replace (set_read (Popped n buf) (set_read NoRead s)) with s; [done|].
      destruct s; cbn in *. by subst.
  - destruct (read s) as [|n|] eqn:Er; try (simplify_eq; apply Hquiet; quiet).
    unfold cancelRead in E. cbn [set_read isEof readQueue] in E.
    destruct (isEof s) eqn:HE.
    { destruct (o_eof _ Hinv HE) as (_ & ? & _). congruence. }
    cbn [andb] in E. simplify_eq. apply Hquiet; [|done|quiet|quiet].
    destruct Hinv as [Ho Hu Hm He Hp Hi Hret]. rewrite Er in *. split; cbn; try done.
    intros ?. congruence.
Qed.
End Open.

(** ** Closed streams *)

Section Closed.
Context `{L : AsyncQueueLaws}.
Implicit Types (s : BufferStream) (data : bytes).

(** A read that waits has something to pop, and a push that waits has room, or a read will make
some. *)
Record closed_inv s : Prop := {
  c_eof : isEof s = true;
  c_pushedEof : pushedEof s = true;
  c_read : match read s with Waiting _ => items (readQueue s) <> [] | _ => True end;
  c_push : match push s, read s with
    | Adding _, Waiting _ => True
    | Adding _, _ => items (readQueue s) = []
    | _, _ => True
    end;
}.

Lemma close_closed s s' ev : base s -> isClosed s = false -> close s = Some (s', ev) ->
  isClosed s' = true /\ closed_inv s'.
Proof.
  intros [_ Hm Hi _] Hc. unfold close. rewrite Hc. cbn [read readQueue set_readBuf set_closed].
  pose proof (head_items (readQueue s)) as Eh. pose proof (pop_items (readQueue s)) as Hpop.
  pose proof (add_items Eof (readQueue s)) as Hadd.
  assert (Hpush : pushing (set_readBuf (ZeroQueue.clear (readBuf s)) (set_closed s)) = pushing s)
    by done.
  rewrite Hpush. unfold pushing. clear Hpush.
  destruct (read s) eqn:Er, (aq_head (readQueue s)) as [x|] eqn:Ehd, (push s) eqn:Ep;
    cbn [mbind option_bind]; intros E.
  all: try (destruct (popFirstNoWait (readQueue s)) as [[y q]|]; [|by rewrite Hpop in Eh];
    destruct Hpop as [Hit _]; rewrite Hit in Hi; cbn in Hi).
  all: try (destruct (addLastNoWait Eof (readQueue s)) as [q|]; [destruct Hadd as (_ & Hit' & _)|done]).
  all: cbn [mbind option_bind] in E; simplify_eq; split; [done|]; split; cbn; rewrite ?Er, ?Ep; try done.
  all: try (destruct (items q); [done|cbn in *; lia]).
  all: try (by intros Hn; rewrite ?Hit', ?Hn in *; destruct (items (readQueue s))).
  all: by destruct (items (readQueue s)).
Qed.

Lemma step_isClosed s a s' ev : a <> Close -> step s a = Some (s', ev) -> isClosed s' = isClosed s.
Proof.
  assert (Hc : forall n x s1 ev1, consume n x = Some (s1, ev1) -> isClosed s1 = isClosed x).
  { intros n x s1 ev1. unfold consume. destruct (ZeroQueue.consumeTo _ _) as [[]|]; cbn; [|done].
    by intros [= <- <-]. }
  assert (Hr : forall n b x s1 ev1, resumeRead n b x = Some (s1, ev1) -> isClosed s1 = isClosed x).
  { intros n b x s1 ev1 E%Hc. rewrite E. by destruct b. }
  intros Ha. destruct a as [data| | | | |n| | | |]; cbn [step]; [| | | | | | | | |done].
  - unfold pushData, addLast. destruct (pushing s); [done|]. cbn [doAssert negb mbind option_bind].
    repeat case_match; intros; by simplify_eq.
  - unfold pushEof, addLast. destruct (pushedEof s); [by intros [= <- <-]|].
    destruct (pushing s); [done|]. cbn [doAssert negb mbind option_bind].
    destruct (addLastNoWait _ _); intros; by simplify_eq.
  - destruct (push s); try destruct (addLastNoWait _ _); intros; by simplify_eq.
  - destruct (push s); intros; by simplify_eq.
  - destruct (push s); intros; by simplify_eq.
  - unfold readOnce. destruct (0 <? n)%nat; [|done]. destruct (reading s); [done|].
    cbn [doAssert negb mbind option_bind]. destruct (returnedEof s); [by intros [= <- <-]|].
    destruct (negb (isEof s) && _); [|apply Hc].
    destruct (popFirstNoWait _) as [[]|]; [|by intros [= <- <-]]. by intros E%Hr.
  - destruct (read s); try destruct (popFirstNoWait _) as [[]|]; intros; by simplify_eq.
  - destruct (read s); try (by intros [= <- <-]). by intros E%Hr.
  - destruct (read s); try (by intros [= <- <-]). unfold cancelRead.
    destruct (isEof _ && _); [|by intros [= <- <-]].
    destruct (popFirstNoWait _) as [[]|]; cbn; [|done]. by intros [= <- <-].
Qed.

Lemma step_closed s a s' ev : base s -> isClosed s = true -> closed_inv s -> a <> CancelRead ->
  step s a = Some (s', ev) -> closed_inv s'.
Proof.
  intros Hb Hc Hinv Ha E. pose proof Hinv as [He Hp Hr Hq].
  destruct a as [data| | | | |n| | | |]; cbn [step] in E; [| | | | | | | |done|].
  - unfold pushData in E. destruct (pushing s); [done|]. rewrite Hc in E.
    cbn in E. by simplify_eq.
  - unfold pushEof in E. rewrite Hp in E. by simplify_eq.
  - destruct (push s) as [|data|] eqn:Ep; [by simplify_eq| |by simplify_eq].
    pose proof (add_items data (readQueue s)) as Hadd.
    destruct (addLastNoWait data (readQueue s)) as [q|]; [|by simplify_eq].
    destruct Hadd as (_ & Hit & _). simplify_eq. split; cbn; try done.
    destruct (read s); try done. all: rewrite Hit; by destruct (items (readQueue s)).
  - destruct (push s) eqn:Ep; simplify_eq; try done; by split.
  - destruct (push s) eqn:Ep; simplify_eq; try done; by split.
  - unfold readOnce in E. destruct (0 <? n)%nat; [|done]. destruct (reading s) eqn:Erd; [done|].
    cbn [doAssert negb mbind option_bind] in E. destruct (returnedEof s); [by simplify_eq|].
    rewrite He in E. cbn [negb andb] in E.
    destruct (consume_ok n s (b_buf _ Hb)) as (b & E1 & _). rewrite E in E1. simplify_eq. by split.
  - destruct (read s) as [|n|] eqn:Er; [by simplify_eq| |by simplify_eq].
    pose proof (pop_items (readQueue s)) as Hpop.
    destruct (popFirstNoWait (readQueue s)) as [[buf q]|]; [|by simplify_eq].
    destruct Hpop as [Hit _]. simplify_eq. split; cbn; try done.
    pose proof (b_items _ Hb) as Hl. rewrite Hit in Hl. destruct (push s); try done.
    destruct (items q); [done|cbn in Hl; lia].
  - destruct (read s) as [| |n buf] eqn:Er; try by simplify_eq.
    destruct (resumeRead_ok n buf (set_read NoRead s)) as
      (s1 & out & E1 & _ & _ & _ & EE & _ & Eq & Ep & Erd & _ & Epe & _);
      [by split; destruct Hb|pose proof (b_read _ Hb) as H; by rewrite Er in H|done|].
    rewrite E in E1. simplify_eq.
    split; rewrite ?EE, ?Epe, ?Eq, ?Ep, ?Erd; cbn; [by rewrite He|done|done|done].
  - unfold close in E. rewrite Hc in E. by simplify_eq.
Qed.

#[local] Ltac isClosed_of E :=
  let H := fresh in
  pose proof (fun H' => step_isClosed _ _ _ _ H' E) as H; rewrite (H ltac:(discriminate)).

(** One turn of each task that can go on ends them all. *)
Lemma closed_round s : base s -> isClosed s = true -> closed_inv s ->
  exists s' ev, run s [ResumePop; ResumeRead; ResumeAdd; ResumePush] = Some (s', ev) /\
    read s' = NoRead /\ push s' = NoPush /\ base s' /\ isClosed s' = true /\ closed_inv s'.
Proof.
  intros Hb Hc Hinv.
  assert (H1 : exists s1 e1, step s ResumePop = Some (s1, e1) /\ base s1 /\ isClosed s1 = true /\
    closed_inv s1 /\ match read s1 with Waiting _ => False | _ => True end).
  { destruct (step_ok s ResumePop Hb eq_refl) as (s1 & e1 & E & Hb1 & _). exists s1, e1.
    split; [done|]. split; [done|]. split; [by isClosed_of E|].
    split; [eapply step_closed; [..|exact E]; done|]. cbn [step] in E. pose proof (c_read _ Hinv) as Hr.
    destruct (read s) eqn:Er; [simplify_eq; by rewrite Er| |simplify_eq; by rewrite Er].
    pose proof (pop_items (readQueue s)) as Hpop.
    destruct (popFirstNoWait (readQueue s)) as [[buf q]|]; [by simplify_eq|].
    by destruct Hr. }
  destruct H1 as (s1 & e1 & E1 & Hb1 & Hc1 & Hinv1 & Hr1).
  assert (H2 : exists s2 e2, step s1 ResumeRead = Some (s2, e2) /\ base s2 /\ isClosed s2 = true /\
    closed_inv s2 /\ read s2 = NoRead).
  { destruct (step_ok s1 ResumeRead Hb1 eq_refl) as (s2 & e2 & E & Hb2 & _). exists s2, e2.
    split; [done|]. split; [done|]. split; [by isClosed_of E|].
    split; [eapply step_closed; [..|exact E]; done|]. cbn [step] in E.
    destruct (read s1) as [| |n buf] eqn:Er; [by simplify_eq|done|].
    destruct (resumeRead_ok n buf (set_read NoRead s1)) as
      (s3 & out & E3 & _ & _ & _ & _ & _ & _ & _ & Erd & _);
      [by split; destruct Hb1|pose proof (b_read _ Hb1) as H; by rewrite Er in H|done|].
    rewrite E in E3. by simplify_eq. }
  destruct H2 as (s2 & e2 & E2 & Hb2 & Hc2 & Hinv2 & Hr2).
  assert (H3 : exists s3 e3, step s2 ResumeAdd = Some (s3, e3) /\ base s3 /\ isClosed s3 = true /\
    closed_inv s3 /\ read s3 = NoRead /\ match push s3 with Adding _ => False | _ => True end).
  { destruct (step_ok s2 ResumeAdd Hb2 eq_refl) as (s3 & e3 & E & Hb3 & _). exists s3, e3.
    split; [done|]. split; [done|]. split; [by isClosed_of E|].
    split; [eapply step_closed; [..|exact E]; done|]. cbn [step] in E. pose proof (c_push _ Hinv2) as Hq.
    destruct (push s2) as [|data|] eqn:Ep; [simplify_eq; by rewrite Ep| |simplify_eq; by rewrite Ep].
    rewrite Hr2 in Hq. pose proof (add_items data (readQueue s2)) as Hadd.
    destruct (addLastNoWait data (readQueue s2)) as [q|]; [by simplify_eq|].
    rewrite Hq, (b_max _ Hb2) in Hadd. cbn in Hadd. lia. }
  destruct H3 as (s3 & e3 & E3 & Hb3 & Hc3 & Hinv3 & Hr3 & Hp3).
  destruct (step_ok s3 ResumePush Hb3 eq_refl) as (s4 & e4 & E4 & Hb4 & _).
  exists s4. eexists. cbn [run]. rewrite E1. cbn [mbind option_bind]. rewrite E2.
  cbn [mbind option_bind]. rewrite E3. cbn [mbind option_bind]. rewrite E4.
  cbn [mbind option_bind]. split; [done|].
  assert (Hc4 : isClosed s4 = true) by (by isClosed_of E4).
  assert (Hinv4 : closed_inv s4) by (eapply step_closed; [..|exact E4]; done).
  cbn [step] in E4. destruct (push s3) eqn:Ep; simplify_eq; done.
Qed.

End Closed.

(** ** A source of bytes *)

Section Source.
Context `{L : AsyncQueueLaws}.
Implicit Types (s : BufferStream) (data : bytes).

(** The task that pushes goes on as far as it can. *)
Definition settle s : BufferStream :=
  match run s [ResumeAdd; ResumePush] with Some (s', _) => s' | None => s end.

(** A read, while one task pushes. *)
Definition source_readOnce s (nbytes : nat) : outcome BufferStream bytes :=
  match step s (ReadOnce nbytes) with
  | None => Crashed
  | Some (s', [ReadDone data]) => Done (settle s') data
  | Some (s', [ReadEof]) => Raised s' LPStreamEOFError
  | Some (_, _) => Blocked
  end.

Definition marker_coming s : bool :=
  isEof s || bool_decide (Eof ∈ items (readQueue s)) ||
  match push s with Adding data => (length data =? 0)%nat | _ => false end.

#[global] Instance BufferStream_source : ByteSource BufferStream := {|
  LpStream.readOnce := source_readOnce;
  LpStream.atEof := atEof;
  pending s := ZeroQueue.contents (readBuf s) ++ concat (items (readQueue s)) ++
    match push s with Adding data => data | _ => [] end;
  ended := marker_coming;
  source_ok s := base s /\ open_inv s /\ read s = NoRead /\
    match push s with
    | NoPush => True
    | Adding _ => items (readQueue s) <> []
    | Added => False
    end;
|}.

Lemma settle_ok s : base s -> open_inv s -> read s = NoRead ->
  match push s with Added => False | _ => True end ->
  source_ok (settle s) /\ pending (settle s) = pending s /\ ended (settle s) = ended s /\
  isEof (settle s) = isEof s /\ readBuf (settle s) = readBuf s.
Proof.
  intros Hb Ho Hr Hp. unfold settle.
  destruct (step_ok s ResumeAdd Hb eq_refl) as (s1 & e1 & E1 & Hb1 & _).
  destruct (step_open s ResumeAdd s1 e1 Hb Ho ltac:(discriminate) E1) as (Ho1 & _).
  destruct (step_ok s1 ResumePush Hb1 eq_refl) as (s2 & e2 & E2 & Hb2 & _).
  destruct (step_open s1 ResumePush s2 e2 Hb1 Ho1 ltac:(discriminate) E2) as (Ho2 & _).
  cbn [run]. rewrite E1. cbn [mbind option_bind]. rewrite E2. cbn [mbind option_bind].
  cbn [step] in E1, E2. cbn [source_ok pending ended BufferStream_source].
  unfold marker_coming. destruct (push s) as [|data|] eqn:Ep; [| |done].
  - simplify_eq. rewrite Ep in E2. simplify_eq. rewrite Ep. done.
  - pose proof (add_ok data s Hb) as Hadd.
    destruct (addLastNoWait data (readQueue s)) as [q|].
    + destruct Hadd as (_ & E0 & Eq & _). simplify_eq. cbn in E2. simplify_eq. cbn in *.
      rewrite Eq, E0, Hr. split_and!; try done.
      * cbn. by rewrite !app_nil_r.
      * rewrite (bool_decide_eq_false_2 (Eof ∈ [])) by apply not_elem_of_nil.
        rewrite orb_false_r, <- orb_assoc. f_equal. destruct data as [|x l]; cbn.
        -- by rewrite bool_decide_eq_true_2 by set_solver.
        -- rewrite bool_decide_eq_false_2; [done|]. by intros ?%list_elem_of_singleton.
    + destruct Hadd as [x Ex]. simplify_eq. rewrite Ep in E2. simplify_eq. rewrite Ep, Ex. done.
Qed.

Lemma consume_event n s s' ev : consume n s = Some (s', ev) ->
  exists b out, ev = [ReadDone out] /\ s' = set_returnedEof (length out =? 0)%nat (set_readBuf b s).
Proof.
  unfold consume. destruct (ZeroQueue.consumeTo _ _) as [[out b]|]; [|done]. cbn.
  intros [= <- <-]. by exists b, out.
Qed.

(** A read between the pushes: it waits, or says the end, or delivers and may have popped. *)
Lemma readOnce_cases s n : base s -> open_inv s -> read s = NoRead -> (0 < n)%nat ->
  (returnedEof s = true /\ step s (ReadOnce n) = Some (s, [ReadEof])) \/
  (exists s', step s (ReadOnce n) = Some (s', []) /\ items (readQueue s) = [] /\
    isEof s = false /\ (length (ZeroQueue.contents (readBuf s)) < n)%nat) \/
  (exists s' d, step s (ReadOnce n) = Some (s', [ReadDone d]) /\ (length d <= n)%nat /\
    read s' = NoRead /\ push s' = push s /\ (d = [] -> atEof s' = true) /\
    isEof s' || bool_decide (Eof ∈ items (readQueue s')) =
    isEof s || bool_decide (Eof ∈ items (readQueue s))).
Proof.
  intros Hb Ho Hr Hn. cbn [step]. unfold readOnce, reading. rewrite (proj2 (Nat.ltb_lt 0 n)), Hr by lia.
  cbn [doAssert negb mbind option_bind]. destruct (returnedEof s) eqn:Hret; [by left|right].
  pose proof (b_buf _ Hb) as Hq. pose proof (b_items _ Hb) as Hl.
  destruct (isEof s) eqn:HE; cbn [negb andb].
  - right. destruct (consume_ok n s Hq) as (b & -> & Hbq & Hbc). eexists _, _. split; [done|].
    rewrite length_take. split; [lia|]. split; [done|]. split; [done|]. split; [|cbn [isEof readQueue set_returnedEof set_readBuf]; by rewrite ?HE].
    intros E. unfold atEof. cbn. rewrite HE. apply ZeroQueue.isEmpty_contents; [done|].
    rewrite Hbc. destruct (ZeroQueue.contents (readBuf s)); [apply drop_nil|destruct n; [lia|done]].
  - destruct (Z.ltb_spec (ZeroQueue.len (readBuf s)) (Z.of_nat n)) as [Hlt|Hge].
    + unfold ZeroQueue.len in Hlt. rewrite (proj2 Hq) in Hlt.
      pose proof (pop_items (readQueue s)) as Hpop.
      destruct (popFirstNoWait (readQueue s)) as [[buf q]|].
      * right. destruct Hpop as [Hit Hmx]. rewrite Hit in Hl. cbn in Hl.
        destruct (resumeRead_ok n buf (set_queue q s)) as
          (s' & out & -> & Hb' & Ec & Hlen & EE & _ & Eq & Ep & Erd & _ & _ & Hout);
          [split; cbn; [done|rewrite Hmx; apply Hb|lia|by rewrite Hr]|done|done|].
        exists s', out. split_and!; try done.
        -- intros ->. destruct (Hout eq_refl) as [-> Hc]. unfold atEof. rewrite EE.
           cbn. rewrite orb_true_r. cbn. apply ZeroQueue.isEmpty_contents; [apply Hb'|done].
        -- rewrite EE, Eq, Hit. cbn. rewrite HE. cbn. destruct (items q); [|cbn in Hl; lia].
           unfold Eof. destruct buf; cbn.
           ++ by rewrite bool_decide_eq_true_2 by set_solver.
           ++ rewrite !bool_decide_eq_false_2; [done| |apply not_elem_of_nil].
              by intros ?%list_elem_of_singleton.
      * left. eexists. split; [done|]. split; [done|]. split; [done|]. lia.
    + right. destruct (consume_ok n s Hq) as (b & -> & Hbq & Hbc). eexists _, _. split; [done|].
      unfold ZeroQueue.len in Hge. rewrite (proj2 Hq) in Hge.
      rewrite length_take. split; [lia|]. split; [done|]. split; [done|].
      split; [|cbn [isEof readQueue set_returnedEof set_readBuf]; by rewrite HE].
      intros E. apply (f_equal length) in E. rewrite length_take in E. cbn in E. lia.
Qed.

(** A buffer stream keeps the promises that [readExactly] and [readLp] rely on. *)
#[global] Instance BufferStream_source_laws : ByteSourceLaws BufferStream.
Proof.
  split; cbn [LpStream.readOnce LpStream.atEof pending ended source_ok BufferStream_source];
    unfold source_readOnce.
  - intros s n s' d (Hb & Ho & Hr & Hp) Hn E.
    destruct (step_ok s (ReadOnce n) Hb) as (s1 & ev & E1 & Hb1 & Hpipe).
    { cbn. unfold reading. rewrite Hr. by destruct n; [lia|]. }
    destruct (step_open s (ReadOnce n) s1 ev Hb Ho ltac:(discriminate) E1) as (Ho1 & _).
    specialize (Hpipe ltac:(discriminate)).
    destruct (readOnce_cases s n Hb Ho Hr Hn) as
      [(_ & E2)|[(s2 & E2 & _)|(s2 & d2 & E2 & Hlen & Hr2 & Ep2 & Heof & Hmark)]];
      rewrite E2 in E, E1; simplify_eq.
    destruct (settle_ok s1) as (Hok & Hpend & Hend & HE & HB); [done..|by rewrite Ep2; destruct (push s)|].
    split; [exact Hok|]. cbn [pending ended BufferStream_source] in Hpend, Hend.
    split.
    { rewrite Hend. unfold marker_coming. by rewrite Hmark, Ep2. }
    split; [|split; [done|intros ->; unfold atEof; rewrite HE, HB; by apply Heof]].
    rewrite Hpend, Ep2. unfold pipe, in_stream in Hpipe. rewrite Hr, Hr2 in Hpipe. cbn in Hpipe.
    rewrite !app_nil_r in Hpipe. rewrite !app_assoc. rewrite Hpipe. by rewrite !app_assoc.
  - intros s n (Hb & Ho & Hr & Hp) Hn E.
    destruct (readOnce_cases s n Hb Ho Hr Hn) as
      [(_ & E2)|[(s2 & E2 & Hi & HE & Hlen)|(s2 & d2 & E2 & _)]]; rewrite E2 in E; try done.
    unfold marker_coming. rewrite Hi, HE in *. destruct (push s); [|done|done].
    split; [by rewrite bool_decide_eq_false_2 by apply not_elem_of_nil|]. by rewrite app_nil_r.
  - intros s n s' e (Hb & Ho & Hr & Hp) Hn E.
    destruct (readOnce_cases s n Hb Ho Hr Hn) as
      [(Hret & E2)|[(s2 & E2 & _)|(s2 & d2 & E2 & _)]]; rewrite E2 in E; try done.
    simplify_eq. destruct (o_returned _ Ho Hret) as [HE Hc]. destruct (o_eof _ Ho HE) as (Hi & _ & HA).
    unfold marker_coming. rewrite HE, Hc, Hi. by destruct (push s').
  - intros s n (Hb & Ho & Hr & Hp) Hn E.
    destruct (readOnce_cases s n Hb Ho Hr Hn) as
      [(_ & E2)|[(s2 & E2 & _)|(s2 & d2 & E2 & _)]]; by rewrite E2 in E.
  - intros s (Hb & Ho & Hr & Hp) [HE Hem]%andb_true_iff.
    apply ZeroQueue.isEmpty_contents in Hem; [|apply Hb].
    destruct (o_eof _ Ho HE) as (Hi & _ & HA). unfold marker_coming. rewrite HE, Hem, Hi.
    by destruct (push s).
Qed.

End Source.

(** ** Properties *)

Section Runs.
Context `{L : AsyncQueueLaws}.
Implicit Types (s : BufferStream).

Lemma init_base : base initStream.
Proof.
  destruct (new_items 1) as [Hi Hm]. split; cbn; [apply ZeroQueue.empty_ok|done|rewrite Hi; cbn; lia|done].
Qed.

Lemma init_open : open_inv initStream.
Proof.
  destruct (new_items 1) as [Hi Hm]. split; cbn; rewrite ?Hi; try done.
  intros _. split_and!; [done|done|done|apply not_elem_of_nil].
Qed.

Lemma run_app s acts acts' : run s (acts ++ acts') =
  '(s, ev) ← run s acts; '(s, ev') ← run s acts'; Some (s, ev ++ ev').
Proof.
  revert s. induction acts as [|a acts IH]; intros s; cbn.
  { by destruct (run s acts') as [[]|]. }
  destruct (step s a) as [[s1 ev]|]; [|done]. cbn. rewrite IH.
  destruct (run s1 acts) as [[s2 ev2]|]; [|done]. cbn.
  destruct (run s2 acts') as [[s3 ev3]|]; [|done]. cbn. by rewrite app_assoc.
Qed.

Lemma run_base s acts s' ev : base s -> run s acts = Some (s', ev) -> base s'.
Proof.
  revert s ev. induction acts as [|a acts IH]; intros s ev Hb; cbn; [by intros [= <- <-]|].
  destruct (misuse s a) eqn:Hm; [by rewrite step_misuse|].
  destruct (step_ok s a Hb Hm) as (s1 & e1 & -> & Hb1 & _). cbn.
  destruct (run s1 acts) as [[s2 e2]|] eqn:E; [|done]. cbn. intros [= <- <-]. by eapply IH.
Qed.

(** [returnedEof] is set by a read that returns nothing. *)
Lemma step_returned s a s' ev : step s a = Some (s', ev) -> returnedEof s' = true ->
  ReadDone [] ∈ ev \/ returnedEof s = true.
Proof.
  assert (Hc : forall n x s1 ev1, consume n x = Some (s1, ev1) -> returnedEof s1 = true ->
    ReadDone [] ∈ ev1).
  { intros n x s1 ev1 E. destruct (consume_event _ _ _ _ E) as (b & out & -> & ->). cbn.
    destruct out; [|done]. intros _. apply list_elem_of_singleton. done. }
  destruct a as [data| | | | |n| | | |]; cbn [step].
  - unfold pushData, addLast. destruct (pushing s); [done|]. cbn [doAssert negb mbind option_bind].
    repeat case_match; intros; simplify_eq; by right.
  - unfold pushEof, addLast. destruct (pushedEof s); [intros [= <- <-] ?; by right|].
    destruct (pushing s); [done|]. cbn [doAssert negb mbind option_bind].
    destruct (addLastNoWait _ _); intros; simplify_eq; by right.
  - destruct (push s); try destruct (addLastNoWait _ _); intros; simplify_eq; by right.
  - destruct (push s); intros; simplify_eq; by right.
  - destruct (push s); intros; simplify_eq; by right.
  - unfold readOnce. destruct (0 <? n)%nat; [|done]. destruct (reading s); [done|].
    cbn [doAssert negb mbind option_bind]. destruct (returnedEof s) eqn:Hret; [intros _ _; by right|].
    destruct (negb (isEof s) && _); [|intros E H; left; by eapply Hc].
    destruct (popFirstNoWait _) as [[]|]; [intros E H; left; by eapply Hc|].
    intros [= <- <-] H. cbn in H. by rewrite Hret in H.
  - destruct (read s); try destruct (popFirstNoWait _) as [[]|]; intros; simplify_eq; by right.
  - destruct (read s); try (intros [= <- <-] ?; by right). intros E H. left. by eapply Hc.
  - destruct (read s); try (intros [= <- <-] ?; by right). unfold cancelRead.
    destruct (isEof _ && _); [|intros [= <- <-] ?; by right].
    destruct (popFirstNoWait _) as [[]|]; cbn; [|done]. intros [= <- <-] ?. by right.
  - unfold close. destruct (isClosed s); [intros [= <- <-] ?; by right|].
    cbn [read readQueue set_readBuf set_closed].
    destruct (read s), (aq_head _); try destruct (pushing _); try (intros [= <- <-] ?; by right).
    all: try (destruct (popFirstNoWait _) as [[]|]; [|done]; intros [= <- <-] ?; by right).
    all: destruct (addLastNoWait _ _); [|done]; intros [= <- <-] ?; by right.
Qed.

Lemma run_open s acts s' ev : base s -> open_inv s -> Close ∉ acts ->
  run s acts = Some (s', ev) ->
  open_inv s' /\ in_stream s ++ queued_bytes ev = read_bytes ev ++ in_stream s' /\
  (ReadDone [] ∈ ev \/ returnedEof s = true -> returnedEof s' = true) /\
  (ReadEof ∈ ev -> ReadDone [] ∈ ev \/ returnedEof s = true).
Proof.
  revert s ev. induction acts as [|a acts IH]; intros s ev Hb Ho Hc; cbn.
  { intros [= <- <-]. split; [done|]. cbn. rewrite app_nil_r. split; [done|].
    split; [by intros [?%elem_of_nil|?]|by intros ?%elem_of_nil]. }
  apply not_elem_of_cons in Hc as [Ha Hc].
  destruct (misuse s a) eqn:Hm; [by rewrite step_misuse|].
  destruct (step_ok s a Hb Hm) as (s1 & e1 & E1 & Hb1 & Hp). rewrite E1. cbn.
  destruct (step_open s a s1 e1 Hb Ho ltac:(done) E1) as (Ho1 & Hret & Hdone & Heof).
  destruct (run s1 acts) as [[s2 e2]|] eqn:E; [|done]. cbn. intros [= <- <-].
  destruct (IH s1 e2 Hb1 Ho1 Hc E) as (Ho2 & Hp2 & Hret2 & Heof2). split; [done|].
  specialize (Hp ltac:(done)). unfold pipe in Hp. rewrite queued_bytes_app, read_bytes_app.
  rewrite app_assoc, Hp, <- app_assoc, Hp2, app_assoc. split; [done|].
  split.
  - intros [[H|H]%elem_of_app|H]; apply Hret2; [right; by apply Hdone|by left|right; by apply Hret].
  - rewrite !elem_of_app. intros [H|H]; [right; by apply Heof|].
    destruct (Heof2 H) as [?|H1]; [by left; right|].
    destruct (step_returned s a s1 e1 E1 H1); [by left; left|by right].
Qed.

Lemma Close_or (a : act) : a = Close \/ a <> Close.
Proof. destruct a; by (left + right). Qed.

(** What [close] leaves in the stream was there, in the same order. *)
Lemma close_sublist s s' ev : close s = Some (s', ev) ->
  ev = [] /\ sublist (in_stream s') (in_stream s).
Proof.
  unfold close. destruct (isClosed s); [by intros [= <- <-]|].
  cbn [read readQueue set_readBuf set_closed].
  assert (Hsub : forall q, sublist (concat (items q)) (concat (items (readQueue s))) ->
    sublist (in_stream (set_queue q (set_readBuf (ZeroQueue.clear (readBuf s)) (set_closed s))))
      (in_stream s)).
  { intros q Hq. unfold in_stream. cbn. apply sublist_inserts_l, sublist_app; done. }
  pose proof (pop_items (readQueue s)) as Hpop. pose proof (add_items Eof (readQueue s)) as Hadd.
  destruct (read s) eqn:Er, (aq_head (readQueue s)); try destruct (pushing _); cbn [mbind option_bind];
    try (intros [= <- <-]; split; [done|by apply (Hsub (readQueue s))]).
  all: try (destruct (popFirstNoWait (readQueue s)) as [[x q]|]; [|done]; intros [= <- <-];
    split; [done|]; apply Hsub; destruct Hpop as [-> _]; by apply sublist_inserts_l).
  all: destruct (addLastNoWait Eof (readQueue s)) as [q|]; [|done]; intros [= <- <-];
    split; [done|]; apply Hsub; destruct Hadd as (_ & -> & _);
    by rewrite concat_app, app_nil_r.
Qed.

(** Once a read has returned nothing, no read is under way, and none returns again. *)
Definition ended_idle s : Prop := returnedEof s = true -> read s = NoRead.

Definition end_ok s s' (ev : list event) : Prop :=
  ended_idle s' /\
  (returnedEof s = true -> returnedEof s' = true /\ forall b, ReadDone b ∉ ev) /\
  (forall b, ReadDone b ∈ ev -> ev = [ReadDone b] /\ (b = [] -> returnedEof s' = true)).

(** A step that returns from no read. *)
Lemma end_quiet s s' ev : ended_idle s -> returnedEof s' = returnedEof s ->
  (read s' = read s \/ read s' = NoRead \/ returnedEof s = false) -> (forall b, ReadDone b ∉ ev) ->
  end_ok s s' ev.
Proof.
  intros Hi E1 E2 Hn. unfold end_ok, ended_idle. rewrite E1. split; [|split; [done|]].
  - intros H. destruct E2 as [-> |[->|E2]]; [by apply Hi|done|congruence].
  - intros b Hb. by apply Hn in Hb.
Qed.

Lemma end_consume n s s1 s' ev : returnedEof s = false -> read s1 = NoRead ->
  consume n s1 = Some (s', ev) -> end_ok s s' ev.
Proof.
  intros Hf Hr E. destruct (consume_event _ _ _ _ E) as (b' & out & -> & ->).
  unfold end_ok, ended_idle. cbn. split; [done|]. split; [congruence|].
  intros b Hin%list_elem_of_singleton. simplify_eq. split; [done|]. by intros ->.
Qed.

Lemma end_resume n buf s s1 s' ev : returnedEof s = false -> read s1 = NoRead ->
  resumeRead n buf s1 = Some (s', ev) -> end_ok s s' ev.
Proof. intros Hf Hr. unfold resumeRead. apply end_consume; [done|]. by case_match. Qed.

#[local] Ltac silent :=
  apply end_quiet; [assumption|reflexivity|cbn; auto|
    intros ?; rewrite ?elem_of_cons, ?elem_of_nil; intuition discriminate].

Lemma step_ended s a s' ev : ended_idle s -> step s a = Some (s', ev) -> end_ok s s' ev.
Proof using L Q.
  intros Hi. destruct a as [data| | | | |n| | | |]; cbn [step].
  - unfold pushData, addLast. destruct (pushing s); [done|]. cbn [doAssert negb mbind option_bind].
    repeat case_match; intros; simplify_eq; silent.
  - unfold pushEof, addLast. destruct (pushedEof s); [intros [= <- <-]; silent|].
    destruct (pushing s); [done|]. cbn [doAssert negb mbind option_bind].
    destruct (addLastNoWait _ _); intros; simplify_eq; silent.
  - destruct (push s); try destruct (addLastNoWait _ _); intros; simplify_eq; silent.
  - destruct (push s); intros; simplify_eq; silent.
  - destruct (push s); intros; simplify_eq; silent.
  - unfold readOnce. destruct (0 <? n)%nat; [|done]. destruct (reading s) eqn:Er; [done|].
    apply reading_false in Er. cbn [doAssert negb mbind option_bind].
    destruct (returnedEof s) eqn:Hret; [intros [= <- <-]; silent|].
    destruct (negb (isEof s) && _); [|by apply end_consume].
    destruct (popFirstNoWait _) as [[]|]; [by apply end_resume|]. intros [= <- <-]. silent.
  - destruct (read s) eqn:Er; try (intros; simplify_eq; silent; fail).
    destruct (popFirstNoWait _) as [[]|]; intros [= <- <-]; [|silent].
    apply end_quiet; [done|done| |intros ? []%elem_of_nil]. right; right.
    destruct (returnedEof s) eqn:Hret; [|done]. by rewrite (Hi Hret) in Er.
  - destruct (read s) eqn:Er; try (intros; simplify_eq; silent; fail). apply end_resume; [|done].
    destruct (returnedEof s) eqn:Hret; [|done]. by rewrite (Hi Hret) in Er.
  - destruct (read s) eqn:Er; try (intros; simplify_eq; silent; fail). unfold cancelRead.
    destruct (isEof _ && _); [destruct (popFirstNoWait _) as [[]|]; cbn; [|done]|];
      intros; simplify_eq; silent.
  - intros E. destruct (close_sublist _ _ _ E) as [-> _]. revert E. unfold close.
    destruct (isClosed s); [intros [= <-]; silent|]. cbn [read readQueue set_readBuf set_closed].
    destruct (read s) eqn:Er, (aq_head _); try destruct (pushing _);
      try destruct (popFirstNoWait _) as [[]|]; try destruct (addLastNoWait _ _);
      cbn [mbind option_bind]; intros; simplify_eq; silent.
Qed.

(** The whole life of a stream, closed or not: the bytes delivered and those in it are among the
bytes queued, in order, and a read that returns nothing is the last. *)
Lemma run_pipe s acts s' ev : base s -> ended_idle s -> run s acts = Some (s', ev) ->
  sublist (read_bytes ev ++ in_stream s') (in_stream s ++ queued_bytes ev) /\
  (returnedEof s = true -> forall b, ReadDone b ∉ ev) /\
  (forall e1 e2, ev = e1 ++ ReadDone [] :: e2 -> forall b, ReadDone b ∉ e2).
Proof.
  revert s ev. induction acts as [|a acts IH]; intros s ev Hb Hi; cbn.
  { intros [= <- <-]. cbn. rewrite app_nil_r. split; [done|].
    split; [by intros _ b ?%elem_of_nil|]. by intros [] e2. }
  destruct (misuse s a) eqn:Hm; [by rewrite step_misuse|].
  destruct (step_ok s a Hb Hm) as (s1 & e1 & E1 & Hb1 & Hp). rewrite E1. cbn.
  destruct (step_ended s a s1 e1 Hi E1) as (Hi1 & Hret & Hone).
  destruct (run s1 acts) as [[s2 e2]|] eqn:E; [|done]. cbn. intros [= <- <-].
  destruct (IH s1 e2 Hb1 Hi1 E) as (Hs2 & Hn2 & Ho2). split; [|split].
  - rewrite read_bytes_app, queued_bytes_app, <- app_assoc.
    etrans; [by apply sublist_app; [|exact Hs2]|]. rewrite !app_assoc. apply sublist_app; [|done].
    destruct (Close_or a) as [->|Hne]; [|by rewrite <- (Hp Hne)].
    destruct (close_sublist _ _ _ E1) as [-> Hs]. cbn. by rewrite app_nil_r.
  - intros Hr b. destruct (Hret Hr) as [Hr1 Hn1]. rewrite elem_of_app.
    intros [?|?]; [by apply (Hn1 b)|by apply (Hn2 Hr1 b)].
  - intros l1 l2 El b Hin. apply app_eq_app in El as (k & [[-> Ek]|[-> Ek]]).
    + destruct k as [|x k]; cbn in Ek; simplify_eq; [by apply (Ho2 [] l2 ltac:(done) b)|].
      destruct (Hone [] ltac:(set_solver)) as [Ee Hr1]. specialize (Hr1 eq_refl).
      destruct l1; cbn in Ee; [|by destruct l1]. simplify_eq. cbn in Hin.
      by apply (Hn2 Hr1 b).
    + by apply (Ho2 k l2 Ek b).
Qed.

(** Nothing waits for a closed stream. *)
Lemma closed_calls s a : base s -> isClosed s = true -> closed_inv s ->
  read s = NoRead -> push s = NoPush -> misuse s a = false ->
  exists s' ev, step s a = Some (s', ev) /\ read s' = NoRead /\ push s' = NoPush.
Proof.
  intros Hb Hc [He Hpe _ _] Hr Hp Hm.
  destruct (step_ok s a Hb Hm) as (s' & ev & E & _). exists s', ev. split; [done|].
  destruct a as [data| | | | |n| | | |]; cbn [step misuse] in E, Hm; rewrite ?Hr, ?Hp in E;
    try (by simplify_eq).
  - unfold pushData in E. rewrite Hm, Hc in E. cbn in E. by simplify_eq.
  - unfold pushEof in E. rewrite Hpe in E. by simplify_eq.
  - unfold readOnce in E. apply orb_false_iff in Hm as [Hn Hrd].
    rewrite Hrd in E. destruct (0 <? n)%nat; [|done]. cbn [doAssert negb mbind option_bind] in E.
    destruct (returnedEof s); [by simplify_eq|]. rewrite He in E. cbn [negb andb] in E.
    destruct (consume_event _ _ _ _ E) as (b & out & -> & ->). done.
  - unfold close in E. rewrite Hc in E. by simplify_eq.
Qed.

(** A closed stream keeps its invariant, if its read is not cancelled. *)
Lemma run_closed s acts s' ev : base s -> isClosed s = true -> closed_inv s -> CancelRead ∉ acts ->
  run s acts = Some (s', ev) -> isClosed s' = true /\ closed_inv s'.
Proof.
  revert s ev. induction acts as [|a acts IH]; intros s ev Hb Hcl Hinv; cbn.
  { intros _ [= <- <-]. done. }
  intros [Ha Hc]%not_elem_of_cons. destruct (misuse s a) eqn:Hm; [by rewrite step_misuse|].
  destruct (step_ok s a Hb Hm) as (s1 & e1 & E1 & Hb1 & _). rewrite E1. cbn.
  destruct (run s1 acts) as [[s2 e2]|] eqn:E; [|done]. cbn. intros [= <- <-].
  apply (IH s1 e2 Hb1); [| |done|done].
  - destruct (Close_or a) as [->|Hne]; [|by rewrite (step_isClosed _ _ _ _ Hne E1)].
    cbn in E1. unfold close in E1. rewrite Hcl in E1. by simplify_eq.
  - by eapply step_closed; [..|exact E1].
Qed.

Lemma run_open_closed s acts s' ev : isClosed s = false -> Close ∉ acts ->
  run s acts = Some (s', ev) -> isClosed s' = false.
Proof.
  revert s ev. induction acts as [|a acts IH]; intros s ev Ho; cbn; [by intros _ [= <- <-]|].
  intros [Ha Hc]%not_elem_of_cons. destruct (step s a) as [[s1 e1]|] eqn:E1; [|done]. cbn.
  destruct (run s1 acts) as [[s2 e2]|] eqn:E; [|done]. cbn. intros [= <- <-].
  apply (IH s1 e2); [|done|done]. rewrite (step_isClosed _ _ _ _ (fun H => Ha (eq_sym H)) E1). done.
Qed.

(** C27: A buffer stream is a pipe.  After any interleaving of pushes, reads, the turns of the tasks
that wait, cancellations and [close], a call fails only if two tasks push or read at once or a read
asks for nothing; the bytes delivered are among the bytes pushed, in their order and none twice;
and once a read has returned nothing, no read ever returns again.  Until the stream is closed no
byte is lost either: the bytes delivered followed by the bytes in the stream are the bytes pushed; a
read returns nothing only after [pushEof], when everything pushed has been delivered; and a read
raises LPStreamEOFError only after one returned nothing. *)
Theorem bufferstream_pipe acts s ev : run initStream acts = Some (s, ev) ->
  (forall a, step s a = None <-> misuse s a = true) /\
  sublist (read_bytes ev) (queued_bytes ev) /\
  (forall e1 e2, ev = e1 ++ ReadDone [] :: e2 -> forall b, ReadDone b ∉ e2) /\
  (Close ∉ acts ->
    read_bytes ev ++ in_stream s = queued_bytes ev /\
    (ReadDone [] ∈ ev -> read_bytes ev = queued_bytes ev /\ pushedEof s = true) /\
    (ReadEof ∈ ev -> ReadDone [] ∈ ev)).
Proof.
  intros E. pose proof (run_base _ _ _ _ init_base E) as Hb. split.
  { intros a. split; [|apply step_misuse]. destruct (misuse s a) eqn:Hm; [done|].
    destruct (step_ok s a Hb Hm) as (? & ? & -> & _). done. }
  assert (E0 : in_stream initStream = []).
  { unfold in_stream. destruct (new_items 1) as [Hi _]. cbn. by rewrite Hi. }
  destruct (run_pipe initStream acts s ev init_base ltac:(done) E) as (Hs & _ & Hone).
  split; [rewrite E0 in Hs; etrans; [|exact Hs]; by apply sublist_inserts_r|]. split; [exact Hone|].
  intros Hc. destruct (run_open _ _ _ _ init_base init_open Hc E) as (Ho & Hp & Hret & Heof).
  rewrite E0 in Hp. cbn in Hp. split; [done|]. split.
  - intros H. destruct (o_returned _ Ho (Hret (or_introl H))) as [HE Hcon].
    destruct (o_eof _ Ho HE) as (Hi & Hr & _).
    rewrite Hp. unfold in_stream. rewrite Hcon, Hr, Hi. cbn. rewrite app_nil_r. split; [done|].
    destruct (pushedEof s) eqn:Ep; [done|]. by destruct (o_unmarked _ Ho Ep) as [? _]; congruence.
  - intros H. destruct (Heof H) as [?|Hinit]; done.
Qed.

(** C28: Closing ends every wait, if no read is cancelled after it ([stuck_push] is a run in which
one is).  Whatever pushes, reads and cancellations come before the first [close], and whatever
calls come after it other than the cancellation of a read, one turn of each
task that can go on (the queue's pop and the read, the queue's add and the push) ends the read and
the push that were waiting; and from then on every call that is not a misuse returns at once. *)
Theorem bufferstream_close acts acts' s ev : Close ∉ acts -> CancelRead ∉ acts' ->
  run initStream (acts ++ Close :: acts') = Some (s, ev) ->
  exists s' ev', run s [ResumePop; ResumeRead; ResumeAdd; ResumePush] = Some (s', ev') /\
    read s' = NoRead /\ push s' = NoPush /\ isClosed s' = true /\
    forall a, misuse s' a = false ->
      exists s'' ev'', step s' a = Some (s'', ev'') /\ read s'' = NoRead /\ push s'' = NoPush.
Proof using L Q.
  intros Ho Hn E. pose proof (run_base _ _ _ _ init_base E) as Hb. rewrite run_app in E.
  destruct (run initStream acts) as [[s1 e1]|] eqn:E1; [|done]. cbn in E.
  pose proof (run_base _ _ _ _ init_base E1) as Hb1.
  destruct (close s1) as [[s2 e2]|] eqn:E2; [|done]. cbn in E.
  destruct (run s2 acts') as [[s3 e3]|] eqn:E3; [|done]. cbn in E. simplify_eq.
  destruct (step_ok s1 Close Hb1 eq_refl) as (s2' & e2' & E2' & Hb2 & _). cbn in E2'.
  rewrite E2 in E2'. injection E2' as <- <-.
  assert (Hcl : isClosed s1 = false) by (by eapply run_open_closed; [..|exact E1]).
  destruct (close_closed s1 s2 e2 Hb1 Hcl E2) as [Hc2 Hi2].
  destruct (run_closed s2 acts' s e3 Hb2 Hc2 Hi2 Hn E3) as [Hc Hinv].
  destruct (closed_round s Hb Hc Hinv) as (s' & ev' & E' & Hr & Hp & Hb' & Hc' & Hinv').
  exists s', ev'. split_and!; [done..|]. intros a Ha. by apply closed_calls.
Qed.

End Runs.

(** ** Examples *)

(** A queue that is a list. *)
Section ListQueue.

Definition list_add (x : bytes) (q : nat * list bytes) : option (nat * list bytes) :=
  if (length q.2 <? q.1)%nat then Some (q.1, q.2 ++ [x]) else None.

Definition list_pop (q : nat * list bytes) : option (bytes * (nat * list bytes)) :=
  match q.2 with x :: l => Some (x, (q.1, l)) | [] => None end.

Definition list_queue : AsyncQueue := {|
  aqueue := nat * list bytes;
  newAsyncQueue n := (n, []);
  aq_head q := head q.2;
  addLastNoWait := list_add;
  popFirstNoWait := list_pop;
|}.

Instance list_queue_laws : AsyncQueueLaws list_queue.
Proof.
  unshelve econstructor; [exact snd|exact fst|done|done| |].
  - intros x [n l]. cbn [addLastNoWait list_queue fst snd]. unfold list_add. cbn [fst snd].
    destruct (Nat.ltb_spec (length l) n); auto.
  - intros [n [|x l]]; cbn; done.
Defined.

Definition list_run (acts : list act) : option (BufferStream (Q := list_queue) * list event) :=
  run initStream acts.

End ListQueue.

(** Two chunks pushed, the second while the first is in the queue, and the end: they are delivered
in pieces, and then nothing. *)
Definition sample_run : list act :=
  [PushData [1; 2; 3]; PushData [4; 5]; ReadOnce 2; ResumeAdd; ResumePush; ReadOnce 4; PushEof;
   ReadOnce 4; ReadOnce 4].

Example sample_run_events : snd <$> list_run sample_run =
  Some [Queued [1; 2; 3]; PushDone; ReadDone [1; 2]; Queued [4; 5]; PushDone; ReadDone [3; 4; 5];
        Queued []; PushDone; ReadDone []; ReadEof].
Proof. vm_compute. reflexivity. Qed.

Lemma bufferstream_pipe_witness : exists s ev, list_run sample_run = Some (s, ev) /\
  ReadDone [] ∈ ev /\ pushedEof s = true /\ read_bytes ev = [1; 2; 3; 4; 5].
Proof.
  destruct (list_run sample_run) as [[s ev]|] eqn:E; [|by vm_compute in E].
  pose proof (@bufferstream_pipe list_queue list_queue_laws sample_run s ev E)
    as (_ & _ & Hone & H).
  assert (Hev : Some ev = snd <$> list_run sample_run) by (rewrite E; reflexivity).
  rewrite sample_run_events in Hev. injection Hev as Hev.
  assert (Hin : ReadDone [] ∈ ev).
  { rewrite Hev. do 8 right. left. }
  exists s, ev. split; [reflexivity|]. split; [exact Hin|].
  destruct H as (_ & H & _);
    [by unfold sample_run; intros Hn; rewrite !elem_of_cons, elem_of_nil in Hn; destruct_or!|].
  destruct (H Hin) as [-> ->]. split; [reflexivity|]. rewrite Hev. reflexivity.
Defined.

(** A read and a second push both wait when the stream closes. *)
Lemma bufferstream_close_witness : exists s ev s' ev',
  list_run ([ReadOnce 3; PushData [1]; PushData [2]] ++ Close :: []) = Some (s, ev) /\
  run s [ResumePop; ResumeRead; ResumeAdd; ResumePush] = Some (s', ev') /\
  read s' = NoRead /\ push s' = NoPush.
Proof.
  destruct (list_run ([ReadOnce 3; PushData [1]; PushData [2]] ++ Close :: [])) as [[s ev]|] eqn:E;
    [|by vm_compute in E].
  destruct (@bufferstream_close list_queue list_queue_laws
    [ReadOnce 3; PushData [1]; PushData [2]] [] s ev) as (s' & ev' & H1 & H2 & H3 & _);
    [by intros H; rewrite !elem_of_cons, elem_of_nil in H; destruct_or!|by intros H%elem_of_nil|exact E|].
  exists s, ev, s', ev'. split_and!; done.
Defined.

(** A cancelled [pushEof] leaves a stream that never ends: the flag is set, the marker is not
queued, another [pushEof] returns at once, and the read waits. *)
Example lost_marker : snd <$> list_run
  [PushData [1]; PushEof; CancelPush; ReadOnce 1; PushEof; PushData [2]; ReadOnce 1; ResumePop] =
  Some [Queued [1]; PushDone; Cancelled; ReadDone [1]; PushDone; PushClosed].
Proof. vm_compute. reflexivity. Qed.

(** [closeImpl] empties [readBuf] under a read whose chunk is already in the queue: the read
delivers bytes [4] and [5] and not the [3] before them. *)
Example gap_after_close : snd <$> list_run
  [PushData [1; 2; 3]; ReadOnce 2; ReadOnce 2; PushData [4; 5]; Close; ResumePop; ResumeRead] =
  Some [Queued [1; 2; 3]; PushDone; ReadDone [1; 2]; Queued [4; 5]; PushDone; ReadDone [4; 5]].
Proof. vm_compute. reflexivity. Qed.

(** The one case that [bufferstream_close] leaves out.  A read cancelled although its chunk is
already in the queue leaves it there, and the push behind it waits for ever. *)
Example stuck_push : push ∘ fst <$> list_run
  [ReadOnce 1; PushData [1]; PushData [2]; Close; CancelRead; ResumeAdd; ResumePush; Close] =
  Some (Adding [2]).
Proof. vm_compute. reflexivity. Qed.
