(* ===== verification/Protocol.v ===== *)
(** * Protocol: the stream budgets of a protocol (src/libp2p/protocols/protocol.nim)

A protocol counts its open streams, in each direction and for each peer, and refuses the
streams over its limits.  [Multistream.handle] reserves an incoming stream before it calls
the handler and releases it after. *)
From S2P Require Import Prelude.

#[local] Open Scope Z_scope.

Abbreviation PeerId := bytes (only parsing).

Inductive Direction := In_ | Out_.

#[export] Instance Direction_eq_dec : EqDecision Direction.
Proof. solve_decision. Defined.

(** ** Nim's [CountTable] *)

Definition ct_get (t : gmap bytes Z) (k : bytes) : Z := default 0 (t !! k).

(** [inc(key, val)]: an entry that comes to zero is removed. *)
Definition ct_inc (t : gmap bytes Z) (k : bytes) (val : Z) : gmap bytes Z :=
  if ct_get t k + val =? 0 then delete k t else <[k := ct_get t k + val]> t.

(** ** The state *)

Record StreamBudgetState := mkBudget {
  totalIncoming : Z;
  totalOutgoing : Z;
  perPeerIncoming : gmap bytes Z;
  perPeerOutgoing : gmap bytes Z;
}.

Record LPProtocol := mkProtocol {
  started : bool;
  codecs : list bytes;
  maxIncomingStreamsTotal : option Z;
  maxIncomingStreamsPerPeer : option Z;
  maxOutgoingStreamsTotal : option Z;
  maxOutgoingStreamsPerPeer : option Z;
  streamBudget : option StreamBudgetState;
}.

Implicit Types (p : LPProtocol) (peerId : PeerId) (b : StreamBudgetState).

Definition set_budget p b : LPProtocol :=
  mkProtocol (started p) (codecs p) (maxIncomingStreamsTotal p) (maxIncomingStreamsPerPeer p)
    (maxOutgoingStreamsTotal p) (maxOutgoingStreamsPerPeer p) (Some b).

Definition start p : LPProtocol :=
  mkProtocol true (codecs p) (maxIncomingStreamsTotal p) (maxIncomingStreamsPerPeer p)
    (maxOutgoingStreamsTotal p) (maxOutgoingStreamsPerPeer p) (streamBudget p).

Definition stop p : LPProtocol :=
  mkProtocol false (codecs p) (maxIncomingStreamsTotal p) (maxIncomingStreamsPerPeer p)
    (maxOutgoingStreamsTotal p) (maxOutgoingStreamsPerPeer p) (streamBudget p).

(** The assertion that there is a codec. *)
Definition codec p : option bytes := head (codecs p).

Definition set_codec p (c : bytes) : LPProtocol :=
  mkProtocol (started p) (c :: codecs p) (maxIncomingStreamsTotal p) (maxIncomingStreamsPerPeer p)
    (maxOutgoingStreamsTotal p) (maxOutgoingStreamsPerPeer p) (streamBudget p).

Definition setStreamLimits p (inTotal inPeer outTotal outPeer : option Z) : option LPProtocol :=
  _ ← doAssert (negb (started p));
  Some (mkProtocol (started p) (codecs p) inTotal inPeer outTotal outPeer
    (if bool_decide (is_Some inTotal) || bool_decide (is_Some inPeer) ||
        bool_decide (is_Some outTotal) || bool_decide (is_Some outPeer)
     then Some (mkBudget 0 0 ∅ ∅) else None)).

(** A nil [handler] is [None].  The handler itself is no part of the state: what calls it is the
dispatch of Multistream. *)
Definition new {Handler : Type} (codecs : list bytes) (handler : option Handler)
    (inTotal inPeer outTotal outPeer : option Z) : option LPProtocol :=
  _ ← doAssert (0 <? length codecs)%nat;
  _ ← doAssert (bool_decide (is_Some handler));
  setStreamLimits (mkProtocol false codecs None None None None None) inTotal inPeer outTotal outPeer.

(** ** Reservations *)

Definition reached (limit : option Z) (count : Z) : bool :=
  match limit with Some l => l <=? count | None => false end.

(** Whether a stream is accepted, and the scope that refuses it. *)
Definition budgetReason p peerId (dir : Direction) : bool * string :=
  match streamBudget p with
  | None => (true, "")
  | Some budget =>
      match dir with
      | In_ =>
          if reached (maxIncomingStreamsPerPeer p) (ct_get (perPeerIncoming budget) peerId)
          then (false, "per_peer")
          else if reached (maxIncomingStreamsTotal p) (totalIncoming budget) then (false, "total")
          else (true, "")
      | Out_ =>
          if reached (maxOutgoingStreamsPerPeer p) (ct_get (perPeerOutgoing budget) peerId)
          then (false, "per_peer")
          else if reached (maxOutgoingStreamsTotal p) (totalOutgoing budget) then (false, "total")
          else (true, "")
      end
  end.

Definition canAcceptIncoming p peerId : bool := (budgetReason p peerId In_).1.

Definition canOpenOutgoing p peerId : bool := (budgetReason p peerId Out_).1.

Definition reserveIncoming p peerId : LPProtocol * bool :=
  match streamBudget p with
  | None => (p, true)
  | Some budget =>
      if negb (budgetReason p peerId In_).1 then (p, false)
      else (set_budget p (mkBudget (totalIncoming budget + 1) (totalOutgoing budget)
              (ct_inc (perPeerIncoming budget) peerId 1) (perPeerOutgoing budget)), true)
  end.

Definition releaseIncoming p peerId : LPProtocol :=
  match streamBudget p with
  | None => p
  | Some budget =>
      let pb := ct_get (perPeerIncoming budget) peerId in
      if pb =? 0 then p
      else
        let t := if pb =? 1 then delete peerId (perPeerIncoming budget)
                 else ct_inc (perPeerIncoming budget) peerId (-1) in
        set_budget p (mkBudget (totalIncoming budget - 1) (totalOutgoing budget) t
          (perPeerOutgoing budget))
  end.

Definition reserveOutgoing p peerId : LPProtocol * bool :=
  match streamBudget p with
  | None => (p, true)
  | Some budget =>
      if negb (budgetReason p peerId Out_).1 then (p, false)
      else (set_budget p (mkBudget (totalIncoming budget) (totalOutgoing budget + 1)
              (perPeerIncoming budget) (ct_inc (perPeerOutgoing budget) peerId 1)), true)
  end.

Definition releaseOutgoing p peerId : LPProtocol :=
  match streamBudget p with
  | None => p
  | Some budget =>
      let pb := ct_get (perPeerOutgoing budget) peerId in
      if pb =? 0 then p
      else
        let t := if pb =? 1 then delete peerId (perPeerOutgoing budget)
                 else ct_inc (perPeerOutgoing budget) peerId (-1) in
        set_budget p (mkBudget (totalIncoming budget) (totalOutgoing budget - 1)
          (perPeerIncoming budget) t)
  end.

(** ** Streams that come and go *)

Definition reserve (dir : Direction) p peerId : LPProtocol * bool :=
  match dir with In_ => reserveIncoming p peerId | Out_ => reserveOutgoing p peerId end.

Definition release (dir : Direction) p peerId : LPProtocol :=
  match dir with In_ => releaseIncoming p peerId | Out_ => releaseOutgoing p peerId end.

(** The streams that were accepted and are open, each with its direction and its peer. *)
Abbreviation open_streams := (list (Direction * bytes)) (only parsing).

Inductive stream_step : LPProtocol * open_streams -> LPProtocol * open_streams -> Prop :=
| step_open p p' dir peerId ok streams : reserve dir p peerId = (p', ok) ->
    stream_step (p, streams) (p', if ok then (dir, peerId) :: streams else streams)
| step_close p dir peerId l1 l2 :
    stream_step (p, l1 ++ (dir, peerId) :: l2) (release dir p peerId, l1 ++ l2).

Definition max_total p (dir : Direction) : option Z :=
  match dir with In_ => maxIncomingStreamsTotal p | Out_ => maxOutgoingStreamsTotal p end.

Definition max_per_peer p (dir : Direction) : option Z :=
  match dir with In_ => maxIncomingStreamsPerPeer p | Out_ => maxOutgoingStreamsPerPeer p end.

(** How many streams are open, in a direction and with a peer. *)
Definition open_total (streams : open_streams) (dir : Direction) : Z :=
  Z.of_nat (length (filter (fun s => s.1 = dir) streams)).

Definition open_with (streams : open_streams) (dir : Direction) peerId : Z :=
  Z.of_nat (length (filter (fun s => s = (dir, peerId)) streams)).

Definition total b (dir : Direction) : Z := match dir with In_ => totalIncoming b | Out_ => totalOutgoing b end.

Definition per_peer b (dir : Direction) : gmap bytes Z :=
  match dir with In_ => perPeerIncoming b | Out_ => perPeerOutgoing b end.

(** The counters count, and no limit is exceeded. *)
Definition counts p (streams : open_streams) : Prop :=
  match streamBudget p with
  | Some b => forall dir,
      total b dir = open_total streams dir /\
      (forall peerId, ct_get (per_peer b dir) peerId = open_with streams dir peerId) /\
      (forall peerId n, per_peer b dir !! peerId = Some n -> n <> 0)
  | None => forall dir, max_total p dir = None /\ max_per_peer p dir = None
  end.

Definition within (limit : option Z) (n : Z) : Prop :=
  match limit with Some l => n <= Z.max 0 l | None => True end.

Definition within_limits p (streams : open_streams) : Prop :=
  forall dir, within (max_total p dir) (open_total streams dir) /\
    forall peerId, within (max_per_peer p dir) (open_with streams dir peerId).

(** ** Facts *)

Lemma ct_get_inc t k v k' : ct_get (ct_inc t k v) k' = if decide (k = k') then ct_get t k + v else ct_get t k'.
Proof.
  unfold ct_inc. destruct (Z.eqb_spec (ct_get t k + v) 0) as [Hz|Hz]; unfold ct_get at 1; case_decide; subst.
  - by rewrite lookup_delete_eq.
  - by rewrite lookup_delete_ne.
  - by rewrite lookup_insert_eq.
  - by rewrite lookup_insert_ne.
Qed.

Lemma ct_inc_nonzero t k v : (forall k n, t !! k = Some n -> n <> 0) ->
  forall k' n, ct_inc t k v !! k' = Some n -> n <> 0.
Proof.
  intros Ht k' n. unfold ct_inc. destruct (Z.eqb_spec (ct_get t k + v) 0).
  - intros [_ ?]%lookup_delete_Some. by eapply Ht.
  - intros [[_ <-]|[_ ?]]%lookup_insert_Some; [done|by eapply Ht].
Qed.

Lemma ct_get_delete t k k' : ct_get (delete k t) k' = if decide (k = k') then 0 else ct_get t k'.
Proof. unfold ct_get. case_decide; subst; [by rewrite lookup_delete_eq|by rewrite lookup_delete_ne]. Qed.

(** How [release] decrements a counter. *)
Lemma ct_dec t k : let t' := if ct_get t k =? 1 then delete k t else ct_inc t k (-1) in
  (forall k', ct_get t' k' = if decide (k = k') then ct_get t k' + -1 else ct_get t k') /\
  ((forall k n, t !! k = Some n -> n <> 0) -> forall k n, t' !! k = Some n -> n <> 0).
Proof.
  cbn. destruct (Z.eqb_spec (ct_get t k) 1) as [E|E]; split.
  - intros k'. rewrite ct_get_delete. case_decide; [subst; lia|done].
  - intros Hn k' n [_ ?]%lookup_delete_Some. by eapply Hn.
  - intros k'. rewrite ct_get_inc. case_decide; [by subst|done].
  - intros Hn. by apply ct_inc_nonzero.
Qed.

Lemma open_total_cons dir peerId l d :
  open_total ((dir, peerId) :: l) d = (if decide (dir = d) then 1 else 0) + open_total l d.
Proof. unfold open_total. rewrite filter_cons; cbn [fst]. case_decide; cbn [length]; lia. Qed.

Lemma open_with_cons dir peerId l d k :
  open_with ((dir, peerId) :: l) d k = (if decide ((dir, peerId) = (d, k)) then 1 else 0) + open_with l d k.
Proof. unfold open_with. rewrite filter_cons. case_decide; cbn [length]; lia. Qed.

Lemma open_perm l l' d : l ≡ₚ l' -> open_total l d = open_total l' d /\
  forall k, open_with l d k = open_with l' d k.
Proof.
  intros Hl. unfold open_total, open_with. split; [by rewrite Hl|]. intros k. by rewrite Hl.
Qed.

(** One counter goes up or down; the state of the other direction stays. *)
Definition bumped b b' (dir : Direction) peerId (v : Z) : Prop :=
  total b' dir = total b dir + v /\
  (forall k, ct_get (per_peer b' dir) k = if decide (peerId = k) then ct_get (per_peer b dir) k + v
    else ct_get (per_peer b dir) k) /\
  (forall d, d <> dir -> total b' d = total b d /\ per_peer b' d = per_peer b d) /\
  ((forall k n, per_peer b dir !! k = Some n -> n <> 0) ->
   forall k n, per_peer b' dir !! k = Some n -> n <> 0).

Lemma reserve_spec dir p peerId : match streamBudget p with
  | None => reserve dir p peerId = (p, true)
  | Some b =>
      if reached (max_per_peer p dir) (ct_get (per_peer b dir) peerId) ||
         reached (max_total p dir) (total b dir)
      then reserve dir p peerId = (p, false)
      else exists b', reserve dir p peerId = (set_budget p b', true) /\ bumped b b' dir peerId 1
  end.
Proof.
  destruct dir; cbn; unfold reserveIncoming, reserveOutgoing, budgetReason;
    destruct (streamBudget p) as [b|]; try done;
    destruct (reached _ (ct_get _ _)); cbn; try done; destruct (reached _ _); cbn; try done;
    eexists; (split; [done|]); unfold bumped; cbn; split_and!; try done;
    try (intros k; rewrite ct_get_inc; case_decide; congruence);
    try (by intros []); try (intros Hn; by apply ct_inc_nonzero).
Qed.

Lemma release_spec dir p peerId b : streamBudget p = Some b -> ct_get (per_peer b dir) peerId <> 0 ->
  exists b', release dir p peerId = set_budget p b' /\ bumped b b' dir peerId (-1).
Proof.
  intros Hb Hne. destruct dir; cbn in *; unfold releaseIncoming, releaseOutgoing; rewrite Hb;
    rewrite (proj2 (Z.eqb_neq _ _) Hne); eexists; (split; [done|]); unfold bumped; cbn;
    (split; [lia|]); (split; [apply ct_dec|]); (split; [by intros []|apply ct_dec]).
Qed.

Lemma counts_bumped p b b' dir peerId v streams streams' : streamBudget p = Some b ->
  counts p streams -> bumped b b' dir peerId v ->
  (forall d, open_total streams' d = (if decide (dir = d) then v else 0) + open_total streams d) ->
  (forall d k, open_with streams' d k =
     (if decide ((dir, peerId) = (d, k)) then v else 0) + open_with streams d k) ->
  counts (set_budget p b') streams'.
Proof.
  unfold counts. intros Hb. rewrite Hb. intros Hc (Ht & Hp & Ho & Hn) Et Ew d. cbn.
  specialize (Hc d) as (Ht' & Hp' & Hn'). rewrite Et. setoid_rewrite Ew.
  destruct (decide (dir = d)) as [->|Hd].
  - split; [lia|]. split; [|by apply Hn]. intros k. rewrite Hp, Hp'. repeat case_decide; simplify_eq; lia.
  - destruct (Ho d ltac:(done)) as [-> ->]. split; [lia|]. split; [|done]. intros k. rewrite Hp'.
    rewrite decide_False by congruence. lia.
Qed.

Lemma limits_set_budget p b dir : max_total (set_budget p b) dir = max_total p dir /\
  max_per_peer (set_budget p b) dir = max_per_peer p dir.
Proof. by destruct dir. Qed.

Lemma stream_open_ok p p' dir peerId ok l : reserve dir p peerId = (p', ok) ->
  counts p l -> within_limits p l ->
  let l' := if ok then (dir, peerId) :: l else l in counts p' l' /\ within_limits p' l'.
Proof.
  intros Hr Hc Hw. pose proof (reserve_spec dir p peerId) as Hs. destruct (streamBudget p) as [b|] eqn:Hb.
  - destruct (reached (max_per_peer p dir) _ || _) eqn:Hlim.
    { rewrite Hs in Hr. by simplify_eq. }
    destruct Hs as (b' & Hs & Hbump). rewrite Hs in Hr. simplify_eq. split.
    + apply (counts_bumped p b b' dir peerId 1 l); try done; intros; by rewrite ?open_total_cons, ?open_with_cons.
    + pose proof Hc as Hc'. unfold counts in Hc'. rewrite Hb in Hc'.
      apply orb_false_iff in Hlim as [Hl1 Hl2].
      intros d. destruct (limits_set_budget p b' d) as [-> ->].
      destruct (Hw d) as [Hw1 Hw2]. destruct (Hc' d) as (Ht & Hp & _). rewrite open_total_cons.
      split; [|intros k; rewrite open_with_cons; specialize (Hw2 k)].
      * case_decide; subst; [|done]. unfold within, reached in *. destruct (max_total p d); [|done]. lia.
      * case_decide; simplify_eq; [|done]. rewrite Hp in Hl1. unfold within, reached in *.
        destruct (max_per_peer p d); [|done]. lia.
  - rewrite Hs in Hr. simplify_eq. unfold counts in *. rewrite Hb in *. split; [done|].
    intros d. unfold within. by destruct (Hc d) as [-> ->].
Qed.

Lemma stream_close_ok p dir peerId l1 l2 : counts p (l1 ++ (dir, peerId) :: l2) ->
  within_limits p (l1 ++ (dir, peerId) :: l2) ->
  counts (release dir p peerId) (l1 ++ l2) /\ within_limits (release dir p peerId) (l1 ++ l2).
Proof.
  set (l := l1 ++ (dir, peerId) :: l2). intros Hc Hw.
  assert (Hperm : l ≡ₚ (dir, peerId) :: l1 ++ l2) by (unfold l; by rewrite Permutation_middle).
  assert (Et : forall d, open_total (l1 ++ l2) d = (if decide (dir = d) then -1 else 0) + open_total l d).
  { intros d. destruct (open_perm _ _ d Hperm) as [-> _]. rewrite open_total_cons. case_decide; lia. }
  assert (Ew : forall d k, open_with (l1 ++ l2) d k =
    (if decide ((dir, peerId) = (d, k)) then -1 else 0) + open_with l d k).
  { intros d k. destruct (open_perm _ _ d Hperm) as [_ ->]. rewrite open_with_cons. case_decide; lia. }
  destruct (streamBudget p) as [b|] eqn:Hb.
  - pose proof Hc as Hc'. unfold counts in Hc'. rewrite Hb in Hc'. destruct (Hc' dir) as (_ & Hp & _).
    assert (Hne : ct_get (per_peer b dir) peerId <> 0).
    { rewrite Hp. destruct (open_perm _ _ dir Hperm) as [_ ->]. rewrite open_with_cons, decide_True by done.
      unfold open_with. lia. }
    destruct (release_spec dir p peerId b Hb Hne) as (b' & -> & Hbump). split.
    + by apply (counts_bumped p b b' dir peerId (-1) l).
    + intros d. destruct (limits_set_budget p b' d) as [-> ->]. destruct (Hw d) as [Hw1 Hw2].
      rewrite Et. unfold within in *. split.
      * destruct (max_total p d); [|done]. case_decide; lia.
      * intros k. specialize (Hw2 k). rewrite Ew. destruct (max_per_peer p d); [|done]. case_decide; lia.
  - assert (E : release dir p peerId = p)
      by (destruct dir; cbn; unfold releaseIncoming, releaseOutgoing; by rewrite Hb).
    rewrite E. unfold counts in *. rewrite Hb in *. split; [done|].
    intros d. unfold within. by destruct (Hc d) as [-> ->].
Qed.

Lemma stream_step_ok p l p' l' : stream_step (p, l) (p', l') ->
  counts p l -> within_limits p l -> counts p' l' /\ within_limits p' l'.
Proof.
  intros Hst Hc Hw. inversion Hst; subst; [by apply (stream_open_ok p)|by apply stream_close_ok].
Qed.

(** C29: Whatever streams are accepted and closed, the counters are the numbers of streams open
in each direction, in all and with each peer, no configured limit is exceeded, and a stream
is refused exactly when the limit of its peer or of its direction is reached. *)
Theorem stream_budget_sound (Handler : Type) codecs (handler : option Handler) inTotal inPeer outTotal outPeer p0 p streams :
  new codecs handler inTotal inPeer outTotal outPeer = Some p0 ->
  rtc stream_step (start p0, []) (p, streams) ->
  counts p streams /\ within_limits p streams /\
  forall dir peerId, (reserve dir p peerId).2 =
    negb (reached (max_per_peer p dir) (open_with streams dir peerId)) &&
    negb (reached (max_total p dir) (open_total streams dir)).
Proof.
  intros Hn Hr.
  assert (H0 : counts (start p0) [] /\ within_limits (start p0) []).
  { unfold new, setStreamLimits in Hn. destruct codecs, handler; try done. injection Hn as <-. split.
    - unfold counts; cbn. destruct inTotal, inPeer, outTotal, outPeer; cbn; intros []; cbn; split_and!; try done.
    - intros dir. change (open_total [] dir) with 0. unfold within.
      split; [destruct (max_total _ dir); [lia|done]|]. intros k. change (open_with [] dir k) with 0.
      destruct (max_per_peer _ dir); [lia|done]. }
  assert (Hi : counts p streams /\ within_limits p streams).
  { remember (start p0, []) as x eqn:Ex. remember (p, streams) as y eqn:Ey.
    assert (Hx : counts x.1 x.2 /\ within_limits x.1 x.2) by (by subst). clear Ex.
    assert (G : counts y.1 y.2 /\ within_limits y.1 y.2); [|by subst]. clear Ey.
    induction Hr as [|[p1 l1] [p2 l2] z Hst _ IH]; [done|]. destruct Hx. apply IH.
    by apply (stream_step_ok p1 l1). }
  destruct Hi as [Hc Hw]. split; [done|]. split; [done|]. intros dir peerId.
  pose proof (reserve_spec dir p peerId) as Hs. unfold counts in Hc.
  destruct (streamBudget p) as [b|].
  - destruct (Hc dir) as (Ht & Hp & _). rewrite Ht, Hp in Hs. rewrite <- negb_orb.
    destruct (_ || _); [by rewrite Hs|]. by destruct Hs as (b' & -> & _).
  - rewrite Hs. by destruct (Hc dir) as [-> ->].
Qed.

Lemma stream_budget_sound_witness :
  exists p0 p, new [[47]] (Some tt) None (Some 1) (Some 2) None = Some p0 /\
    rtc stream_step (start p0, []) (p, [(In_, [1]); (Out_, [2])]) /\
    (reserve In_ p [1]).2 = false /\ (reserve In_ p [3]).2 = true /\ (reserve Out_ p [1]).2 = true.
Proof.
  destruct (new [[47]] (Some tt) None (Some 1) (Some 2) None) as [p0|] eqn:E0; [|by vm_compute in E0].
  exists p0.
  assert (Hr : rtc stream_step (start p0, [])
    ((reserve In_ (release In_ (reserve Out_ (reserve In_ (start p0) [1]).1 [2]).1 [1]) [1]).1,
     [(In_, [1]); (Out_, [2])])).
  { vm_compute in E0. injection E0 as <-.
    eapply rtc_l; [eapply (step_open _ _ In_ [1] true); reflexivity|].
    eapply rtc_l; [eapply (step_open _ _ Out_ [2] true); reflexivity|].
    eapply rtc_l; [eapply (step_close _ In_ [1] [(Out_, [2])] [])|].
    eapply rtc_l; [eapply (step_open _ _ In_ [1] true); reflexivity|]. apply rtc_refl. }
  eexists. split; [done|]. split; [exact Hr|].
  destruct (stream_budget_sound _ _ _ _ _ _ _ _ _ _ E0 Hr) as (_ & _ & H). rewrite !H.
  vm_compute in E0. injection E0 as <-. by vm_compute.
Defined.
