(* ===== verification/Multistream.v ===== *)
(** * Multistream: protocol negotiation (src/libp2p/multistream.nim)

A side of a negotiation is a process: the reads and the writes it does on its stream, in
order, with what it does next.  [trySelect] and [tryHandle] are the two sides; the second
half of the file runs them against each other over two queues of bytes. *)
From S2P Require Import Prelude Leb128 Varint LpStream.
From S2P Require Protocol.
From Stdlib Require Import Ascii.

#[local] Open Scope Z_scope.

(** A Nim string is its bytes. *)
Definition bytes_of_string (s : string) : bytes :=
  (fun c => Z.of_N (N_of_ascii c)) <$> String.list_ascii_of_string s.

Definition MsgSize : Z := 1024.

Definition Codec : bytes := bytes_of_string "/multistream/1.0.0".

Definition nl : bytes := [10].

Definition Na : bytes := bytes_of_string "na" ++ nl.

Definition Ls : bytes := bytes_of_string "ls" ++ nl.

Inductive MultiStreamFailure := MalformedMessage | HandshakeFailed | InvalidFirstMessage.

Abbreviation MultiStreamResult A := (result MultiStreamFailure A) (only parsing).

(** What ends a process early: an error of the stream, a [MultiStreamError], or the fault of
the connection (a reset, a cancellation). *)
Inductive exn := StreamExn (e : StreamError) | MultiStreamError (f : MultiStreamFailure) | Fault.

Inductive proc (A : Type) : Type :=
| Ret (a : A)
| Raise (e : exn)
| WriteLp (msg : bytes) (k : proc A)
| ReadLp (maxSize : Z) (k : bytes -> proc A)
| AtEof (k : bool -> proc A)
| OutOfFuel.
Arguments Ret {A}.
Arguments Raise {A}.
Arguments WriteLp {A}.
Arguments ReadLp {A}.
Arguments AtEof {A}.
Arguments OutOfFuel {A}.

Fixpoint pbind {A B} (p : proc A) (f : A -> proc B) : proc B :=
  match p with
  | Ret a => f a
  | Raise e => Raise e
  | WriteLp msg k => WriteLp msg (pbind k f)
  | ReadLp max k => ReadLp max (fun b => pbind (k b) f)
  | AtEof k => AtEof (fun b => pbind (k b) f)
  | OutOfFuel => OutOfFuel
  end.

(** ** The two sides *)

Definition decodeMessage (data : bytes) : MultiStreamResult bytes :=
  match last data with
  | Some b => if b =? 10 then Ok (take (length data - 1) data) else Err MalformedMessage
  | None => Err MalformedMessage
  end.

(** [?stream.readMessage()]: an error is returned at once. *)
Definition readMessage {A} (k : bytes -> proc (MultiStreamResult A)) : proc (MultiStreamResult A) :=
  ReadLp MsgSize (fun data => match decodeMessage data with Ok ms => k ms | Err e => Ret (Err e) end).

(** The proposals after the first one. *)
Fixpoint alternatives (protos : list bytes) : proc (MultiStreamResult bytes) :=
  match protos with
  | [] => Ret (Ok [])
  | p :: protos =>
      WriteLp (p ++ nl) (readMessage (fun alternative =>
        if decide (alternative = p) then Ret (Ok p) else alternatives protos))
  end.

Definition select_response (p0 : bytes) (protos : list bytes) : proc (MultiStreamResult bytes) :=
  readMessage (fun response =>
    if decide (response = p0) then Ret (Ok p0) else alternatives protos).

Definition select_header (proto : list bytes) : proc (MultiStreamResult bytes) :=
  readMessage (fun header =>
    if decide (header = Codec) then
      match proto with [] => Ret (Ok Codec) | p0 :: protos => select_response p0 protos end
    else Ret (Err HandshakeFailed)).

Definition trySelect (proto : list bytes) : proc (MultiStreamResult bytes) :=
  WriteLp (Codec ++ nl)
    (match proto with
     | [] => select_header proto
     | p0 :: _ => WriteLp (p0 ++ nl) (select_header proto)
     end).

Definition valueOrRaise {A} (r : MultiStreamResult A) : proc A :=
  match r with Ok a => Ret a | Err f => Raise (MultiStreamError f) end.

Definition select_seq (proto : list bytes) : proc bytes := pbind (trySelect proto) valueOrRaise.

Definition select (proto : bytes) : proc bool :=
  match proto with
  | [] => pbind (select_seq []) (fun r => Ret (bool_decide (r = Codec)))
  | _ => pbind (select_seq [proto]) (fun r => Ret (bool_decide (r = proto)))
  end.

(** Nim's [split] at one character. *)
Fixpoint split_at (c : Z) (s : bytes) : list bytes :=
  match s with
  | [] => [[]]
  | b :: s =>
      if b =? c then [] :: split_at c s
      else match split_at c s with [] => [[b]] | w :: ws => (b :: w) :: ws end
  end.

Fixpoint join (sep : bytes) (l : list bytes) : bytes :=
  match l with [] => [] | [a] => a | a :: l => a ++ sep ++ join sep l end.

Definition list_protocols : proc (list bytes) :=
  pbind (select []) (fun ok =>
    if negb ok then Ret []
    else WriteLp Ls (ReadLp MsgSize (fun ms => Ret (filter (fun s => s <> []) (split_at 10 ms))))).

Abbreviation Matcher := (bytes -> bool) (only parsing).

(** The handler that a proposal selects. *)
Definition supported (protos : list bytes) (matchers : list Matcher) (ms : bytes) : bool :=
  negb (length ms =? 0)%nat && (bool_decide (ms ∈ protos) || existsb (fun f => f ms) matchers).

Section Handle.
Variables (protos : list bytes) (matchers : list Matcher).

(** What the loop does with a message, [loop] being the next turn. *)
Definition handle_message (loop : bool -> proc (MultiStreamResult bytes)) (handshaked : bool)
    (ms : bytes) : proc (MultiStreamResult bytes) :=
  if negb handshaked && negb (bool_decide (ms = Codec)) then Ret (Err InvalidFirstMessage)
  else if decide (ms = bytes_of_string "ls") then WriteLp (join nl protos ++ nl) (loop handshaked)
  else if decide (ms = Codec) then
    if negb handshaked then WriteLp (Codec ++ nl) (loop true) else WriteLp Na (loop handshaked)
  else if supported protos matchers ms then WriteLp (ms ++ nl) (Ret (Ok ms))
  else WriteLp Na (loop handshaked).

(** [fuel] bounds the turns of the loop. *)
Fixpoint tryHandle (fuel : nat) (handshaked : bool) : proc (MultiStreamResult bytes) :=
  match fuel with
  | O => OutOfFuel
  | S fuel =>
      AtEof (fun eof =>
        if eof then Ret (Ok [])
        else readMessage (handle_message (tryHandle fuel) handshaked))
  end.

End Handle.

(** ** The registered handlers *)

Section Registry.
Context {P : Type}.

Record HandlerHolder := mkHandlerHolder {
  hh_protos : list bytes;
  hh_protocol : P;
  hh_match : option Matcher;
}.

Implicit Types (m : list HandlerHolder).

(** [match != nil and match(proto) or protos.contains(proto)]. *)
Definition holder_matches (h : HandlerHolder) (proto : bytes) : bool :=
  match hh_match h with Some f => f proto | None => false end || bool_decide (proto ∈ hh_protos h).

Definition lookupProtocol m (proto : bytes) : option P :=
  hh_protocol <$> List.find (fun h => holder_matches h proto) m.

Definition allProtosAndMatchers m : list bytes * list Matcher :=
  (m ≫= hh_protos, omap hh_match m).

(** [codecs] are those of the protocol. *)
Definition addHandler m (codecs : list bytes) (protocol : P) (matcher : option Matcher) :
    list HandlerHolder :=
  m ++ [mkHandlerHolder codecs protocol matcher].

End Registry.
Arguments HandlerHolder : clear implicits.

(** [handle] once the negotiation has ended: the protocols are shared objects, [ps], that the
handlers refer to by index.  The result is the protocol whose handler is called, if any; it
is released by [handle_end] when the handler returns, however it does. *)
Definition handle_begin (m : list (HandlerHolder nat)) (ps : list Protocol.LPProtocol)
    (negotiated : MultiStreamResult bytes) (peerId : bytes) : list Protocol.LPProtocol * option nat :=
  match negotiated with
  | Err _ => (ps, None)
  | Ok ms =>
      match i ← lookupProtocol m ms; p ← ps !! i; Some (i, p) with
      | None => (ps, None)
      | Some (i, p) =>
          let '(p, ok) := Protocol.reserveIncoming p peerId in
          (<[i := p]> ps, if ok then Some i else None)
      end
  end.

Definition handle_end (ps : list Protocol.LPProtocol) (i : nat) (peerId : bytes) :
    list Protocol.LPProtocol :=
  alter (fun p => Protocol.releaseIncoming p peerId) i ps.

(** ** Two sides and a connection *)

Section Network.
Context `{Leb128}.

(** The bytes under way in each direction; [client_app] and [server_app] record what each
side has written after its negotiation, [faulted] whether the connection ever failed. *)
Record net := mkNet {
  client : proc (MultiStreamResult bytes);
  server : proc (MultiStreamResult bytes);
  c2s : Queue;
  s2c : Queue;
  client_app : bytes;
  server_app : bytes;
  faulted : bool;
}.

Definition send (q : Queue) (b : bytes) : Queue := mkQueue (q_data q ++ b) (q_ended q) (q_eof q).

Definition close (q : Queue) : Queue := mkQueue (q_data q) true (q_eof q).

(** One operation of a process that reads from [q]: the process and queue after it, and the
bytes it writes. [atEof] may answer [true] once nothing is left to read. *)
Inductive act {A} : proc A -> Queue -> proc A -> Queue -> bytes -> Prop :=
| act_write q msg k : act (WriteLp msg k) q k q (writeLp msg)
| act_read q max k q' d : readLp q max = Done q' d -> act (ReadLp max k) q (k d) q' []
| act_raise q max k q' e :
    readLp q max = Raised q' e -> act (ReadLp max k) q (Raise (StreamExn e)) q' []
| act_eof q k b : (b = true -> q_data q = [] /\ q_ended q = true) -> act (AtEof k) q (k b) q [].

Definition final {A} (p : proc A) : Prop :=
  match p with Ret _ | Raise _ => True | _ => False end.

(** The operations of the two sides. *)
Inductive neg_step : net -> net -> Prop :=
| step_client n c' q' w : act (client n) (s2c n) c' q' w ->
    neg_step n (mkNet c' (server n) (send (c2s n) w) q' (client_app n) (server_app n) (faulted n))
| step_server n s' q' w : act (server n) (c2s n) s' q' w ->
    neg_step n (mkNet (client n) s' q' (send (s2c n) w) (client_app n) (server_app n) (faulted n)).

(** What else can happen: a side that has agreed on a protocol uses the stream, a side that has
ended closes it, the connection fails under a side. *)
Inductive env_step : net -> net -> Prop :=
| env_client_app n p w : client n = Ret (Ok p) -> p <> [] ->
    env_step n (mkNet (client n) (server n) (send (c2s n) w) (s2c n) (client_app n ++ w)
      (server_app n) (faulted n))
| env_server_app n p w : server n = Ret (Ok p) -> p <> [] ->
    env_step n (mkNet (client n) (server n) (c2s n) (send (s2c n) w) (client_app n)
      (server_app n ++ w) (faulted n))
| env_client_close n : final (client n) ->
    env_step n (mkNet (client n) (server n) (close (c2s n)) (s2c n) (client_app n) (server_app n) (faulted n))
| env_server_close n : final (server n) ->
    env_step n (mkNet (client n) (server n) (c2s n) (close (s2c n)) (client_app n) (server_app n) (faulted n))
| env_client_fault n : ~ final (client n) ->
    env_step n (mkNet (Raise Fault) (server n) (c2s n) (s2c n) (client_app n) (server_app n) true)
| env_server_fault n : ~ final (server n) ->
    env_step n (mkNet (client n) (Raise Fault) (c2s n) (s2c n) (client_app n) (server_app n) true).

Definition step (n n' : net) : Prop := neg_step n n' \/ env_step n n'.

Definition empty_queue : Queue := mkQueue [] false false.

(** A stream just opened: the client proposes [proposals], the server knows [protos] and
[matchers]. *)
Definition start (proposals protos : list bytes) (matchers : list Matcher) (fuel : nat) : net :=
  mkNet (trySelect proposals) (tryHandle protos matchers fuel false) empty_queue empty_queue [] [] false.

End Network.

(** ** Frames *)

Section Frames.
Context `{LB : Leb128}.
Implicit Types (m : bytes) (ms : list bytes) (q : Queue).

Definition frame m : bytes := writeLp (m ++ nl).

Definition frames ms : bytes := concat (frame <$> ms).

Lemma msg_frames_app ms ms' : frames (ms ++ ms') = frames ms ++ frames ms'.
Proof. unfold frames. by rewrite fmap_app, concat_app. Qed.

Lemma frames_one m : frames [m] = frame m.
Proof. unfold frames; cbn. apply app_nil_r. Qed.

Lemma decodeMessage_nl m : decodeMessage (m ++ nl) = Ok m.
Proof.
  unfold decodeMessage, nl. rewrite last_snoc, Z.eqb_refl, length_app; cbn.
  replace (length m + 1 - 1)%nat with (length m) by lia. by rewrite take_app_length.
Qed.

(** Short enough for [readMessage]. *)
Definition fits m : Prop := (length m <= 1023)%nat.

Lemma act_readMessage {A} q (k : bytes -> proc (MultiStreamResult A)) p' q' w :
  source_ok q -> act (readMessage k) q p' q' w ->
  w = [] /\
  ((q_data q = [] /\ q_ended q = true /\ exists e, p' = Raise (StreamExn e)) \/ q_data q <> []) /\
  (forall m more, q_data q = frame m ++ more -> fits m ->
    p' = k m /\ q_data q' = more /\ source_ok q' /\ q_ended q' = q_ended q).
Proof.
  intros Hok Ha. assert (Hf : forall m more, q_data q = frame m ++ more -> fits m ->
    exists q'', readLp q MsgSize = Done q'' (m ++ nl) /\ source_ok q'' /\ q_ended q'' = q_ended q /\
      q_data q'' = more).
  { intros m more Hq Hm. apply (readLp_frame q MsgSize (m ++ nl) more Hok); [done| |exact Hq].
    unfold fits in Hm. rewrite length_app. change (maxLen MsgSize) with 1024.
    change (length nl) with 1%nat. lia. }
  assert (He : q_data q = [] ->
    if q_ended q then exists s' e, readLp q MsgSize = Raised s' e /\
      (e = LPStreamEOFError \/ e = LPStreamIncompleteError)
    else readLp q MsgSize = Blocked).
  { intros Hq. apply (readLp_short q MsgSize [] (writeLp []) Hok); [done|vm_compute; discriminate| |].
    - cbn [pending queue_source]. by rewrite Hq.
    - apply writeLp_nonempty. }
  unfold readMessage in Ha. inversion Ha as [|? ? ? ? d Hr|? ? ? ? e Hr|]; subst.
  - split; [done|]. split.
    + right. intros Hq. specialize (He Hq). rewrite Hr in He.
      destruct (q_ended q); [|done]. by destruct He as (? & ? & ? & _).
    + intros m more Hq Hm. destruct (Hf m more Hq Hm) as (q'' & E & Hok' & He' & Hd).
      rewrite Hr in E. injection E as -> ->. by rewrite decodeMessage_nl.
  - split; [done|]. split.
    + destruct (decide (q_data q = [])) as [Hq|]; [left|by right]. split; [done|].
      specialize (He Hq). destruct (q_ended q); [by eauto|]. by rewrite Hr in He.
    + intros m more Hq Hm. destruct (Hf m more Hq Hm) as (q'' & E & _). by rewrite Hr in E.
Qed.

(** A complete frame can be read. *)
Lemma can_readMessage {A} q (k : bytes -> proc (MultiStreamResult A)) m more :
  source_ok q -> q_data q = frame m ++ more -> fits m ->
  exists q', act (readMessage k) q (k m) q' [].
Proof.
  intros Hok Hq Hm.
  destruct (readLp_frame q MsgSize (m ++ nl) more Hok) as (q' & E & _); [done| |exact Hq|].
  { unfold fits in Hm. rewrite length_app. change (maxLen MsgSize) with 1024.
    change (length nl) with 1%nat. lia. }
  exists q'. pose proof (act_read q MsgSize
    (fun data => match decodeMessage data with Ok ms => k ms | Err e => Ret (Err e) end) q' _ E) as Ha.
  cbv beta in Ha. by rewrite decodeMessage_nl in Ha.
Qed.

End Frames.

(** ** The server, message by message *)

Section Agreement.
Context `{LB : Leb128}.
Variables (protos : list bytes) (matchers : list Matcher).

Abbreviation sup := (supported protos matchers).

Abbreviation handler := (tryHandle protos matchers).

Definition ls_bytes : bytes := bytes_of_string "ls".

Definition na_bytes : bytes := bytes_of_string "na".

(** The names of protocols: not a word of the negotiation itself, and short enough. *)
Definition proposal_ok (p : bytes) : Prop :=
  p <> [] /\ p <> Codec /\ p <> ls_bytes /\ p <> na_bytes /\ fits p.

(** The reply to a message that the loop goes on after, and whether the handshake is done. *)
Definition answer (hs : bool) (q : bytes) : option (bytes * bool) :=
  if decide (q = Codec) then if hs then None else Some (Codec, true)
  else if hs && negb (sup q) then Some (na_bytes, true) else None.

Definition dead (s : proc (MultiStreamResult bytes)) : Prop :=
  match s with Raise _ => True | Ret (Ok []) => True | _ => False end.

(** [srv F hs Q s u r]: from the top of its loop, with the handshake as [hs], the server has
come to [s] by the messages [Q], of which [u] are not read yet, and has replied [r]; [F]
bounds the messages it will get. *)
Inductive srv : nat -> bool -> list bytes -> proc (MultiStreamResult bytes) -> list bytes ->
    list bytes -> Prop :=
| srv_loop F hs Q f : (F < f)%nat -> srv F hs Q (handler f hs) Q []
| srv_read F hs Q f : (F <= f)%nat ->
    srv F hs Q (readMessage (handle_message protos matchers (handler f) hs)) Q []
| srv_reply F hs q Q f rep hs' : (F < f)%nat -> answer hs q = Some (rep, hs') ->
    srv (S F) hs (q :: Q) (WriteLp (rep ++ nl) (handler f hs')) Q []
| srv_accept F q : sup q = true -> proposal_ok q ->
    srv F true [q] (WriteLp (q ++ nl) (Ret (Ok q))) [] []
| srv_done F q : sup q = true -> proposal_ok q -> srv F true [q] (Ret (Ok q)) [] [q]
| srv_more F hs q Q rep hs' s u r : answer hs q = Some (rep, hs') -> srv F hs' Q s u r ->
    srv (S F) hs (q :: Q) s u (rep :: r)
| srv_dead F hs Q s u : dead s -> srv F hs Q s u [].

(** The messages a client sends: the handshake, then proposals, the last of which may be one
the server knows. *)
Fixpoint well (hs : bool) (Q : list bytes) : Prop :=
  match Q with
  | [] => True
  | q :: Q =>
      if hs then proposal_ok q /\ (sup q = true -> Q = []) /\ well true Q
      else q = Codec /\ well true Q
  end.

Lemma well_fits hs q Q : well hs (q :: Q) -> fits q.
Proof. destruct hs; cbn; [intros [(_ & _ & _ & _ & ?) _]; done|]. intros [-> _]. unfold fits; cbn; lia. Qed.

Lemma well_answer hs q Q rep hs' : well hs (q :: Q) -> answer hs q = Some (rep, hs') -> well hs' Q.
Proof.
  unfold answer. destruct hs; cbn.
  - intros ((_ & ? & _) & _ & HQ). rewrite decide_False by done. cbn.
    destruct (negb (sup q)); [|done]. by intros [= _ <-].
  - intros [-> HQ]. by intros [= _ <-].
Qed.

Lemma handle_codec loop : handle_message protos matchers loop false Codec = WriteLp (Codec ++ nl) (loop true).
Proof. reflexivity. Qed.

Lemma handle_proposal loop q : proposal_ok q ->
  handle_message protos matchers loop true q =
    if sup q then WriteLp (q ++ nl) (Ret (Ok q)) else WriteLp (na_bytes ++ nl) (loop true).
Proof.
  intros (Hn & Hc & Hl & _). unfold handle_message. cbn [negb andb].
  rewrite decide_False by done. by rewrite decide_False by done.
Qed.

Lemma dead_dec s : dead s \/ ~ dead s.
Proof. destruct s as [[[|]|]| | | | |]; cbn; tauto. Qed.

Lemma dead_no_act s q s' q' w : dead s -> ~ act s q s' q' w.
Proof. intros Hd Ha. destruct Ha; try done. Qed.

(** An operation of the server. *)
Lemma srv_act F hs Q s u r q s' q' w : (length Q <= F)%nat -> well hs Q -> srv F hs Q s u r ->
  source_ok q -> q_data q = frames u -> act s q s' q' w ->
  exists u' r', srv F hs Q s' u' (r ++ r') /\ w = frames r' /\
    (~ dead s' -> q_data q' = frames u' /\ source_ok q' /\ q_ended q' = q_ended q) /\
    (dead s' -> q_ended q = true).
Proof.
  intros HF HQ Hs. revert q HF HQ.
  induction Hs as [F hs Q f Hf|F hs Q f Hf|F hs q0 Q f rep hs' Hf Ha|F q0 Hq Hv|F q0 Hq Hv
    |F hs q0 Q rep hs' s u r Hans Hs IH|F hs Q s u Hd]; intros q HF HQ Hok Hdata Hact.
  - destruct f as [|f]; [lia|]. cbn in Hact. inversion Hact as [| | |? ? b Hb]; subst.
    destruct b.
    + exists Q, []. split; [apply srv_dead; done|]. split; [done|]. split; [done|]. by intros; apply Hb.
    + exists Q, []. split; [apply srv_read; lia|]. split; [done|]. done.
  - destruct (act_readMessage _ _ _ _ _ Hok Hact) as (-> & He & Hf').
    destruct Q as [|q0 Q].
    + destruct He as [(_ & He & e & ->)|He]; [|by rewrite Hdata in He].
      exists [], []. split; [by apply srv_dead|]. split; [done|]. split; [|done]. intros []. done.
    + destruct (Hf' q0 (frames Q) Hdata (well_fits _ _ _ HQ)) as (-> & Hd & Hok' & He').
      cbn in HF. destruct F as [|F]; [lia|]. exists Q, [].
      destruct hs.
      * destruct HQ as (Hv & Hl & HQ). rewrite handle_proposal by done. destruct (sup q0) eqn:Eq.
        -- rewrite (Hl eq_refl) in *. split; [by apply srv_accept|]. by split_and!.
        -- split; [|by split_and!]. apply srv_reply; [lia|]. unfold answer.
           destruct Hv as (_ & ? & _). rewrite decide_False by done. by rewrite Eq.
      * destruct HQ as [-> HQ]. rewrite handle_codec. split; [|by split_and!].
        apply srv_reply; [lia|]. done.
  - inversion Hact; subst. exists Q, [rep]. cbn [app]. split.
    { eapply srv_more; [done|]. by apply srv_loop. }
    rewrite frames_one. split_and!; try done. by destruct f.
  - inversion Hact; subst. exists [], [q0]. split; [by apply srv_done|]. rewrite frames_one.
    split_and!; try done. cbn. destruct q0; [by destruct Hv|done].
  - inversion Hact.
  - pose proof (well_answer _ _ _ _ _ HQ Hans) as HQ'. cbn in HF. destruct (IH q ltac:(lia) HQ' Hok Hdata Hact) as (u' & r' & Hs' & Hrest).
    exists u', r'. split; [|done]. cbn. by eapply srv_more.
  - by destruct (dead_no_act s q s' q' w Hd).
Qed.

(** The client sends a message, none of those before being one the server would stop at. *)
Lemma srv_send F hs Q s u r x : srv F hs Q s u r ->
  Forall (fun q => q = Codec \/ sup q = false) Q -> srv F hs (Q ++ [x]) s (u ++ [x]) r.
Proof.
  induction 1 as [| |F hs q0 Q f rep hs' Hf Ha|F q0 Hq Hv|F q0 Hq Hv
    |F hs q0 Q rep hs' s u r Hans Hs IH|]; intros HQ; cbn.
  - by apply srv_loop.
  - by apply srv_read.
  - by apply srv_reply.
  - apply Forall_inv in HQ as [->|?]; [by destruct Hv as (_ & ? & _)|congruence].
  - apply Forall_inv in HQ as [->|?]; [by destruct Hv as (_ & ? & _)|congruence].
  - apply Forall_cons in HQ as [_ HQ]. eapply srv_more; [done|by apply IH].
  - by apply srv_dead.
Qed.

(** The client reads a reply. *)
Lemma srv_replied F hs q Q s u rep r : srv F hs (q :: Q) s u (rep :: r) ->
  (exists F' hs', F = S F' /\ answer hs q = Some (rep, hs') /\ srv F' hs' Q s u r) \/
  (hs = true /\ sup q = true /\ rep = q /\ Q = [] /\ r = [] /\ u = [] /\ s = Ret (Ok q)).
Proof. inversion 1; subst; [right; done|left; eauto 10]. Qed.

Lemma srv_fault F hs Q s u r : srv F hs Q s u r -> ~ final s -> srv F hs Q (Raise Fault) u r.
Proof.
  induction 1; intros Hf; try (by apply srv_dead); [by destruct Hf|].
  eapply srv_more; [done|by apply IHsrv].
Qed.

(** No reply is left for a client that waits for none. *)
Lemma srv_idle F hs s u r : srv F hs [] s u r -> r = [].
Proof. by inversion 1. Qed.

Lemma srv_ret F hs Q p u r : srv F hs Q (Ret (Ok p)) u r -> p <> [] ->
  u = [] /\ sup p = true /\ proposal_ok p /\ exists Q' r', Q = Q' ++ [p] /\ r = r' ++ [p].
Proof.
  intros Hs Hp. remember (Ret (Ok p)) as s eqn:E. revert E. induction Hs; intros E; simplify_eq/=.
  - destruct f; simplify_eq.
  - split_and!; try done. by exists [], [].
  - destruct (IHHs eq_refl) as (-> & ? & ? & Q' & r' & -> & ->). split_and!; try done.
    by exists (q :: Q'), (rep :: r').
  - by destruct p.
Qed.

(** A server that lives can go on when a message is left, or owes no reply. *)
Lemma srv_progress F hs Q s u r q : (length Q <= F)%nat -> well hs Q -> srv F hs Q s u r ->
  source_ok q -> q_data q = frames u ->
  (exists s' q' w, act s q s' q' w) \/ final s \/ length r = length Q.
Proof.
  intros HF HQ Hs. revert q HF HQ.
  induction Hs as [F hs Q f Hf|F hs Q f Hf|F hs q0 Q f rep hs' Hf Ha|F q0 Hq Hv|F q0 Hq Hv
    |F hs q0 Q rep hs' s u r Hans Hs IH|F hs Q s u Hd]; intros q HF HQ Hok Hdata.
  - left. destruct f as [|f]; [lia|]. cbn. eexists _, _, _. by apply (act_eof q _ false).
  - destruct Q as [|q0 Q]; [by right; right|]. left.
    edestruct (can_readMessage q (handle_message protos matchers (handler f) hs) q0 (frames Q) Hok Hdata)
      as (q' & Ha); [by eapply well_fits|]. by eexists _, _, _.
  - left. eexists _, _, _. constructor.
  - left. eexists _, _, _. constructor.
  - right. by left.
  - pose proof (well_answer _ _ _ _ _ HQ Hans) as HQ'. cbn in HF. destruct (IH q ltac:(lia) HQ' Hok Hdata) as [?|[?|?]]; [by left|by right; left|].
    right. right. cbn. by f_equal.
  - right. left. destruct s as [[[|]|]|?| | | |]; done.
Qed.

Lemma reply_fits F hs q Q s u rep r : well hs (q :: Q) -> srv F hs (q :: Q) s u (rep :: r) -> fits rep.
Proof.
  intros HQ Hs. destruct (srv_replied _ _ _ _ _ _ _ _ Hs) as [(F' & hs' & _ & Ha & _)|(-> & _ & -> & _)].
  - revert Ha. unfold answer. repeat case_match; try done; intros [= <- _]; unfold fits; cbn; lia.
  - by apply (well_fits true q Q).
Qed.

(** The server never ends with a failure of the negotiation, and has fuel enough. *)
Lemma srv_sane F hs Q s u r : srv F hs Q s u r -> (forall f, s <> Ret (Err f)) /\ s <> OutOfFuel.
Proof.
  induction 1 as [? ? ? [|f]| | | | | |? ? ? s ? Hd]; try done; [lia|].
  by destruct s as [[|]| | | | |].
Qed.

(** ** The client, and the two together *)

Variables (p0 : bytes) (rest : list bytes).
Hypothesis Hproposals : Forall proposal_ok (p0 :: rest).

Definition await_alternative (p : bytes) (ps : list bytes) : proc (MultiStreamResult bytes) :=
  readMessage (fun alternative => if decide (alternative = p) then Ret (Ok p) else alternatives ps).

(** None of the proposals before these is supported. *)
Definition reached (ps : list bytes) : Prop :=
  exists before, p0 :: rest = before ++ ps /\ Forall (fun p => sup p = false) before.

(** [client_at c hs Q todo]: the client is at [c], waits for the replies to [Q] ([hs]: the
handshake is done before them) and may still send [todo] messages. *)
Inductive client_at : proc (MultiStreamResult bytes) -> bool -> list bytes -> nat -> Prop :=
| ca_start : client_at (trySelect (p0 :: rest)) false [] (2 + length rest)
| ca_first : client_at (WriteLp (p0 ++ nl) (select_header (p0 :: rest))) false [Codec] (1 + length rest)
| ca_header : client_at (select_header (p0 :: rest)) false [Codec; p0] (length rest)
| ca_wait p ps : reached (p :: ps) -> client_at (await_alternative p ps) true [p] (length ps)
| ca_next ps : reached ps -> client_at (alternatives ps) true [] (length ps).

Lemma reached_start : reached (p0 :: rest).
Proof. by exists []. Qed.

Lemma reached_next p ps : reached (p :: ps) -> sup p = false -> reached ps.
Proof.
  intros (before & E & Hb) Hp. exists (before ++ [p]). rewrite <- app_assoc. split; [done|].
  apply Forall_app. split; [done|by constructor].
Qed.

Lemma reached_ok p ps : reached (p :: ps) -> proposal_ok p.
Proof using Hproposals.
  intros (before & E & _). rewrite E in Hproposals. apply Forall_app in Hproposals as [_ H].
  by apply Forall_inv in H.
Qed.

Lemma client_well c hs Q todo : client_at c hs Q todo -> well hs Q.
Proof using Hproposals.
  destruct 1 as [| | |p ps Hr|]; cbn; try done.
  - split; [done|]. split; [by apply (reached_ok p0 rest), reached_start|done].
  - split; [by apply (reached_ok p ps)|done].
Qed.

(** What holds of every state: the client is at some point (or was, when the connection
failed under it), the server at some point of the messages sent, and what is under way is
what is not read yet; or both sides have agreed. *)
Record negotiating (n : net) (cl : proc (MultiStreamResult bytes)) (hs : bool) (Q : list bytes)
    (todo : nat) (u r : list bytes) : Prop := {
  ng_client : client_at cl hs Q todo;
  ng_at : client n = cl \/ (exists e, client n = Raise e) /\ faulted n = true;
  ng_server : srv (length Q + todo) hs Q (server n) u r;
  ng_capp : client_app n = [];
  ng_c2s : ~ dead (server n) -> q_data (c2s n) = frames u /\ source_ok (c2s n);
  ng_s2c : client n = cl -> q_data (s2c n) = frames r ++ server_app n /\ source_ok (s2c n);
  ng_sapp : server_app n <> [] -> exists p, server n = Ret (Ok p) /\ p <> [];
  ng_cend : q_ended (c2s n) = true -> final (client n);
  ng_send : q_ended (s2c n) = true -> final (server n);
  ng_dead : dead (server n) -> faulted n = true \/ final (client n);
}.

Definition agreed (n : net) (p : bytes) (ps : list bytes) : Prop :=
  reached (p :: ps) /\ sup p = true /\ client n = Ret (Ok p) /\ server n = Ret (Ok p) /\
  q_data (c2s n) = client_app n /\ q_data (s2c n) = server_app n.

Definition inv (n : net) : Prop :=
  (exists cl hs Q todo u r, negotiating n cl hs Q todo u r) \/ exists p ps, agreed n p ps.

Lemma inv_start fuel : (2 + length rest < fuel)%nat -> inv (start (p0 :: rest) protos matchers fuel).
Proof.
  intros Hf. left. exists (trySelect (p0 :: rest)), false, [], (2 + length rest)%nat, [], [].
  split; cbn; try done; try (by left).
  - apply ca_start.
  - by apply srv_loop.
  - destruct fuel; done.
Qed.

Lemma no_sapp n cl hs Q todo u r : negotiating n cl hs Q todo u r -> r = [] -> server_app n = [].
Proof.
  intros N ->. destruct (decide (server_app n = [])) as [|Hne]; [done|].
  destruct (ng_sapp _ _ _ _ _ _ _ N Hne) as (p & Es & Hp).
  pose proof (ng_server _ _ _ _ _ _ _ N) as Hs. rewrite Es in Hs.
  destruct (srv_ret _ _ _ _ _ _ Hs Hp) as (_ & _ & _ & Q' & r' & _ & Er). by destruct r'.
Qed.

(** *** The steps of the server *)
Lemma inv_server n s' q' w : inv n -> act (server n) (c2s n) s' q' w ->
  inv (mkNet (client n) s' q' (send (s2c n) w) (client_app n) (server_app n) (faulted n)).
Proof using Hproposals.
  intros [(cl & hs & Q & todo & u & r & N)|(p & ps & _ & _ & _ & Es & _)] Hact;
    [|rewrite Es in Hact; inversion Hact].
  assert (Hnd : ~ dead (server n)) by (intros Hd; by apply (dead_no_act _ _ _ _ _ Hd) in Hact).
  destruct (ng_c2s _ _ _ _ _ _ _ N Hnd) as [Hd Hok].
  destruct (srv_act (length Q + todo) hs Q _ u r _ _ _ _ ltac:(lia) (client_well _ _ _ _ (ng_client _ _ _ _ _ _ _ N))
    (ng_server _ _ _ _ _ _ _ N) Hok Hd Hact) as (u' & r' & Hs & -> & Hl & Hdead).
  assert (Hnf : ~ final (server n)) by (intros Hf; destruct (server n); inversion Hact; done).
  assert (Happ : server_app n = []).
  { destruct (decide (server_app n = [])) as [|Hne]; [done|].
    destruct (ng_sapp _ _ _ _ _ _ _ N Hne) as (p & Es & _). exfalso. apply Hnf. by rewrite Es. }
  left. exists cl, hs, Q, todo, u', (r ++ r'). destruct N. split; cbn; try done.
  - intros Hnd'. by destruct (Hl Hnd') as (? & ? & _).
  - intros Hc. destruct (ng_s2c0 Hc) as [E Hok2]. rewrite E, Happ, !app_nil_r, msg_frames_app. done.
  - intros He. destruct (dead_dec s') as [Hd'|Hd']; [by apply ng_cend0, Hdead|].
    apply ng_cend0. by destruct (Hl Hd') as (_ & _ & <-).
  - intros He. by destruct (Hnf (ng_send0 He)).
  - intros Hd'. right. by apply ng_cend0, Hdead.
Qed.

(** *** The steps of the client *)

Lemma client_at_not_raise c hs Q todo e : client_at c hs Q todo -> c <> Raise e.
Proof using. destruct 1 as [| | |p ps|[|p ps]]; done. Qed.

(** The connection fails under the client. *)
Lemma ng_raise n cl hs Q todo u r e q' : negotiating n cl hs Q todo u r ->
  (q_ended q' = true -> final (server n)) ->
  negotiating (mkNet (Raise e) (server n) (c2s n) q' (client_app n) (server_app n) true) cl hs Q todo u r.
Proof using.
  intros N Hq. destruct N. split; cbn; try done; [by right; eauto| |].
  - intros E. by apply (client_at_not_raise _ _ _ _ e) in ng_client0.
  - by intros; left.
Qed.

Lemma srv_final F hs Q s u r : srv F hs Q s u r -> final s -> r = [] -> dead s.
Proof using.
  induction 1 as [? ? ? [|f]| | | | | |]; try done.
Qed.

(** The client writes its next message. *)
Lemma client_writes n cl hs Q todo u r x cl' : negotiating n cl hs Q (S todo) u r -> client n = cl ->
  ~ final cl -> Forall (fun q => q = Codec \/ sup q = false) Q -> client_at cl' hs (Q ++ [x]) todo ->
  negotiating (mkNet cl' (server n) (send (c2s n) (frame x)) (s2c n) (client_app n) (server_app n)
    (faulted n)) cl' hs (Q ++ [x]) todo (u ++ [x]) r.
Proof using.
  intros N Hc Hnf HQ Hca. destruct N. split; cbn; try done.
  - by left.
  - replace (length (Q ++ [x]) + todo)%nat with (length Q + S todo)%nat by (rewrite length_app; cbn; lia).
    by apply srv_send.
  - intros Hd. destruct (ng_c2s0 Hd) as [-> ?]. by rewrite msg_frames_app, frames_one.
  - intros _. by apply ng_s2c0.
  - intros He. rewrite <- Hc in Hnf. by destruct (Hnf (ng_cend0 He)).
  - intros Hd. left. destruct (ng_dead0 Hd) as [?|Hf]; [done|]. rewrite Hc in Hf. done.
Qed.

(** The client reads: a whole reply, or it raises because the connection failed. *)
Lemma client_reads n k hs q Q todo u r c' q' w :
  negotiating n (readMessage k) hs (q :: Q) todo u r -> client n = readMessage k ->
  well hs (q :: Q) -> act (readMessage k) (s2c n) c' q' w ->
  w = [] /\
  ((exists e, c' = Raise e /\ faulted n = true /\ (q_ended q' = true -> final (server n))) \/
   exists rep r', r = rep :: r' /\ c' = k rep /\ q_data q' = frames r' ++ server_app n /\
     source_ok q' /\ q_ended q' = q_ended (s2c n)).
Proof using.
  intros N Hc HQ Hact. destruct (ng_s2c _ _ _ _ _ _ _ N Hc) as [Hd Hok].
  destruct (act_readMessage _ _ _ _ _ Hok Hact) as (-> & Hr & Hf). split; [done|].
  pose proof (ng_server _ _ _ _ _ _ _ N) as Hs.
  destruct r as [|rep r].
  - left. rewrite (no_sapp _ _ _ _ _ _ _ N eq_refl) in Hd. cbn in Hd.
    destruct Hr as [(_ & He & e & ->)|Hr]; [|by rewrite Hd in Hr].
    pose proof (ng_send _ _ _ _ _ _ _ N He) as Hfin.
    exists (StreamExn e). split_and!; [done| |by intros _].
    destruct (ng_dead _ _ _ _ _ _ _ N (srv_final _ _ _ _ _ _ Hs Hfin eq_refl)) as [?|Hf'];
      [done|]. by rewrite Hc in Hf'.
  - right. exists rep, r. split; [done|]. apply Hf.
    + by rewrite Hd, app_assoc.
    + by eapply reply_fits.
Qed.

(** The state once a reply that is not the last one has been read. *)
Lemma client_goes_on n k hs q Q todo u rep r c' hs' q' : negotiating n (readMessage k) hs (q :: Q) todo u (rep :: r) ->
  client n = readMessage k -> srv (length Q + todo) hs' Q (server n) u r ->
  client_at c' hs' Q todo -> q_data q' = frames r ++ server_app n -> source_ok q' ->
  q_ended q' = q_ended (s2c n) ->
  negotiating (mkNet c' (server n) (send (c2s n) []) q' (client_app n) (server_app n) (faulted n))
    c' hs' Q todo u r.
Proof using.
  intros N Hc Hs Hca Hd Hok He. destruct N. split; cbn; try done.
  - by left.
  - intros Hd'. rewrite app_nil_r. by apply ng_c2s0.
  - intros He'. specialize (ng_cend0 He'). by rewrite Hc in ng_cend0.
  - by rewrite He.
  - intros Hd'. left. destruct (ng_dead0 Hd') as [?|Hf]; [done|]. by rewrite Hc in Hf.
Qed.

Lemma send_nil q : send q [] = q.
Proof using. destruct q. unfold send; cbn. by rewrite app_nil_r. Qed.

Lemma inv_client n c' q' w : inv n -> act (client n) (s2c n) c' q' w ->
  inv (mkNet c' (server n) (send (c2s n) w) q' (client_app n) (server_app n) (faulted n)).
Proof using Hproposals.
  intros [(cl & hs & Q & todo & u & r & N)|(p & ps & _ & _ & Ec & _)] Hact;
    [|rewrite Ec in Hact; inversion Hact].
  pose proof (ng_at _ _ _ _ _ _ _ N) as [Hc|[[e Hc] _]]; [|rewrite Hc in Hact; inversion Hact].
  pose proof (client_well _ _ _ _ (ng_client _ _ _ _ _ _ _ N)) as HQ.
  pose proof (ng_server _ _ _ _ _ _ _ N) as Hs.
  rewrite Hc in Hact. destruct (ng_client _ _ _ _ _ _ _ N) as [| | |p ps Hr|ps Hr].
  - inversion Hact; subst. left. do 6 eexists. eapply (client_writes _ _ _ [] _ _ _ Codec);
      [exact N|done|by intros []|constructor|constructor].
  - inversion Hact; subst. left. do 6 eexists. eapply (client_writes _ _ _ [Codec] _ _ _ p0);
      [exact N|done|by intros []|by repeat constructor; left|constructor].
  - destruct (client_reads _ _ _ _ _ _ _ _ _ _ _ N Hc HQ Hact) as (-> & [(e & -> & Hf & Hq)|Hrep]).
    { rewrite send_nil, Hf. left. do 6 eexists. by apply ng_raise. }
    destruct Hrep as (rep & r' & -> & -> & Hd & Hok & He).
    destruct (srv_replied _ _ _ _ _ _ _ _ Hs) as [(F' & hs' & HF & Ha & Hs')|(? & _)]; [|done].
    cbn in HF. injection HF as <-. cbn in Ha. injection Ha as <- <-.
    left. do 6 eexists. eapply client_goes_on; [exact N|done|exact Hs'| |done..].
    rewrite decide_True by done. apply ca_wait, reached_start.
  - destruct (client_reads _ _ _ _ _ _ _ _ _ _ _ N Hc HQ Hact) as (-> & [(e & -> & Hf & Hq)|Hrep]).
    { rewrite send_nil, Hf. left. do 6 eexists. by apply ng_raise. }
    destruct Hrep as (rep & r' & -> & -> & Hd & Hok & He).
    destruct (reached_ok _ _ Hr) as (Hp & Hcod & _ & Hna & _).
    destruct (srv_replied _ _ _ _ _ _ _ _ Hs)
      as [(F' & hs' & HF & Ha & Hs')|(_ & Hsup & -> & _ & -> & -> & Es)].
    + cbn in HF. injection HF as <-. unfold answer in Ha. rewrite decide_False in Ha by done. cbn in Ha.
      destruct (sup p) eqn:Esup; [done|]. injection Ha as <- <-.
      left. do 6 eexists. eapply client_goes_on; [exact N|done|exact Hs'| |done..].
      rewrite decide_False by done. apply ca_next. by apply (reached_next p).
    + right. exists p, ps. rewrite decide_True by done. unfold agreed; cbn. split_and!; try done.
      rewrite app_nil_r. rewrite (ng_capp _ _ _ _ _ _ _ N).
      apply (ng_c2s _ _ _ _ _ _ _ N). rewrite Es. intros Hdead. by destruct p.
  - destruct ps as [|p ps]; [inversion Hact|]. inversion Hact; subst. left. do 6 eexists.
    eapply (client_writes _ _ _ [] _ _ _ p); [exact N|done|by intros []|constructor|by constructor].
Qed.

(** *** The other steps *)

Lemma client_ret c hs Q todo p : client_at c hs Q todo -> c = Ret (Ok p) -> p = [] /\ reached [].
Proof using. destruct 1 as [| | |q ps|[|q ps]]; intros E; simplify_eq/=. done. Qed.

Lemma ng_env n cl hs Q todo u r n' : negotiating n cl hs Q todo u r -> env_step n n' -> inv n'.
Proof using.
  intros N Hst. left. exists cl, hs, Q, todo, u, r.
  destruct Hst as [n p w Hc Hp|n p w Hs Hp|n Hf|n Hf|n Hf|n Hf].
  - destruct (ng_at _ _ _ _ _ _ _ N) as [Hcl|[[e He] _]]; [|congruence].
    rewrite Hcl in Hc. by destruct (client_ret _ _ _ _ _ (ng_client _ _ _ _ _ _ _ N) Hc).
  - destruct N. split; cbn; try done; [|by intros _; exists p].
    intros Hc. destruct (ng_s2c0 Hc) as [-> ?]. by rewrite app_assoc.
  - destruct N. split; cbn; try done. intros Hd. split; [by apply ng_c2s0|done].
  - destruct N. split; cbn; try done. intros Hd. split; [by apply ng_s2c0|done].
  - apply ng_raise; [done|]. apply (ng_send _ _ _ _ _ _ _ N).
  - assert (Happ : server_app n = []).
    { destruct (decide (server_app n = [])) as [|Hne]; [done|]. exfalso. apply Hf.
      by destruct (ng_sapp _ _ _ _ _ _ _ N Hne) as (p & -> & _). }
    destruct N. split; cbn; try done.
    + destruct ng_at0 as [?|[? _]]; [by left|by right].
    + by eapply srv_fault.
    + intros _. by left.
Qed.

Lemma agreed_env n p ps n' : agreed n p ps -> env_step n n' -> agreed n' p ps.
Proof using.
  intros (Hr & Hsup & Ec & Es & Hc & Hs) Hst.
  destruct Hst as [n p' w|n p' w|n|n|n Hf|n Hf]; unfold agreed; cbn; split_and!; try done;
    [by rewrite Hc|by rewrite Hs|..].
  - by rewrite Ec in Hf.
  - by rewrite Es in Hf.
Qed.

Lemma inv_step n n' : inv n -> step n n' -> inv n'.
Proof using Hproposals.
  intros Hi [Hst|Hst].
  - destruct Hst; [by apply inv_client|by apply inv_server].
  - destruct Hi as [(cl & hs & Q & todo & u & r & N)|(p & ps & Ha)]; [by eapply ng_env|].
    right. exists p, ps. by eapply agreed_env.
Qed.

Lemma inv_reachable fuel n : (2 + length rest < fuel)%nat ->
  rtc step (start (p0 :: rest) protos matchers fuel) n -> inv n.
Proof using Hproposals.
  intros Hf Hr. assert (Hi := inv_start fuel Hf). revert Hi.
  induction Hr as [|n1 n2 n3 Hst Hr IH]; intros Hi; [done|]. apply IH. by eapply inv_step.
Qed.

(** ** Consequences *)

Definition first : option bytes := List.find sup (p0 :: rest).

Lemma find_unsupported before ps : Forall (fun p => sup p = false) before ->
  List.find sup (before ++ ps) = List.find sup ps.
Proof using. induction 1 as [|p l Hp]; cbn; [done|]. by rewrite Hp. Qed.

Lemma reached_first p ps : reached (p :: ps) -> sup p = true -> first = Some p.
Proof using. intros (b & E & Hb) Hp. unfold first. rewrite E, find_unsupported by done. cbn. by rewrite Hp. Qed.

Lemma reached_none : reached [] -> first = None.
Proof using. intros (b & E & Hb). unfold first. by rewrite E, find_unsupported. Qed.

Lemma server_first c hs Q todo F s u r p : client_at c hs Q todo -> srv F hs Q s u r ->
  s = Ret (Ok p) -> p <> [] -> first = Some p.
Proof using.
  intros Hc Hs -> Hp. destruct (srv_ret _ _ _ _ _ _ Hs Hp) as (_ & Hsup & Hok & Q' & r' & E & _).
  destruct Hc as [| | |q ps Hr|]; try (by destruct Q').
  - destruct Q' as [|? [|]]; cbn in E; [|done..]. injection E as <-. by destruct Hok as (_ & ? & _).
  - destruct Q' as [|? [|? [|]]]; simplify_eq/=. exact (reached_first _ _ reached_start Hsup).
  - destruct Q' as [|? [|]]; simplify_eq/=. by apply (reached_first p ps).
Qed.

Lemma inv_safe n : inv n ->
  (forall p, client n = Ret (Ok p) -> p <> [] -> first = Some p /\ server n = Ret (Ok p) /\
    q_data (c2s n) = client_app n /\ q_data (s2c n) = server_app n) /\
  (client n = Ret (Ok []) -> first = None) /\
  (forall p, server n = Ret (Ok p) -> p <> [] -> first = Some p) /\
  (forall f, client n <> Ret (Err f) /\ server n <> Ret (Err f)) /\ server n <> OutOfFuel /\
  (forall e, client n = Raise e -> faulted n = true).
Proof using Hproposals.
  intros [(cl & hs & Q & todo & u & r & N)|(p & ps & Hr & Hsup & Ec & Es & Hc & Hs)].
  - pose proof (ng_client _ _ _ _ _ _ _ N) as Hcl. pose proof (ng_server _ _ _ _ _ _ _ N) as Hsrv.
    destruct (srv_sane _ _ _ _ _ _ Hsrv) as [Hs1 Hs2].
    assert (Hret : forall p, client n = Ret (Ok p) -> p = [] /\ reached []).
    { intros p Hp. destruct (ng_at _ _ _ _ _ _ _ N) as [Hc|[[e He] _]]; [|congruence].
      rewrite Hc in Hp. by apply (client_ret _ _ _ _ _ Hcl). }
    split_and!; try done.
    + intros p Hp Hne. by destruct (Hret p Hp).
    + intros Hp. apply reached_none. by destruct (Hret _ Hp).
    + intros p Hp Hne. by eapply server_first.
    + intros f. split; [|done]. intros Hf. destruct (ng_at _ _ _ _ _ _ _ N) as [Hc|[[e He] _]]; [|congruence].
      rewrite Hf in Hc. destruct Hcl as [| | |q ps|[|q ps]]; done.
    + intros e He. destruct (ng_at _ _ _ _ _ _ _ N) as [Hc|[_ ?]]; [|done].
      rewrite He in Hc. by destruct (client_at_not_raise _ _ _ _ e Hcl).
  - pose proof (reached_first _ _ Hr Hsup) as Hf. destruct (reached_ok _ _ Hr) as (Hne & _).
    rewrite Ec, Es. split_and!; try done; try (by intros; simplify_eq).
Qed.

(** *** The negotiation goes on until the client has ended *)

Lemma read_again n k hs q Q todo u rep r : negotiating n (readMessage k) hs (q :: Q) todo u (rep :: r) ->
  client n = readMessage k -> exists n', neg_step n n'.
Proof using Hproposals.
  intros N Hc. destruct (ng_s2c _ _ _ _ _ _ _ N Hc) as [Hd Hok].
  destruct (can_readMessage (s2c n) k rep (frames r ++ server_app n) Hok) as (q' & Ha).
  - by rewrite Hd, app_assoc.
  - eapply reply_fits; [exact (client_well _ _ _ _ (ng_client _ _ _ _ _ _ _ N))|].
    apply (ng_server _ _ _ _ _ _ _ N).
  - eexists. apply step_client. rewrite Hc. exact Ha.
Qed.

Lemma inv_progress n : inv n -> faulted n = false ->
  (exists n', neg_step n n') \/
  (client n = Ret (Ok (default [] first)) /\ forall p, first = Some p -> server n = Ret (Ok p)).
Proof using Hproposals.
  intros [(cl & hs & Q & todo & u & r & N)|(p & ps & Hr & Hsup & Ec & Es & _)] Hf; cycle 1.
  { right. rewrite (reached_first _ _ Hr Hsup). cbn. split; [done|]. by intros ? [= <-]. }
  destruct (ng_at _ _ _ _ _ _ _ N) as [Hc|[_ ?]]; [|congruence].
  pose proof (ng_client _ _ _ _ _ _ _ N) as Hcl. pose proof (client_well _ _ _ _ Hcl) as HQ.
  assert (Hwait : forall k q Q', cl = readMessage k -> Q = q :: Q' -> exists n', neg_step n n').
  { intros k q Q' -> ->. assert (Hnd : ~ dead (server n)).
    { intros Hd. destruct (ng_dead _ _ _ _ _ _ _ N Hd) as [?|Hfin]; [congruence|]. by rewrite Hc in Hfin. }
    destruct r as [|rep r]; [|by eapply read_again].
    destruct (ng_c2s _ _ _ _ _ _ _ N Hnd) as [Hd Hok].
    destruct (srv_progress _ _ _ _ _ _ _ ltac:(apply Nat.le_add_r) HQ (ng_server _ _ _ _ _ _ _ N) Hok Hd)
      as [(s' & q' & w & Ha)|[Hfin|Hl]].
    - eexists. by apply step_server.
    - destruct Hnd. by apply (srv_final _ _ _ _ _ _ (ng_server _ _ _ _ _ _ _ N) Hfin).
    - done. }
  destruct Hcl as [| | |p ps Hr|[|p ps] Hr]; try (by left; eapply Hwait).
  - left. eexists. apply step_client. rewrite Hc. constructor.
  - left. eexists. apply step_client. rewrite Hc. constructor.
  - right. rewrite (reached_none Hr), Hc. done.
  - left. eexists. apply step_client. rewrite Hc. constructor.
Qed.

End Agreement.

(** Each operation leaves a process a part of what it was: no negotiation goes on for ever. *)
Section Termination.
Context `{LB : Leb128}.

Abbreviation terminates := (Acc (fun n' n => neg_step n n')) (only parsing).

Lemma acc_server c :
  (forall q c' q' w, act c q c' q' w -> forall n, client n = c' -> terminates n) ->
  forall s n, client n = c -> server n = s -> terminates n.
Proof.
  intros Hc. assert (Hfin : forall s, (forall q s' q' w, ~ act s q s' q' w) ->
    forall n, client n = c -> server n = s -> terminates n).
  { intros s Hs n En Es. constructor. intros n' Hst. destruct Hst as [n c' q' w Ha|n s' q' w Ha].
    - rewrite En in Ha. by eapply Hc.
    - rewrite Es in Ha. by destruct (Hs _ _ _ _ Ha). }
  assert (Hstep : forall s, (forall q s' q' w, act s q s' q' w -> forall n, client n = c -> server n = s' ->
    terminates n) -> forall n, client n = c -> server n = s -> terminates n).
  { intros s Hs n En Es. constructor. intros n' Hst. destruct Hst as [n c' q' w Ha|n s' q' w Ha].
    - rewrite En in Ha. by eapply Hc.
    - rewrite Es in Ha. by eapply Hs. }
  induction s as [a|e|msg k IH|max k IH|k IH|]; try (apply Hfin; intros ? ? ? ? Ha; by inversion Ha);
    apply Hstep; intros q s' q' w Ha; inversion Ha; subst; try (exact IH || apply IH).
  apply Hfin. intros ? ? ? ? Ha'. inversion Ha'.
Qed.

Lemma negotiation_terminates n : terminates n.
Proof.
  assert (Hfin : forall c : proc (MultiStreamResult bytes), (forall q s' q' w, ~ act c q s' q' w) ->
    forall n, client n = c -> terminates n).
  { intros c Hc m Em. apply (acc_server c) with (s := server m); [|done..].
    intros q c' q' w Ha. by destruct (Hc _ _ _ _ Ha). }
  remember (client n) as c eqn:E. symmetry in E. revert n E.
  induction c as [a|e|msg k IH|max k IH|k IH|]; intros n E;
    try (by apply (Hfin _ ltac:(intros ? ? ? ? Ha; by inversion Ha) n E));
    refine (acc_server _ _ (server n) n E eq_refl); clear n E; intros q s' q' w Ha; inversion Ha; subst; try (exact IH || apply IH).
  apply Hfin. intros ? ? ? ? Ha'. inversion Ha'.
Qed.

End Termination.

(** ** An executable schedule *)

Section Schedule.
Context `{LB : Leb128}.

Definition act_fun {A} (p : proc A) (q : Queue) : option (proc A * Queue * bytes) :=
  match p with
  | WriteLp msg k => Some (k, q, writeLp msg)
  | ReadLp max k =>
      match readLp q max with
      | Done q' d => Some (k d, q', [])
      | Raised q' e => Some (Raise (StreamExn e), q', [])
      | _ => None
      end
  | AtEof k => Some (k false, q, [])
  | _ => None
  end.

(** [true] lets the client act, [false] the server. *)
Fixpoint play (sched : list bool) (n : net) : option net :=
  match sched with
  | [] => Some n
  | true :: sched =>
      '(c, q, w) ← act_fun (client n) (s2c n);
      play sched (mkNet c (server n) (send (c2s n) w) q (client_app n) (server_app n) (faulted n))
  | false :: sched =>
      '(s, q, w) ← act_fun (server n) (c2s n);
      play sched (mkNet (client n) s q (send (s2c n) w) (client_app n) (server_app n) (faulted n))
  end.

Lemma act_fun_act {A} (p : proc A) q p' q' w : act_fun p q = Some (p', q', w) -> act p q p' q' w.
Proof.
  destruct p as [| |msg k|max k|k|]; cbn; try done.
  - intros [= <- <- <-]. constructor.
  - destruct (readLp q max) as [q0 d| |q0 e|] eqn:E; try done; intros [= <- <- <-]; by constructor.
  - intros [= <- <- <-]. by apply act_eof.
Qed.

Lemma play_steps sched n n' : play sched n = Some n' -> rtc step n n'.
Proof.
  revert n. induction sched as [|[] sched IH]; intros n; cbn.
  - by intros [= ->].
  - destruct (act_fun (client n) (s2c n)) as [[[c q] w]|] eqn:E; cbn; [|done]. intros Hp.
    eapply rtc_l; [left; apply step_client, act_fun_act, E|by apply IH].
  - destruct (act_fun (server n) (c2s n)) as [[[s q] w]|] eqn:E; cbn; [|done]. intros Hp.
    eapply rtc_l; [left; apply step_server, act_fun_act, E|by apply IH].
Qed.
End Schedule.

(** ** The negotiation *)

(** C5: Whatever the interleaving, the chunks, the failures of the connection and what the sides
do with the stream once they have agreed: if the client returns a protocol, it is the first
of its proposals the server supports, the server has returned it too, and what is under way
is exactly what each side has written since; if it returns none, the server supports none;
the server returns no other protocol; neither side reports a failure of the negotiation, and
the client raises only if the connection failed. *)
Theorem negotiation_agrees `{Leb128} (proposals protos : list bytes) (matchers : list Matcher)
    (fuel : nat) (n : net) :
  proposals <> [] -> Forall proposal_ok proposals -> (1 + length proposals < fuel)%nat ->
  rtc step (start proposals protos matchers fuel) n ->
  let chosen := List.find (supported protos matchers) proposals in
  (forall p, client n = Ret (Ok p) -> p <> [] -> chosen = Some p /\ server n = Ret (Ok p) /\
    q_data (c2s n) = client_app n /\ q_data (s2c n) = server_app n) /\
  (client n = Ret (Ok []) -> chosen = None) /\
  (forall p, server n = Ret (Ok p) -> p <> [] -> chosen = Some p) /\
  (forall f, client n <> Ret (Err f) /\ server n <> Ret (Err f)) /\ server n <> OutOfFuel /\
  (forall e, client n = Raise e -> faulted n = true).
Proof.
  destruct proposals as [|p0 rest]; [done|]. intros _ Hp Hf Hr.
  apply (inv_safe protos matchers p0 rest Hp). eapply inv_reachable; [done| |exact Hr]. cbn in Hf. lia.
Qed.

(** C6: No run of the two sides goes on for ever, and as long as the connection has not failed
one of them can go on, until the client has returned the first proposal the server supports
(the empty string if there is none) and the server the same. *)
Theorem negotiation_completes `{Leb128} (proposals protos : list bytes) (matchers : list Matcher)
    (fuel : nat) (n : net) :
  proposals <> [] -> Forall proposal_ok proposals -> (1 + length proposals < fuel)%nat ->
  rtc step (start proposals protos matchers fuel) n -> faulted n = false ->
  let chosen := List.find (supported protos matchers) proposals in
  Acc (fun n' n => neg_step n n') n /\
  ((exists n', neg_step n n') \/
   client n = Ret (Ok (default [] chosen)) /\ forall p, chosen = Some p -> server n = Ret (Ok p)).
Proof.
  destruct proposals as [|p0 rest]; [done|]. intros _ Hp Hf Hr Hn. split; [apply negotiation_terminates|].
  apply (inv_progress protos matchers p0 rest Hp); [|done].
  eapply inv_reachable; [done| |exact Hr]. cbn in Hf. lia.
Qed.

(** The loop accepts a message exactly when a handler is registered for it, and the handler
the stream is given to is the first one registered that matches. *)
Theorem dispatch_correct {P} (m : list (HandlerHolder P)) (ms : bytes) :
  let '(protos, matchers) := allProtosAndMatchers m in
  (supported protos matchers ms = true <-> ms <> [] /\ is_Some (lookupProtocol m ms)) /\
  (forall protocol, lookupProtocol m ms = Some protocol <->
    exists before h after, m = before ++ h :: after /\ hh_protocol h = protocol /\
      holder_matches h ms = true /\ Forall (fun h => holder_matches h ms = false) before).
Proof.
  cbn. split.
  - unfold supported. rewrite andb_true_iff, negb_true_iff, Nat.eqb_neq, orb_true_iff, bool_decide_eq_true.
    assert (E1 : length ms <> 0%nat <-> ms <> []) by (destruct ms; cbn; naive_solver lia).
    assert (E2 : is_Some (lookupProtocol m ms) <->
      ms ∈ (m ≫= hh_protos) \/ existsb (fun f => f ms) (omap hh_match m) = true).
    { unfold lookupProtocol. rewrite fmap_is_Some. induction m as [|h m IH]; cbn.
      - split; [by intros []|]. intros [?%elem_of_nil|?]; done.
      - unfold holder_matches at 1. rewrite elem_of_app. destruct (hh_match h) as [f|]; cbn.
        + destruct (f ms); cbn; [naive_solver|]. case_bool_decide; naive_solver.
        + case_bool_decide; naive_solver. }
    tauto.
  - intros protocol. unfold lookupProtocol. split.
    + induction m as [|h m IH]; cbn; [done|]. destruct (holder_matches h ms) eqn:E; cbn.
      * intros [= <-]. by exists [], h, m.
      * intros Hl. destruct (IH Hl) as (b & h' & a & -> & ? & ? & ?). exists (h :: b), h', a.
        split_and!; try done. by constructor.
    + intros (b & h & a & -> & <- & Hm & Hb). induction Hb as [|x b Hx Hb IH]; cbn; [by rewrite Hm|].
      by rewrite Hx.
Qed.

Definition demo_proposals : list bytes :=
  [bytes_of_string "/foo/2"; bytes_of_string "/foo/1"; bytes_of_string "/bar/1"].

Definition demo_protos : list bytes := [bytes_of_string "/bar/1"; bytes_of_string "/foo/1"].

Definition demo_start : net := start demo_proposals demo_protos [] 5.

(** The client pipelines its first two messages; the server answers each. *)
Definition demo_schedule : list bool :=
  [true; true; false; false; false; true; false; false; false; true; true; false; false; false; true].

Lemma demo_proposals_ok : Forall proposal_ok demo_proposals.
Proof.
  repeat constructor; try discriminate; unfold fits; vm_compute; lia.
Qed.

Lemma negotiation_agrees_witness :
  exists n, @play leb128_ref demo_schedule demo_start = Some n /\
    client n = Ret (Ok (bytes_of_string "/foo/1")) /\ server n = Ret (Ok (bytes_of_string "/foo/1")).
Proof.
  destruct (@play leb128_ref demo_schedule demo_start) as [n|] eqn:E; [|by vm_compute in E].
  exists n. split; [done|].
  destruct (@negotiation_agrees leb128_ref demo_proposals demo_protos [] 5 n) as (Hc & _);
    [done|apply demo_proposals_ok|cbn; lia|by apply (play_steps demo_schedule)|].
  assert (Ec : client n = Ret (Ok (bytes_of_string "/foo/1"))).
  { vm_compute in E. injection E as <-. by vm_compute. }
  split; [done|]. by apply (Hc _ Ec).
Defined.

Lemma negotiation_completes_witness :
  exists n, @play leb128_ref (take 6 demo_schedule) demo_start = Some n /\
    Acc (fun n' n => @neg_step leb128_ref n n') n.
Proof.
  destruct (@play leb128_ref (take 6 demo_schedule) demo_start) as [n|] eqn:E; [|by vm_compute in E].
  exists n. split; [done|].
  destruct (@negotiation_completes leb128_ref demo_proposals demo_protos [] 5 n) as (Ha & _);
    [done|apply demo_proposals_ok|cbn; lia|by apply (play_steps (take 6 demo_schedule))| |done].
  vm_compute in E. injection E as <-. reflexivity.
Defined.
