(* ===== verification/Endians.v ===== *)
(** * Endians: the interface of [stew/endians2]

Fixed-width integers to and from bytes, a dependency of the repository.  The class states
the two byte orders; [endians_ref] is a concrete function that satisfies it. *)
From S2P Require Import Prelude.

#[local] Open Scope Z_scope.

(** The value of a byte string, least (most) significant byte first. *)
Fixpoint le_value (bs : bytes) : Z :=
  match bs with [] => 0 | b :: r => b + 256 * le_value r end.

Definition be_value (bs : bytes) : Z := le_value (rev bs).

(** [toBytesLE n x] is [toBytesLE] of an [n]-byte unsigned integer; [fromBytesLE n bs]
reads the first [n] bytes of [bs]. *)
Class Endians := {
  toBytesLE : nat -> Z -> bytes;
  toBytesBE : nat -> Z -> bytes;
  fromBytesLE : nat -> bytes -> Z;
  fromBytesBE : nat -> bytes -> Z;
  toBytesLE_length n x : length (toBytesLE n x) = n;
  toBytesBE_length n x : length (toBytesBE n x) = n;
  toBytesLE_bytes n x : bytes_ok (toBytesLE n x);
  toBytesBE_bytes n x : bytes_ok (toBytesBE n x);
  toBytesLE_value n x : uint_ok (8 * Z.of_nat n) x -> le_value (toBytesLE n x) = x;
  toBytesBE_value n x : uint_ok (8 * Z.of_nat n) x -> be_value (toBytesBE n x) = x;
  fromBytesLE_value n bs : (n <= length bs)%nat -> fromBytesLE n bs = le_value (take n bs);
  fromBytesBE_value n bs : (n <= length bs)%nat -> fromBytesBE n bs = be_value (take n bs);
}.

Fixpoint ref_le (n : nat) (x : Z) : bytes :=
  match n with O => [] | S n => x mod 256 :: ref_le n (x / 256) end.

(** ** Lemmas *)

Lemma ref_le_length n x : length (ref_le n x) = n.
Proof. revert x. induction n; intros; simpl; auto. Qed.

Lemma ref_le_bytes n x : bytes_ok (ref_le n x).
Proof.
  revert x. induction n; intros; simpl; constructor; [|apply IHn].
  apply Z.mod_pos_bound. lia.
Qed.

Lemma ref_le_value n x : uint_ok (8 * Z.of_nat n) x -> le_value (ref_le n x) = x.
Proof.
  revert x. unfold uint_ok. induction n as [|n IH]; intros x Hx; simpl.
  { change (8 * Z.of_nat 0) with 0 in Hx. lia. }
  replace (8 * Z.of_nat (S n)) with (8 + 8 * Z.of_nat n) in Hx by lia.
  rewrite Z.pow_add_r in Hx by lia. change (2 ^ 8) with 256 in Hx.
  pose proof (Z.div_mod x 256). rewrite IH; [lia|].
  split; [apply Z.div_pos; lia|apply Z.div_lt_upper_bound; lia].
Qed.

Lemma le_value_app l k : le_value (l ++ k) = le_value l + 2 ^ (8 * Z.of_nat (length l)) * le_value k.
Proof.
  induction l as [|x l IH]; [cbn; lia|]. cbn [app le_value length]. rewrite IH.
  replace (8 * Z.of_nat (S (length l))) with (8 + 8 * Z.of_nat (length l)) by lia.
  rewrite Z.pow_add_r by lia. change (2 ^ 8) with 256. ring.
Qed.

Lemma le_value_bound bs : bytes_ok bs -> 0 <= le_value bs < 2 ^ (8 * Z.of_nat (length bs)).
Proof.
  induction 1 as [|b r Hb _ IH]; [done|]. cbn [le_value length].
  replace (8 * Z.of_nat (S (length r))) with (8 + 8 * Z.of_nat (length r)) by lia.
  rewrite Z.pow_add_r by lia. change (2 ^ 8) with 256. unfold byte_ok in Hb. lia.
Qed.

Lemma be_value_cons b r : be_value (b :: r) = b * 2 ^ (8 * Z.of_nat (length r)) + be_value r.
Proof.
  unfold be_value. cbn [rev]. generalize (length_rev r). generalize (rev r). intros l <-.
  induction l as [|x l IH]; cbn [app le_value length]; [cbn; lia|]. rewrite IH.
  replace (8 * Z.of_nat (S (length l))) with (8 + 8 * Z.of_nat (length l)) by lia.
  rewrite Z.pow_add_r by lia. change (2 ^ 8) with 256. ring.
Qed.

Lemma be_value_bound bs : bytes_ok bs -> 0 <= be_value bs < 2 ^ (8 * Z.of_nat (length bs)).
Proof.
  intros Hb. unfold be_value. rewrite <- (length_rev bs). apply le_value_bound.
  by apply Forall_rev.
Qed.

(** The value of [n] bytes from the [j]-th. *)
Lemma le_value_slice bs j n : bytes_ok bs -> (j + n <= length bs)%nat ->
  le_value (take n (drop j bs)) = (le_value bs / 2 ^ (8 * Z.of_nat j)) mod 2 ^ (8 * Z.of_nat n).
Proof.
  intros Hb Hl. rewrite <- (take_drop j bs) at 2. rewrite le_value_app, length_take.
  replace (Z.of_nat (j `min` length bs)) with (Z.of_nat j) by lia.
  pose proof (le_value_bound (take j bs) ltac:(by apply Forall_take)) as Hlow.
  rewrite length_take in Hlow. replace (Z.of_nat (j `min` length bs)) with (Z.of_nat j) in Hlow by lia.
  set (low := le_value (take j bs)) in *. set (p := 2 ^ (8 * Z.of_nat j)) in *.
  assert (E : (low + p * le_value (drop j bs)) / p = le_value (drop j bs)).
  { rewrite (Z.mul_comm p), Z.div_add, Z.div_small by lia. done. }
  rewrite E. rewrite <- (take_drop n (drop j bs)) at 2. rewrite le_value_app, length_take, length_drop.
  replace (Z.of_nat (n `min` (length bs - j))) with (Z.of_nat n) by lia.
  pose proof (le_value_bound (take n (drop j bs)) ltac:(by apply Forall_take, Forall_drop)) as Hm.
  rewrite length_take, length_drop in Hm.
  replace (Z.of_nat (n `min` (length bs - j))) with (Z.of_nat n) in Hm by lia.
  set (q := 2 ^ (8 * Z.of_nat n)) in *.
  rewrite (Z.mul_comm q), Z_mod_plus_full. symmetry. by apply Z.mod_small.
Qed.

Lemma le_value_inj bs bs' : bytes_ok bs -> bytes_ok bs' -> length bs = length bs' ->
  le_value bs = le_value bs' -> bs = bs'.
Proof.
  intros H. revert bs'. induction H as [|b r Hb _ IH]; intros [|b' r'] H' Hl; try done.
  apply Forall_cons in H' as [Hb' Hr']. unfold byte_ok in *.
  cbn [le_value length] in *. intros Hv.
  assert (b = b' /\ le_value r = le_value r') as [-> Hr] by lia.
  f_equal. apply IH; [done|lia|done].
Qed.

Definition endians_ref : Endians.
Proof.
  refine {| toBytesLE := ref_le; toBytesBE := fun n x => rev (ref_le n x);
            fromBytesLE := fun n bs => le_value (take n bs);
            fromBytesBE := fun n bs => be_value (take n bs) |}.
  - apply ref_le_length.
  - intros. by rewrite length_rev, ref_le_length.
  - apply ref_le_bytes.
  - intros. apply Forall_rev, ref_le_bytes.
  - apply ref_le_value.
  - intros n x Hx. unfold be_value. rewrite rev_involutive. by apply ref_le_value.
  - done.
  - done.
Defined.

Section EndiansFacts.
Context `{Endians}.

Lemma fromBytesLE_toBytesLE n x rest : uint_ok (8 * Z.of_nat n) x ->
  fromBytesLE n (toBytesLE n x ++ rest) = x.
Proof.
  intros Hx. rewrite fromBytesLE_value by (rewrite length_app, toBytesLE_length; lia).
  rewrite take_app_le, take_ge by (rewrite toBytesLE_length; lia). by apply toBytesLE_value.
Qed.

Lemma fromBytesBE_toBytesBE n x rest : uint_ok (8 * Z.of_nat n) x ->
  fromBytesBE n (toBytesBE n x ++ rest) = x.
Proof.
  intros Hx. rewrite fromBytesBE_value by (rewrite length_app, toBytesBE_length; lia).
  rewrite take_app_le, take_ge by (rewrite toBytesBE_length; lia). by apply toBytesBE_value.
Qed.

(** Bytes are determined by their value. *)
Lemma toBytesBE_fromBytesBE n bs : bytes_ok bs -> length bs = n ->
  toBytesBE n (fromBytesBE n bs) = bs.
Proof.
  intros Hb Hl. rewrite fromBytesBE_value, take_ge by lia.
  assert (Hr : bytes_ok (rev bs)) by (by apply Forall_rev).
  assert (Hu : uint_ok (8 * Z.of_nat n) (be_value bs)).
  { unfold be_value. rewrite <- Hl, <- length_rev. by apply le_value_bound. }
  assert (E : rev (toBytesBE n (be_value bs)) = rev bs).
  { apply le_value_inj; [apply Forall_rev, toBytesBE_bytes|done| |].
    - by rewrite !length_rev, toBytesBE_length.
    - by apply (toBytesBE_value n (be_value bs)). }
  apply (f_equal (@rev Z)) in E. by rewrite !rev_involutive in E.
Qed.

End EndiansFacts.
