(* ===== verification/Nimcrypto.v ===== *)
(** * Nimcrypto: the interfaces of nimcrypto and of [stew/ctops]

What the cryptographic files use of two packages that are not under src/: the digest, the
hexadecimal decoder and the wiping of nimcrypto, and the comparison in constant time of stew. *)
From S2P Require Import Prelude.

#[local] Open Scope Z_scope.

(** [sha512 m] is [sha512.digest(m)], and what [init], [update]s with the parts of [m] and
[finish] return. *)
Class Sha512 : Type := {
  sha512 : bytes -> bytes;
  sha512_length m : length (sha512 m) = 64%nat;
  sha512_bytes m : bytes_ok (sha512 m);
}.

(** [stew/ctops]: comparison in constant time. *)
Class CtOps : Type := {
  isEqual : bytes -> bytes -> bool;
  isEqual_spec x y : length x = length y -> isEqual x y = bool_decide (x = y);
}.

(** [nimcrypto/utils]. *)
Class NcrUtils : Type := {
  fromHex : string -> bytes;
  burnMem : bytes -> bytes;
  burnMem_spec x : burnMem x = replicate (length x) 0;
}.
