(* ===== verification/Minasn1.v ===== *)
(** * Minasn1: libp2p/crypto/minasn1.nim

The encoder and the decoder of the ASN.1 DER values that keys are made of.  A buffer is its bytes
and an offset; the encoders write to what follows the offset, when there is room, and always
return the room that they need, so each [write] calls its encoder twice.  The decoder is a state
and error monad: its errors are values of [Asn1Error] and [None] is a [Defect] (an index out of
range, or the overflow of [isEnough]).  [read_loop] has two turns: a context tag is followed by
one that is not, or by an error. *)
From S2P Require Import Prelude Endians Nimcrypto.

#[local] Open Scope Z_scope.

Inductive Asn1Error := EOverflow | EIncomplete | EIndefinite | EIncorrect | ENoSupport | EOverrun.

Inductive Asn1Class := Universal | Application | ContextSpecific | Private.

Inductive Asn1Tag :=
  NoSupport | Boolean | Integer | BitString | OctetString | Null | Oid | Sequence | Context_tag.

#[export] Instance Asn1Tag_eq_dec : EqDecision Asn1Tag.
Proof. solve_decision. Defined.

Record Asn1Buffer := mkAsn1Buffer { ab_buffer : bytes; ab_offset : nat; ab_length : Z }.

(** The branches of the object variant. *)
Inductive Asn1Value := VBool (vbool : bool) | VInt (vint : Z) | VBits (ubits : Z) | VNone.

Record Asn1Field := mkAsn1Field {
  klass : Asn1Class;
  index : Z;
  af_offset : nat;
  af_length : Z;
  af_buffer : bytes;
  kind : Asn1Tag;
  value : Asn1Value;
}.

Record Asn1Composite := mkAsn1Composite { ac_base : Asn1Buffer; ac_tag : Asn1Tag; idx : Z }.

Definition isEmpty (ab : Asn1Buffer) : bool := (length (ab_buffer ab) <=? ab_offset ab)%nat.

(** The sum is an [int64]: its overflow is a defect. *)
Definition isEnough (ab : Asn1Buffer) (len : Z) : option bool :=
  let sum := Z.of_nat (ab_offset ab) + len in
  if sum <? 2 ^ 63 then Some (sum <=? Z.of_nat (length (ab_buffer ab))) else None.

Definition ab_len (ab : Asn1Buffer) : Z := Z.of_nat (length (ab_buffer ab)) - Z.of_nat (ab_offset ab).

Definition af_len (field : Asn1Field) : Z := af_length field.

(** [field.toOpenArray()]. *)
Definition af_bytes (af : Asn1Field) : bytes :=
  take (Z.to_nat (af_length af)) (drop (af_offset af) (af_buffer af)).

Definition extend (ab : Asn1Buffer) (n : nat) : Asn1Buffer :=
  mkAsn1Buffer (set_len 0 (length (ab_buffer ab) + n) (ab_buffer ab)) (ab_offset ab) (ab_length ab).

Definition code (tag : Asn1Tag) : Z :=
  match tag with
  | NoSupport => 0x00
  | Boolean => 0x01
  | Integer => 0x02
  | BitString => 0x03
  | OctetString => 0x04
  | Null => 0x05
  | Oid => 0x06
  | Sequence => 0x30
  | Context_tag => 0xA0
  end.

(** ** Encoders

[store dest n src]: the encoders write [src] when [dest] has room for the [n] bytes they return. *)
Definition store (dest : bytes) (n : nat) (src : bytes) : nat * bytes :=
  (n, if (n <=? length dest)%nat then blit 0 src dest else dest).

(** The [while] loop: how many bytes a [uint64] needs. *)
Fixpoint octets_loop (fuel : nat) (z : Z) : nat :=
  match fuel with
  | O => 0
  | S fuel => if z =? 0 then 0 else S (octets_loop fuel (Z.shiftr z 8))
  end.

Definition asn1EncodeLength (dest : bytes) (len : Z) : nat * bytes :=
  if len <? 0x80 then store dest 1 [Z.land len 0x7F]
  else
    let res := S (octets_loop 8 len) in
    store dest res (Z.land (0x80 + (Z.of_nat res - 1)) 0xFF ::
      ((fun j => Z.land (Z.shiftr len (8 * Z.of_nat j)) 0xFF) <$> rev (seq 0 (res - 1)))).

(** [buffer] and [lenlen] of the callers. *)
Definition encode_length (len : Z) : nat * bytes :=
  let '(lenlen, buffer) := asn1EncodeLength (replicate 16 0) len in (lenlen, take lenlen buffer).

(** The first loop: the index of the first byte that is not zero. *)
Fixpoint leading_zeros (value : bytes) : nat :=
  match value with
  | b :: r => if negb (b =? 0) then 0 else S (leading_zeros r)
  | [] => 0
  end.

(** An empty [value] is written as a tag, and a length that is whatever [dest] holds. *)
Definition asn1EncodeInteger (dest : bytes) (value : bytes) : option (nat * bytes) :=
  let o := leading_zeros value in
  let offset := if (o <? length value)%nat then o else (o - 1)%nat in
  if (0 <? length value)%nat then
    b ← value !! offset;
    let n := (length value - offset)%nat in
    let content := drop offset value in
    if 0x80 <=? b then
      let '(lenlen, buffer) := encode_length (Z.of_nat (n + 1)) in
      Some (store dest (1 + lenlen + 1 + n) (code Integer :: buffer ++ 0x00 :: content))
    else
      let '(lenlen, buffer) := encode_length (Z.of_nat n) in
      Some (store dest (1 + lenlen + n) (code Integer :: buffer ++ content))
  else Some (store dest 2 [code Integer]).

Definition asn1EncodeInteger_uint `{Endians} (dest : bytes) (value : Z) : option (nat * bytes) :=
  asn1EncodeInteger dest (toBytesBE 8 value).

Definition asn1EncodeBoolean (dest : bytes) (value : bool) : nat * bytes :=
  store dest 3 [code Boolean; 0x01; if value then 0xFF else 0x00].

Definition asn1EncodeNull (dest : bytes) : nat * bytes := store dest 2 [code Null; 0x00].

Definition asn1EncodeOctetString (dest value : bytes) : nat * bytes :=
  let '(lenlen, buffer) := encode_length (Z.of_nat (length value)) in
  store dest (1 + lenlen + length value) (code OctetString :: buffer ++ value).

Definition asn1EncodeBitString (dest value : bytes) (bits : Z) : option (nat * bytes) :=
  let bitlen := if negb (bits =? 0) then 8 * Z.of_nat (length value) - bits
                else 8 * Z.of_nat (length value) in
  let bytelen := Z.shiftr (bitlen + 7) 3 in
  let unused := Z.land (8 - Z.land bitlen 7) 7 in
  let mask := Z.lxor 0xFF (Z.shiftl 1 unused - 1) in
  (* [uint64(bytelen + 1)] *)
  if bytelen + 1 <? 0 then None
  else
    let '(lenlen, buffer) := encode_length (bytelen + 1) in
    let res := (1 + lenlen + 1 + length value)%nat in
    if (res <=? length dest)%nat then
      if 0 <? bytelen then
        lastbyte ← value !! Z.to_nat (bytelen - 1);
        let content := take (Z.to_nat bytelen) value in
        Some (store dest res (code BitString :: buffer ++ unused ::
          <[Z.to_nat (bytelen - 1) := Z.land lastbyte mask]> content))
      else Some (store dest res (code BitString :: buffer ++ [unused]))
    else Some (res, dest).

(** [asn1EncodeOid], [asn1EncodeSequence], [asn1EncodeComposite] and [asn1EncodeContextTag]
differ in the first byte.  [addr value[0]] of an empty value is an index error. *)
Definition encode_tagged (first : Z) (dest value : bytes) : option (nat * bytes) :=
  let '(lenlen, buffer) := encode_length (Z.of_nat (length value)) in
  let res := (1 + lenlen + length value)%nat in
  if (res <=? length dest)%nat && (length value =? 0)%nat then None
  else Some (store dest res (first :: buffer ++ value)).

Definition asn1EncodeOid (dest value : bytes) : option (nat * bytes) :=
  encode_tagged (code Oid) dest value.

Definition asn1EncodeSequence (dest value : bytes) : option (nat * bytes) :=
  encode_tagged (code Sequence) dest value.

Definition asn1EncodeComposite (dest : bytes) (value : Asn1Composite) : option (nat * bytes) :=
  encode_tagged (code (ac_tag value)) dest (ab_buffer (ac_base value)).

Definition asn1EncodeContextTag (dest value : bytes) (tag : Z) : option (nat * bytes) :=
  encode_tagged (Z.lor 0xA0 (Z.land (Z.land tag 0xFF) 0x0F)) dest value.

(** ** Decoder *)

Definition asn1_m (A : Type) : Type := Asn1Buffer -> option (result Asn1Error A * Asn1Buffer).

#[export] Instance asn1_ret : MRet asn1_m := fun A a ab => Some (Ok a, ab).

#[export] Instance asn1_bind : MBind asn1_m := fun A B f m ab =>
  match m ab with
  | Some (Ok a, ab) => f a ab
  | Some (Err e, ab) => Some (Err e, ab)
  | None => None
  end.

Definition fail {A} (e : Asn1Error) : asn1_m A := fun ab => Some (Err e, ab).

Definition self : asn1_m Asn1Buffer := fun ab => Some (Ok ab, ab).

(** [ab.buffer[ab.offset + i]]. *)
Definition byte_at (i : nat) : asn1_m Z := fun ab =>
  b ← ab_buffer ab !! (ab_offset ab + i)%nat; Some (Ok b, ab).

Definition advance (n : nat) : asn1_m unit := fun ab =>
  Some (Ok tt, mkAsn1Buffer (ab_buffer ab) (ab_offset ab + n) (ab_length ab)).

Definition enough (len : Z) : asn1_m bool := fun ab => b ← isEnough ab len; Some (Ok b, ab).

(** [v = (v shl 8) or b] in [uint64], for the bytes of the buffer from [i] to [i + n]. *)
Definition shl_or (v b : Z) : Z := Z.lor (wrap 64 (Z.shiftl v 8)) b.

Fixpoint big_endian (n i : nat) (v : Z) : asn1_m Z :=
  match n with
  | O => mret v
  | S n => b ← byte_at i; big_endian n (S i) (shl_or v b)
  end.

Definition getLength : asn1_m Z :=
  ab ← self;
  if negb (isEmpty ab) then
    b ← byte_at 0;
    if Z.land b 0x80 =? 0x00 then _ ← advance 1; mret b
    else if b =? 0x80 then fail EIndefinite
    else if b =? 0xFF then fail EIncorrect
    else
      let octets := Z.land b 0x7F in
      if 8 <? octets then fail EOverflow
      else
        e ← enough (octets + 1);
        if (e : bool) then
          lengthU ← big_endian (Z.to_nat octets) 1 0;
          if 2 ^ 63 - 1 <? lengthU then fail EOverflow
          else _ ← advance (Z.to_nat octets + 1); mret lengthU
        else fail EIncomplete
  else fail EIncomplete.

Definition class_of (c : Z) : Asn1Class :=
  if c =? 0 then Universal else if c =? 1 then Application
  else if c =? 2 then ContextSpecific else Private.

Definition getTag : asn1_m (Z * Asn1Class) :=
  ab ← self;
  if negb (isEmpty ab) then
    b ← byte_at 0;
    let c := Z.shiftr (Z.land b 0xC0) 6 in
    let tag := Z.land b 0x3F in
    _ ← advance 1;
    if (0 <=? c) && (c <? 4) then mret (tag, class_of c) else fail EIncorrect
  else fail EIncomplete.

(** The field that starts [skip] bytes after the offset. *)
Definition field_at (skip : nat) (len : Z) (ttag : Z) (kind : Asn1Tag) (value : Asn1Value) : asn1_m Asn1Field :=
  ab ← self;
  mret (mkAsn1Field Universal ttag (ab_offset ab + skip) len (ab_buffer ab) kind value).

(** The [while] loop that counts the zeroes in front of an integer. *)
Fixpoint count_zeroes (n i : nat) : asn1_m nat :=
  match n with
  | O => mret i
  | S n => b ← byte_at i; if b =? 0 then count_zeroes n (S i) else mret i
  end.

Definition read_boolean (len ttag : Z) : asn1_m Asn1Field :=
  if negb (len =? 1) then fail EIncorrect
  else
    e ← enough len;
    if negb e then fail EIncomplete
    else
      b ← byte_at 0;
      if negb (b =? 0xFF) && negb (b =? 0x00) then fail EIncorrect
      else
        field ← field_at 0 1 ttag Boolean (VBool (b =? 0xFF));
        _ ← advance 1; mret field.

Definition read_integer (len ttag : Z) : asn1_m Asn1Field :=
  if len =? 0 then fail EIncorrect
  else
    e ← enough len;
    if negb e then fail EIncomplete
    else
      let n := Z.to_nat len in
      zc ← count_zeroes n 0;
      if (1 <? zc)%nat then fail EIncorrect
      else if (zc =? 0)%nat then
        b ← byte_at 0;
        vint ← (if Z.land b 0x80 =? 0x80 then
                  if len <=? 8 then big_endian n 0 (foldl shl_or 0 (replicate (8 - n) 0xFF))
                  else mret 0
                else if len <=? 8 then big_endian n 0 0 else mret 0);
        field ← field_at 0 len ttag Integer (VInt vint);
        _ ← advance n; mret field
      else if len =? 1 then
        field ← field_at 0 len ttag Integer (VInt 0);
        _ ← advance n; mret field
      else
        vint ← (if len <=? 9 then big_endian (n - 1) 1 0 else mret 0);
        field ← field_at 1 (len - 1) ttag Integer (VInt vint);
        _ ← advance n; mret field.

Definition read_bitstring (len ttag : Z) : asn1_m Asn1Field :=
  if len =? 0 then fail EIncorrect
  else if len =? 1 then
    b ← byte_at 0;
    if negb (b =? 0) then fail EIncorrect
    else
      field ← field_at 1 0 ttag BitString (VBits 0);
      _ ← advance 1; mret field
  else
    e ← enough len;
    if negb e then fail EIncomplete
    else
      let n := Z.to_nat len in
      unused ← byte_at 0;
      if 0x07 <? unused then fail EIncorrect
      else
        let mask := Z.shiftl 1 unused - 1 in
        lastbyte ← byte_at (n - 1);
        if negb (Z.land lastbyte mask =? 0) then fail EIncorrect
        else
          field ← field_at 1 (len - 1) ttag BitString (VBits unused);
          _ ← advance n; mret field.

(** OCTET STRING, OID and SEQUENCE. *)
Definition read_content (kind : Asn1Tag) (len ttag : Z) : asn1_m Asn1Field :=
  e ← enough len;
  if negb e then fail EIncomplete
  else
    field ← field_at 0 len ttag kind VNone;
    _ ← advance (Z.to_nat len); mret field.

Definition read_null (len ttag : Z) : asn1_m Asn1Field :=
  if negb (len =? 0) then fail EIncorrect
  else field_at 0 0 ttag Null VNone.

Definition read_universal (tag len ttag : Z) : asn1_m Asn1Field :=
  if tag =? code Boolean then read_boolean len ttag
  else if tag =? code Integer then read_integer len ttag
  else if tag =? code BitString then read_bitstring len ttag
  else if tag =? code OctetString then read_content OctetString len ttag
  else if tag =? code Null then read_null len ttag
  else if tag =? code Oid then read_content Oid len ttag
  else if tag =? code Sequence then read_content Sequence len ttag
  else fail ENoSupport.

(** [context] is [ttag] and [tlength] once [inclass] is set. *)
Fixpoint read_loop (fuel : nat) (context : option (Z * Z)) : asn1_m Asn1Field :=
  match fuel with
  | O => fun _ => None
  | S fuel =>
      '(tag, aclass) ← getTag;
      match aclass with
      | ContextSpecific =>
          match context with
          | Some _ => fail EIncorrect
          | None => tlength ← getLength; read_loop fuel (Some (tag, tlength))
          end
      | Universal =>
          len ← getLength;
          match context with
          | Some (ttag, tlength) =>
              if tlength <=? len then fail EIncorrect else read_universal tag len ttag
          | None => read_universal tag len 0
          end
      | _ => fail ENoSupport
      end
  end.

Definition read : asn1_m Asn1Field := read_loop 2 None.

Definition getBuffer (field : Asn1Field) : Asn1Buffer :=
  mkAsn1Buffer (af_buffer field) (af_offset field) (af_length field).

Definition field_eq `{CtOps} (field : Asn1Field) (data : bytes) : bool :=
  let len := length (af_buffer field) in
  if (len =? 0)%nat && (length data =? 0)%nat then true
  else if (0 <? len)%nat then
    if af_length field =? Z.of_nat (length data)
    then isEqual (af_bytes field) (take (Z.to_nat (af_length field)) data)
    else false
  else false.

Definition new_buffer (data : bytes) : Asn1Buffer := mkAsn1Buffer data 0 0.

Definition new_buffer_hex `{NcrUtils} (data : string) : Asn1Buffer := mkAsn1Buffer (fromHex data) 0 0.

Definition new_composite (tag : Asn1Tag) : Asn1Composite :=
  mkAsn1Composite (mkAsn1Buffer [] 0 0) tag 0.

Definition new_context (idx : Z) : Asn1Composite :=
  mkAsn1Composite (mkAsn1Buffer [] 0 0) Context_tag idx.

(** ** Writing *)

(** The two calls of an encoder [enc] around [extend]; a slice that starts after the end of the
buffer is a range error. *)
Definition write_with (enc : bytes -> option (nat * bytes)) (abc : Asn1Buffer) : option Asn1Buffer :=
  let encode ab :=
    if (ab_offset ab <=? length (ab_buffer ab))%nat then
      '(len, dest) ← enc (drop (ab_offset ab) (ab_buffer ab));
      Some (len, mkAsn1Buffer (take (ab_offset ab) (ab_buffer ab) ++ dest) (ab_offset ab) (ab_length ab))
    else None in
  '(len, abc) ← encode abc;
  '(_, abc) ← encode (extend abc len);
  Some (mkAsn1Buffer (ab_buffer abc) (ab_offset abc + len) (ab_length abc)).

Definition write_empty `{Endians} (abc : Asn1Buffer) (tag : Asn1Tag) : option Asn1Buffer :=
  _ ← doAssert (bool_decide (tag ∈ [Null; Integer; BitString; OctetString]));
  match tag with
  | Null => write_with (fun dest => Some (asn1EncodeNull dest)) abc
  | Integer => write_with (fun dest => asn1EncodeInteger_uint dest 0) abc
  | BitString => write_with (fun dest => asn1EncodeBitString dest [] 0) abc
  | OctetString => write_with (fun dest => Some (asn1EncodeOctetString dest [])) abc
  | _ => Some abc
  end.

Definition write_uint `{Endians} (abc : Asn1Buffer) (value : Z) : option Asn1Buffer :=
  write_with (fun dest => asn1EncodeInteger_uint dest value) abc.

Definition write_bool (abc : Asn1Buffer) (value : bool) : option Asn1Buffer :=
  write_with (fun dest => Some (asn1EncodeBoolean dest value)) abc.

Definition write_bytes (abc : Asn1Buffer) (tag : Asn1Tag) (value : bytes) (bits : Z) : option Asn1Buffer :=
  _ ← doAssert (bool_decide (tag ∈ [Integer; OctetString; BitString; Oid]));
  match tag with
  | Integer => write_with (fun dest => asn1EncodeInteger dest value) abc
  | OctetString => write_with (fun dest => Some (asn1EncodeOctetString dest value)) abc
  | BitString => write_with (fun dest => asn1EncodeBitString dest value bits) abc
  | Oid => write_with (fun dest => asn1EncodeOid dest value) abc
  | _ => Some abc
  end.

Definition write_composite (abc : Asn1Buffer) (value : Asn1Composite) : option Asn1Buffer :=
  _ ← doAssert (0 <? ab_len (ac_base value));
  let content := ab_buffer (ac_base value) in
  match ac_tag value with
  | Sequence => write_with (fun dest => asn1EncodeSequence dest content) abc
  | BitString => write_with (fun dest => asn1EncodeBitString dest content 0) abc
  | Context_tag => write_with (fun dest => asn1EncodeContextTag dest content (idx value)) abc
  | _ => Some abc
  end.

Definition finish (abc : Asn1Buffer) : Asn1Buffer :=
  mkAsn1Buffer (ab_buffer abc) 0 (ab_length abc).

(** The same procedures on a composite. *)
Definition on_base (f : Asn1Buffer -> option Asn1Buffer) (c : Asn1Composite) : option Asn1Composite :=
  b ← f (ac_base c); Some (mkAsn1Composite b (ac_tag c) (idx c)).
