(* ===== verification/Minasn1Codec.v ===== *)
(** * Minasn1Codec: what the encoder of minasn1.nim writes, the decoder reads

The DER encoding as a function of a tree of values; [write] and the composites produce it, and
[read] and [getBuffer] give back the fields.  Sequences are shorter than 2^62 bytes ([fits]). *)
From S2P Require Import Prelude Endians Minasn1.

#[local] Open Scope Z_scope.

(** ** The encoding of a length *)

Definition octets (n : Z) : nat := octets_loop 8 n.

(** The bytes of [n], the most significant one first. *)
Definition octet_list (n : Z) (k : nat) : bytes :=
  (fun j => Z.land (Z.shiftr n (8 * Z.of_nat j)) 0xFF) <$> rev (seq 0 k).

Definition der_length (n : Z) : bytes :=
  if n <? 128 then [n] else (128 + Z.of_nat (octets n)) :: octet_list n (octets n).

Lemma octets_loop_spec fuel n : 0 <= n < 2 ^ (8 * Z.of_nat fuel) ->
  (octets_loop fuel n <= fuel)%nat /\ n < 2 ^ (8 * Z.of_nat (octets_loop fuel n)) /\
  (0 < n -> (0 < octets_loop fuel n)%nat).
Proof.
  revert n. induction fuel as [|fuel IH]; intros n Hn.
  { change (8 * Z.of_nat 0) with 0 in Hn. cbn. lia. }
  cbn [octets_loop]. destruct (Z.eqb_spec n 0) as [->|Hz].
  { split; [lia|]. split; [reflexivity|lia]. }
  rewrite Z.shiftr_div_pow2 by lia. change (2 ^ 8) with 256.
  replace (8 * Z.of_nat (S fuel)) with (8 + 8 * Z.of_nat fuel) in Hn by lia.
  rewrite Z.pow_add_r in Hn by lia. change (2 ^ 8) with 256 in Hn.
  destruct (IH (n / 256)) as (H1 & H2 & _).
  { split; [apply Z.div_pos; lia|apply Z.div_lt_upper_bound; lia]. }
  split; [lia|]. split; [|lia].
  replace (8 * Z.of_nat (S (octets_loop fuel (n / 256)))) with
    (8 + 8 * Z.of_nat (octets_loop fuel (n / 256))) by lia.
  rewrite Z.pow_add_r by lia. change (2 ^ 8) with 256. pose proof (Z.div_mod n 256).
  pose proof (Z.mod_pos_bound n 256). lia.
Qed.

Lemma octets_spec n : 128 <= n < 2 ^ 64 ->
  (1 <= octets n <= 8)%nat /\ n < 2 ^ (8 * Z.of_nat (octets n)).
Proof. intros Hn. destruct (octets_loop_spec 8 n) as (H1 & H2 & H3); [split; [lia|apply Hn]|]. unfold octets. lia. Qed.

Lemma octet_list_length n k : length (octet_list n k) = k.
Proof. unfold octet_list. by rewrite length_fmap, length_rev, length_seq. Qed.

Lemma octet_list_bytes n k : bytes_ok (octet_list n k).
Proof.
  apply Forall_fmap, Forall_forall. intros j _. cbn. change 255 with (Z.ones 8).
  rewrite Z.land_ones by lia. unfold byte_ok. change 256 with (2 ^ 8). apply Z.mod_pos_bound. lia.
Qed.

Lemma octet_list_value n k : 0 <= n -> be_value (octet_list n k) = n mod 2 ^ (8 * Z.of_nat k).
Proof.
  intros Hn. unfold be_value, octet_list. rewrite List.map_rev, rev_involutive.
  induction k as [|k IH]; [by rewrite Z.mod_1_r|].
  rewrite seq_S, List.map_app, le_value_app, IH, List.length_map, length_seq. cbn [List.map le_value Nat.add].
  change 255 with (Z.ones 8). rewrite Z.land_ones, Z.shiftr_div_pow2 by lia.
  replace (8 * Z.of_nat (S k)) with (8 * Z.of_nat k + 8) by lia.
  rewrite Z.pow_add_r by lia. rewrite (Z.rem_mul_r n) by lia. lia.
Qed.

Lemma der_length_length n : 0 <= n < 2 ^ 64 -> (1 <= length (der_length n) <= 9)%nat.
Proof.
  intros Hn. unfold der_length. destruct (Z.ltb_spec n 128); [cbn; lia|].
  cbn [length]. rewrite octet_list_length. pose proof (octets_spec n). lia.
Qed.

Lemma store_length dest n src : length src = n -> store dest n src =
  (n, if (n <=? length dest)%nat then blit 0 src dest else dest).
Proof. done. Qed.

Lemma encode_length_spec n : 0 <= n < 2 ^ 64 ->
  encode_length n = (length (der_length n), der_length n).
Proof.
  intros Hn. pose proof (der_length_length n Hn) as Hl. unfold encode_length.
  assert (E : asn1EncodeLength (replicate 16 0) n = store (replicate 16 0) (length (der_length n)) (der_length n)).
  { unfold asn1EncodeLength, der_length. destruct (Z.ltb_spec n 128) as [H|H].
    - cbn [length]. f_equal. f_equal. change 0x7F with (Z.ones 7). rewrite Z.land_ones by lia.
      apply Z.mod_small. change (2 ^ 7) with 128. lia.
    - fold (octets n). cbn [length]. rewrite octet_list_length. f_equal. f_equal.
      + pose proof (octets_spec n ltac:(lia)) as [Ho _].
        rewrite Nat2Z.inj_succ. change 0xFF with (Z.ones 8). rewrite Z.land_ones by lia.
        rewrite Z.mod_small by (change (2 ^ 8) with 256; lia). lia.
      + unfold octet_list. by rewrite Nat.sub_succ, Nat.sub_0_r. }
  rewrite E. unfold store. rewrite length_replicate.
  destruct (Nat.leb_spec (length (der_length n)) 16); [|lia].
  rewrite blit_prefix. by rewrite take_app_length.
Qed.

(** ** What the values look like

[tlv first content]: the first byte, the length and the content. *)
Definition tlv (first : Z) (content : bytes) : bytes :=
  first :: der_length (Z.of_nat (length content)) ++ content.

(** The content of an unsigned integer: no zero in front but the one that keeps it positive. *)
Definition der_integer (value : bytes) : bytes :=
  let o := leading_zeros value in
  let content := drop (if (o <? length value)%nat then o else (o - 1)%nat) value in
  match content with b :: _ => if 0x80 <=? b then 0 :: content else content | [] => [] end.

(** The unused bits are cleared in the last byte. *)
Definition der_bits (value : bytes) (unused : Z) : bytes :=
  match last value with
  | Some b => unused :: take (length value - 1) value ++ [Z.land b (Z.lxor 0xFF (Z.shiftl 1 unused - 1))]
  | None => [unused]
  end.

(** ** Values *)

#[local] Set Warnings "-register-all".

Inductive item :=
| IUint (v : Z)
| IBool (b : bool)
| INull
| IInt (value : bytes)
| IOctets (value : bytes)
| IBits (value : bytes) (unused : Z)
| IOid (value : bytes)
| ISeq (l : list item)
| IBitsOf (l : list item)
| ICtx (tag : Z) (it : item).

(** The content of the fields of a value. *)
Fixpoint encode (it : item) : bytes :=
  match it with
  | IUint v => tlv 0x02 (der_integer (rev (ref_le 8 v)))
  | IBool b => tlv 0x01 [if b then 0xFF else 0]
  | INull => tlv 0x05 []
  | IInt value => tlv 0x02 (der_integer value)
  | IOctets value => tlv 0x04 value
  | IBits value unused => tlv 0x03 (der_bits value unused)
  | IOid value => tlv 0x06 value
  | ISeq l => tlv 0x30 (mjoin (encode <$> l))
  | IBitsOf l => tlv 0x03 (der_bits (mjoin (encode <$> l)) 0)
  | ICtx tag it => tlv (0xA0 + tag) (encode it)
  end.

Definition encode_all (l : list item) : bytes := mjoin (encode <$> l).

(** A value is written by the calls a user makes: composites are filled, finished and written. *)
Fixpoint write_item `{Endians} (abc : Asn1Buffer) (it : item) : option Asn1Buffer :=
  let write_all := foldl (fun o it => abc ← o; write_item abc it) in
  match it with
  | IUint v => write_uint abc v
  | IBool b => write_bool abc b
  | INull => write_empty abc Null
  | IInt value => write_bytes abc Integer value 0
  | IOctets value => write_bytes abc OctetString value 0
  | IBits value unused => write_bytes abc BitString value unused
  | IOid value => write_bytes abc Oid value 0
  | ISeq l =>
      let c := new_composite Sequence in
      b ← write_all (Some (ac_base c)) l;
      write_composite abc (mkAsn1Composite (finish b) (ac_tag c) (idx c))
  | IBitsOf l =>
      let c := new_composite BitString in
      b ← write_all (Some (ac_base c)) l;
      write_composite abc (mkAsn1Composite (finish b) (ac_tag c) (idx c))
  | ICtx tag it =>
      let c := new_context tag in
      b ← write_item (ac_base c) it;
      write_composite abc (mkAsn1Composite (finish b) (ac_tag c) (idx c))
  end.

Definition write_items `{Endians} (abc : Asn1Buffer) (l : list item) : option Asn1Buffer :=
  foldl (fun o it => abc ← o; write_item abc it) (Some abc) l.

(** ** Well-formed values *)

Definition is_context (it : item) : bool := match it with ICtx _ _ => true | _ => false end.

(** The composites are not empty, nor is what must not be; a context tag is not followed by one. *)
Fixpoint wf (it : item) : Prop :=
  match it with
  | IUint v => uint_ok 64 v
  | IBool _ | INull => True
  | IInt value | IOid value => bytes_ok value /\ value <> []
  | IOctets value => bytes_ok value
  | IBits value unused => bytes_ok value /\ 0 <= unused < 8 /\ (value = [] -> unused = 0)
  | ISeq l | IBitsOf l => l <> [] /\ foldr (fun it P => wf it /\ P) True l
  | ICtx tag it => 0 <= tag < 16 /\ is_context it = false /\ wf it
  end.

(** Nim's sequences are shorter than this. *)
Definition fits (l : bytes) : Prop := Z.of_nat (length l) < 2 ^ 62.

Section ItemInd.
Variable P : item -> Prop.
Hypothesis Huint : forall v, P (IUint v).
Hypothesis Hbool : forall b, P (IBool b).
Hypothesis Hnull : P INull.
Hypothesis Hint : forall v, P (IInt v).
Hypothesis Hoctets : forall v, P (IOctets v).
Hypothesis Hbits : forall v u, P (IBits v u).
Hypothesis Hoid : forall v, P (IOid v).
Hypothesis Hseq : forall l, Forall P l -> P (ISeq l).
Hypothesis Hbitsof : forall l, Forall P l -> P (IBitsOf l).
Hypothesis Hctx : forall t it, P it -> P (ICtx t it).

Fixpoint item_induction (it : item) : P it :=
  let all := fix all l : Forall P l :=
    match l with
    | [] => @List.Forall_nil item P
    | it :: l => @List.Forall_cons item P it l (item_induction it) (all l)
    end in
  match it with
  | IUint v => Huint v
  | IBool b => Hbool b
  | INull => Hnull
  | IInt v => Hint v
  | IOctets v => Hoctets v
  | IBits v u => Hbits v u
  | IOid v => Hoid v
  | ISeq l => Hseq l (all l)
  | IBitsOf l => Hbitsof l (all l)
  | ICtx t it => Hctx t it (item_induction it)
  end.
End ItemInd.

Lemma wf_all l : foldr (fun it P => wf it /\ P) True l <-> Forall wf l.
Proof. induction l as [|it l IH]; cbn; [by split|]. by rewrite Forall_cons, IH. Qed.

Lemma fits_mono (k l : bytes) : fits l -> (length k <= length l)%nat -> fits k.
Proof. unfold fits. lia. Qed.

Lemma fits_length l : fits l -> 0 <= Z.of_nat (length l) < 2 ^ 64.
Proof. unfold fits. pow2. lia. Qed.

Lemma tlv_length first content :
  length (tlv first content) = S (length (der_length (Z.of_nat (length content))) + length content).
Proof. unfold tlv. cbn [length]. by rewrite length_app. Qed.

Lemma tlv_content first content : (length content < length (tlv first content))%nat.
Proof. rewrite tlv_length. lia. Qed.

(** ** The encoders write the encodings *)

Definition writes (enc : bytes -> option (nat * bytes)) (out : bytes) : Prop :=
  forall dest, enc dest = Some (store dest (length out) out).

Lemma write_with_spec enc out abc : writes enc out -> out <> [] ->
  ab_offset abc = length (ab_buffer abc) ->
  write_with enc abc = Some (mkAsn1Buffer (ab_buffer abc ++ out) (ab_offset abc + length out) (ab_length abc)).
Proof.
  intros Henc Hne Ho. destruct abc as [buf off len]. cbn [ab_buffer ab_offset ab_length] in *. subst off.
  unfold write_with. cbn [ab_buffer ab_offset ab_length]. rewrite Nat.leb_refl, drop_all, firstn_all.
  rewrite Henc. unfold store. cbn [mbind option_bind length].
  destruct (Nat.leb_spec (length out) 0) as [Hl|_]; [by destruct out; cbn in Hl; [|lia]|].
  cbn [mbind option_bind]. rewrite app_nil_r. unfold extend. cbn [ab_buffer ab_offset ab_length].
  rewrite set_len_grow by lia.
  replace (length buf + length out - length buf)%nat with (length out) by lia.
  rewrite length_app, length_replicate.
  destruct (Nat.leb_spec (length buf) (length buf + length out)); [|lia].
  rewrite drop_app_length, Henc. unfold store. rewrite length_replicate, Nat.leb_refl.
  cbn [mbind option_bind ab_buffer ab_offset ab_length]. rewrite take_app_length, blit_prefix.
  rewrite drop_ge by (rewrite length_replicate; lia). by rewrite app_nil_r.
Qed.

Lemma leading_zeros_le v : (leading_zeros v <= length v)%nat.
Proof. induction v as [|b v IH]; cbn; [lia|]. destruct (negb _); lia. Qed.

Lemma integer_writes v : v <> [] -> fits (tlv 0x02 (der_integer v)) ->
  writes (fun dest => asn1EncodeInteger dest v) (tlv 0x02 (der_integer v)).
Proof.
  intros Hv Hf dest. unfold asn1EncodeInteger, der_integer in *. pose proof (leading_zeros_le v) as Hz.
  assert (Hl : (0 < length v)%nat) by (destruct v; [done|cbn; lia]).
  destruct (Nat.ltb_spec 0 (length v)) as [_|]; [|lia].
  set (o := if (leading_zeros v <? length v)%nat then leading_zeros v else (leading_zeros v - 1)%nat) in *.
  assert (Ho : (o < length v)%nat) by (subst o; destruct (Nat.ltb_spec (leading_zeros v) (length v)); lia).
  clearbody o. destruct (lookup_lt_is_Some_2 v o Ho) as [b Hb]. rewrite Hb. cbn [mbind option_bind].
  rewrite <- length_drop. rewrite (drop_S _ _ _ Hb) in *. set (content := drop (S o) v) in *.
  destruct (Z.leb_spec 0x80 b) as [Hb8|Hb8].
  - pose proof (fits_mono _ _ Hf (Nat.lt_le_incl _ _ (tlv_content _ _))) as Hc.
    assert (El : (length (b :: content) + 1)%nat = length (0 :: b :: content)) by (cbn; lia).
    rewrite El, encode_length_spec by (by apply fits_length). do 2 f_equal.
    rewrite tlv_length. cbn [length]. lia.
  - pose proof (fits_mono _ _ Hf (Nat.lt_le_incl _ _ (tlv_content _ _))) as Hc.
    rewrite encode_length_spec by (by apply fits_length). do 2 f_equal.
    rewrite tlv_length. cbn [length]. lia.
Qed.

Lemma octets_writes v : fits (tlv 0x04 v) ->
  writes (fun dest => Some (asn1EncodeOctetString dest v)) (tlv 0x04 v).
Proof.
  intros Hf dest. pose proof (fits_mono _ _ Hf (Nat.lt_le_incl _ _ (tlv_content _ _))) as Hc.
  unfold asn1EncodeOctetString. by rewrite encode_length_spec, tlv_length by (by apply fits_length).
Qed.

Lemma tagged_writes first v : v <> [] -> fits (tlv first v) ->
  writes (fun dest => encode_tagged first dest v) (tlv first v).
Proof.
  intros Hv Hf dest. pose proof (fits_mono _ _ Hf (Nat.lt_le_incl _ _ (tlv_content _ _))) as Hc.
  unfold encode_tagged. rewrite encode_length_spec, tlv_length by (by apply fits_length).
  destruct v as [|b v]; [done|]. by rewrite andb_false_r.
Qed.

(** The bits that are used, when fewer than eight are not. *)
Lemma used_bits n u : 0 <= n -> 0 <= u < 8 -> (n = 0 -> u = 0) ->
  Z.shiftr (8 * n - u + 7) 3 = n /\ Z.land (8 - Z.land (8 * n - u) 7) 7 = u.
Proof.
  intros Hn Hu H0. change 7 with (Z.ones 3) at 2 3. rewrite !Z.land_ones, Z.shiftr_div_pow2 by lia.
  change (2 ^ 3) with 8. Z.div_mod_to_equations. lia.
Qed.

Lemma der_bits_length v u : length (der_bits v u) = S (length v).
Proof.
  unfold der_bits. destruct (last v) as [b|] eqn:E.
  - destruct v as [|x v]; [done|]. cbn [length]. rewrite length_app, length_take. cbn. lia.
  - by apply last_None in E as ->.
Qed.

Lemma insert_last (v : bytes) b x : last v = Some b ->
  <[(length v - 1)%nat := x]> v = take (length v - 1) v ++ [x].
Proof.
  intros Hb. apply last_Some in Hb as [k ->]. rewrite length_app. cbn [length].
  replace (length k + 1 - 1)%nat with (length k) by lia. rewrite take_app_length.
  rewrite insert_app_r_alt by lia. by rewrite Nat.sub_diag.
Qed.

Lemma bits_writes v u : 0 <= u < 8 -> (v = [] -> u = 0) -> fits (tlv 0x03 (der_bits v u)) ->
  writes (fun dest => asn1EncodeBitString dest v u) (tlv 0x03 (der_bits v u)).
Proof.
  intros Hu H0 Hf dest. pose proof (fits_mono _ _ Hf (Nat.lt_le_incl _ _ (tlv_content _ _))) as Hc.
  unfold asn1EncodeBitString.
  destruct (used_bits (Z.of_nat (length v)) u) as [E1 E2]; [lia|lia|by destruct v; [auto|]|].
  assert (Ebl : (if negb (u =? 0) then 8 * Z.of_nat (length v) - u else 8 * Z.of_nat (length v)) =
    8 * Z.of_nat (length v) - u) by (destruct (Z.eqb_spec u 0); cbn; lia).
  rewrite Ebl, E1, E2. destruct (Z.ltb_spec (Z.of_nat (length v) + 1) 0); [lia|].
  replace (Z.of_nat (length v) + 1) with (Z.of_nat (length (der_bits v u)))
    by (rewrite der_bits_length; lia).
  rewrite encode_length_spec by (by apply fits_length). rewrite tlv_length, der_bits_length.
  set (n := length (der_length _)).
  replace (S (n + S (length v))) with (1 + n + 1 + length v)%nat by lia.
  destruct (Nat.leb_spec (1 + n + 1 + length v) (length dest)) as [Hroom|Hroom];
    [|unfold store; by destruct (Nat.leb_spec (1 + n + 1 + length v) (length dest)); [lia|]].
  destruct (Z.ltb_spec 0 (Z.of_nat (length v))) as [Hl|Hl].
  - destruct (last v) as [b|] eqn:E; [|apply last_None in E as ->; cbn in Hl; lia].
    replace (Z.to_nat (Z.of_nat (length v) - 1)) with (length v - 1)%nat by lia.
    assert (El : v !! (length v - 1)%nat = Some b) by (rewrite <- E, last_lookup; by rewrite Nat.sub_1_r).
    rewrite El. cbn [mbind option_bind]. rewrite Nat2Z.id, firstn_all, (insert_last v b) by done.
    unfold tlv. rewrite der_bits_length. unfold der_bits. by rewrite E.
  - destruct v; [|cbn in Hl; lia]. done.
Qed.

(** ** Writing values *)

Definition appends (abc : Asn1Buffer) (out : bytes) : Asn1Buffer :=
  mkAsn1Buffer (ab_buffer abc ++ out) (ab_offset abc + length out) (ab_length abc).

Lemma encode_nonempty it : encode it <> [].
Proof. by destruct it. Qed.

Lemma encode_all_cons it l : encode_all (it :: l) = encode it ++ encode_all l.
Proof. done. Qed.

Lemma encode_all_nonempty l : l <> [] -> encode_all l <> [].
Proof.
  destruct l as [|it l]; [done|]. intros _. rewrite encode_all_cons. intros E.
  apply app_eq_nil in E as [E _]. by apply encode_nonempty in E.
Qed.

Lemma fits_content first content : fits (tlv first content) -> fits content.
Proof. intros Hf. eapply fits_mono; [exact Hf|]. pose proof (tlv_content first content). lia. Qed.

Lemma fits_app_l (k l : bytes) : fits (k ++ l) -> fits k.
Proof. intros Hf. eapply fits_mono; [exact Hf|]. rewrite length_app. lia. Qed.

Lemma fits_app_r (k l : bytes) : fits (k ++ l) -> fits l.
Proof. intros Hf. eapply fits_mono; [exact Hf|]. rewrite length_app. lia. Qed.

Section Write.
Context `{Endians}.

Lemma toBytesBE_ref v : uint_ok 64 v -> toBytesBE 8 v = rev (ref_le 8 v).
Proof.
  intros Hv. rewrite <- (rev_involutive (toBytesBE 8 v)). f_equal. apply le_value_inj.
  - apply Forall_rev, toBytesBE_bytes.
  - apply ref_le_bytes.
  - by rewrite length_rev, toBytesBE_length, ref_le_length.
  - fold (be_value (toBytesBE 8 v)). by rewrite toBytesBE_value, ref_le_value.
Qed.

Lemma uint_writes v : uint_ok 64 v -> fits (encode (IUint v)) ->
  writes (fun dest => asn1EncodeInteger_uint dest v) (encode (IUint v)).
Proof.
  intros Hv Hf dest. unfold asn1EncodeInteger_uint. rewrite toBytesBE_ref by done.
  apply integer_writes; [|exact Hf]. intros E. apply (f_equal length) in E.
  by rewrite length_rev, ref_le_length in E.
Qed.

(** The buffer at hand is written from its end. *)
Definition at_end (abc : Asn1Buffer) : Prop := ab_offset abc = length (ab_buffer abc).

Lemma appends_end abc out : at_end abc -> at_end (appends abc out).
Proof. unfold at_end, appends. cbn. rewrite length_app. lia. Qed.

Definition written (it : item) : Prop :=
  forall abc, wf it -> fits (encode it) -> at_end abc -> write_item abc it = Some (appends abc (encode it)).

Lemma write_all_spec l abc : Forall written l -> Forall wf l -> fits (encode_all l) -> at_end abc ->
  foldl (fun o it => abc ← o; write_item abc it) (Some abc) l = Some (appends abc (encode_all l)).
Proof.
  intros Hl. revert abc. induction Hl as [|it l Hit Hl IH]; intros abc Hw Hf He.
  { cbn. unfold appends. cbn. rewrite app_nil_r, Nat.add_0_r. by destruct abc. }
  apply Forall_cons in Hw as [Hw1 Hw2]. rewrite encode_all_cons in *.
  cbn [foldl mbind option_bind]. rewrite Hit by (done || by eapply fits_app_l).
  rewrite IH; [|done|by eapply fits_app_r|by apply appends_end].
  unfold appends. cbn. by rewrite length_app, (assoc app), Nat.add_assoc.
Qed.

Lemma composite_spec abc c content : content <> [] -> ab_buffer (ac_base c) = content ->
  ab_offset (ac_base c) = 0%nat ->
  write_composite abc c = match ac_tag c with
    | Sequence => write_with (fun dest => asn1EncodeSequence dest content) abc
    | BitString => write_with (fun dest => asn1EncodeBitString dest content 0) abc
    | Context_tag => write_with (fun dest => asn1EncodeContextTag dest content (idx c)) abc
    | _ => Some abc
    end.
Proof.
  intros Hne Hb Ho. unfold write_composite, ab_len. rewrite Hb, Ho.
  destruct (Z.ltb_spec 0 (Z.of_nat (length content) - Z.of_nat 0)) as [|Hl]; [done|].
  destruct content; [done|cbn in Hl; lia].
Qed.

Lemma context_first tag : 0 <= tag < 16 -> Z.lor 0xA0 (Z.land (Z.land tag 0xFF) 0x0F) = 0xA0 + tag.
Proof.
  intros Ht. assert (Hi : In tag (Z.of_nat <$> seq 0 16)).
  { apply List.in_map_iff. exists (Z.to_nat tag). split; [lia|apply in_seq; lia]. }
  clear Ht. revert tag Hi. apply List.Forall_forall. repeat constructor.
Qed.

Lemma appends_empty tag i out : finish (appends (ac_base (mkAsn1Composite (mkAsn1Buffer [] 0 0) tag i)) out) =
  mkAsn1Buffer out 0 0.
Proof. done. Qed.

Lemma write_item_spec it : written it.
Proof.
  induction it as [v|b| |v|v|v u|v|l IH|l IH|t it IH] using item_induction; intros abc Hw Hf He; cbn [wf] in Hw.
  - apply write_with_spec; [by apply uint_writes|done|exact He].
  - apply write_with_spec; [by intros dest|done|exact He].
  - apply (write_with_spec _ [5; 0]); [by intros dest|done|exact He].
  - apply write_with_spec; [apply integer_writes; [apply Hw|exact Hf]|done|exact He].
  - apply write_with_spec; [by apply octets_writes|done|exact He].
  - apply write_with_spec; [apply bits_writes; [apply Hw|apply Hw|exact Hf]|done|exact He].
  - apply write_with_spec; [apply tagged_writes; [apply Hw|exact Hf]|done|exact He].
  - destruct Hw as [Hne Hw%wf_all]. cbn [encode] in *. fold (encode_all l) in *.
    pose proof (fits_content _ _ Hf) as Hc. pose proof (encode_all_nonempty l Hne) as Hn.
    cbn [write_item new_composite ac_base]. rewrite (write_all_spec l) by done. cbn [mbind option_bind].
    rewrite (composite_spec _ _ (encode_all l)) by done.
    apply write_with_spec; [by apply tagged_writes|done|exact He].
  - destruct Hw as [Hne Hw%wf_all]. cbn [encode] in *. fold (encode_all l) in *.
    assert (Hc : fits (encode_all l)).
    { eapply fits_mono; [exact (fits_content _ _ Hf)|]. rewrite der_bits_length. lia. }
    pose proof (encode_all_nonempty l Hne) as Hn.
    cbn [write_item new_composite ac_base]. rewrite (write_all_spec l) by done. cbn [mbind option_bind].
    rewrite (composite_spec _ _ (encode_all l)) by done.
    apply write_with_spec; [apply bits_writes; [lia|done|exact Hf]|done|exact He].
  - destruct Hw as (Ht & _ & Hw). cbn [encode] in *. pose proof (fits_content _ _ Hf) as Hc.
    cbn [write_item new_context ac_base]. rewrite IH by done. cbn [mbind option_bind].
    rewrite (composite_spec _ _ (encode it)) by (done || apply encode_nonempty). cbn [ac_tag idx].
    apply write_with_spec; [|done|exact He]. unfold asn1EncodeContextTag. rewrite context_first by done.
    apply tagged_writes; [apply encode_nonempty|exact Hf].
Qed.

Lemma write_items_spec l abc : Forall wf l -> fits (encode_all l) -> at_end abc ->
  write_items abc l = Some (appends abc (encode_all l)).
Proof.
  intros Hw Hf He. apply write_all_spec; [|done|done|done]. apply Forall_forall. intros it _.
  apply write_item_spec.
Qed.

End Write.

(** ** Reading *)

(** What is left to read. *)
Definition front (ab : Asn1Buffer) : bytes := drop (ab_offset ab) (ab_buffer ab).

Definition jump (ab : Asn1Buffer) (n : nat) : Asn1Buffer :=
  mkAsn1Buffer (ab_buffer ab) (ab_offset ab + n) (ab_length ab).

Lemma front_jump ab n : front (jump ab n) = drop n (front ab).
Proof. unfold front, jump. cbn. by rewrite drop_drop. Qed.

Lemma front_app ab (k post : bytes) : front ab = k ++ post -> front (jump ab (length k)) = post.
Proof. intros E. rewrite front_jump, E. apply drop_app_length. Qed.

Lemma jump_jump ab n m : jump (jump ab n) m = jump ab (n + m).
Proof. unfold jump. cbn. by rewrite Nat.add_assoc. Qed.

Lemma jump_0 ab : jump ab 0 = ab.
Proof. unfold jump. rewrite Nat.add_0_r. by destruct ab. Qed.

Lemma bind_Ok {A B} (m : asn1_m A) (f : A -> asn1_m B) ab a ab' :
  m ab = Some (Ok a, ab') -> (m ≫= f) ab = f a ab'.
Proof. intros E. unfold mbind, asn1_bind. by rewrite E. Qed.

Lemma byte_at_spec ab i b : front ab !! i = Some b -> byte_at i ab = Some (Ok b, ab).
Proof. unfold front, byte_at. rewrite lookup_drop. by intros ->. Qed.

Lemma front_not_empty ab b l : front ab = b :: l -> isEmpty ab = false.
Proof.
  intros E. unfold isEmpty. apply Nat.leb_gt. apply (f_equal length) in E. unfold front in E.
  rewrite length_drop in E. cbn in E. lia.
Qed.

Lemma front_length ab : (length (front ab) <= length (ab_buffer ab))%nat.
Proof. unfold front. rewrite length_drop. lia. Qed.

(** There is room for what is there. *)
Lemma enough_spec ab k post : front ab = k ++ post -> fits (ab_buffer ab) -> k <> [] ->
  enough (Z.of_nat (length k)) ab = Some (Ok true, ab).
Proof.
  intros E Hf Hk. unfold enough, isEnough. apply (f_equal length) in E. unfold front in E.
  rewrite length_drop, length_app in E. unfold fits in Hf. assert (length k <> 0)%nat by (by destruct k).
  destruct (Z.ltb_spec (Z.of_nat (ab_offset ab) + Z.of_nat (length k)) (2 ^ 63)) as [_|Hb];
    [|revert Hb Hf; pow2; lia].
  cbn [mbind option_bind].
  by destruct (Z.leb_spec (Z.of_nat (ab_offset ab) + Z.of_nat (length k)) (Z.of_nat (length (ab_buffer ab)))); [|lia].
Qed.

Lemma big_endian_spec n i v l ab : take n (drop i (front ab)) = l -> length l = n ->
  big_endian n i v ab = Some (Ok (foldl shl_or v l), ab).
Proof.
  revert i v l. induction n as [|n IH]; intros i v l E Hl; [by destruct l|].
  destruct (drop i (front ab)) as [|b r] eqn:Ed; cbn [take] in E; subst l; [done|].
  cbn [length] in Hl. injection Hl as Hl.
  assert (Eb : front ab !! i = Some b) by (rewrite <- (Nat.add_0_r i), <- lookup_drop, Ed; done).
  cbn [big_endian foldl]. rewrite (bind_Ok _ _ ab b ab) by (by apply byte_at_spec).
  apply IH; [|exact Hl]. by rewrite (drop_S _ _ _ Eb) in Ed; injection Ed as ->.
Qed.

Lemma shl_or_value l v : bytes_ok l -> 0 <= v -> v < 2 ^ (64 - 8 * Z.of_nat (length l)) ->
  (length l <= 8)%nat -> foldl shl_or v l = v * 2 ^ (8 * Z.of_nat (length l)) + be_value l.
Proof.
  intros Hl. revert v. induction Hl as [|b l Hb Hl IH]; intros v Hv Hm Hle.
  { cbn. lia. }
  cbn [foldl length] in *. rewrite be_value_cons. unfold byte_ok in Hb.
  replace (8 * Z.of_nat (S (length l))) with (8 * Z.of_nat (length l) + 8) in * by lia.
  assert (Hm' : v * 256 + 256 <= 2 ^ (64 - 8 * Z.of_nat (length l))).
  { replace (64 - 8 * Z.of_nat (length l)) with (64 - (8 * Z.of_nat (length l) + 8) + 8) by lia.
    rewrite (Z.pow_add_r 2 _ 8) by lia. change (2 ^ 8) with 256. lia. }
  assert (Htop : 2 ^ (64 - 8 * Z.of_nat (length l)) <= 2 ^ 64) by (apply Z.pow_le_mono_r; lia).
  assert (E : shl_or v b = v * 256 + b).
  { unfold shl_or, wrap. rewrite Z.shiftl_mul_pow2 by lia. change (2 ^ 8) with 256.
    rewrite Z.mod_small by (revert Hm' Htop; pow2; lia).
    rewrite Z.lor_comm. change 256 with (2 ^ 8) at 1. rewrite <- Z.shiftl_mul_pow2 by lia.
    rewrite lor_shiftl by (change (2 ^ 8) with 256; lia). change (2 ^ 8) with 256. lia. }
  rewrite E, IH by lia. rewrite Z.pow_add_r by lia. change (2 ^ 8) with 256. ring.
Qed.

Lemma big_endian_value l i ab : take (length l) (drop i (front ab)) = l -> bytes_ok l ->
  (length l <= 8)%nat -> big_endian (length l) i 0 ab = Some (Ok (be_value l), ab).
Proof.
  intros E Hl Hn. rewrite (big_endian_spec _ _ _ l) by done. rewrite shl_or_value; [done|done|lia| |done].
  apply Z.pow_pos_nonneg; lia.
Qed.

Lemma top_bit_test b : byte_ok b -> (Z.land b 0x80 =? 0) = (b <? 128) /\ (Z.land b 0x80 =? 0x80) = (128 <=? b).
Proof.
  intros Hb. pose proof (byte_forall (fun b => Bool.eqb (Z.land b 0x80 =? 0) (b <? 128) &&
    Bool.eqb (Z.land b 0x80 =? 0x80) (128 <=? b)) b eq_refl Hb) as H.
  apply andb_true_iff in H as [H1%eqb_prop H2%eqb_prop]. done.
Qed.

Lemma getLength_spec ab n post : front ab = der_length n ++ post -> 0 <= n < 2 ^ 63 ->
  fits (ab_buffer ab) -> getLength ab = Some (Ok n, jump ab (length (der_length n))).
Proof.
  intros E Hn Hf. unfold getLength. rewrite (bind_Ok _ _ ab ab ab) by done.
  unfold der_length in *. destruct (Z.ltb_spec n 128) as [Hs|Hs].
  - rewrite (front_not_empty _ _ _ E). cbn [negb].
    rewrite (bind_Ok _ _ ab n ab) by (apply byte_at_spec; by rewrite E).
    rewrite (proj1 (top_bit_test n ltac:(unfold byte_ok; lia))).
    by destruct (Z.ltb_spec n 128); [|lia].
  - rewrite (front_not_empty _ _ _ E). cbn [negb].
    destruct (octets_spec n) as [Ho Hlt]; [revert Hn; pow2; lia|].
    set (k := octets n) in *.
    rewrite (bind_Ok _ _ ab (128 + Z.of_nat k) ab) by (apply byte_at_spec; by rewrite E).
    assert (Hk : Z.land (128 + Z.of_nat k) 0x7F = Z.of_nat k).
    { change 0x7F with (Z.ones 7). rewrite Z.land_ones by lia. change (2 ^ 7) with 128.
      Z.div_mod_to_equations. lia. }
    rewrite (proj1 (top_bit_test (128 + Z.of_nat k) ltac:(unfold byte_ok; lia))), Hk.
    destruct (Z.ltb_spec (128 + Z.of_nat k) 128); [lia|].
    destruct (Z.eqb_spec (128 + Z.of_nat k) 0x80); [lia|].
    destruct (Z.eqb_spec (128 + Z.of_nat k) 0xFF); [lia|].
    destruct (Z.ltb_spec 8 (Z.of_nat k)); [lia|].
    assert (El : Z.of_nat k + 1 = Z.of_nat (length ((128 + Z.of_nat k) :: octet_list n k)))
      by (cbn [length]; rewrite octet_list_length; lia).
    rewrite El, (bind_Ok _ _ ab true ab) by (by apply (enough_spec _ _ post)).
    rewrite Nat2Z.id.
    assert (Ev : be_value (octet_list n k) = n) by (rewrite octet_list_value, Z.mod_small; lia).
    assert (Ebe : big_endian k 1 0 ab = Some (Ok n, ab)).
    { pose proof (big_endian_value (octet_list n k) 1 ab) as Hb.
      rewrite octet_list_length, Ev in Hb. apply Hb; [|apply octet_list_bytes|lia].
      rewrite E. cbn [app]. rewrite skipn_cons, drop_0. apply take_app_length'.
      by rewrite octet_list_length. }
    rewrite (bind_Ok _ _ ab n ab) by exact Ebe.
    destruct (Z.ltb_spec (2 ^ 63 - 1) n); [lia|]. cbn [length]. rewrite octet_list_length.
    unfold jump. by rewrite Nat.add_1_r.
Qed.

Lemma getTag_spec ab b post : front ab = b :: post -> byte_ok b ->
  getTag ab = Some (Ok (Z.land b 0x3F, class_of (b / 64)), jump ab 1).
Proof.
  intros E Hb. unfold getTag. rewrite (bind_Ok _ _ ab ab ab) by done.
  rewrite (front_not_empty _ _ _ E). cbn [negb].
  rewrite (bind_Ok _ _ ab b ab) by (apply byte_at_spec; by rewrite E).
  rewrite (bind_Ok _ _ ab tt (jump ab 1)) by done.
  pose proof (byte_forall (fun b => Z.shiftr (Z.land b 0xC0) 6 =? b / 64) b eq_refl Hb) as Hc.
  apply Z.eqb_eq in Hc. rewrite Hc. unfold byte_ok in Hb.
  assert (Hq : 0 <= b / 64 < 4) by (Z.div_mod_to_equations; lia).
  destruct (Z.leb_spec 0 (b / 64)), (Z.ltb_spec (b / 64) 4); lia || done.
Qed.

(** ** What the fields say *)

Definition item_index (it : item) : Z := match it with ICtx tag _ => 0x20 + tag | _ => 0 end.

(** The field that is read for a value: its kind, its content, and for a composite the fields
that are read from [getBuffer], up to the end of the content. *)
Fixpoint denotes (it : item) (f : Asn1Field) : Prop :=
  let reads_all := fix reads_all (l : list item) (ab ab' : Asn1Buffer) : Prop :=
    match l with
    | [] => ab' = ab
    | it :: l => exists f ab1, read ab = Some (Ok f, ab1) /\ index f = item_index it /\
        denotes it f /\ reads_all l ab1 ab'
    end in
  match it with
  | IUint v => kind f = Integer /\ value f = VInt v
  | IBool b => kind f = Boolean /\ value f = VBool b
  | INull => kind f = Null
  | IInt v => kind f = Integer /\ be_value (af_bytes f) = be_value v /\
      (be_value v < 2 ^ 64 -> value f = VInt (be_value v))
  | IOctets v => kind f = OctetString /\ af_bytes f = v
  | IBits v u => kind f = BitString /\ af_bytes f = tail (der_bits v u) /\ value f = VBits u
  | IOid v => kind f = Oid /\ af_bytes f = v
  | ISeq l => kind f = Sequence /\ af_bytes f = encode_all l /\
      exists ab', reads_all l (getBuffer f) ab' /\ ab_offset ab' = (af_offset f + Z.to_nat (af_length f))%nat
  | IBitsOf l => kind f = BitString /\ af_bytes f = encode_all l /\
      exists ab', reads_all l (getBuffer f) ab' /\ ab_offset ab' = (af_offset f + Z.to_nat (af_length f))%nat
  | ICtx _ it => denotes it f
  end.

(** A sequence of reads. *)
Fixpoint reads (l : list item) (ab ab' : Asn1Buffer) : Prop :=
  match l with
  | [] => ab' = ab
  | it :: l => exists f ab1, read ab = Some (Ok f, ab1) /\ index f = item_index it /\
      denotes it f /\ reads l ab1 ab'
  end.

Lemma field_at_spec ab skip len ttag k v : field_at skip len ttag k v ab =
  Some (Ok (mkAsn1Field Universal ttag (ab_offset ab + skip) len (ab_buffer ab) k v), ab).
Proof. done. Qed.

Lemma advance_spec ab n : advance n ab = Some (Ok tt, jump ab n).
Proof. done. Qed.

Lemma af_bytes_spec ab skip n ttag k v l post : drop skip (front ab) = l ++ post -> length l = n ->
  af_bytes (mkAsn1Field Universal ttag (ab_offset ab + skip) (Z.of_nat n) (ab_buffer ab) k v) = l.
Proof.
  intros E Hl. unfold af_bytes. cbn [af_length af_offset af_buffer]. rewrite Nat2Z.id.
  rewrite <- drop_drop. fold (front ab). rewrite E, <- Hl. apply take_app_length.
Qed.

(** What reading the content of a value of [kind] gives. *)
Definition content_read (tag : Z) (content : bytes) (P : Asn1Field -> Prop) : Prop :=
  forall ab post ttag, front ab = content ++ post -> fits (ab_buffer ab) ->
  (ab_offset ab <= length (ab_buffer ab))%nat ->
  exists f, read_universal tag (Z.of_nat (length content)) ttag ab = Some (Ok f, jump ab (length content)) /\
    index f = ttag /\ P f.

Lemma boolean_read b : content_read 1 [if b : bool then 0xFF else 0]
  (fun f => kind f = Boolean /\ value f = VBool b).
Proof.
  intros ab post ttag E Hf _. unfold read_universal. cbn [Z.eqb code Pos.eqb]. unfold read_boolean.
  cbn [length negb]. change (Z.of_nat 1 =? 1) with true. cbn [negb].
  rewrite (bind_Ok _ _ ab true ab) by (by apply (enough_spec _ _ _ E)). cbn [negb].
  rewrite (bind_Ok _ _ ab (if b then 0xFF else 0) ab) by (apply byte_at_spec; by rewrite E).
  destruct b; cbn [Z.eqb Pos.eqb negb andb]; eexists; by split_and!.
Qed.

Lemma null_read : content_read 5 [] (fun f => kind f = Null).
Proof.
  intros ab post ttag E Hf Ho. exists (mkAsn1Field Universal ttag (ab_offset ab + 0) 0 (ab_buffer ab) Null VNone).
  split; [|done]. change (length (@nil Z)) with 0%nat. by rewrite jump_0.
Qed.

(** The kinds of [read_content]. *)
Lemma enough_any ab k post : front ab = k ++ post -> fits (ab_buffer ab) -> k = [] ->
  (ab_offset ab <= length (ab_buffer ab))%nat -> enough 0 ab = Some (Ok true, ab).
Proof.
  intros E Hf Hk Ho. unfold enough, isEnough, fits in *. rewrite Z.add_0_r.
  destruct (Z.ltb_spec (Z.of_nat (ab_offset ab)) (2 ^ 63)) as [_|Hb]; [|revert Hb Hf; pow2; lia].
  cbn [mbind option_bind].
  by destruct (Z.leb_spec (Z.of_nat (ab_offset ab)) (Z.of_nat (length (ab_buffer ab)))); [|lia].
Qed.

Lemma content_kind_read (k : Asn1Tag) content ab post ttag : front ab = content ++ post ->
  fits (ab_buffer ab) -> (ab_offset ab <= length (ab_buffer ab))%nat ->
  exists f, read_content k (Z.of_nat (length content)) ttag ab = Some (Ok f, jump ab (length content)) /\
    index f = ttag /\ kind f = k /\ af_bytes f = content /\ getBuffer f = mkAsn1Buffer (ab_buffer ab)
      (ab_offset ab) (Z.of_nat (length content)).
Proof.
  intros E Hf Ho. unfold read_content.
  assert (He : enough (Z.of_nat (length content)) ab = Some (Ok true, ab)).
  { destruct content as [|b c]; [by eapply enough_any|]. by eapply enough_spec. }
  rewrite (bind_Ok _ _ ab true ab) by exact He. cbn [negb].
  rewrite (bind_Ok _ _ ab _ ab) by (apply field_at_spec).
  rewrite (bind_Ok _ _ ab tt _) by (apply advance_spec). rewrite Nat2Z.id.
  eexists. split; [done|]. split; [done|]. split; [done|]. split.
  - apply (af_bytes_spec ab 0 (length content) ttag k VNone content post); [by rewrite drop_0|done].
  - unfold getBuffer. cbn. by rewrite Nat.add_0_r.
Qed.

(** ** Integers *)

(** No zero in front, but for the number zero. *)
Lemma leading_zeros_value v : be_value (drop (leading_zeros v) v) = be_value v.
Proof.
  induction v as [|b v IH]; [done|]. cbn [leading_zeros].
  destruct (Z.eqb_spec b 0) as [->|Hb]; cbn [negb drop]; [|done]. rewrite IH, be_value_cons. lia.
Qed.

Lemma leading_zeros_head v : (leading_zeros v < length v)%nat ->
  exists b r, drop (leading_zeros v) v = b :: r /\ b <> 0.
Proof.
  induction v as [|b v IH]; cbn [leading_zeros length]; [lia|].
  destruct (Z.eqb_spec b 0) as [->|Hb]; cbn [negb drop]; [intros Hl; apply IH; lia|].
  intros _. by exists b, v.
Qed.

Lemma leading_zeros_all v : v <> [] -> leading_zeros v = length v ->
  drop (leading_zeros v - 1) v = [0] /\ be_value v = 0.
Proof.
  induction v as [|b v IH]; [done|]. cbn [leading_zeros length]. intros _.
  destruct (Z.eqb_spec b 0) as [->|Hb]; cbn [negb]; [|done]. intros [= Hl].
  rewrite be_value_cons. destruct v as [|c v]; [done|]. destruct (IH ltac:(done) Hl) as [E1 E2].
  rewrite E2. split; [|lia]. rewrite Hl in *. cbn [length] in *. cbn [Nat.sub] in *.
  rewrite Nat.sub_0_r in E1. exact E1.
Qed.

(** The content of an integer is the number, and a zero in front of a first byte that is 128 or
more. *)
Lemma der_integer_cases v : bytes_ok v -> v <> [] ->
  exists s, bytes_ok s /\ be_value s = be_value v /\ (
    (exists b r, s = b :: r /\ 128 <= b /\ der_integer v = 0 :: s) \/
    (exists b r, s = b :: r /\ 0 < b < 128 /\ der_integer v = s) \/
    (s = [0] /\ der_integer v = s)).
Proof.
  intros Hv Hne. unfold der_integer.
  destruct (Nat.ltb_spec (leading_zeros v) (length v)) as [Hl|Hl].
  - destruct (leading_zeros_head v Hl) as (b & r & E & Hb). exists (drop (leading_zeros v) v).
    assert (Hs : bytes_ok (drop (leading_zeros v) v)) by (by apply Forall_drop).
    split; [done|]. split; [apply leading_zeros_value|]. rewrite E in *.
    assert (Hbb : byte_ok b) by (by inversion Hs). unfold byte_ok in Hbb.
    destruct (Z.leb_spec 0x80 b); [left|right; left]; exists b, r; split_and!; lia || done.
  - assert (El : leading_zeros v = length v) by (pose proof (leading_zeros_le v); lia).
    destruct (leading_zeros_all v Hne El) as [E1 E2]. exists [0]. rewrite E1, E2.
    split; [by repeat constructor|]. split; [done|]. right. right. done.
Qed.

Lemma value_small s : bytes_ok s -> be_value s < 2 ^ 64 -> forall b r, s = b :: r -> 0 < b -> (length s <= 8)%nat.
Proof.
  intros Hs Hv b r -> Hb. rewrite be_value_cons in Hv. apply Forall_cons in Hs as [_ Hr].
  pose proof (be_value_bound r Hr) as Hb'. cbn [length].
  destruct (Nat.le_gt_cases (S (length r)) 8) as [|Hgt]; [done|]. exfalso.
  assert (2 ^ 64 <= 2 ^ (8 * Z.of_nat (length r))) by (apply Z.pow_le_mono_r; lia). nia.
Qed.

Definition integer_field (v : bytes) (f : Asn1Field) : Prop :=
  kind f = Integer /\ be_value (af_bytes f) = be_value v /\
  (be_value v < 2 ^ 64 -> value f = VInt (be_value v)).

(** The [uint64] of the field, when it fits. *)
Lemma vint_spec (test : bool) s i b r ab post : drop i (front ab) = s ++ post -> bytes_ok s ->
  s = b :: r -> 0 < b -> test = (length s <=? 8)%nat ->
  exists vint, (if test then big_endian (length s) i 0 else mret 0) ab = Some (Ok vint, ab) /\
    (be_value s < 2 ^ 64 -> vint = be_value s).
Proof.
  intros E Hs Es Hb ->. destruct (Nat.leb_spec (length s) 8) as [Hle|Hgt].
  - exists (be_value s). split; [|done]. apply big_endian_value; [|done|lia].
    rewrite E. apply take_app_length.
  - exists 0. split; [done|]. intros Hsm. pose proof (value_small s Hs Hsm b r Es Hb). lia.
Qed.

(** What follows the count of the zeroes. *)
Lemma read_integer_start c ab post : front ab = c ++ post -> c <> [] -> fits (ab_buffer ab) ->
  (Z.of_nat (length c) =? 0) = false /\ enough (Z.of_nat (length c)) ab = Some (Ok true, ab).
Proof.
  intros E Hc Hf. split; [|by apply (enough_spec _ _ _ E)]. apply Z.eqb_neq. destruct c; [done|cbn; lia].
Qed.

Lemma padded_read s b r ab post ttag : front ab = 0 :: s ++ post -> bytes_ok s -> s = b :: r ->
  128 <= b -> fits (ab_buffer ab) -> exists f,
  read_integer (Z.of_nat (length (0 :: s))) ttag ab = Some (Ok f, jump ab (length (0 :: s))) /\
  index f = ttag /\ integer_field s f.
Proof.
  intros E Hs Es Hb Hf. destruct (read_integer_start (0 :: s) ab post) as [E0 E1]; [done..|].
  unfold read_integer. rewrite E0, (bind_Ok _ _ ab true ab) by exact E1. cbn [negb]. rewrite Nat2Z.id.
  assert (Ez : count_zeroes (length (0 :: s)) 0 ab = Some (Ok 1%nat, ab)).
  { cbn [length count_zeroes]. rewrite (bind_Ok _ _ ab 0 ab) by (apply byte_at_spec; by rewrite E).
    cbn [Z.eqb]. rewrite Es. cbn [length count_zeroes].
    rewrite (bind_Ok _ _ ab b ab) by (apply byte_at_spec; by rewrite E, Es).
    by destruct (Z.eqb_spec b 0); [lia|]. }
  rewrite (bind_Ok _ _ ab _ ab) by exact Ez. cbn [Nat.ltb Nat.leb Nat.eqb length].
  destruct (Z.eqb_spec (Z.of_nat (S (length s))) 1); [rewrite Es in *; cbn in *; lia|].
  replace (S (length s) - 1)%nat with (length s) by lia.
  destruct (vint_spec (Z.of_nat (S (length s)) <=? 9) s 1 b r ab post) as (vint & Ebe & Hvint);
    [by rewrite E|done|done|lia|destruct (Z.leb_spec (Z.of_nat (S (length s))) 9),
      (Nat.leb_spec (length s) 8); lia || done|].
  rewrite (bind_Ok _ _ ab vint ab) by exact Ebe.
  rewrite (bind_Ok _ _ ab _ ab) by (apply field_at_spec).
  rewrite (bind_Ok _ _ ab tt _) by (apply advance_spec).
  eexists. split; [done|]. split; [done|]. split; [done|]. split; [|intros Hsm; cbn; by rewrite Hvint].
  replace (Z.of_nat (S (length s)) - 1) with (Z.of_nat (length s)) by lia.
  by rewrite (af_bytes_spec ab 1 (length s) ttag Integer _ s post) by (by rewrite ?E).
Qed.

Lemma positive_read s b r ab post ttag : front ab = s ++ post -> bytes_ok s -> s = b :: r ->
  0 < b < 128 -> fits (ab_buffer ab) -> exists f,
  read_integer (Z.of_nat (length s)) ttag ab = Some (Ok f, jump ab (length s)) /\
  index f = ttag /\ integer_field s f.
Proof.
  intros E Hs Es Hb Hf. destruct (read_integer_start s ab post) as [E0 E1]; [done|by rewrite Es|done|].
  unfold read_integer. rewrite E0, (bind_Ok _ _ ab true ab) by exact E1. cbn [negb]. rewrite Nat2Z.id.
  assert (Eb : byte_at 0 ab = Some (Ok b, ab)) by (apply byte_at_spec; by rewrite E, Es).
  assert (Ez : count_zeroes (length s) 0 ab = Some (Ok 0%nat, ab)).
  { rewrite Es. cbn [length count_zeroes]. rewrite (bind_Ok _ _ ab b ab) by exact Eb.
    by destruct (Z.eqb_spec b 0); [lia|]. }
  rewrite (bind_Ok _ _ ab _ ab) by exact Ez. cbn [Nat.ltb Nat.leb Nat.eqb].
  rewrite (bind_Ok _ _ ab b ab) by exact Eb.
  rewrite (proj2 (top_bit_test b ltac:(unfold byte_ok; lia))). destruct (Z.leb_spec 128 b); [lia|].
  destruct (vint_spec (Z.of_nat (length s) <=? 8) s 0 b r ab post) as (vint & Ebe & Hvint);
    [by rewrite drop_0|done|done|lia|destruct (Z.leb_spec (Z.of_nat (length s)) 8),
      (Nat.leb_spec (length s) 8); lia || done|].
  rewrite (bind_Ok _ _ ab vint ab) by exact Ebe.
  rewrite (bind_Ok _ _ ab _ ab) by (apply field_at_spec).
  rewrite (bind_Ok _ _ ab tt _) by (apply advance_spec).
  eexists. split; [done|]. split; [done|]. split; [done|]. split; [|intros Hsm; cbn; by rewrite Hvint].
  by rewrite (af_bytes_spec ab 0 (length s) ttag Integer _ s post) by (by rewrite ?drop_0).
Qed.

Lemma zero_read ab post ttag : front ab = 0 :: post -> fits (ab_buffer ab) -> exists f,
  read_integer 1 ttag ab = Some (Ok f, jump ab 1) /\ index f = ttag /\ integer_field [0] f.
Proof.
  intros E Hf. destruct (read_integer_start [0] ab post) as [E0 E1]; [done..|].
  change (Z.of_nat (length [0])) with 1 in *. unfold read_integer.
  rewrite E0, (bind_Ok _ _ ab true ab) by exact E1. cbn [negb].
  change (Z.to_nat 1) with 1%nat. assert (Ez : count_zeroes 1 0 ab = Some (Ok 1%nat, ab)).
  { cbn [count_zeroes]. by rewrite (bind_Ok _ _ ab 0 ab) by (apply byte_at_spec; by rewrite E). }
  rewrite (bind_Ok _ _ ab _ ab) by exact Ez. cbn [Nat.ltb Nat.leb Nat.eqb Z.eqb Pos.eqb].
  rewrite (bind_Ok _ _ ab _ ab) by (apply field_at_spec).
  rewrite (bind_Ok _ _ ab tt _) by (apply advance_spec).
  eexists. split; [done|]. split; [done|]. split; [done|]. split; [|done].
  by rewrite (af_bytes_spec ab 0 1 ttag Integer _ [0] post) by (by rewrite ?drop_0).
Qed.

Lemma integer_read v : bytes_ok v -> v <> [] -> content_read 2 (der_integer v) (integer_field v).
Proof.
  intros Hv Hne ab post ttag E Hf _. change (read_universal 2) with read_integer.
  destruct (der_integer_cases v Hv Hne) as (s & Hs & Ev & Hcase). unfold integer_field. rewrite <- Ev.
  destruct Hcase as [(b & r & Es & Hb & Ec)|[(b & r & Es & Hb & Ec)|[Es Ec]]]; rewrite Ec in *.
  - exact (padded_read s b r ab post ttag E Hs Es Hb Hf).
  - exact (positive_read s b r ab post ttag E Hs Es Hb Hf).
  - subst s. exact (zero_read ab post ttag E Hf).
Qed.

(** ** Bit strings *)

Lemma unused_mask u b : 0 <= u < 8 -> Z.land (Z.land b (Z.lxor 0xFF (Z.shiftl 1 u - 1))) (Z.shiftl 1 u - 1) = 0.
Proof.
  intros Hu. rewrite <- Z.land_assoc. assert (Hi : In u (Z.of_nat <$> seq 0 8)).
  { apply List.in_map_iff. exists (Z.to_nat u). split; [lia|apply in_seq; lia]. }
  assert (E : Z.land (Z.lxor 0xFF (Z.shiftl 1 u - 1)) (Z.shiftl 1 u - 1) = 0);
    [|by rewrite E, Z.land_0_r].
  clear Hu. revert u Hi. apply List.Forall_forall. repeat constructor.
Qed.

Lemma bits_read v u ab post ttag : 0 <= u < 8 -> (v = [] -> u = 0) ->
  front ab = der_bits v u ++ post -> fits (ab_buffer ab) ->
  exists f, read_universal 3 (Z.of_nat (length (der_bits v u))) ttag ab =
      Some (Ok f, jump ab (length (der_bits v u))) /\ index f = ttag /\
    kind f = BitString /\ af_bytes f = tail (der_bits v u) /\ value f = VBits u /\
    getBuffer f = mkAsn1Buffer (ab_buffer ab) (ab_offset ab + 1) (Z.of_nat (length v)).
Proof.
  intros Hu H0 E Hf. change (read_universal 3) with read_bitstring. unfold read_bitstring.
  pose proof (der_bits_length v u) as Hl. rewrite Hl.
  destruct (Z.eqb_spec (Z.of_nat (S (length v))) 0); [lia|].
  unfold der_bits in E, Hl |- *. destruct (last v) as [b|] eqn:Elast.
  2:{ apply last_None in Elast. rewrite H0 in * by done. subst v. cbn [length].
      change (Z.of_nat 1 =? 1) with true. cbn [tail].
      rewrite (bind_Ok _ _ ab 0 ab) by (apply byte_at_spec; by rewrite E). cbn [Z.eqb negb].
      rewrite (bind_Ok _ _ ab _ ab) by (apply field_at_spec).
      rewrite (bind_Ok _ _ ab tt _) by (apply advance_spec).
      eexists. split; [done|]. by split_and!. }
  destruct (Z.eqb_spec (Z.of_nat (S (length v))) 1) as [E1|_]; [destruct v; [done|cbn in E1; lia]|].
  set (last_b := Z.land b (Z.lxor 0xFF (Z.shiftl 1 u - 1))) in *.
  set (c := take (length v - 1) v ++ [last_b]) in *.
  cbn [length] in Hl. injection Hl as Hl.
  rewrite <- Hl. change (S (length c)) with (length (u :: c)).
  rewrite (bind_Ok _ _ ab true ab) by (by apply (enough_spec _ _ _ E)). cbn [negb]. rewrite Nat2Z.id.
  rewrite (bind_Ok _ _ ab u ab) by (apply byte_at_spec; by rewrite E).
  destruct (Z.ltb_spec 7 u); [lia|].
  rewrite (bind_Ok _ _ ab last_b ab).
  2:{ apply byte_at_spec. rewrite E. cbn [length]. replace (S (length c) - 1)%nat with (length c) by lia.
      change ((u :: c) ++ post) with ((u :: take (length v - 1) v ++ [last_b]) ++ post).
      rewrite lookup_app_l by (cbn [length]; fold c; lia).
      change (u :: take (length v - 1) v ++ [last_b]) with ((u :: take (length v - 1) v) ++ [last_b]).
      apply list_lookup_middle. unfold c. rewrite length_app. cbn. lia. }
  unfold last_b at 1. rewrite unused_mask by done. cbn [Z.eqb negb].
  rewrite (bind_Ok _ _ ab _ ab) by (apply field_at_spec).
  rewrite (bind_Ok _ _ ab tt _) by (apply advance_spec).
  eexists. split; [done|]. split; [done|]. split; [done|].
  replace (Z.of_nat (length (u :: c)) - 1) with (Z.of_nat (length c)) by (cbn; lia).
  split; [|split; [done|]].
  - by rewrite (af_bytes_spec ab 1 (length c) ttag BitString _ c post) by (by rewrite ?E).
  - done.
Qed.

(** ** The bytes of an encoding *)

Lemma der_length_bytes n : 0 <= n < 2 ^ 64 -> bytes_ok (der_length n).
Proof.
  intros Hn. unfold der_length. destruct (Z.ltb_spec n 128) as [H|H].
  - apply Forall_singleton. unfold byte_ok. lia.
  - pose proof (octets_spec n ltac:(lia)) as [Ho _]. constructor; [unfold byte_ok; lia|].
    apply octet_list_bytes.
Qed.

Lemma tlv_bytes first content : byte_ok first -> bytes_ok content -> fits content ->
  bytes_ok (tlv first content).
Proof.
  intros Hb Hc Hf. constructor; [done|]. apply Forall_app. split; [|done].
  by apply der_length_bytes, fits_length.
Qed.

Lemma land_byte b m : byte_ok b -> 0 <= m -> byte_ok (Z.land b m).
Proof.
  unfold byte_ok. intros Hb Hm. split; [apply Z.land_nonneg; lia|].
  pose proof (Z.land_ones b 8 ltac:(lia)) as E. rewrite Z.mod_small in E by (change (2 ^ 8) with 256; lia).
  rewrite <- E, <- Z.land_assoc, (Z.land_comm (Z.ones 8)), Z.land_assoc, Z.land_ones by lia.
  change 256 with (2 ^ 8). apply Z.mod_pos_bound. lia.
Qed.

Lemma der_bits_bytes v u : bytes_ok v -> 0 <= u < 8 -> bytes_ok (der_bits v u).
Proof.
  intros Hv Hu. unfold der_bits. destruct (last v) as [b|] eqn:E; (constructor; [unfold byte_ok; lia|]);
    [|constructor].
  apply Forall_app. split; [by apply Forall_take|]. apply Forall_singleton.
  apply land_byte.
  - apply last_Some in E as [k ->]. apply Forall_app in Hv as [_ Hv]. by inversion Hv.
  - apply Z.lxor_nonneg. split; intros _; [|lia]. rewrite Z.shiftl_1_l.
    pose proof (Z.pow_pos_nonneg 2 u). lia.
Qed.

Lemma der_integer_bytes v : bytes_ok v -> v <> [] -> bytes_ok (der_integer v).
Proof.
  intros Hv Hne. destruct (der_integer_cases v Hv Hne) as (s & Hs & _ & Hcase).
  destruct Hcase as [(b & r & _ & _ & ->)|[(b & r & _ & _ & ->)|[_ ->]]]; [|done|done].
  constructor; [unfold byte_ok; lia|done].
Qed.

Lemma uint_bytes v : uint_ok 64 v -> bytes_ok (rev (ref_le 8 v)) /\ rev (ref_le 8 v) <> [] /\
  be_value (rev (ref_le 8 v)) = v.
Proof.
  intros Hv. split; [apply Forall_rev, ref_le_bytes|]. split.
  - intros E. apply (f_equal length) in E. by rewrite length_rev, ref_le_length in E.
  - unfold be_value. rewrite rev_involutive. by apply ref_le_value.
Qed.

Lemma encode_all_bytes l : Forall (fun it => wf it -> fits (encode it) -> bytes_ok (encode it)) l ->
  Forall wf l -> fits (encode_all l) -> bytes_ok (encode_all l).
Proof.
  induction 1 as [|it l Hit Hl IH]; [by constructor|]. intros [Hw1 Hw2]%Forall_cons Hf.
  rewrite encode_all_cons in *. apply Forall_app. split.
  - apply Hit; [done|]. by eapply fits_app_l.
  - apply IH; [done|]. by eapply fits_app_r.
Qed.

Lemma encode_bytes it : wf it -> fits (encode it) -> bytes_ok (encode it).
Proof.
  induction it as [v|b| |v|v|v u|v|l IH|l IH|t it IH] using item_induction; intros Hw Hf;
    cbn [encode wf] in *; pose proof (fits_content _ _ Hf) as Hc;
    (apply tlv_bytes; [unfold byte_ok; lia| |exact Hc]).
  - apply der_integer_bytes; apply uint_bytes, Hw.
  - apply Forall_singleton. unfold byte_ok. destruct b; lia.
  - constructor.
  - apply der_integer_bytes; apply Hw.
  - exact Hw.
  - apply der_bits_bytes; apply Hw.
  - apply Hw.
  - destruct Hw as [_ Hw%wf_all]. by apply encode_all_bytes.
  - destruct Hw as [_ Hw%wf_all]. apply der_bits_bytes; [|lia]. apply encode_all_bytes; [done|done|].
    eapply fits_mono; [exact Hc|]. rewrite der_bits_length. unfold encode_all. lia.
  - apply IH; [apply Hw|exact Hc].
Qed.

(** ** Reading a value *)

Lemma header_spec ab first content post : front ab = tlv first content ++ post -> byte_ok first ->
  fits (ab_buffer ab) ->
  getTag ab = Some (Ok (Z.land first 0x3F, class_of (first / 64)), jump ab 1) /\
  getLength (jump ab 1) = Some (Ok (Z.of_nat (length content)),
    jump ab (1 + length (der_length (Z.of_nat (length content))))) /\
  front (jump ab (1 + length (der_length (Z.of_nat (length content))))) = content ++ post /\
  (ab_offset ab + length (tlv first content) <= length (ab_buffer ab))%nat /\
  Z.of_nat (length content) < 2 ^ 62.
Proof.
  intros E Hb Hf. set (n := Z.of_nat (length content)).
  assert (Hlen : (ab_offset ab + length (tlv first content) <= length (ab_buffer ab))%nat).
  { pose proof (f_equal length E) as El. unfold front in El. rewrite length_drop, length_app in El.
    rewrite tlv_length in *. lia. }
  pose proof (tlv_content first content) as Hc. unfold fits in Hf.
  assert (E1 : front (jump ab 1) = der_length n ++ content ++ post).
  { rewrite front_jump, E. unfold tlv. cbn [app]. rewrite skipn_cons, drop_0. by rewrite <- (assoc app). }
  split; [by apply (getTag_spec _ _ (der_length n ++ content ++ post)); [rewrite E; unfold tlv; cbn [app]; rewrite <- (assoc app)|]|].
  split; [|split; [|split; [exact Hlen|subst n; lia]]].
  - rewrite (getLength_spec _ n (content ++ post)); [by rewrite jump_jump|exact E1| |exact Hf].
    subst n. split; [lia|]. revert Hf. pow2. lia.
  - rewrite <- jump_jump. by apply front_app.
Qed.

(** The start of a field of the universal class. *)
Lemma universal_read fuel ab first content post (ctx : option (Z * Z)) :
  front ab = tlv first content ++ post -> 0 <= first < 64 -> fits (ab_buffer ab) ->
  match ctx with Some (_, tlength) => Z.of_nat (length content) < tlength | None => True end ->
  read_loop (S fuel) ctx ab =
    read_universal first (Z.of_nat (length content)) (match ctx with Some (ttag, _) => ttag | None => 0 end)
      (jump ab (1 + length (der_length (Z.of_nat (length content))))).
Proof.
  intros E Hb Hf Hctx. destruct (header_spec ab first content post E) as (E1 & E2 & _);
    [unfold byte_ok; lia|done|].
  cbn [read_loop]. rewrite (bind_Ok _ _ _ _ _ E1).
  assert (Ec : class_of (first / 64) = Universal) by (by rewrite Z.div_small).
  assert (Et : Z.land first 0x3F = first).
  { change 0x3F with (Z.ones 6). rewrite Z.land_ones by lia. by apply Z.mod_small. }
  cbv beta iota. rewrite Ec, Et. rewrite (bind_Ok _ _ _ _ _ E2).
  destruct ctx as [[ttag tlength]|]; [|done]. by destruct (Z.leb_spec tlength (Z.of_nat (length content))); [lia|].
Qed.

(** A value that is not in a context, with the index it would have in one. *)
Definition plain_read (it : item) : Prop :=
  exists first content, encode it = tlv first content /\ 0 <= first < 64 /\
    content_read first content (denotes it).

Definition item_read (it : item) : Prop :=
  forall ab post, front ab = encode it ++ post -> fits (ab_buffer ab) ->
  exists f, read ab = Some (Ok f, jump ab (length (encode it))) /\ index f = item_index it /\ denotes it f.

Lemma plain_item_read it : plain_read it -> is_context it = false -> item_read it.
Proof.
  intros (first & content & Ee & Hb & Hr) Hc ab post E Hf. rewrite Ee in *.
  destruct (header_spec ab first content post E) as (_ & _ & E3 & Hlen & _); [unfold byte_ok; lia|done|].
  unfold read. rewrite (universal_read 1 ab first content post None) by done.
  destruct (Hr _ post 0 E3) as (f & Ef & Hi & Hd); [done| |].
  { cbn [jump ab_offset ab_buffer]. rewrite tlv_length in Hlen. lia. }
  exists f. rewrite Ef, jump_jump, tlv_length. split; [|split; [|done]].
  - done.
  - rewrite Hi. by destruct it.
Qed.

Lemma context_item_read tag it : plain_read it -> 0 <= tag < 16 -> item_read (ICtx tag it).
Proof.
  intros (first & content & Ee & Hb & Hr) Ht ab post E Hf. cbn [encode] in *.
  destruct (header_spec ab (0xA0 + tag) (encode it) post E) as (E1 & E2 & E3 & Hlen & _);
    [unfold byte_ok; lia|done|].
  unfold read. change (read_loop 2 None) with ('(tag, aclass) ← getTag;
      match aclass with
      | ContextSpecific => tlength ← getLength; read_loop 1 (Some (tag, tlength))
      | Universal => len ← getLength; read_universal tag len 0
      | _ => fail ENoSupport
      end).
  rewrite (bind_Ok _ _ _ _ _ E1).
  assert (Ec : class_of ((0xA0 + tag) / 64) = ContextSpecific).
  { replace ((0xA0 + tag) / 64) with 2; [done|]. symmetry. Z.div_mod_to_equations. lia. }
  assert (Et : Z.land (0xA0 + tag) 0x3F = 0x20 + tag).
  { change 0x3F with (Z.ones 6). rewrite Z.land_ones by lia. change (2 ^ 6) with 64. Z.div_mod_to_equations. lia. }
  cbv beta iota. rewrite Ec, Et, (bind_Ok _ _ _ _ _ E2).
  set (ab1 := jump ab (1 + length (der_length (Z.of_nat (length (encode it)))))) in *.
  rewrite Ee in E3. destruct (header_spec ab1 first content post E3) as (_ & _ & E6 & Hlen1 & _);
    [unfold byte_ok; lia|done|].
  rewrite (universal_read 0 ab1 first content post) by (done || rewrite Ee; pose proof (tlv_content first content); lia).
  destruct (Hr _ post (0x20 + tag) E6) as (f & Ef & Hi & Hd); [done| |].
  { cbn [jump ab_offset ab_buffer ab1] in *. rewrite tlv_length in Hlen1. lia. }
  exists f. rewrite Ef. unfold ab1. rewrite !jump_jump. split; [|split; [done|done]].
  do 3 f_equal. rewrite tlv_length, Ee, (tlv_length first). lia.
Qed.

Definition readable (it : item) : Prop :=
  wf it -> fits (encode it) -> (is_context it = false -> plain_read it) /\ item_read it.

Lemma plain_readable it : (wf it -> fits (encode it) -> plain_read it) -> is_context it = false -> readable it.
Proof. intros Hp Hc Hw Hf. split; [by intros _; apply Hp|]. apply plain_item_read; [by apply Hp|exact Hc]. Qed.

Lemma reads_spec l ab post : Forall readable l -> Forall wf l -> fits (encode_all l) ->
  front ab = encode_all l ++ post -> fits (ab_buffer ab) -> reads l ab (jump ab (length (encode_all l))).
Proof.
  intros Hl. revert ab. induction Hl as [|it l Hit Hl IH]; intros ab Hw Hf E Hb.
  { cbn. by rewrite jump_0. }
  apply Forall_cons in Hw as [Hw1 Hw2]. rewrite encode_all_cons in *. rewrite <- (assoc app) in E.
  destruct (Hit Hw1 (fits_app_l _ _ Hf)) as [_ Hr]. destruct (Hr ab _ E Hb) as (f & Ef & Hi & Hd).
  exists f, (jump ab (length (encode it))). split; [done|]. split; [done|]. split; [done|].
  rewrite length_app, <- jump_jump. apply IH; [done|by eapply fits_app_r| |done].
  by apply front_app.
Qed.

(** The fields inside a composite. *)
Lemma composite_reads l ab post f : Forall readable l -> Forall wf l -> fits (encode_all l) ->
  front ab = encode_all l ++ post -> fits (ab_buffer ab) ->
  getBuffer f = mkAsn1Buffer (ab_buffer ab) (ab_offset ab) (Z.of_nat (length (encode_all l))) ->
  exists ab', reads l (getBuffer f) ab' /\ ab_offset ab' = (af_offset f + Z.to_nat (af_length f))%nat.
Proof.
  intros Hl Hw Hf E Hb Eg.
  exists (jump (getBuffer f) (length (encode_all l))). split.
  - rewrite Eg. by apply (reads_spec l _ post).
  - assert (Eo : af_offset f = ab_offset ab) by exact (f_equal ab_offset Eg).
    assert (El : af_length f = Z.of_nat (length (encode_all l))) by exact (f_equal ab_length Eg).
    rewrite El, Nat2Z.id. done.
Qed.

Lemma seq_readable l : Forall readable l -> readable (ISeq l).
Proof.
  intros Hl. apply plain_readable; [|done]. intros [Hne Hw%wf_all] Hf.
  exists 0x30, (encode_all l). split; [done|]. split; [lia|].
  intros ab post ttag E Hb Ho. pose proof (fits_content _ _ Hf) as Hc.
  destruct (content_kind_read Sequence _ ab post ttag E Hb Ho) as (f & Ef & Hi & Hk & Hby & Eg).
  exists f. split; [exact Ef|]. split; [exact Hi|].
  split; [exact Hk|]. split; [exact Hby|]. exact (composite_reads l ab post f Hl Hw Hc E Hb Eg).
Qed.

(** All the bits of bytes are used. *)
Lemma der_bits_all v : bytes_ok v -> v <> [] -> der_bits v 0 = 0 :: v.
Proof.
  intros Hv Hne. unfold der_bits. destruct (last v) as [b|] eqn:E; [|by apply last_None in E].
  f_equal. apply last_Some in E as [k ->]. apply Forall_app in Hv as [_ Hb].
  rewrite length_app. cbn [length]. replace (length k + 1 - 1)%nat with (length k) by lia.
  rewrite take_app_length. do 2 f_equal. change (Z.lxor 0xFF (Z.shiftl 1 0 - 1)) with (Z.ones 8).
  rewrite Z.land_ones by lia. apply Z.mod_small. change (2 ^ 8) with 256. by inversion Hb.
Qed.

Lemma bitsof_readable l : Forall readable l -> readable (IBitsOf l).
Proof.
  intros Hl. apply plain_readable; [|done]. intros [Hne Hw%wf_all] Hf.
  cbn [encode] in *. fold (encode_all l) in *.
  assert (Hc : fits (encode_all l)).
  { eapply fits_mono; [exact (fits_content _ _ Hf)|]. rewrite der_bits_length. lia. }
  assert (Hby : bytes_ok (encode_all l)).
  { apply encode_all_bytes; [|done|done]. apply Forall_forall. intros it _. apply encode_bytes. }
  exists 0x03, (der_bits (encode_all l) 0). split; [done|]. split; [lia|].
  intros ab post ttag E Hb Ho.
  destruct (bits_read (encode_all l) 0 ab post ttag ltac:(lia) ltac:(done) E Hb)
    as (f & Ef & Hi & Hk & Hbytes & _ & Eg).
  exists f. split; [exact Ef|]. split; [exact Hi|]. split; [exact Hk|].
  rewrite der_bits_all in * by (done || by apply encode_all_nonempty). split; [exact Hbytes|].
  apply (composite_reads l (jump ab 1) post f Hl Hw Hc); [by rewrite front_jump, E|done|exact Eg].
Qed.

Lemma context_readable tag it : readable it -> readable (ICtx tag it).
Proof.
  intros IH (Ht & Hnc & Hw) Hf. split; [done|].
  destruct (IH Hw (fits_content _ _ Hf)) as [Hp _]. by apply context_item_read; [apply Hp|].
Qed.

Lemma content_kind_readable k first v (P : Asn1Field -> Prop) : 0 <= first < 64 ->
  (forall len ttag, read_universal first len ttag = read_content k len ttag) ->
  (forall f, kind f = k -> af_bytes f = v -> P f) -> content_read first v P.
Proof.
  intros Hb Hr HP ab post ttag E Hf Ho. rewrite Hr.
  destruct (content_kind_read k v ab post ttag E Hf Ho) as (f & Ef & Hi & Hk & Hby & _).
  exists f. auto.
Qed.

Lemma item_readable it : readable it.
Proof.
  induction it as [v|b| |v|v|v u|v|l IH|l IH|t it IH] using item_induction;
    [| | | | | | |by apply seq_readable|by apply bitsof_readable|by apply context_readable];
    (apply plain_readable; [|done]); intros Hw Hf.
  - destruct (uint_bytes v Hw) as (H1 & H2 & H3). eexists 0x02, _. split; [done|]. split; [lia|].
    intros ab post ttag E Hb Ho. destruct (integer_read _ H1 H2 ab post ttag E Hb Ho) as (f & Ef & Hi & Hk & _ & Hv).
    exists f. split; [exact Ef|]. split; [exact Hi|]. split; [exact Hk|]. rewrite H3 in Hv. apply Hv, Hw.
  - exists 0x01, [if b then 0xFF else 0]. split; [done|]. split; [lia|]. apply boolean_read.
  - exists 0x05, []. split; [done|]. split; [lia|]. apply null_read.
  - exists 0x02, (der_integer v). split; [done|]. split; [lia|]. apply integer_read; apply Hw.
  - exists 0x04, v. split; [done|]. split; [lia|].
    apply (content_kind_readable OctetString); [lia|done|]. by intros f Hk Hv.
  - exists 0x03, (der_bits v u). split; [done|]. split; [lia|]. intros ab post ttag E Hb _.
    destruct (bits_read v u ab post ttag) as (f & Ef & Hi & Hk & Hby & Hv & _); [apply Hw|apply Hw|done|done|].
    exists f. by split_and!.
  - exists 0x06, v. split; [done|]. split; [lia|].
    apply (content_kind_readable Oid); [lia|done|]. by intros f Hk Hv.
Qed.

(** ** Properties *)

(** C14: whatever the values, integers, booleans, strings, identifiers and composites of them, the
calls of [write] that a user makes return and the buffer holds their encodings; after [finish]
(and whatever follows in the buffer) the same number of [read]s gives back their fields in order,
and the fields of the composites from their [getBuffer]: the numbers, the bytes, the unused
bits and the index of a context tag. *)
Theorem der_roundtrip `{Endians} (l : list item) (post : bytes) :
  Forall wf l -> fits (encode_all l ++ post) ->
  exists ab, write_items (new_buffer []) l = Some ab /\ ab_buffer ab = encode_all l /\
    reads l (finish (mkAsn1Buffer (ab_buffer ab ++ post) (ab_offset ab) 0))
      (mkAsn1Buffer (encode_all l ++ post) (length (encode_all l)) 0).
Proof.
  intros Hw Hf. pose proof (fits_app_l _ _ Hf) as Hl.
  exists (appends (new_buffer []) (encode_all l)). split; [by apply write_items_spec|]. split; [done|].
  set (ab := finish _). change (mkAsn1Buffer (encode_all l ++ post) (length (encode_all l)) 0) with
    (jump ab (length (encode_all l))).
  apply (reads_spec l ab post); [|done|done|done|done]. apply Forall_forall. intros it _. apply item_readable.
Qed.

Lemma der_roundtrip_witness : exists ab,
  @write_items endians_ref (new_buffer []) [ISeq [IUint 300; IBool true; ICtx 1 (IOid [0x2B; 0x81])]; INull] =
    Some ab /\
  ab_buffer ab = [0x30; 13; 2; 2; 1; 44; 1; 1; 255; 0xA1; 4; 6; 2; 0x2B; 0x81; 5; 0].
Proof.
  destruct (@der_roundtrip endians_ref
    [ISeq [IUint 300; IBool true; ICtx 1 (IOid [0x2B; 0x81])]; INull] []) as (ab & Ew & Eb & _).
  - repeat constructor; try done; unfold byte_ok, uint_ok; lia || discriminate.
  - reflexivity.
  - exists ab. split; [exact Ew|exact Eb].
Defined.

(** The room is computed from [value], the content from the bits that are used: with eight unused
bits or more the buffer gets bytes that are not part of the field. *)
Example bits_over_seven : (ab ← write_bytes (new_buffer []) BitString [0xAB; 0xCD] 8; Some (ab_buffer ab)) =
  Some [0x03; 0x02; 0x00; 0xAB; 0x00].
Proof. reflexivity. Qed.

(** An integer without bytes is written without a length, which cannot be read back. *)
Example empty_integer : (ab ← write_bytes (new_buffer []) Integer [] 0; r ← read (finish ab); Some r.1) =
  Some (Err EIncorrect).
Proof. reflexivity. Qed.
