(* ===== verification/Minasn1Safety.v ===== *)
(** * Minasn1Safety: the decoder of minasn1.nim on arbitrary bytes

Every field lies inside the bytes that were read, and the decoder fails an index or an overflow
check on two kinds of input only. *)
From S2P Require Import Prelude Endians Minasn1 Minasn1Codec.

#[local] Open Scope Z_scope.

(** ** Reading any bytes *)

Definition after (ab ab' : Asn1Buffer) : Prop :=
  ab_buffer ab' = ab_buffer ab /\ (ab_offset ab <= ab_offset ab' <= length (ab_buffer ab))%nat.

(** A buffer of the program, read up to its offset. *)
Definition readable_buffer (ab : Asn1Buffer) : Prop :=
  bytes_ok (ab_buffer ab) /\ fits (ab_buffer ab) /\ (ab_offset ab <= length (ab_buffer ab))%nat.

(** A defect only if [D], and otherwise a buffer that is inside its bytes. *)
Definition verdict {A} (ab : Asn1Buffer) (r : option (result Asn1Error A * Asn1Buffer)) (D : Prop)
    (Q : A -> Asn1Buffer -> Prop) : Prop :=
  match r with
  | Some (Ok a, ab') => after ab ab' /\ Q a ab'
  | Some (Err _, ab') => after ab ab'
  | None => D
  end.

Definition outcome {A} (m : asn1_m A) (ab : Asn1Buffer) (D : Prop) (Q : A -> Asn1Buffer -> Prop) : Prop :=
  verdict ab (m ab) D Q.

Lemma after_refl ab : (ab_offset ab <= length (ab_buffer ab))%nat -> after ab ab.
Proof. by split. Qed.

Lemma after_trans ab1 ab2 ab3 : after ab1 ab2 -> after ab2 ab3 -> after ab1 ab3.
Proof. intros [E1 H1] [E2 H2]. rewrite E1 in *. split; [by rewrite E2|lia]. Qed.

Lemma after_readable ab ab' : readable_buffer ab -> after ab ab' -> readable_buffer ab'.
Proof. intros (Hb & Hf & _) [E H]. unfold readable_buffer. rewrite E. split_and!; [done|done|lia]. Qed.

Lemma verdict_mono {A} ab ab1 r (D D' : Prop) (Q Q' : A -> Asn1Buffer -> Prop) : after ab ab1 ->
  verdict ab1 r D Q -> (D -> D') -> (forall a ab', Q a ab' -> Q' a ab') -> verdict ab r D' Q'.
Proof.
  intros Ha Hv HD HQ. destruct r as [[[a|e] ab']|]; cbn in *; [|by eapply after_trans|by apply HD].
  destruct Hv as [Ha' HQ']. split; [by eapply after_trans|by apply HQ].
Qed.

Lemma outcome_bind {A B} (m : asn1_m A) (f : A -> asn1_m B) ab D P Q : readable_buffer ab ->
  outcome m ab D P -> (forall a ab1, readable_buffer ab1 -> after ab ab1 -> P a ab1 -> outcome (f a) ab1 D Q) ->
  outcome (m ≫= f) ab D Q.
Proof.
  intros Hr Hm Hk. unfold outcome, verdict, mbind, asn1_bind in *. destruct (m ab) as [[[a|e] ab1]|]; [|done|done].
  destruct Hm as [Ha HP]. pose proof (Hk a ab1 (after_readable _ _ Hr Ha) Ha HP) as H.
  destruct (f a ab1) as [[[b|e] ab2]|]; [|by eapply after_trans|done].
  destruct H as [Hb HQ]. split; [by eapply after_trans|done].
Qed.

Lemma outcome_ret {A} (a : A) ab D (Q : A -> Asn1Buffer -> Prop) : readable_buffer ab -> Q a ab ->
  outcome (mret a) ab D Q.
Proof. intros (_ & _ & Ho) HQ. split; [by apply after_refl|done]. Qed.

Lemma outcome_fail {A} e ab D (Q : A -> Asn1Buffer -> Prop) : readable_buffer ab -> outcome (fail e) ab D Q.
Proof. intros (_ & _ & Ho). by apply after_refl. Qed.

Lemma outcome_self ab D : readable_buffer ab -> outcome self ab D (fun a ab' => a = ab /\ ab' = ab).
Proof. intros (_ & _ & Ho). split; [by apply after_refl|done]. Qed.

Lemma outcome_byte i ab (D : Prop) : readable_buffer ab ->
  (length (ab_buffer ab) <= ab_offset ab + i -> D)%nat ->
  outcome (byte_at i) ab D (fun b ab' => ab' = ab /\ byte_ok b /\ (ab_offset ab + i < length (ab_buffer ab))%nat).
Proof.
  intros (Hb & Hf & Ho) HD. unfold outcome, verdict, byte_at.
  destruct (ab_buffer ab !! (ab_offset ab + i)%nat) as [b|] eqn:E; cbn [mbind option_bind].
  - split; [by apply after_refl|]. split; [done|]. split; [by eapply Forall_lookup_1|].
    by apply lookup_lt_Some in E.
  - apply HD. by apply lookup_ge_None in E.
Qed.

Lemma outcome_advance n ab D : readable_buffer ab -> (ab_offset ab + n <= length (ab_buffer ab))%nat ->
  outcome (advance n) ab D (fun _ ab' => ab' = jump ab n).
Proof. intros Hr Hn. split; [|done]. split; [done|]. cbn. lia. Qed.

Lemma outcome_enough len ab (D : Prop) : readable_buffer ab ->
  (2 ^ 63 <= Z.of_nat (ab_offset ab) + len -> D) ->
  outcome (enough len) ab D (fun e ab' => ab' = ab /\
    e = (Z.of_nat (ab_offset ab) + len <=? Z.of_nat (length (ab_buffer ab)))).
Proof.
  intros (Hb & Hf & Ho) HD. unfold outcome, verdict, enough, isEnough.
  destruct (Z.ltb_spec (Z.of_nat (ab_offset ab) + len) (2 ^ 63)); cbn [mbind option_bind]; [|by apply HD].
  split; [by apply after_refl|done].
Qed.

Lemma outcome_big_endian n i v ab D : readable_buffer ab ->
  (ab_offset ab + i + n <= length (ab_buffer ab))%nat -> 0 <= v ->
  outcome (big_endian n i v) ab D (fun x ab' => ab' = ab /\ 0 <= x).
Proof.
  intros Hr. revert i v. induction n as [|n IH]; intros i v Hn Hv.
  { by apply outcome_ret. }
  cbn [big_endian]. eapply outcome_bind; [done|apply outcome_byte; [done|lia]|].
  intros b ab1 _ _ (-> & Hb & _). apply IH; [lia|]. apply Z.lor_nonneg. unfold wrap, byte_ok in *.
  pose proof (Z.mod_pos_bound (Z.shiftl v 8) (2 ^ 64) ltac:(lia)). lia.
Qed.

Lemma outcome_zeroes n i ab D : readable_buffer ab ->
  (ab_offset ab + i + n <= length (ab_buffer ab))%nat ->
  outcome (count_zeroes n i) ab D (fun z ab' => ab' = ab /\ (z <= i + n)%nat).
Proof.
  intros Hr. revert i. induction n as [|n IH]; intros i Hn.
  { apply outcome_ret; [done|]. split; [done|lia]. }
  cbn [count_zeroes]. eapply outcome_bind; [done|apply outcome_byte; [done|lia]|].
  intros b ab1 _ _ (-> & Hb & _). destruct (b =? 0).
  - specialize (IH (S i) ltac:(lia)). unfold outcome, verdict in *.
    destruct (count_zeroes n (S i) ab) as [[[z|e] ab']|]; [|done|done].
    destruct IH as (Ha & -> & Hz). split; [done|]. split; [done|lia].
  - apply outcome_ret; [done|]. split; [done|lia].
Qed.

(** The two conditions that the decoder does not check: the sum of [isEnough] overflows, or a
BIT STRING announces one byte at the end of the buffer. *)
Definition unguarded (tag len : Z) (ab : Asn1Buffer) : Prop :=
  2 ^ 63 <= Z.of_nat (ab_offset ab) + len \/
  (tag = 0x03 /\ len = 1 /\ ab_offset ab = length (ab_buffer ab)).

(** The field lies inside what has been read since [ab]. *)
Definition inside (ab : Asn1Buffer) (f : Asn1Field) (ab' : Asn1Buffer) : Prop :=
  af_buffer f = ab_buffer ab /\ 0 <= af_length f /\
  (ab_offset ab <= af_offset f)%nat /\
  (af_offset f + Z.to_nat (af_length f) <= ab_offset ab')%nat.

(** A field, and the bytes that it takes. *)
Lemma outcome_field skip flen ttag k v n ab D : readable_buffer ab ->
  (ab_offset ab + n <= length (ab_buffer ab))%nat -> 0 <= flen -> (skip + Z.to_nat flen <= n)%nat ->
  outcome (field ← field_at skip flen ttag k v; _ ← advance n; mret field) ab D (inside ab).
Proof.
  intros Hr Hn Hl Hs. split; [split; [done|cbn; lia]|].
  unfold inside. cbn. split; [done|]. lia.
Qed.

Lemma outcome_room len ab D : readable_buffer ab -> 0 <= len ->
  (2 ^ 63 <= Z.of_nat (ab_offset ab) + len -> D) -> forall {A} (K : asn1_m A) Q,
  ((ab_offset ab + Z.to_nat len <= length (ab_buffer ab))%nat -> outcome K ab D Q) ->
  outcome (e ← enough len; if negb e then fail EIncomplete else K) ab D Q.
Proof.
  intros Hr Hl HD A K Q HK. eapply outcome_bind; [done|by apply outcome_enough|].
  intros e ab1 _ _ [-> ->].
  destruct (Z.leb_spec (Z.of_nat (ab_offset ab) + len) (Z.of_nat (length (ab_buffer ab)))); cbn [negb].
  - apply HK. lia.
  - by apply outcome_fail.
Qed.

Lemma boolean_outcome len ttag ab : readable_buffer ab -> 0 <= len ->
  outcome (read_boolean len ttag) ab (unguarded 0x01 len ab) (inside ab).
Proof.
  intros Hr Hl. unfold read_boolean. destruct (Z.eqb_spec len 1) as [->|]; cbn [negb]; [|by apply outcome_fail].
  apply outcome_room; [done|lia|by left|]. intros Hroom.
  eapply outcome_bind; [done|apply outcome_byte; [done|cbn in Hroom; lia]|].
  intros b ab1 _ _ (-> & _ & _). destruct (_ && _); [by apply outcome_fail|].
  apply (outcome_field 0 1); [done|exact Hroom|lia|cbn; lia].
Qed.

Lemma content_outcome k tag len ttag ab : readable_buffer ab -> 0 <= len ->
  outcome (read_content k len ttag) ab (unguarded tag len ab) (inside ab).
Proof.
  intros Hr Hl. unfold read_content. apply outcome_room; [done|done|by left|]. intros Hroom.
  by apply outcome_field.
Qed.

Lemma null_outcome len ttag ab : readable_buffer ab ->
  outcome (read_null len ttag) ab (unguarded 0x05 len ab) (inside ab).
Proof.
  intros Hr. unfold read_null. destruct (negb (len =? 0)); [by apply outcome_fail|].
  split; [by apply after_refl, Hr|]. unfold inside. cbn. split; [done|]. lia.
Qed.

Lemma fill_nonneg n : 0 <= foldl shl_or 0 (replicate n 0xFF).
Proof.
  assert (H : forall v, 0 <= v -> 0 <= foldl shl_or v (replicate n 0xFF)).
  { induction n as [|n IH]; intros v Hv; [done|]. cbn [replicate foldl]. apply IH.
    unfold shl_or, wrap. apply Z.lor_nonneg.
    pose proof (Z.mod_pos_bound (Z.shiftl v 8) (2 ^ 64) ltac:(lia)). lia. }
  by apply H.
Qed.

Lemma integer_outcome len ttag ab : readable_buffer ab -> 0 <= len ->
  outcome (read_integer len ttag) ab (unguarded 0x02 len ab) (inside ab).
Proof.
  intros Hr Hl. unfold read_integer. destruct (Z.eqb_spec len 0) as [|Hz]; [by apply outcome_fail|].
  apply outcome_room; [done|lia|by left|]. intros Hroom.
  eapply outcome_bind; [done|by apply outcome_zeroes; [|lia]|]. intros zc ab1 _ _ [-> _].
  destruct (1 <? zc)%nat; [by apply outcome_fail|]. destruct (zc =? 0)%nat.
  - eapply outcome_bind; [done|apply outcome_byte; [done|lia]|]. intros b ab1 _ _ (-> & _ & _).
    eapply (outcome_bind _ _ _ _ (fun _ ab' => ab' = ab)); [done| |].
    + assert (Hbe : forall v, 0 <= v -> outcome (big_endian (Z.to_nat len) 0 v) ab (unguarded 0x02 len ab)
        (fun _ ab' => ab' = ab)).
      { intros v Hv. pose proof (outcome_big_endian (Z.to_nat len) 0 v ab (unguarded 0x02 len ab) Hr ltac:(lia) Hv) as H.
        unfold outcome, verdict in *. destruct (big_endian _ _ _ _) as [[[]]|]; tauto. }
      destruct (Z.land b 0x80 =? 0x80), (len <=? 8); try (by apply outcome_ret); apply Hbe; [apply fill_nonneg|lia].
    + intros vint ab1 _ _ ->. by apply outcome_field.
  - destruct (Z.eqb_spec len 1) as [->|H1]; [by apply outcome_field|].
    eapply (outcome_bind _ _ _ _ (fun _ ab' => ab' = ab)); [done| |].
    + destruct (len <=? 9); [|by apply outcome_ret].
      pose proof (outcome_big_endian (Z.to_nat len - 1) 1 0 ab (unguarded 0x02 len ab) Hr ltac:(lia) ltac:(lia)) as H.
      unfold outcome, verdict in *. destruct (big_endian _ _ _ _) as [[[]]|]; tauto.
    + intros vint ab1 _ _ ->. apply outcome_field; [done|lia|lia|lia].
Qed.

Lemma bitstring_outcome len ttag ab : readable_buffer ab -> 0 <= len ->
  outcome (read_bitstring len ttag) ab (unguarded 0x03 len ab) (inside ab).
Proof.
  intros Hr Hl. unfold read_bitstring. destruct (Z.eqb_spec len 0) as [|Hz]; [by apply outcome_fail|].
  destruct (Z.eqb_spec len 1) as [->|H1].
  - eapply outcome_bind; [done|apply outcome_byte; [done|]|].
    { intros He. right. destruct Hr as (_ & _ & Ho). split; [done|]. split; [done|lia]. }
    intros b ab1 _ _ (-> & _ & Hlt). destruct (negb _); [by apply outcome_fail|].
    apply outcome_field; [done|lia|lia|cbn; lia].
  - apply outcome_room; [done|lia|by left|]. intros Hroom.
    eapply outcome_bind; [done|apply outcome_byte; [done|lia]|]. intros u ab1 _ _ (-> & _ & _).
    destruct (7 <? u); [by apply outcome_fail|].
    eapply outcome_bind; [done|apply outcome_byte; [done|lia]|]. intros b ab1 _ _ (-> & _ & _).
    destruct (negb _); [by apply outcome_fail|]. apply outcome_field; [done|lia|lia|lia].
Qed.

Lemma universal_outcome tag len ttag ab : readable_buffer ab -> 0 <= len ->
  outcome (read_universal tag len ttag) ab (unguarded tag len ab) (inside ab).
Proof.
  intros Hr Hl. unfold read_universal.
  destruct (Z.eqb_spec tag (code Boolean)) as [->|_]; [by apply boolean_outcome|].
  destruct (Z.eqb_spec tag (code Integer)) as [->|_]; [by apply integer_outcome|].
  destruct (Z.eqb_spec tag (code BitString)) as [->|_]; [by apply bitstring_outcome|].
  destruct (tag =? code OctetString); [by apply content_outcome|].
  destruct (Z.eqb_spec tag (code Null)) as [->|_]; [by apply null_outcome|].
  destruct (tag =? code Oid); [by apply content_outcome|].
  destruct (tag =? code Sequence); [by apply content_outcome|]. by apply outcome_fail.
Qed.

Lemma getTag_outcome ab D : readable_buffer ab ->
  outcome getTag ab D (fun r ab' => (ab_offset ab < ab_offset ab')%nat).
Proof.
  intros Hr. unfold getTag. eapply outcome_bind; [done|by apply outcome_self|]. intros x ab1 _ _ [-> ->].
  unfold isEmpty. destruct (Nat.leb_spec (length (ab_buffer ab)) (ab_offset ab)) as [Hle|Hlt]; cbn [negb].
  { by apply outcome_fail. }
  eapply outcome_bind; [done|apply outcome_byte; [done|lia]|]. intros b ab1 _ _ (-> & _ & _).
  eapply outcome_bind; [done|apply (outcome_advance 1); [done|lia]|]. intros u ab1 Hr1 _ ->.
  destruct (_ && _); [|by apply outcome_fail]. apply outcome_ret; [done|]. cbn. lia.
Qed.

Lemma getLength_outcome ab D : readable_buffer ab ->
  outcome getLength ab D (fun len ab' => 0 <= len < 2 ^ 63).
Proof.
  intros Hr. unfold getLength. eapply outcome_bind; [done|by apply outcome_self|]. intros x ab1 _ _ [-> ->].
  unfold isEmpty. destruct (Nat.leb_spec (length (ab_buffer ab)) (ab_offset ab)) as [Hle|Hlt]; cbn [negb].
  { by apply outcome_fail. }
  eapply outcome_bind; [done|apply outcome_byte; [done|lia]|]. intros b ab1 _ _ (-> & Hb & _).
  destruct (Z.land b 0x80 =? 0).
  { eapply outcome_bind; [done|apply (outcome_advance 1); [done|lia]|]. intros u ab1 Hr1 _ ->.
    apply outcome_ret; [done|]. unfold byte_ok in Hb. pow2. lia. }
  destruct (b =? 0x80); [by apply outcome_fail|]. destruct (b =? 0xFF); [by apply outcome_fail|].
  assert (Ho : 0 <= Z.land b 0x7F) by (unfold byte_ok in Hb; apply Z.land_nonneg; lia).
  destruct (Z.ltb_spec 8 (Z.land b 0x7F)) as [|H8]; [by apply outcome_fail|].
  eapply outcome_bind; [done|apply outcome_enough; [done|]|].
  { intros Hbig. exfalso. destruct Hr as (_ & Hf & Hoff). unfold fits in Hf. revert Hbig Hf. pow2. lia. }
  intros e ab1 _ _ [-> ->]. destruct (Z.leb_spec (Z.of_nat (ab_offset ab) + (Z.land b 0x7F + 1))
    (Z.of_nat (length (ab_buffer ab)))); [|by apply outcome_fail].
  eapply outcome_bind; [done|apply outcome_big_endian; [done|lia|lia]|]. intros lengthU ab1 _ _ [-> Hu].
  destruct (Z.ltb_spec (2 ^ 63 - 1) lengthU); [by apply outcome_fail|].
  eapply outcome_bind; [done|apply outcome_advance; [done|lia]|]. intros u ab1 Hr1 _ _.
  apply outcome_ret; [done|lia].
Qed.

(** A header that was read since [ab], and what it announces is not checked. *)
Definition unguarded_header (ab : Asn1Buffer) : Prop :=
  exists ab0 tag len ab1 ab2, after ab ab0 /\ getTag ab0 = Some (Ok (tag, Universal), ab1) /\
    getLength ab1 = Some (Ok len, ab2) /\ unguarded tag len ab2.

Lemma unguarded_after ab ab1 : after ab ab1 -> unguarded_header ab1 -> unguarded_header ab.
Proof.
  intros Ha (ab0 & tag & len & ab2 & ab3 & H0 & H). exists ab0, tag, len, ab2, ab3.
  split; [by eapply after_trans|exact H].
Qed.

Definition inner (ab : Asn1Buffer) (f : Asn1Field) (ab' : Asn1Buffer) : Prop :=
  inside ab f ab' /\ (ab_offset ab < af_offset f)%nat.

Lemma inside_inner ab ab1 f ab' : after ab ab1 -> (ab_offset ab < ab_offset ab1)%nat ->
  inside ab1 f ab' -> inner ab f ab'.
Proof. intros [Eb Ho] Hlt (E & Hl & Hoff & Hend). rewrite Eb in E. repeat split; try done; lia. Qed.

Lemma read_loop_outcome fuel ctx ab : readable_buffer ab ->
  (match ctx with None => 2 | Some _ => 1 end <= fuel)%nat ->
  outcome (read_loop fuel ctx) ab (unguarded_header ab) (inner ab).
Proof.
  revert ctx ab. induction fuel as [|fuel IH]; intros ctx ab Hr Hfuel; [destruct ctx; lia|].
  pose proof (getTag_outcome ab False Hr) as Htag. unfold outcome in *. cbn [read_loop].
  destruct (getTag ab) as [[[[tag aclass]|e] ab1]|] eqn:Et; [| |done];
    [|unfold mbind, asn1_bind; by rewrite Et].
  destruct Htag as [Ha1 Hlt]. pose proof (after_readable _ _ Hr Ha1) as Hr1.
  rewrite (bind_Ok _ _ _ _ _ Et). cbv beta iota.
  pose proof (getLength_outcome ab1 False Hr1) as Hlen. unfold outcome in Hlen.
  destruct (getLength ab1) as [[[len|e] ab2]|] eqn:El; [| |done].
  - destruct Hlen as [Ha2 Hlen]. pose proof (after_readable _ _ Hr1 Ha2) as Hr2.
    pose proof (after_trans _ _ _ Ha1 Ha2) as Ha. assert (Hlt2 : (ab_offset ab < ab_offset ab2)%nat) by (destruct Ha2; lia).
    assert (Hu : aclass = Universal -> forall ttag,
      verdict ab (read_universal tag len ttag ab2) (unguarded_header ab) (inner ab)).
    { intros -> ttag. eapply (verdict_mono _ ab2); [exact Ha|exact (universal_outcome tag len ttag ab2 Hr2 ltac:(lia))| |].
      - intros Hun. exists ab, tag, len, ab1, ab2. split; [apply after_refl, Hr|done].
      - intros f ab'. by apply inside_inner. }
    destruct aclass; try exact Ha1; [rewrite (bind_Ok _ _ _ _ _ El)|].
    + destruct ctx as [[ttag tlength]|]; [|by apply Hu]. destruct (tlength <=? len); [exact Ha|by apply Hu].
    + destruct ctx as [c|]; [exact Ha1|]. rewrite (bind_Ok _ _ _ _ _ El).
      eapply (verdict_mono _ ab2); [exact Ha|apply (IH (Some (tag, len)) ab2 Hr2); lia| |].
      * by apply unguarded_after.
      * intros f ab' [Hin Hoff]. by eapply inside_inner.
  - assert (Herr : forall B (K : Z -> asn1_m B), (getLength ≫= K) ab1 = Some (Err e, ab2))
      by (intros B K; unfold mbind, asn1_bind; by rewrite El).
    pose proof (after_trans _ _ _ Ha1 Hlen) as Ha.
    destruct aclass; try exact Ha1; [by rewrite Herr|]. destruct ctx; [exact Ha1|by rewrite Herr].
Qed.

(** ** Properties *)

(** C15: on any bytes [read] returns a field that lies inside the bytes it has consumed, or an
error, except on the two inputs that it does not check: a length that overflows the sum with the
offset, and a BIT STRING of one byte at the end of the buffer.  Both are defects, on inputs of
ten and two bytes. *)
Theorem read_outcome (ab : Asn1Buffer) : readable_buffer ab ->
  match read ab with
  | Some (Ok f, ab') => after ab ab' /\ af_buffer f = ab_buffer ab /\
      (ab_offset ab < af_offset f)%nat /\ 0 <= af_length f /\
      (af_offset f + Z.to_nat (af_length f) <= ab_offset ab')%nat
  | Some (Err _, ab') => after ab ab'
  | None => unguarded_header ab
  end /\
  read (new_buffer ([0x04; 0x88; 0x7F] ++ replicate 7 0xFF)) = None /\
  read (new_buffer [0x03; 0x01]) = None.
Proof.
  intros Hr. split; [|by split; vm_compute].
  pose proof (read_loop_outcome 2 None ab Hr (le_n 2)) as H. unfold outcome, read in *.
  destruct (read_loop 2 None ab) as [[[f|e] ab']|]; [|exact H|exact H].
  destruct H as [Ha ((E & Hl & _ & Hend) & Hoff)]. by split_and!.
Qed.

Lemma read_outcome_witness : exists f ab', read (new_buffer [0x02; 0x02; 0x00; 0x80; 0x05]) = Some (Ok f, ab') /\
  value f = VInt 128 /\ ab_offset ab' = 4%nat /\ (af_offset f + Z.to_nat (af_length f) <= 4)%nat.
Proof.
  pose proof (read_outcome (new_buffer [0x02; 0x02; 0x00; 0x80; 0x05])) as [H _].
  - split; [repeat constructor; unfold byte_ok; lia|]. split; [reflexivity|cbn; lia].
  - destruct (read (new_buffer [0x02; 0x02; 0x00; 0x80; 0x05])) as [[[f|e] ab']|] eqn:E; vm_compute in E;
      [|discriminate E|discriminate E].
    exists f, ab'. split; [reflexivity|]. injection E as <- <-. split; [reflexivity|]. split; [reflexivity|].
    apply H.
Defined.
