(* ===== verification/MinProtobuf.v ===== *)
(** * MinProtobuf: libp2p/protobuf/minprotobuf.nim

The protobuf reader and writer.  A writer returns an [option]: [None] is a failed
[doAssert].  A reader is a computation of the state-and-error monad [reader]: it moves the
offset of the [ProtoBuffer] it runs on and ends with a Nim [Result]; [None] is again a
defect.  [float32]/[float64] values are their bit patterns, since the code only casts
them.  The specification at the end reads a buffer as a list of wire fields. *)
From S2P Require Import Prelude Leb128 Varint Endians.

#[local] Open Scope Z_scope.

(** ** Data *)

(** The enum values of the source, [Varint] first; the suffix avoids the codec names. *)
Inductive ProtoFieldKind :=
| VarintKind | Fixed64 | Length | StartGroup | EndGroup | Fixed32.

#[export] Instance ProtoFieldKind_eq_dec : EqDecision ProtoFieldKind.
Proof. solve_decision. Defined.

(** [uint64(kind)]. *)
Definition kind_ord (k : ProtoFieldKind) : Z :=
  match k with
  | VarintKind => 0 | Fixed64 => 1 | Length => 2
  | StartGroup => 3 | EndGroup => 4 | Fixed32 => 5
  end.

(** [set[ProtoFlags]]. *)
Record ProtoFlags := mkFlags {
  WithVarintLength : bool; WithUint32BeLength : bool; WithUint32LeLength : bool }.

Definition no_flags : ProtoFlags := mkFlags false false false.

(** The [length] field is never read or written by the module. *)
Record ProtoBuffer := mkPB { options : ProtoFlags; buffer : bytes; offset : nat }.

Record ProtoHeader := mkHeader { wire : ProtoFieldKind; index : Z }.

Inductive ProtoError :=
| VarintDecode | MessageIncomplete | BufferOverflow | BadWireType | IncorrectBlob
| RequiredFieldMissing.

#[export] Instance ProtoError_eq_dec : EqDecision ProtoError.
Proof. solve_decision. Defined.

Abbreviation ProtoResult := (result ProtoError).

Inductive ProtoScalar :=
| PInt (k : SomeVarint)
| float32
| float64.

(** The integer types of [ProtoScalar] are the types of the [PB] codec. *)
Definition scalar_type (s : ProtoScalar) : bool :=
  match s with
  | PInt k => is_PBSomeUVarint k || is_PBSomeSVarint k || is_PBZigVarint k
  | _ => true
  end.

Definition SupportedWireTypes : list Z :=
  [kind_ord VarintKind; kind_ord Fixed64; kind_ord Length; kind_ord Fixed32].

(** [cast[ProtoFieldKind](wire)], for a supported wire type. *)
Definition kind_of_wire (w : Z) : ProtoFieldKind :=
  if w =? 0 then VarintKind else if w =? 1 then Fixed64 else if w =? 2 then Length
  else if w =? 3 then StartGroup else if w =? 4 then EndGroup else Fixed32.

(** ** The reader monad *)

Definition reader (A : Type) : Type := ProtoBuffer -> option (ProtoResult A * ProtoBuffer).

#[export] Instance reader_ret : MRet reader := fun A a pb => Some (Ok a, pb).

#[export] Instance reader_bind : MBind reader := fun A B f m pb =>
  match m pb with
  | None => None
  | Some (Ok a, pb) => f a pb
  | Some (Err e, pb) => Some (Err e, pb)
  end.

Definition raise {A} (e : ProtoError) : reader A := fun pb => Some (Err e, pb).

(** A [doAssert] inside a reader. *)
Definition assert_reader (b : bool) : reader unit :=
  fun pb => if b then Some (Ok tt, pb) else None.

Definition get_buffer : reader ProtoBuffer := fun pb => Some (Ok pb, pb).

(** [data.offset += n]. *)
Definition skip (n : Z) : reader unit :=
  fun pb => Some (Ok tt, mkPB (options pb) (buffer pb) (offset pb + Z.to_nat n)).

(** ** Helpers *)

Definition checkFieldNumber (i : Z) : option unit :=
  doAssert (((0 <? i) && (i <? Z.shiftl 1 29)) && negb ((19000 <=? i) && (i <=? 19999))).

Definition getProtoHeader (index_ : Z) (wire_ : ProtoFieldKind) : Z :=
  Z.lor (wrap 64 (Z.shiftl (wrap 64 index_) 3)) (kind_ord wire_).

(** [pb.buffer.toOpenArray(pb.offset, len(pb.buffer) - 1)]. *)
Definition toOpenArray (pb : ProtoBuffer) : bytes := drop (offset pb) (buffer pb).

Definition isEmpty (pb : ProtoBuffer) : bool := (length (buffer pb) <=? offset pb)%nat.

Definition isEnough (pb : ProtoBuffer) (length_ : Z) : bool :=
  (offset pb <=? length (buffer pb))%nat &&
  (length_ <=? Z.of_nat (length (buffer pb) - offset pb)).

Definition getLen (pb : ProtoBuffer) : Z :=
  Z.of_nat (length (buffer pb)) - Z.of_nat (offset pb).

(** The wire type a scalar is written with. *)
Definition scalar_wire (s : ProtoScalar) : ProtoFieldKind :=
  match s with PInt _ => VarintKind | float32 => Fixed32 | float64 => Fixed64 end.

(** A message field: the variant object [ProtoField], with its index. *)
Inductive ProtoField :=
| FVarint (index_ : Z) (vint : Z)
| FFixed64 (index_ : Z) (vfloat64 : Z)
| FLength (index_ : Z) (vbuffer : bytes)
| FFixed32 (index_ : Z) (vfloat32 : Z)
| FStartGroup (index_ : Z)
| FEndGroup (index_ : Z).

Section Writer.
Context `{Leb128} `{Endians}.

(** The number of bytes a field takes on the wire. *)
Definition vsizeof_field (f : ProtoField) : nat :=
  match f with
  | FVarint i v => vsizeof uint64 (getProtoHeader i VarintKind) + vsizeof uint64 v
  | FFixed64 i _ => vsizeof uint64 (getProtoHeader i Fixed64) + 8
  | FFixed32 i _ => vsizeof uint64 (getProtoHeader i Fixed32) + 4
  | FLength i b =>
      vsizeof uint64 (getProtoHeader i Length) + vsizeof uint64 (Z.of_nat (length b))
      + length b
  | FStartGroup _ | FEndGroup _ => 0
  end.

Definition initProtoBuffer_data (data : bytes) (off : nat) (opts : ProtoFlags) : ProtoBuffer :=
  mkPB opts data off.

(** [uninit n] is the content of [newSeqUninit[byte](n)]. *)
Definition initProtoBuffer (uninit : nat -> bytes) (opts : ProtoFlags) : ProtoBuffer :=
  if WithVarintLength opts then mkPB opts (uninit 10%nat) 10
  else if WithUint32LeLength opts || WithUint32BeLength opts
  then mkPB opts (uninit 4%nat) 4
  else mkPB opts [] 0.

(** [pb.buffer.setLen(len(pb.buffer) + flength)]. *)
Definition grow (pb : ProtoBuffer) (flength : nat) : ProtoBuffer :=
  mkPB (options pb) (set_len 0 (length (buffer pb) + flength) (buffer pb)) (offset pb).

(** [PB.putUVarint(pb.toOpenArray(), length, v)], asserted, then [pb.offset += length]. *)
Definition putAt (k : SomeVarint) (v : Z) (pb : ProtoBuffer) : option ProtoBuffer :=
  doAssert (offset pb <=? length (buffer pb))%nat;;
  let '(res, view, length_) := putUVarint PB k (toOpenArray pb) 0 v in
  doAssert (isOk res);;
  Some (mkPB (options pb) (take (offset pb) (buffer pb) ++ view)
             (offset pb + Z.to_nat length_)).

(** [putSVarint(pb.toOpenArray(), length, v)], asserted, then [pb.offset += length]. *)
Definition putSAt (k : SomeVarint) (v : Z) (pb : ProtoBuffer) : option ProtoBuffer :=
  doAssert (offset pb <=? length (buffer pb))%nat;;
  let '(res, view, length_) := putSVarint k (toOpenArray pb) 0 v in
  doAssert (isOk res);;
  Some (mkPB (options pb) (take (offset pb) (buffer pb) ++ view)
             (offset pb + Z.to_nat length_)).

(** The slice assignment of [bs] at the offset, its room asserted. *)
Definition copyAt (bs : bytes) (pb : ProtoBuffer) : option ProtoBuffer :=
  doAssert (isEnough pb (Z.of_nat (length bs)));;
  Some (mkPB (options pb) (blit (offset pb) bs (buffer pb)) (offset pb + length bs)).

(** The size of a scalar's payload, and its write (the branches shared by [write] and
[writePacked]). *)
Definition scalar_size (s : ProtoScalar) (value : Z) : nat :=
  match s with PInt k => vsizeof k value | float32 => 4 | float64 => 8 end.

Definition putScalar (s : ProtoScalar) (value : Z) (pb : ProtoBuffer) : option ProtoBuffer :=
  match s with
  | PInt k => if is_signed k then putSAt k value pb else putAt k value pb
  | float32 => copyAt (toBytesLE 4 value) pb
  | float64 => copyAt (toBytesLE 8 value) pb
  end.

Definition write (s : ProtoScalar) (pb : ProtoBuffer) (field value : Z) : option ProtoBuffer :=
  checkFieldNumber field;;
  let header := getProtoHeader field (scalar_wire s) in
  pb ← putAt uint64 header (grow pb (vsizeof uint64 header + scalar_size s value));
  putScalar s value pb.

Definition write_bool (pb : ProtoBuffer) (field : Z) (value : bool) : option ProtoBuffer :=
  write (PInt uint64) pb field (if value then 1 else 0).

Definition write_opt_bool (pb : ProtoBuffer) (field : Z) (value : option bool)
    : option ProtoBuffer :=
  match value with Some b => write_bool pb field b | None => Some pb end.

Fixpoint putScalars (s : ProtoScalar) (value : list Z) (pb : ProtoBuffer)
    : option ProtoBuffer :=
  match value with
  | [] => Some pb
  | item :: r => pb ← putScalar s item pb; putScalars s r pb
  end.

Definition writePacked (s : ProtoScalar) (pb : ProtoBuffer) (field : Z) (value : list Z)
    : option ProtoBuffer :=
  checkFieldNumber field;;
  let dlength := foldr (fun item n => (scalar_size s item + n)%nat) O value in
  let header := getProtoHeader field Length in
  let flength :=
    (vsizeof uint64 header + vsizeof uint64 (Z.of_nat dlength) + dlength)%nat in
  pb ← putAt uint64 header (grow pb flength);
  pb ← putAt uint64 (Z.of_nat dlength) pb;
  putScalars s value pb.

Definition write_bytes (pb : ProtoBuffer) (field : Z) (value : bytes) : option ProtoBuffer :=
  checkFieldNumber field;;
  let header := getProtoHeader field Length in
  let n := Z.of_nat (length value) in
  let flength := (vsizeof uint64 header + vsizeof uint64 n + length value)%nat in
  pb ← putAt uint64 header (grow pb flength);
  pb ← putAt uint64 n pb;
  if (0 <? length value)%nat then copyAt value pb else Some pb.

Definition write_message (pb : ProtoBuffer) (field : Z) (value : ProtoBuffer)
    : option ProtoBuffer :=
  write_bytes pb field (buffer value).

Definition finish (pb : ProtoBuffer) : option ProtoBuffer :=
  let n := length (buffer pb) in
  if WithVarintLength (options pb) then
    doAssert (10 <=? n)%nat;;
    let size := Z.of_nat n - 10 in
    let pos := (10 - vsizeof uint size)%nat in
    let '(res, view, _) := putUVarint PB uint (drop pos (take 10 (buffer pb))) 0 size in
    doAssert (isOk res);;
    Some (mkPB (options pb) (take pos (buffer pb) ++ view ++ drop 10 (buffer pb)) pos)
  else if WithUint32BeLength (options pb) then
    doAssert (4 <=? n)%nat;;
    let size := wrap 32 (Z.of_nat n - 4) in
    Some (mkPB (options pb) (blit 0 (toBytesBE 4 size) (buffer pb)) 4)
  else if WithUint32LeLength (options pb) then
    doAssert (4 <=? n)%nat;;
    let size := wrap 32 (Z.of_nat n - 4) in
    Some (mkPB (options pb) (blit 0 (toBytesLE 4 size) (buffer pb)) 4)
  else Some (mkPB (options pb) (buffer pb) 0).

End Writer.

Section Reader.
Context `{Leb128} `{Endians}.

(** [PB.getUVarint(data.toOpenArray(), length, value)], [VarintDecode] on its errors,
[data.offset += length] on success. *)
Definition readUVarint (k : SomeVarint) : reader Z := fun pb =>
  let '(res, length_, value) := getUVarint PB k (toOpenArray pb) in
  if isOk res then (skip length_ ;; mret value) pb else Some (Err VarintDecode, pb).

Definition readSVarint (k : SomeVarint) : reader Z := fun pb =>
  match getSVarint k (toOpenArray pb) 0 with
  | None => None
  | Some (res, length_, value) =>
      if isOk res then (skip length_ ;; mret value) pb else Some (Err VarintDecode, pb)
  end.

Definition getHeader : reader ProtoHeader := fun pb =>
  let '(res, length_, hdr) := getUVarint PB uint64 (toOpenArray pb) in
  if isOk res then
    let index_ := Z.shiftr hdr 3 in
    let wire_ := Z.land hdr 7 in
    if bool_decide (wire_ ∈ SupportedWireTypes)
    then (skip length_ ;; mret (mkHeader (kind_of_wire wire_) index_)) pb
    else Some (Err BadWireType, pb)
  else Some (Err VarintDecode, pb).

(** [if data.isEnough(n): data.offset += n else: err(e)]. *)
Definition skipEnough (n : Z) (e : ProtoError) : reader unit :=
  pb ← get_buffer; if isEnough pb n then skip n else raise e.

Definition skipValue (header : ProtoHeader) : reader unit :=
  match wire header with
  | VarintKind => readUVarint uint64;; mret tt
  | Fixed32 => skipEnough 4 VarintDecode
  | Fixed64 => skipEnough 8 VarintDecode
  | Length => bsize ← readUVarint uint64; skipEnough bsize MessageIncomplete
  | StartGroup | EndGroup => raise BadWireType
  end.

(** [getValue] at a scalar type. *)
Definition getValue (s : ProtoScalar) (header : ProtoHeader) : reader Z :=
  match s with
  | PInt k =>
      assert_reader (bool_decide (wire header = VarintKind));;
      if is_signed k then readSVarint k else readUVarint k
  | float32 =>
      assert_reader (bool_decide (wire header = Fixed32));;
      pb ← get_buffer;
      skipEnough 4 MessageIncomplete;;
      mret (fromBytesLE 4 (toOpenArray pb))
  | float64 =>
      assert_reader (bool_decide (wire header = Fixed64));;
      pb ← get_buffer;
      skipEnough 8 MessageIncomplete;;
      mret (fromBytesLE 8 (toOpenArray pb))
  end.

(** [getValue] into an array: [outBytes] is overwritten from its start, [outLength] is
the size of the field; the field that does not fit is skipped and reported. *)
Definition getValue_array (header : ProtoHeader) (outBytes : bytes)
    : ProtoBuffer -> option (ProtoResult unit * ProtoBuffer * bytes * Z) := fun pb =>
  doAssert (bool_decide (wire header = Length));;
  match readUVarint uint64 pb with
  | None => None
  | Some (Err _, pb) => Some (Err VarintDecode, pb, outBytes, 0)
  | Some (Ok bsize, pb) =>
      if isEnough pb bsize then
        let pb' := mkPB (options pb) (buffer pb) (offset pb + Z.to_nat bsize) in
        if bsize <=? Z.of_nat (length outBytes) then
          let outBytes := blit 0 (take (Z.to_nat bsize) (toOpenArray pb)) outBytes in
          Some (Ok tt, pb', outBytes, bsize)
        else Some (Err BufferOverflow, pb', outBytes, bsize)
      else Some (Err MessageIncomplete, pb, outBytes, 0)
  end.

(** [getValue] into a sequence. *)
Definition getValue_seq (header : ProtoHeader) : reader bytes :=
  assert_reader (bool_decide (wire header = Length));;
  bsize ← readUVarint uint64;
  pb ← get_buffer;
  skipEnough bsize MessageIncomplete;;
  mret (take (Z.to_nat bsize) (toOpenArray pb)).

(** *** Loops

Each loop runs on the bytes that are left, and every iteration consumes at least one, so
[length (buffer pb) + 1] rounds are enough; [None] when they are not. *)

Definition fuel_of (pb : ProtoBuffer) : nat := S (length (buffer pb) - offset pb).

Fixpoint getField_loop (fuel : nat) (s : ProtoScalar) (field : Z) (current : option Z)
    : reader (option Z) := fun pb =>
  match fuel with
  | O => None
  | S fuel =>
      if isEmpty pb then Some (Ok current, pb)
      else
        (header ← getHeader;
         if (index header =? field) && bool_decide (wire header = scalar_wire s)
         then value ← getValue s header; getField_loop fuel s field (Some value)
         else skipValue header;; getField_loop fuel s field current) pb
  end.

(** Returns the result and the final value of [output]. *)
Definition getField (s : ProtoScalar) (data : ProtoBuffer) (field : Z) (output : Z)
    : option (ProtoResult bool * Z) :=
  checkFieldNumber field;;
  '(res, _) ← getField_loop (fuel_of data) s field None data;
  Some match res with
       | Err e => (Err e, output)
       | Ok None => (Ok false, output)
       | Ok (Some current) => (Ok true, current)
       end.

(** The array variant: [output] and [outlen] change as the fields are met, and are
cleared on a critical error. *)
Fixpoint getField_array_loop (fuel : nat) (field : Z) (res : bool) (output : bytes)
    (outlen : Z) (pb : ProtoBuffer) : option (ProtoResult bool * bytes * Z) :=
  match fuel with
  | O => None
  | S fuel =>
      let fail e := Some (Err e, replicate (length output) 0, 0) in
      if isEmpty pb then Some (Ok res, output, outlen)
      else
        match getHeader pb with
        | None => None
        | Some (Err e, _) => fail e
        | Some (Ok header, pb) =>
            if (index header =? field) && bool_decide (wire header = Length) then
              match getValue_array header output pb with
              | None => None
              | Some (Ok _, pb, output, outlen) =>
                  getField_array_loop fuel field true output outlen pb
              | Some (Err BufferOverflow, pb, output, outlen) =>
                  getField_array_loop fuel field res output outlen pb
              | Some (Err e, _, _, _) => fail e
              end
            else
              match skipValue header pb with
              | None => None
              | Some (Err e, _) => fail e
              | Some (Ok _, pb) => getField_array_loop fuel field res output outlen pb
              end
        end
  end.

Definition getField_array (data : ProtoBuffer) (field : Z) (output : bytes)
    : option (ProtoResult bool * bytes * Z) :=
  checkFieldNumber field;;
  getField_array_loop (fuel_of data) field false output 0 data.

Fixpoint getField_seq_loop (fuel : nat) (field : Z) (res : option bytes)
    : reader (option bytes) := fun pb =>
  match fuel with
  | O => None
  | S fuel =>
      if isEmpty pb then Some (Ok res, pb)
      else
        (header ← getHeader;
         if (index header =? field) && bool_decide (wire header = Length)
         then v ← getValue_seq header; getField_seq_loop fuel field (Some v)
         else skipValue header;; getField_seq_loop fuel field res) pb
  end.

(** [output] is cleared on an error, and the last matching field otherwise. *)
Definition getField_seq (data : ProtoBuffer) (field : Z) (output : bytes)
    : option (ProtoResult bool * bytes) :=
  checkFieldNumber field;;
  '(res, _) ← getField_seq_loop (fuel_of data) field None data;
  Some match res with
       | Err e => (Err e, [])
       | Ok None => (Ok false, output)
       | Ok (Some v) => (Ok true, v)
       end.

Definition getField_message (pb : ProtoBuffer) (field : Z) (output : ProtoBuffer)
    : option (ProtoResult bool * ProtoBuffer) :=
  '(res, buf) ← getField_seq pb field [];
  Some match res with
       | Err e => (Err e, output)
       | Ok true => (Ok true, initProtoBuffer_data buf 0 no_flags)
       | Ok false => (Ok false, output)
       end.

Definition getField_bool (pb : ProtoBuffer) (field : Z) (output : bool)
    : option (ProtoResult bool * bool) :=
  '(res, boolValue) ← getField (PInt uint64) pb field 0;
  Some match res with
       | Err e => (Err e, output)
       | Ok true => (Ok true, negb (boolValue =? 0))
       | Ok false => (Ok false, false)
       end.

Definition getField_opt_bool (pb : ProtoBuffer) (field : Z) (output : option bool)
    : option (ProtoResult bool * option bool) :=
  '(res, boolValue) ← getField (PInt uint64) pb field 0;
  Some match res with
       | Err e => (Err e, output)
       | Ok true => (Ok true, Some (negb (boolValue =? 0)))
       | Ok false => (Ok false, None)
       end.

(** [getRequiredField] and [getRequiredRepeatedField], after the field read. *)
Definition required (res : ProtoResult bool) : ProtoResult unit :=
  match res with
  | Err e => Err e
  | Ok true => Ok tt
  | Ok false => Err RequiredFieldMissing
  end.

Definition getRequiredField (s : ProtoScalar) (pb : ProtoBuffer) (field output : Z)
    : option (ProtoResult unit * Z) :=
  '(res, output) ← getField s pb field output; Some (required res, output).

(** A repeated field: the items in order, cleared on an error. *)
Definition repeated {A} (res : ProtoResult (list A)) : ProtoResult bool * list A :=
  match res with
  | Err e => (Err e, [])
  | Ok items => (Ok (0 <? length items)%nat, items)
  end.

Fixpoint getRepeated_seq_loop (fuel : nat) (field : Z) (output : list bytes)
    : reader (list bytes) := fun pb =>
  match fuel with
  | O => None
  | S fuel =>
      if isEmpty pb then Some (Ok output, pb)
      else
        (header ← getHeader;
         if (index header =? field) && bool_decide (wire header = Length)
         then item ← getValue_seq header; getRepeated_seq_loop fuel field (output ++ [item])
         else skipValue header;; getRepeated_seq_loop fuel field output) pb
  end.

Definition getRepeatedField_seq (data : ProtoBuffer) (field : Z)
    : option (ProtoResult bool * list bytes) :=
  checkFieldNumber field;;
  '(res, _) ← getRepeated_seq_loop (fuel_of data) field [] data; Some (repeated res).

Definition is_scalar_wire (k : ProtoFieldKind) : bool :=
  match k with VarintKind | Fixed32 | Fixed64 => true | _ => false end.

(** The wire type is not compared with the type [T] before [getValue]. *)
Fixpoint getRepeated_loop (fuel : nat) (s : ProtoScalar) (field : Z) (output : list Z)
    : reader (list Z) := fun pb =>
  match fuel with
  | O => None
  | S fuel =>
      if isEmpty pb then Some (Ok output, pb)
      else
        (header ← getHeader;
         if (index header =? field) && is_scalar_wire (wire header)
         then item ← getValue s header; getRepeated_loop fuel s field (output ++ [item])
         else skipValue header;; getRepeated_loop fuel s field output) pb
  end.

Definition getRepeatedField (s : ProtoScalar) (data : ProtoBuffer) (field : Z)
    : option (ProtoResult bool * list Z) :=
  checkFieldNumber field;;
  '(res, _) ← getRepeated_loop (fuel_of data) s field [] data; Some (repeated res).

Definition getRequiredRepeatedField (s : ProtoScalar) (pb : ProtoBuffer) (field : Z)
    : option (ProtoResult unit * list Z) :=
  '(res, output) ← getRepeatedField s pb field; Some (required res, output).

Fixpoint packed_items_loop (fuel : nat) (s : ProtoScalar) (output : list Z)
    : reader (list Z) := fun pb =>
  match fuel with
  | O => None
  | S fuel =>
      if isEmpty pb then Some (Ok output, pb)
      else
        (item ← getValue s (mkHeader (scalar_wire s) 0);
         packed_items_loop fuel s (output ++ [item])) pb
  end.

(** The items of one packed field, decoded from a buffer of their own. *)
Definition packed_items (s : ProtoScalar) (arritem : bytes) (output : list Z)
    : reader (list Z) := fun pb =>
  let pbarr := initProtoBuffer_data arritem 0 no_flags in
  '(res, _) ← packed_items_loop (fuel_of pbarr) s output pbarr; Some (res, pb).

Fixpoint getPacked_loop (fuel : nat) (s : ProtoScalar) (field : Z) (output : list Z)
    : reader (list Z) := fun pb =>
  match fuel with
  | O => None
  | S fuel =>
      if isEmpty pb then Some (Ok output, pb)
      else
        (header ← getHeader;
         if (index header =? field) && bool_decide (wire header = Length)
         then
           arritem ← getValue_seq header;
           output ← packed_items s arritem output;
           getPacked_loop fuel s field output
         else skipValue header;; getPacked_loop fuel s field output) pb
  end.

Definition getPackedRepeatedField (s : ProtoScalar) (data : ProtoBuffer) (field : Z)
    : option (ProtoResult bool * list Z) :=
  checkFieldNumber field;;
  '(res, _) ← getPacked_loop (fuel_of data) s field [] data; Some (repeated res).

End Reader.

(** ** Specification: a message as a list of wire fields *)

Inductive wire_value :=
| WVarint (v : Z) | WFixed64 (v : Z) | WBytes (bs : bytes) | WFixed32 (v : Z).

Definition wire_kind (v : wire_value) : ProtoFieldKind :=
  match v with
  | WVarint _ => VarintKind | WFixed64 _ => Fixed64 | WBytes _ => Length | WFixed32 _ => Fixed32
  end.

Definition wire_value_ok (v : wire_value) : Prop :=
  match v with
  | WVarint v | WFixed64 v => uint_ok 64 v
  | WBytes bs => uint_ok 64 (Z.of_nat (length bs))
  | WFixed32 v => uint_ok 32 v
  end.

Abbreviation wire_field := (Z * wire_value)%type.

Definition wire_field_ok (f : wire_field) : Prop :=
  0 <= fst f < 2 ^ 61 /\ wire_value_ok (snd f).

(** What a reader makes of a wire value of its own wire type: a varint must fit the type. *)
Definition decode_scalar (s : ProtoScalar) (v : wire_value) : ProtoResult Z :=
  match s, v with
  | PInt k, WVarint v =>
      if v <? 2 ^ width k
      then match (if is_signed k then fromUleb v k else Some v) with
           | Some x => Ok x | None => Err VarintDecode end
      else Err VarintDecode
  | float32, WFixed32 v => Ok v
  | float64, WFixed64 v => Ok v
  | _, _ => Err BadWireType
  end.

Definition matches (k : ProtoFieldKind) (field : Z) (f : wire_field) : Prop :=
  fst f = field /\ wire_kind (snd f) = k.

#[export] Instance matches_dec k field f : Decision (matches k field f).
Proof. unfold matches. apply _. Defined.

(** The values of a field, in order: fields of other numbers or wire types are ignored. *)
Definition field_values (s : ProtoScalar) (field : Z) (fs : list wire_field)
    : ProtoResult (list Z) :=
  mapM (decode_scalar s ∘ snd) (filter (matches (scalar_wire s) field) fs).

Definition payload_bytes (v : wire_value) : bytes :=
  match v with WBytes bs => bs | _ => [] end.

Definition field_bytes (field : Z) (fs : list wire_field) : list bytes :=
  (payload_bytes ∘ snd) <$> filter (matches Length field) fs.

(** The value a scalar is written as. *)
Definition encode_scalar (s : ProtoScalar) (x : Z) : wire_value :=
  match s with
  | PInt k => WVarint (toUleb k x) | float32 => WFixed32 x | float64 => WFixed64 x
  end.

Definition scalar_ok (s : ProtoScalar) (x : Z) : Prop :=
  scalar_type s = true /\
  match s with PInt k => value_ok k x | float32 => uint_ok 32 x | float64 => uint_ok 64 x end.

Definition field_number_ok (field : Z) : Prop :=
  0 < field < 2 ^ 29 /\ ~ (19000 <= field <= 19999).

(** The types for which the source has a signed decoder. *)
Definition decodable (s : ProtoScalar) : Prop := s <> PInt hint /\ s <> PInt zint.

(** One write of a program: a scalar of a type, or a byte sequence. *)
Inductive write_op :=
| OpScalar (s : ProtoScalar) (field x : Z)
| OpBytes (field : Z) (bs : bytes).

Definition write_op_ok (w : write_op) : Prop :=
  match w with
  | OpScalar s field x => field_number_ok field /\ scalar_ok s x
  | OpBytes field bs => field_number_ok field /\ Z.of_nat (length bs) < 2 ^ 63
  end.

Definition op_field (w : write_op) : Z :=
  match w with OpScalar _ field _ | OpBytes field _ => field end.

Definition op_wire (w : write_op) : wire_field :=
  match w with
  | OpScalar s field x => (field, encode_scalar s x)
  | OpBytes field bs => (field, WBytes bs)
  end.

Section SpecEncoding.
Context `{Leb128} `{Endians}.

Definition wire_payload (v : wire_value) : bytes :=
  match v with
  | WVarint v => leb_toBytes v
  | WFixed64 v => toBytesLE 8 v
  | WBytes bs => leb_toBytes (Z.of_nat (length bs)) ++ bs
  | WFixed32 v => toBytesLE 4 v
  end.

Definition wire_bytes (f : wire_field) : bytes :=
  leb_toBytes (getProtoHeader (fst f) (wire_kind (snd f))) ++ wire_payload (snd f).

Definition wire_message (fs : list wire_field) : bytes := mjoin (wire_bytes <$> fs).

Definition run_write (pb : ProtoBuffer) (w : write_op) : option ProtoBuffer :=
  match w with
  | OpScalar s field x => write s pb field x
  | OpBytes field bs => write_bytes pb field bs
  end.

Fixpoint run_writes (pb : ProtoBuffer) (ws : list write_op) : option ProtoBuffer :=
  match ws with
  | [] => Some pb
  | w :: r => pb ← run_write pb w; run_writes pb r
  end.

End SpecEncoding.

(** ** Lemmas on headers *)

Lemma kind_ord_bound k : 0 <= kind_ord k < 8.
Proof. destruct k; simpl; lia. Qed.

Lemma kind_of_wire_ord k : kind_of_wire (kind_ord k) = k.
Proof. by destruct k. Qed.

Lemma getProtoHeader_split i k : 0 <= i < 2 ^ 61 ->
  Z.shiftr (getProtoHeader i k) 3 = i /\ Z.land (getProtoHeader i k) 7 = kind_ord k.
Proof.
  intros Hi. pose proof (kind_ord_bound k). unfold getProtoHeader.
  rewrite (wrap_small 64 i) by (unfold uint_ok; revert Hi; pow2; lia).
  rewrite wrap_small
    by (unfold uint_ok; rewrite Z.shiftl_mul_pow2 by lia; revert Hi; pow2; lia).
  split.
  - rewrite Z.shiftr_lor, Z.shiftr_shiftl_l, Z.shiftl_0_r by lia.
    rewrite (Z.shiftr_div_pow2 (kind_ord k)), Z.div_small by (simpl; lia).
    apply Z.lor_0_r.
  - rewrite Z.land_lor_distr_l. change 7 with (Z.ones 3). rewrite !Z.land_ones by lia.
    rewrite Z.shiftl_mul_pow2, Z.mod_mul by (simpl; lia).
    by rewrite Z.mod_small by (simpl; lia).
Qed.

Lemma getProtoHeader_ok i k : 0 <= i < 2 ^ 61 -> uint_ok 64 (getProtoHeader i k).
Proof.
  intros Hi. destruct (getProtoHeader_split i k Hi) as [Hs Hl].
  pose proof (kind_ord_bound k). change 7 with (Z.ones 3) in Hl.
  rewrite Z.land_ones in Hl by lia. rewrite Z.shiftr_div_pow2 in Hs by lia.
  pose proof (Z.div_mod (getProtoHeader i k) (2 ^ 3)) as Hd. rewrite Hl, Hs in Hd.
  unfold uint_ok. revert Hi Hd. pow2. lia.
Qed.

Lemma field_number_check field : field_number_ok field -> checkFieldNumber field = Some tt.
Proof.
  intros [Hf Hr]. unfold checkFieldNumber, doAssert.
  rewrite (proj2 (Z.ltb_lt _ _)) by lia. change (Z.shiftl 1 29) with (2 ^ 29).
  rewrite (proj2 (Z.ltb_lt _ _)) by lia.
  destruct (Z.leb_spec 19000 field), (Z.leb_spec field 19999); simpl; done || lia.
Qed.

Lemma field_number_range field : field_number_ok field -> 0 <= field < 2 ^ 61.
Proof. intros [Hf _]. revert Hf. pow2. lia. Qed.

Lemma decode_encode_scalar s x : scalar_ok s x -> decodable s ->
  decode_scalar s (encode_scalar s x) = Ok x.
Proof.
  intros [Ht Hx] [Hh Hz]. destruct s as [k| |]; try done. simpl in *.
  pose proof (toUleb_ok k x Hx) as Hu. unfold uint_ok in Hu.
  rewrite (proj2 (Z.ltb_lt _ _)) by lia.
  destruct (is_signed k) eqn:Es.
  - destruct (fromUleb (toUleb k x) k) as [v|] eqn:E.
    + by rewrite (fromUleb_toUleb k x v Hx E).
    + by destruct k.
  - by destruct k.
Qed.

Lemma encode_scalar_kind s x : wire_kind (encode_scalar s x) = scalar_wire s.
Proof. by destruct s. Qed.

Lemma op_wire_field w : fst (op_wire w) = op_field w.
Proof. by destruct w. Qed.

Lemma scalar_ok_wire s x : scalar_ok s x -> wire_value_ok (encode_scalar s x).
Proof.
  intros [Ht Hx]. destruct s as [k| |]; try done. simpl in *.
  pose proof (toUleb_ok k x Hx) as Hu. unfold uint_ok in *.
  destruct k; try done; simpl in *; revert Hu; pow2; lia.
Qed.

Lemma op_wire_ok w : write_op_ok w -> wire_field_ok (op_wire w).
Proof.
  destruct w as [s field x|field bs]; simpl; intros [Hf Hx]; split; simpl;
    try (by apply field_number_range).
  - by apply scalar_ok_wire.
  - unfold uint_ok. revert Hx. pow2. lia.
Qed.

(** ** Reading what was written *)

Section ReaderFacts.
Context `{Leb128} `{Endians}.
Implicit Types (pre rest : bytes) (pb : ProtoBuffer) (o : ProtoFlags).

(** A buffer whose unread part is [rest]. *)
Definition at_ (o : ProtoFlags) (pre rest : bytes) : ProtoBuffer :=
  mkPB o (pre ++ rest) (length pre).

Lemma at_unread o pre rest : toOpenArray (at_ o pre rest) = rest.
Proof. apply drop_app_length. Qed.

Lemma at_skip o pre n rest : skip (Z.of_nat (length n)) (at_ o pre (n ++ rest)) =
  Some (Ok tt, at_ o (pre ++ n) rest).
Proof. unfold skip, at_. cbn. by rewrite Nat2Z.id, length_app, app_assoc. Qed.

Lemma at_enough o pre rest n : isEnough (at_ o pre rest) n = (n <=? Z.of_nat (length rest)).
Proof.
  unfold isEnough, at_. cbn. rewrite (proj2 (Nat.leb_le _ _)) by (rewrite length_app; lia).
  simpl. do 2 f_equal. rewrite length_app. lia.
Qed.

Lemma at_empty o pre rest : isEmpty (at_ o pre rest) = bool_decide (rest = []).
Proof.
  unfold isEmpty, at_. cbn. rewrite length_app. destruct rest; simpl.
  - by rewrite (proj2 (Nat.leb_le _ _)) by lia.
  - by rewrite (proj2 (Nat.leb_gt _ _)) by lia.
Qed.

#[local] Arguments skip : simpl never.
#[local] Arguments at_ : simpl never.

Lemma bind_ok {A B} (m : reader A) (f : A -> reader B) pb a pb' :
  m pb = Some (Ok a, pb') -> (m ≫= f) pb = f a pb'.
Proof. unfold mbind, reader_bind. by intros ->. Qed.

Lemma bind_err {A B} (m : reader A) (f : A -> reader B) pb e pb' :
  m pb = Some (Err e, pb') -> (m ≫= f) pb = Some (Err e, pb').
Proof. unfold mbind, reader_bind. by intros ->. Qed.

Lemma bind_assert {B} b (f : unit -> reader B) pb :
  b = true -> (assert_reader b ≫= f) pb = f tt pb.
Proof. by intros ->. Qed.

Lemma bind_buffer {B} (f : ProtoBuffer -> reader B) pb : (get_buffer ≫= f) pb = f pb pb.
Proof. done. Qed.

Lemma readUVarint_at k o pre v rest : is_signed k = false -> uint_ok (width k) v ->
  readUVarint k (at_ o pre (leb_toBytes v ++ rest)) =
    Some (Ok v, at_ o (pre ++ leb_toBytes v) rest).
Proof.
  intros Hk Hv. unfold readUVarint. rewrite at_unread, getUVarint_toBytes by done.
  cbn [isOk]. by rewrite (bind_ok _ _ _ _ _ (at_skip _ _ _ _)).
Qed.

Lemma getUVarint_overflow T k v rest : is_signed k = false -> 0 <= v -> 2 ^ width k <= v ->
  getUVarint T k (leb_toBytes v ++ rest) = (Err Overflow, 0, 0).
Proof.
  intros Hk Hv0 Hv. unfold getUVarint.
  pose proof (leb_fromBytes_overflow (width k) (leb_toBytes v) rest (width_cases k)
    (leb_toBytes_group v Hv0)) as Hs.
  rewrite leb_toBytes_value in Hs by done. specialize (Hs Hv).
  destruct (leb_fromBytes _ _). simpl in Hs.
  by rewrite (proj2 (Z.eqb_neq _ _)), (proj2 (Z.ltb_lt _ _)) by lia.
Qed.

Lemma getHeader_at o pre i k rest : 0 <= i < 2 ^ 61 -> kind_ord k ∈ SupportedWireTypes ->
  getHeader (at_ o pre (leb_toBytes (getProtoHeader i k) ++ rest)) =
    Some (Ok (mkHeader k i), at_ o (pre ++ leb_toBytes (getProtoHeader i k)) rest).
Proof.
  intros Hi Hk. destruct (getProtoHeader_split i k Hi) as [Hs Hl].
  unfold getHeader. rewrite at_unread, getUVarint_toBytes
    by (try done; by apply getProtoHeader_ok).
  cbn [isOk]. rewrite Hs, Hl, bool_decide_true by done.
  by rewrite (bind_ok _ _ _ _ _ (at_skip _ _ _ _)), kind_of_wire_ord.
Qed.

Lemma wire_kind_supported v : kind_ord (wire_kind v) ∈ SupportedWireTypes.
Proof. unfold SupportedWireTypes. rewrite !elem_of_cons. destruct v; simpl; auto. Qed.

Lemma skipEnough_at o pre bs rest e n : n = Z.of_nat (length bs) ->
  skipEnough n e (at_ o pre (bs ++ rest)) = Some (Ok tt, at_ o (pre ++ bs) rest).
Proof.
  intros ->. unfold skipEnough. rewrite bind_buffer, at_enough.
  rewrite (proj2 (Z.leb_le _ _)) by (rewrite length_app; lia). apply at_skip.
Qed.

Lemma skipValue_at o pre v i rest : wire_value_ok v ->
  skipValue (mkHeader (wire_kind v) i) (at_ o pre (wire_payload v ++ rest)) =
    Some (Ok tt, at_ o (pre ++ wire_payload v) rest).
Proof.
  destruct v as [v|v|bs|v]; cbn [wire_value_ok wire_payload wire_kind]; intros Hv;
    unfold skipValue; cbn [wire].
  - by rewrite (bind_ok _ _ _ _ _ (readUVarint_at uint64 o pre v rest eq_refl Hv)).
  - apply skipEnough_at. by rewrite toBytesLE_length.
  - rewrite <- app_assoc, (bind_ok _ _ _ _ _ (readUVarint_at uint64 o pre _ _ eq_refl Hv)).
    by rewrite skipEnough_at, app_assoc.
  - apply skipEnough_at. by rewrite toBytesLE_length.
Qed.

Lemma readInt_at k o pre v rest : decodable (PInt k) -> 0 <= v ->
  exists r pb, (if is_signed k then readSVarint k else readUVarint k)
      (at_ o pre (leb_toBytes v ++ rest)) = Some (r, pb) /\
    decode_scalar (PInt k) (WVarint v) = r /\
    (isOk r = true -> pb = at_ o (pre ++ leb_toBytes v) rest).
Proof.
  intros [Hh Hz] Hv0. cbn [decode_scalar]. destruct (is_signed k) eqn:Es.
  - set (kv := if width k =? 64 then uint64 else uint32).
    assert (Hkv : width kv = width k) by (by destruct k).
    assert (Hskv : is_signed kv = false) by (by destruct k).
    unfold readSVarint, getSVarint. fold kv. rewrite at_unread.
    destruct (Z.ltb_spec v (2 ^ width k)) as [Hlt|Hge].
    + rewrite getUVarint_toBytes by (try done; unfold uint_ok; rewrite Hkv; lia).
      cbn [isOk]. destruct (fromUleb v k) as [x|] eqn:Ef; [|by destruct k].
      cbn [mbind option_bind isOk]. rewrite (bind_ok _ _ _ _ _ (at_skip _ _ _ _)).
      do 2 eexists. split; [done|]. by split.
    + rewrite getUVarint_overflow by (try done; rewrite Hkv; lia). cbn [isOk].
      do 2 eexists. split; [done|]. by split.
  - unfold readUVarint. rewrite at_unread.
    destruct (Z.ltb_spec v (2 ^ width k)) as [Hlt|Hge].
    + rewrite getUVarint_toBytes by (try done; unfold uint_ok; lia).
      cbn [isOk]. rewrite (bind_ok _ _ _ _ _ (at_skip _ _ _ _)).
      do 2 eexists. split; [done|]. by split.
    + rewrite getUVarint_overflow by (try done; lia). cbn [isOk].
      do 2 eexists. split; [done|]. by split.
Qed.

Lemma getValue_at s o pre v i rest : decodable s -> wire_value_ok v ->
  wire_kind v = scalar_wire s ->
  exists r pb, getValue s (mkHeader (wire_kind v) i) (at_ o pre (wire_payload v ++ rest)) =
      Some (r, pb) /\
    decode_scalar s v = r /\ (isOk r = true -> pb = at_ o (pre ++ wire_payload v) rest).
Proof.
  intros Hd Hv Hk. unfold getValue.
  destruct s as [k| |]; destruct v as [v|v|bs|v]; try done; cbn [wire wire_kind wire_payload];
    rewrite bind_assert by (by apply bool_decide_true).
  - apply readInt_at; [done|]. apply Hv.
  - rewrite bind_buffer. rewrite (bind_ok _ _ _ tt (at_ o (pre ++ toBytesLE 4 v) rest))
      by (apply skipEnough_at; by rewrite toBytesLE_length).
    rewrite at_unread, fromBytesLE_toBytesLE by done. do 2 eexists. by split.
  - rewrite bind_buffer. rewrite (bind_ok _ _ _ tt (at_ o (pre ++ toBytesLE 8 v) rest))
      by (apply skipEnough_at; by rewrite toBytesLE_length).
    rewrite at_unread, fromBytesLE_toBytesLE by done. do 2 eexists. by split.
Qed.

Lemma getValue_seq_at o pre bs i rest : uint_ok 64 (Z.of_nat (length bs)) ->
  getValue_seq (mkHeader Length i) (at_ o pre (wire_payload (WBytes bs) ++ rest)) =
    Some (Ok bs, at_ o (pre ++ wire_payload (WBytes bs)) rest).
Proof.
  intros Hb. unfold getValue_seq. cbn [wire_payload wire]. rewrite <- app_assoc.
  rewrite bind_assert by done.
  rewrite (bind_ok _ _ _ _ _ (readUVarint_at uint64 o pre _ _ eq_refl Hb)), bind_buffer.
  rewrite (bind_ok _ _ _ _ _ (skipEnough_at _ _ _ _ _ _ eq_refl)).
  by rewrite at_unread, Nat2Z.id, take_app_length, app_assoc.
Qed.

Lemma wire_bytes_length f : (1 <= length (wire_bytes f))%nat.
Proof.
  unfold wire_bytes. rewrite length_app.
  pose proof (toBytes_nonempty (getProtoHeader (fst f) (wire_kind (snd f)))).
  assert (0 <= getProtoHeader (fst f) (wire_kind (snd f))); [|lia].
  unfold getProtoHeader. apply Z.lor_nonneg. split; [apply Z.mod_pos_bound; lia|].
  apply kind_ord_bound.
Qed.

Lemma wire_message_cons f fs : wire_message (f :: fs) = wire_bytes f ++ wire_message fs.
Proof. done. Qed.

Lemma first_not_empty o pre f rest : isEmpty (at_ o pre (wire_bytes f ++ rest)) = false.
Proof.
  rewrite at_empty. apply bool_decide_false. intros [E _]%app_nil.
  pose proof (wire_bytes_length f) as Hl. rewrite E in Hl. simpl in Hl. lia.
Qed.

(** The header of a message's first field. *)
Lemma first_header_at {A} (K : ProtoHeader -> reader A) o pre i v rest :
  wire_field_ok (i, v) ->
  (header ← getHeader; K header) (at_ o pre (wire_bytes (i, v) ++ rest)) =
    K (mkHeader (wire_kind v) i)
      (at_ o (pre ++ leb_toBytes (getProtoHeader i (wire_kind v))) (wire_payload v ++ rest)).
Proof.
  intros [Hi Hv]. unfold wire_bytes. cbn [fst snd]. rewrite <- app_assoc.
  by rewrite (bind_ok _ _ _ _ _ (getHeader_at _ _ _ _ _ Hi (wire_kind_supported v))).
Qed.

Lemma not_matches_test k field i v : ~ matches k field (i, v) ->
  (i =? field) && bool_decide (wire_kind v = k) = false.
Proof.
  intros Hm. destruct (Z.eqb_spec i field); [|done]. rewrite bool_decide_false; [done|].
  intros ?. by apply Hm.
Qed.

(** The three loops, run over the encoding of a message. *)
Lemma getField_loop_message fuel s field cur o pre fs :
  decodable s -> Forall wire_field_ok fs -> (length (wire_message fs) < fuel)%nat ->
  exists pb, getField_loop fuel s field cur (at_ o pre (wire_message fs)) =
    Some (vs ← field_values s field fs; Ok (last (option_list cur ++ vs)), pb).
Proof.
  intros Hd. revert fuel cur pre.
  induction fs as [|[i v] fs IH]; intros fuel cur pre Hfs Hf;
    (destruct fuel as [|fuel]; [simpl in Hf; lia|]); cbn [getField_loop].
  { rewrite at_empty. eexists. by destruct cur. }
  apply Forall_cons in Hfs as [Hiv Hfs]. rewrite wire_message_cons in *.
  pose proof (wire_bytes_length (i, v)). rewrite length_app in Hf.
  rewrite first_not_empty, first_header_at by done. cbn [index wire].
  unfold field_values. rewrite filter_cons.
  destruct (decide (matches (scalar_wire s) field (i, v))) as [[Hm1 Hm2]|Hm].
  - cbn [fst snd] in Hm1, Hm2. subst i. rewrite Z.eqb_refl, bool_decide_true by done.
    cbn [andb mapM compose snd]. destruct Hiv as [Hi Hv].
    edestruct getValue_at as (r & pb & Hg & -> & Hpb); [done..|].
    destruct r as [x|e]; [|rewrite (bind_err _ _ _ _ _ Hg); eauto].
    rewrite (bind_ok _ _ _ _ _ Hg), (Hpb eq_refl).
    edestruct (IH fuel (Some x)) as [pb' ->]; [done|lia|]. exists pb'. f_equal. f_equal.
    unfold field_values. cbn -[mapM]. destruct (mapM _ _); [|done].
    cbn. by destruct cur.
  - rewrite not_matches_test by done.
    rewrite (bind_ok _ _ _ _ _ (skipValue_at _ _ _ _ _ (proj2 Hiv))). apply IH; [done|lia].
Qed.

Lemma getField_seq_loop_message fuel field cur o pre fs :
  Forall wire_field_ok fs -> (length (wire_message fs) < fuel)%nat ->
  exists pb, getField_seq_loop fuel field cur (at_ o pre (wire_message fs)) =
    Some (Ok (last (option_list cur ++ field_bytes field fs)), pb).
Proof.
  revert fuel cur pre.
  induction fs as [|[i v] fs IH]; intros fuel cur pre Hfs Hf;
    (destruct fuel as [|fuel]; [simpl in Hf; lia|]); cbn [getField_seq_loop].
  { rewrite at_empty. eexists. by destruct cur. }
  apply Forall_cons in Hfs as [Hiv Hfs]. rewrite wire_message_cons in *.
  pose proof (wire_bytes_length (i, v)). rewrite length_app in Hf.
  rewrite first_not_empty, first_header_at by done. cbn [index wire].
  unfold field_bytes. rewrite filter_cons.
  destruct (decide (matches Length field (i, v))) as [[Hm1 Hm2]|Hm].
  - cbn [fst snd] in Hm1, Hm2. subst i. destruct v as [v|v|bs|v]; try done.
    rewrite Z.eqb_refl, bool_decide_true by done. cbn [andb wire_kind].
    rewrite (bind_ok _ _ _ _ _ (getValue_seq_at _ _ _ _ _ (proj2 Hiv))).
    edestruct (IH fuel (Some bs)) as [pb' ->]; [done|lia|]. exists pb'.
    by destruct cur.
  - rewrite not_matches_test by done.
    rewrite (bind_ok _ _ _ _ _ (skipValue_at _ _ _ _ _ (proj2 Hiv))). apply IH; [done|lia].
Qed.

Lemma getRepeated_seq_loop_message fuel field out o pre fs :
  Forall wire_field_ok fs -> (length (wire_message fs) < fuel)%nat ->
  exists pb, getRepeated_seq_loop fuel field out (at_ o pre (wire_message fs)) =
    Some (Ok (out ++ field_bytes field fs), pb).
Proof.
  revert fuel out pre.
  induction fs as [|[i v] fs IH]; intros fuel out pre Hfs Hf;
    (destruct fuel as [|fuel]; [simpl in Hf; lia|]); cbn [getRepeated_seq_loop].
  { rewrite at_empty. rewrite app_nil_r. eauto. }
  apply Forall_cons in Hfs as [Hiv Hfs]. rewrite wire_message_cons in *.
  pose proof (wire_bytes_length (i, v)). rewrite length_app in Hf.
  rewrite first_not_empty, first_header_at by done. cbn [index wire].
  unfold field_bytes. rewrite filter_cons.
  destruct (decide (matches Length field (i, v))) as [[Hm1 Hm2]|Hm].
  - cbn [fst snd] in Hm1, Hm2. subst i. destruct v as [v|v|bs|v]; try done.
    rewrite Z.eqb_refl, bool_decide_true by done. cbn [andb wire_kind].
    rewrite (bind_ok _ _ _ _ _ (getValue_seq_at _ _ _ _ _ (proj2 Hiv))).
    edestruct (IH fuel (out ++ [bs])) as [pb' ->]; [done|lia|]. exists pb'.
    by rewrite <- app_assoc.
  - rewrite not_matches_test by done.
    rewrite (bind_ok _ _ _ _ _ (skipValue_at _ _ _ _ _ (proj2 Hiv))). apply IH; [done|lia].
Qed.

Lemma fuel_of_at o pre rest : (length rest < fuel_of (at_ o pre rest))%nat.
Proof. unfold fuel_of, at_. cbn. rewrite length_app. lia. Qed.

(** ** Totality on arbitrary input *)

Definition valid_buffer (pb : ProtoBuffer) : Prop :=
  bytes_ok (buffer pb) /\ (offset pb <= length (buffer pb))%nat.

(** A reader that cannot fail an assertion, never moves backwards and, when it succeeds,
consumes at least [n] bytes of a buffer it leaves unchanged. *)
Definition consumes {A} (n : nat) (m : reader A) : Prop := forall pb,
  valid_buffer pb -> exists r pb', m pb = Some (r, pb') /\
    buffer pb' = buffer pb /\ valid_buffer pb' /\
    (offset pb <= offset pb')%nat /\ (isOk r = true -> (offset pb + n <= offset pb')%nat).

Ltac consumed := eexists _, _; split; [done|]; split_and!; try done; try (intros _; lia).

Lemma consumes_bind {A B} n k (m : reader A) (f : A -> reader B) :
  consumes n m -> (forall a, consumes k (f a)) -> consumes (n + k) (m ≫= f).
Proof.
  intros Hm Hf pb Hpb. destruct (Hm pb Hpb) as (r & pb1 & E & Hb & Hl & Ho & Hn).
  destruct r as [a|e].
  - rewrite (bind_ok _ _ _ _ _ E). specialize (Hn eq_refl).
    destruct (Hf a pb1 Hl) as (r & pb2 & -> & Hb2 & Hl2 & Ho2 & Hn2).
    consumed; [congruence|lia|]. intros Hr. specialize (Hn2 Hr). lia.
  - rewrite (bind_err _ _ _ _ _ E). consumed.
Qed.

Lemma consumes_weaken {A} n k (m : reader A) : consumes n m -> (k <= n)%nat -> consumes k m.
Proof.
  intros Hm Hk pb Hpb. destruct (Hm pb Hpb) as (r & pb1 & E & Hb & Hl & Ho & Hn).
  eexists _, _. split; [done|]. split_and!; [done..|]. intros Hr. specialize (Hn Hr). lia.
Qed.

Lemma consumes_ret {A} (a : A) : consumes 0 (mret a).
Proof. intros pb Hpb. consumed. Qed.

Lemma consumes_raise {A} n e : consumes n (raise e : reader A).
Proof. intros pb Hpb. consumed. Qed.

Lemma consumes_assert b : b = true -> consumes 0 (assert_reader b).
Proof. intros -> pb Hpb. consumed. Qed.

Lemma consumes_buffer {B} n (f : ProtoBuffer -> reader B) :
  (forall pb, consumes n (f pb)) -> consumes n (get_buffer ≫= f).
Proof. intros Hf pb. apply (Hf pb pb). Qed.

Lemma consumes_skipEnough n e : 0 <= n -> consumes (Z.to_nat n) (skipEnough n e).
Proof.
  intros Hn pb [Hb Hpb]. unfold skipEnough. rewrite bind_buffer.
  destruct (isEnough pb n) eqn:E; [|by consumed].
  unfold isEnough in E. apply andb_true_iff in E as [E1 E2]. zbool; [|done].
  unfold skip. consumed; cbn; [|lia]. split; cbn; [done|lia].
Qed.

Lemma skip_varint {A} T k (v : A) pb out x : is_signed k = false -> valid_buffer pb ->
  getUVarint T k (toOpenArray pb) = (Ok tt, out, x) -> 0 <= x /\
  exists pb', (skip out;; mret v) pb = Some (Ok v, pb') /\ buffer pb' = buffer pb /\
    valid_buffer pb' /\ (offset pb + 1 <= offset pb')%nat.
Proof.
  intros Hk [Hb Hpb] E.
  assert (Hd : bytes_ok (toOpenArray pb)) by (by apply Forall_drop).
  destruct (getUVarint_Ok _ _ _ _ _ Hk Hd E) as (Hx & _ & -> & rest & Hr).
  assert (Hx0 : 0 <= x) by apply Hx. split; [done|].
  pose proof (toBytes_nonempty x Hx0) as Hne.
  assert (Hl : length (toOpenArray pb) = length (leb_toBytes x ++ rest)) by (by rewrite Hr).
  unfold toOpenArray in Hl. rewrite length_drop, length_app in Hl.
  eexists. split; [done|]. cbn. split_and!; [done| |lia]. split; cbn; [done|lia].
Qed.

Lemma consumes_readUVarint k : is_signed k = false -> consumes 1 (readUVarint k).
Proof.
  intros Hk pb Hpb. unfold readUVarint.
  destruct (getUVarint PB k (toOpenArray pb)) as [[[[]|e] out] x] eqn:E; [|by consumed].
  destruct (skip_varint PB k x pb out x Hk Hpb E) as (_ & pb' & Hs & ? & ? & ?).
  cbn [isOk]. rewrite Hs. consumed. lia.
Qed.

Lemma consumes_readSVarint k : decodable (PInt k) -> is_signed k = true ->
  consumes 1 (readSVarint k).
Proof.
  intros [Hh Hz] Hk pb Hpb. unfold readSVarint, getSVarint.
  set (kv := if width k =? 64 then uint64 else uint32).
  destruct (getUVarint PB kv (toOpenArray pb)) as [[[[]|e] out] x] eqn:E;
    cbn [isOk mbind option_bind]; [|by consumed].
  destruct (fromUleb x k) as [v|] eqn:Ef; [|by destruct k]. cbn [mbind option_bind isOk].
  assert (Hkv : is_signed kv = false) by (by destruct k).
  destruct (skip_varint PB kv v pb out x Hkv Hpb E) as (_ & pb' & Hs & ? & ? & ?).
  rewrite Hs. consumed. lia.
Qed.

(** A size read from the wire, used by the rest of the reader. *)
Lemma consumes_size {B} (f : Z -> reader B) :
  (forall n, 0 <= n -> consumes 0 (f n)) -> consumes 1 (readUVarint uint64 ≫= f).
Proof.
  intros Hf pb Hpb.
  destruct (consumes_readUVarint uint64 eq_refl pb Hpb) as (r & pb1 & E & Hb & Hl & Ho & Hn).
  destruct r as [n|e]; [|rewrite (bind_err _ _ _ _ _ E); by consumed].
  assert (Hn0 : 0 <= n).
  { unfold readUVarint in E.
    destruct (getUVarint PB uint64 (toOpenArray pb)) as [[[[]|e] out] x] eqn:Eg; [|done].
    destruct (skip_varint PB uint64 x pb out x eq_refl Hpb Eg) as (? & pb' & Hs & _).
    cbn [isOk] in E. rewrite Hs in E. by simplify_eq. }
  specialize (Hn eq_refl). rewrite (bind_ok _ _ _ _ _ E).
  destruct (Hf n Hn0 pb1 Hl) as (r & pb2 & -> & Hb2 & Hl2 & Ho2 & _).
  consumed; [congruence|lia].
Qed.

Lemma consumes_getHeader : consumes 1 getHeader.
Proof.
  intros pb Hpb. unfold getHeader.
  destruct (getUVarint PB uint64 (toOpenArray pb)) as [[[[]|e] out] x] eqn:E;
    cbn [isOk]; [|by consumed].
  case_bool_decide; [|by consumed].
  destruct (skip_varint PB uint64 (mkHeader (kind_of_wire (Z.land x 7)) (Z.shiftr x 3))
    pb out x eq_refl Hpb E) as (_ & pb' & Hs & ? & ? & ?).
  rewrite Hs. consumed. lia.
Qed.

Lemma consumes_skipValue header : consumes 0 (skipValue header).
Proof.
  unfold skipValue. destruct (wire header).
  - apply (consumes_bind 0 0); [|intros; apply consumes_ret].
    eapply consumes_weaken; [by apply consumes_readUVarint|lia].
  - eapply consumes_weaken; [by apply consumes_skipEnough|lia].
  - eapply consumes_weaken; [apply consumes_size|lia]. intros n Hn.
    eapply consumes_weaken; [by apply consumes_skipEnough|lia].
  - apply consumes_raise.
  - apply consumes_raise.
  - eapply consumes_weaken; [by apply consumes_skipEnough|lia].
Qed.

Lemma consumes_getValue s header : decodable s -> wire header = scalar_wire s ->
  consumes 1 (getValue s header).
Proof.
  intros Hd Hw. unfold getValue.
  destruct s as [k| |]; apply (consumes_bind 0 1);
    try (apply consumes_assert; by apply bool_decide_true); intros _.
  - destruct (is_signed k) eqn:E; [by apply consumes_readSVarint|by apply consumes_readUVarint].
  - apply consumes_buffer. intros pb.
    eapply consumes_weaken; [apply consumes_bind; [by apply consumes_skipEnough|]|];
      [intros; apply consumes_ret|lia].
  - apply consumes_buffer. intros pb.
    eapply consumes_weaken; [apply consumes_bind; [by apply consumes_skipEnough|]|];
      [intros; apply consumes_ret|lia].
Qed.

Lemma consumes_getValue_seq header : wire header = Length -> consumes 1 (getValue_seq header).
Proof.
  intros Hw. unfold getValue_seq. apply (consumes_bind 0 1);
    [apply consumes_assert; by apply bool_decide_true|intros _].
  apply consumes_size. intros n Hn. apply consumes_buffer. intros pb.
  eapply consumes_weaken; [apply consumes_bind; [by apply consumes_skipEnough|]|];
    [intros; apply consumes_ret|lia].
Qed.

(** Runs a loop with the fuel of the unread bytes. *)
Definition total {A} (loop : nat -> reader A) : Prop := forall fuel pb, valid_buffer pb ->
  (length (buffer pb) - offset pb < fuel)%nat -> is_Some (loop fuel pb).

Lemma loop_step {A} fuel (f : ProtoHeader -> reader A) pb : valid_buffer pb ->
  (length (buffer pb) - offset pb < S fuel)%nat ->
  (forall header pb', valid_buffer pb' -> (length (buffer pb') - offset pb' < fuel)%nat ->
    is_Some (f header pb')) -> isEmpty pb = false ->
  is_Some ((header ← getHeader; f header) pb).
Proof.
  intros Hpb Hf IH He.
  destruct (consumes_getHeader pb Hpb) as (r & pb1 & E & Hb & Hl & Ho & Hn).
  destruct r as [h|e]; [rewrite (bind_ok _ _ _ _ _ E)|rewrite (bind_err _ _ _ _ _ E); by eexists].
  unfold isEmpty in He. apply Nat.leb_gt in He. specialize (Hn eq_refl).
  apply IH; [done|]. rewrite Hb. lia.
Qed.

Lemma loop_then {A B} fuel n (m : reader A) (f : A -> reader B) pb : valid_buffer pb ->
  consumes n m -> (length (buffer pb) - offset pb < fuel)%nat ->
  (forall a pb', valid_buffer pb' -> (length (buffer pb') - offset pb' < fuel)%nat ->
    is_Some (f a pb')) -> is_Some ((m ≫= f) pb).
Proof.
  intros Hpb Hm Hf IH. destruct (Hm pb Hpb) as (r & pb1 & E & Hb & Hl & Ho & Hn).
  destruct r as [a|e]; [rewrite (bind_ok _ _ _ _ _ E)|rewrite (bind_err _ _ _ _ _ E); by eexists].
  apply IH; [done|]. rewrite Hb. lia.
Qed.

Lemma andb_wire_true b (k k' : ProtoFieldKind) : b && bool_decide (k = k') = true -> k = k'.
Proof. intros [_ E]%andb_true_iff. by apply bool_decide_eq_true in E. Qed.

Lemma getField_loop_total s field : decodable s ->
  forall cur, total (fun fuel => getField_loop fuel s field cur).
Proof.
  intros Hd cur fuel. revert cur. induction fuel as [|fuel IH]; intros cur pb Hpb Hf; [lia|].
  cbn [getField_loop]. destruct (isEmpty pb) eqn:He; [by eexists|].
  apply (loop_step fuel); [done..| |done]. intros h pb1 Hpb1 Hf1.
  destruct (_ && _) eqn:Em.
  - apply andb_wire_true in Em.
    eapply loop_then; [done|by apply consumes_getValue|done|intros; by apply IH].
  - eapply loop_then; [done|apply consumes_skipValue|done|intros; by apply IH].
Qed.

Lemma getField_seq_loop_total field : forall cur, total (fun fuel => getField_seq_loop fuel field cur).
Proof.
  intros cur fuel. revert cur. induction fuel as [|fuel IH]; intros cur pb Hpb Hf; [lia|].
  cbn [getField_seq_loop]. destruct (isEmpty pb) eqn:He; [by eexists|].
  apply (loop_step fuel); [done..| |done]. intros h pb1 Hpb1 Hf1.
  destruct (_ && _) eqn:Em.
  - apply andb_wire_true in Em.
    eapply loop_then; [done|by apply consumes_getValue_seq|done|intros; by apply IH].
  - eapply loop_then; [done|apply consumes_skipValue|done|intros; by apply IH].
Qed.

Lemma getRepeated_seq_loop_total field :
  forall out, total (fun fuel => getRepeated_seq_loop fuel field out).
Proof.
  intros cur fuel. revert cur. induction fuel as [|fuel IH]; intros cur pb Hpb Hf; [lia|].
  cbn [getRepeated_seq_loop]. destruct (isEmpty pb) eqn:He; [by eexists|].
  apply (loop_step fuel); [done..| |done]. intros h pb1 Hpb1 Hf1.
  destruct (_ && _) eqn:Em.
  - apply andb_wire_true in Em.
    eapply loop_then; [done|by apply consumes_getValue_seq|done|intros; by apply IH].
  - eapply loop_then; [done|apply consumes_skipValue|done|intros; by apply IH].
Qed.

End ReaderFacts.
(** ** Writing *)

Section WriterFacts.
Context `{Leb128} `{Endians}.
Implicit Types (pre : bytes) (o : ProtoFlags).

(** A buffer written up to the end of [pre], with [n] bytes of room left. *)
Definition room (o : ProtoFlags) (pre : bytes) (n : nat) : ProtoBuffer :=
  mkPB o (pre ++ replicate n 0) (length pre).

Lemma grow_full o pre n : grow (mkPB o pre (length pre)) n = room o pre n.
Proof.
  unfold grow, room. cbn [buffer options offset]. rewrite set_len_grow by lia. by rewrite Nat.add_comm, Nat.add_sub.
Qed.

Lemma room_full o pre : room o pre 0 = mkPB o pre (length pre).
Proof. unfold room. by rewrite app_nil_r. Qed.

Lemma room_put o pre n bs : (length bs <= n)%nat ->
  mkPB o (take (length pre) (pre ++ replicate n 0) ++ bs
          ++ drop (length bs) (drop (length pre) (pre ++ replicate n 0)))
       (length pre + length bs) = room o (pre ++ bs) (n - length bs).
Proof.
  intros Hn. unfold room. rewrite take_app_length, drop_app_length, drop_replicate.
  by rewrite length_app, <- app_assoc.
Qed.

Lemma room_enough o pre n : (offset (room o pre n) <=? length (buffer (room o pre n)))%nat = true.
Proof. apply Nat.leb_le. unfold room. cbn. rewrite length_app. lia. Qed.

Lemma putAt_room k o pre v n : is_signed k = false -> uint_ok (width k) v ->
  (length (leb_toBytes v) <= n)%nat ->
  putAt k v (room o pre n) = Some (room o (pre ++ leb_toBytes v) (n - length (leb_toBytes v))).
Proof.
  intros Hk Hv Hn. unfold putAt. rewrite room_enough. cbn [doAssert mbind option_bind].
  rewrite putUVarint_Ok; [|done|done|].
  - cbn [isOk doAssert mbind option_bind]. rewrite Nat2Z.id. f_equal. by apply room_put.
  - unfold toOpenArray, room. cbn. by rewrite drop_app_length, length_replicate.
Qed.

Lemma putSAt_room k o pre x n : value_ok k x ->
  (length (leb_toBytes (toUleb k x)) <= n)%nat ->
  putSAt k x (room o pre n) =
    Some (room o (pre ++ leb_toBytes (toUleb k x)) (n - length (leb_toBytes (toUleb k x)))).
Proof.
  intros Hx Hn. unfold putSAt, putSVarint. rewrite room_enough. cbn [doAssert mbind option_bind].
  rewrite putUVarint_Ok;
    [|rewrite unsigned_kind_width; by apply toUleb_ok|done|].
  - cbn [isOk doAssert mbind option_bind]. rewrite Nat2Z.id. f_equal. by apply room_put.
  - unfold toOpenArray, room. cbn. by rewrite drop_app_length, length_replicate.
Qed.

Lemma copyAt_room o pre bs n : (length bs <= n)%nat ->
  copyAt bs (room o pre n) = Some (room o (pre ++ bs) (n - length bs)).
Proof.
  intros Hn. unfold copyAt, isEnough. rewrite room_enough.
  rewrite (proj2 (Z.leb_le _ _)); [|unfold room; cbn; rewrite length_app, length_replicate; lia].
  cbn [andb doAssert mbind option_bind]. f_equal. rewrite <- room_put by done.
  unfold room, blit. cbn. by rewrite drop_drop.
Qed.

Lemma putScalar_room s o pre x n : scalar_ok s x ->
  (length (wire_payload (encode_scalar s x)) <= n)%nat ->
  putScalar s x (room o pre n) =
    Some (room o (pre ++ wire_payload (encode_scalar s x))
               (n - length (wire_payload (encode_scalar s x)))).
Proof.
  intros [Ht Hx] Hn. destruct s as [k| |]; cbn [encode_scalar wire_payload putScalar] in *.
  - destruct (is_signed k) eqn:E; [by apply putSAt_room|].
    assert (Hu : toUleb k x = x) by (by destruct k). rewrite Hu in *.
    apply putAt_room; [done| |done]. rewrite <- Hu. by apply toUleb_ok.
  - by apply copyAt_room.
  - by apply copyAt_room.
Qed.

Lemma scalar_size_length s x : scalar_ok s x ->
  scalar_size s x = length (wire_payload (encode_scalar s x)).
Proof.
  intros [Ht Hx]. destruct s; cbn [scalar_size encode_scalar wire_payload];
    [by apply vsizeof_length|by rewrite toBytesLE_length..].
Qed.

Lemma vsizeof_uint64 v : uint_ok 64 v -> vsizeof uint64 v = length (leb_toBytes v).
Proof. intros Hv. by apply (vsizeof_length uint64 v). Qed.

Lemma header_ok field k : field_number_ok field -> uint_ok 64 (getProtoHeader field k).
Proof. intros Hf. by apply getProtoHeader_ok, field_number_range. Qed.

Lemma write_appends s o pre field x : field_number_ok field -> scalar_ok s x ->
  let pre' := pre ++ wire_bytes (field, encode_scalar s x) in
  write s (mkPB o pre (length pre)) field x = Some (mkPB o pre' (length pre')).
Proof.
  intros Hf Hx. unfold write. rewrite field_number_check by done.
  cbn [mbind option_bind]. pose proof (header_ok field (scalar_wire s) Hf) as Hh.
  rewrite grow_full, vsizeof_uint64, scalar_size_length by done.
  rewrite putAt_room by (try done; lia). cbn [mbind option_bind].
  rewrite putScalar_room by (try done; lia).
  unfold wire_bytes. cbn [fst snd]. rewrite encode_scalar_kind, app_assoc.
  rewrite <- room_full. f_equal. f_equal. lia.
Qed.

Lemma write_bytes_appends o pre field bs : field_number_ok field ->
  Z.of_nat (length bs) < 2 ^ 63 ->
  let pre' := pre ++ wire_bytes (field, WBytes bs) in
  write_bytes (mkPB o pre (length pre)) field bs = Some (mkPB o pre' (length pre')).
Proof.
  intros Hf Hbs. unfold write_bytes. rewrite field_number_check by done.
  cbn [mbind option_bind]. pose proof (header_ok field Length Hf) as Hh.
  assert (Hn : uint_ok 64 (Z.of_nat (length bs))) by (unfold uint_ok; revert Hbs; pow2; lia).
  rewrite grow_full, !vsizeof_uint64 by done.
  rewrite putAt_room by (try done; lia). cbn [mbind option_bind].
  rewrite putAt_room by (try done; lia). cbn [mbind option_bind].
  unfold wire_bytes. cbn [fst snd wire_kind wire_payload].
  rewrite !app_assoc, <- room_full.
  destruct (Nat.ltb_spec 0 (length bs)) as [Hl|Hl].
  - rewrite copyAt_room by lia. f_equal. f_equal. lia.
  - destruct bs; [|simpl in Hl; lia]. rewrite app_nil_r. f_equal. f_equal. simpl. lia.
Qed.

Lemma run_writes_appends o pre ws : Forall write_op_ok ws ->
  let pre' := pre ++ wire_message (op_wire <$> ws) in
  run_writes (mkPB o pre (length pre)) ws = Some (mkPB o pre' (length pre')).
Proof.
  intros Hws. revert pre. induction Hws as [|w ws Hw Hws IH]; intros pre; cbn [run_writes].
  { cbn. by rewrite app_nil_r. }
  rewrite fmap_cons, wire_message_cons, app_assoc.
  destruct w as [s field x|field bs]; destruct Hw as [Hf Hx]; cbn [run_write op_wire].
  - rewrite write_appends by done. apply IH.
  - rewrite write_bytes_appends by done. apply IH.
Qed.

Lemma op_wires_ok ws : Forall write_op_ok ws -> Forall wire_field_ok (op_wire <$> ws).
Proof. intros Hws. apply Forall_fmap. eapply Forall_impl; [done|apply op_wire_ok]. Qed.

(** Packed items. *)
Definition packed_payload (s : ProtoScalar) (xs : list Z) : bytes :=
  mjoin ((fun x => wire_payload (encode_scalar s x)) <$> xs).

Lemma packed_payload_cons s x xs :
  packed_payload s (x :: xs) = wire_payload (encode_scalar s x) ++ packed_payload s xs.
Proof. done. Qed.

Lemma packed_size s xs : Forall (scalar_ok s) xs ->
  foldr (fun item n => (scalar_size s item + n)%nat) O xs = length (packed_payload s xs).
Proof.
  induction 1 as [|x xs Hx Hxs IH]; [done|]. cbn [foldr].
  rewrite packed_payload_cons, length_app.
  rewrite scalar_size_length by done. by rewrite IH.
Qed.

Lemma putScalars_room s o pre xs n : Forall (scalar_ok s) xs ->
  (length (packed_payload s xs) <= n)%nat ->
  putScalars s xs (room o pre n) =
    Some (room o (pre ++ packed_payload s xs) (n - length (packed_payload s xs))).
Proof.
  intros Hxs. revert pre n. induction Hxs as [|x xs Hx Hxs IH]; intros pre n Hn; cbn [putScalars].
  { unfold packed_payload. cbn. by rewrite app_nil_r, Nat.sub_0_r. }
  rewrite packed_payload_cons, ?length_app in *.
  rewrite putScalar_room by (try done; lia). cbn [mbind option_bind].
  rewrite IH by lia. rewrite app_assoc. f_equal. f_equal. lia.
Qed.

Lemma writePacked_appends s o pre field xs : field_number_ok field ->
  Forall (scalar_ok s) xs -> Z.of_nat (length (packed_payload s xs)) < 2 ^ 64 ->
  let pre' := pre ++ wire_bytes (field, WBytes (packed_payload s xs)) in
  writePacked s (mkPB o pre (length pre)) field xs = Some (mkPB o pre' (length pre')).
Proof.
  intros Hf Hxs Hl. unfold writePacked. rewrite field_number_check by done.
  cbn [mbind option_bind]. rewrite packed_size by done.
  pose proof (header_ok field Length Hf) as Hh.
  assert (Hn : uint_ok 64 (Z.of_nat (length (packed_payload s xs)))) by (unfold uint_ok; lia).
  rewrite grow_full, !vsizeof_uint64 by done.
  rewrite putAt_room by (try done; lia). cbn [mbind option_bind].
  rewrite putAt_room by (try done; lia). cbn [mbind option_bind].
  rewrite putScalars_room by (try done; lia).
  unfold wire_bytes. cbn [fst snd wire_kind wire_payload].
  rewrite !app_assoc, <- room_full. f_equal. f_equal. lia.
Qed.

Lemma packed_items_loop_payload fuel s out o pre xs :
  decodable s -> Forall (scalar_ok s) xs -> (length (packed_payload s xs) < fuel)%nat ->
  exists pb, packed_items_loop fuel s out (at_ o pre (packed_payload s xs)) =
    Some (Ok (out ++ xs), pb).
Proof.
  intros Hd Hxs. revert fuel out pre.
  induction Hxs as [|x xs Hx Hxs IH]; intros fuel out pre Hf;
    (destruct fuel as [|fuel]; [lia|]); cbn [packed_items_loop].
  { rewrite at_empty. rewrite app_nil_r. eauto. }
  rewrite packed_payload_cons, ?length_app in *.
  set (v := encode_scalar s x) in *.
  assert (Hv : wire_value_ok v) by (by apply scalar_ok_wire).
  assert (Hne : (0 < length (wire_payload v))%nat).
  { destruct Hx as [_ Hx]. subst v. destruct s as [k| |]; cbn [encode_scalar wire_payload].
    - apply toBytes_nonempty. apply (toUleb_ok k x Hx).
    - rewrite toBytesLE_length. lia.
    - rewrite toBytesLE_length. lia. }
  assert (isEmpty (at_ o pre (wire_payload v ++ packed_payload s xs)) = false) as ->.
  { rewrite at_empty. apply bool_decide_false. intros [E _]%app_nil. rewrite E in Hne.
    simpl in Hne. lia. }
  assert (Hk : wire_kind v = scalar_wire s) by apply encode_scalar_kind.
  rewrite <- Hk.
  edestruct (getValue_at s o pre v 0) as (r & pb & Hg & Hr & Hpb); [done..|].
  unfold v in Hr. rewrite decode_encode_scalar in Hr by done. subst r.
  rewrite (bind_ok _ _ _ _ _ Hg), (Hpb eq_refl).
  edestruct (IH fuel (out ++ [x])) as [pb' ->]; [lia|]. exists pb'. by rewrite <- app_assoc.
Qed.

Lemma packed_items_payload s xs out pb : decodable s -> Forall (scalar_ok s) xs ->
  packed_items s (packed_payload s xs) out pb = Some (Ok (out ++ xs), pb).
Proof.
  intros Hd Hxs. unfold packed_items, initProtoBuffer_data. cbv zeta.
  set (pbarr := mkPB _ _ _).
  destruct (packed_items_loop_payload (fuel_of pbarr) s out no_flags [] xs)
    as [pbi Hi]; [done..|unfold fuel_of; cbn; lia|].
  unfold at_ in Hi. cbn [app List.length] in Hi. subst pbarr. by rewrite Hi.
Qed.

Lemma getPacked_loop_message fuel s field out o pre (xss : list (list Z)) :
  decodable s -> field_number_ok field ->
  Forall (fun xs => Forall (scalar_ok s) xs /\
                    Z.of_nat (length (packed_payload s xs)) < 2 ^ 64) xss ->
  let msg := wire_message ((fun xs => (field, WBytes (packed_payload s xs))) <$> xss) in
  (length msg < fuel)%nat ->
  exists pb, getPacked_loop fuel s field out (at_ o pre msg) =
    Some (Ok (out ++ mjoin xss), pb).
Proof.
  intros Hd Hfn Hxss. revert fuel out pre.
  induction Hxss as [|xs xss [Hxs Hn] Hxss IH]; intros fuel out pre msg Hf; subst msg;
    (destruct fuel as [|fuel]; [lia|]); cbn [getPacked_loop].
  { rewrite at_empty. rewrite app_nil_r. eauto. }
  rewrite fmap_cons, wire_message_cons in *. rewrite length_app in Hf.
  pose proof (wire_bytes_length (field, WBytes (packed_payload s xs))).
  assert (Hw : uint_ok 64 (Z.of_nat (length (packed_payload s xs)))) by (unfold uint_ok; lia).
  rewrite first_not_empty, first_header_at by (split; [by apply field_number_range|done]).
  cbn [index wire wire_kind]. rewrite Z.eqb_refl. cbn [andb].
  rewrite bool_decide_true by done.
  rewrite (bind_ok _ _ _ _ _ (getValue_seq_at _ _ _ _ _ Hw)).
  erewrite bind_ok by (by apply packed_items_payload).
  edestruct (IH fuel (out ++ xs)) as [pb' ->]; [lia|]. exists pb'. by rewrite <- app_assoc.
Qed.

End WriterFacts.
(** ** Specification of a sequence of writes *)

(** The scalars and the byte sequences written to a field, in order. *)
Definition written_scalars (field : Z) (ws : list write_op) : list Z :=
  omap (fun w => match w with
                 | OpScalar _ f x => if f =? field then Some x else None
                 | OpBytes _ _ => None end) ws.

Definition written_bytes (field : Z) (ws : list write_op) : list bytes :=
  omap (fun w => match w with
                 | OpBytes f bs => if f =? field then Some bs else None
                 | OpScalar _ _ _ => None end) ws.

(** A reader's answer from the values of the field: the last one, or [output] untouched. *)
Definition last_or {A} (output : A) (vs : list A) : ProtoResult bool * A :=
  match last vs with Some v => (Ok true, v) | None => (Ok false, output) end.

Definition run_packed `{Leb128} `{Endians} (s : ProtoScalar) (field : Z) :=
  fix go (xss : list (list Z)) (pb : ProtoBuffer) : option ProtoBuffer :=
    match xss with
    | [] => Some pb
    | xs :: r => pb ← writePacked s pb field xs; go r pb
    end.

Lemma field_bytes_written field ws : field_bytes field (op_wire <$> ws) = written_bytes field ws.
Proof.
  unfold field_bytes, written_bytes.
  induction ws as [|[s f x|f bs] ws IH]; [done|..]; rewrite fmap_cons, filter_cons; cbn [op_wire].
  - rewrite decide_False; [done|]. intros [_ E]. by destruct s.
  - unfold matches. cbn [fst snd wire_kind omap list_omap].
    destruct (Z.eqb_spec f field) as [E|E]; [rewrite decide_True by done; by rewrite <- IH|].
    rewrite decide_False by (by intros [? _]). done.
Qed.

Lemma field_values_written s field ws : decodable s -> Forall write_op_ok ws ->
  (forall w, w ∈ ws -> op_field w = field -> exists x, w = OpScalar s field x) ->
  field_values s field (op_wire <$> ws) = Ok (written_scalars field ws).
Proof.
  intros Hd Hws. unfold field_values, written_scalars.
  induction Hws as [|w ws Hw Hws IH]; intros Hs; [done|]. rewrite fmap_cons, filter_cons.
  specialize (IH (fun w Hin => Hs w (list_elem_of_further _ _ _ Hin))).
  specialize (Hs w (list_elem_of_here _ _)).
  assert (Hm : matches (scalar_wire s) field (op_wire w) <-> op_field w = field).
  { unfold matches. rewrite op_wire_field. split; [by intros []|]. intros Hf. split; [done|].
    destruct (Hs Hf) as [x ->]. apply encode_scalar_kind. }
  destruct (decide (op_field w = field)) as [Hf|Hf].
  - rewrite decide_True by tauto. destruct (Hs Hf) as [x ->]. destruct Hw as [_ Hx].
    cbn [mapM compose op_wire snd omap list_omap]. rewrite decode_encode_scalar by done.
    cbn [mbind result_bind]. rewrite IH, Z.eqb_refl. done.
  - rewrite decide_False by tauto. rewrite IH. cbn [omap list_omap].
    destruct w as [s' f x|f bs]; [|done]. cbn [op_field] in Hf.
    by rewrite (proj2 (Z.eqb_neq _ _)).
Qed.

(** ** The readers against the specification *)

Section Readers.
Context `{Leb128} `{Endians}.

Lemma getField_message_spec s flags pre fs field out : decodable s -> field_number_ok field ->
  Forall wire_field_ok fs ->
  getField s (initProtoBuffer_data (pre ++ wire_message fs) (length pre) flags) field out =
    Some (match field_values s field fs with
          | Err e => (Err e, out)
          | Ok vs => last_or out vs
          end).
Proof.
  intros Hd Hf Hfs. unfold getField. rewrite field_number_check by done.
  cbn [mbind option_bind]. change (initProtoBuffer_data _ _ _) with (at_ flags pre (wire_message fs)).
  edestruct getField_loop_message as [pb ->]; [done..|apply fuel_of_at|].
  destruct (field_values s field fs) as [vs|e]; [|done]. cbn.
  unfold last_or. by destruct (last vs).
Qed.

Lemma getField_seq_message_spec flags pre fs field out : field_number_ok field ->
  Forall wire_field_ok fs ->
  getField_seq (initProtoBuffer_data (pre ++ wire_message fs) (length pre) flags) field out =
    Some (last_or out (field_bytes field fs)).
Proof.
  intros Hf Hfs. unfold getField_seq. rewrite field_number_check by done.
  cbn [mbind option_bind]. change (initProtoBuffer_data _ _ _) with (at_ flags pre (wire_message fs)).
  edestruct getField_seq_loop_message as [pb ->]; [done|apply fuel_of_at|].
  unfold last_or. change (option_list None ++ ?l) with l.
  by destruct (last (field_bytes field fs)).
Qed.

Lemma getRepeatedField_seq_message_spec flags pre fs field : field_number_ok field ->
  Forall wire_field_ok fs ->
  getRepeatedField_seq (initProtoBuffer_data (pre ++ wire_message fs) (length pre) flags) field =
    Some (Ok (0 <? length (field_bytes field fs))%nat, field_bytes field fs).
Proof.
  intros Hf Hfs. unfold getRepeatedField_seq. rewrite field_number_check by done.
  cbn [mbind option_bind]. change (initProtoBuffer_data _ _ _) with (at_ flags pre (wire_message fs)).
  by edestruct getRepeated_seq_loop_message as [pb ->]; [done|apply fuel_of_at|].
Qed.

End Readers.

(** ** Properties *)

Section Properties.
Context `{Leb128} `{Endians}.

(** C10: any sequence of scalar and byte-sequence writes succeeds and appends exactly the
fields it wrote; reading the result back gives, for a byte field and for a scalar field
always written at its type, the last value written, and leaves the output alone when the
field was never written. *)
Theorem write_read_roundtrip (opts flags : ProtoFlags) (pre : bytes) (ws : list write_op) :
  Forall write_op_ok ws ->
  exists pb, run_writes (initProtoBuffer_data pre (length pre) opts) ws = Some pb /\
    buffer pb = pre ++ wire_message (op_wire <$> ws) /\ offset pb = length (buffer pb) /\
    let data := initProtoBuffer_data (buffer pb) (length pre) flags in
    (forall field out, field_number_ok field ->
      getField_seq data field out = Some (last_or out (written_bytes field ws))) /\
    (forall s field out, decodable s -> field_number_ok field ->
      (forall w, w ∈ ws -> op_field w = field -> exists x, w = OpScalar s field x) ->
      getField s data field out = Some (last_or out (written_scalars field ws))).
Proof.
  intros Hws. eexists. split; [by apply run_writes_appends|]. cbn [buffer offset].
  split; [done|]. split; [done|]. split.
  - intros field out Hf. rewrite getField_seq_message_spec by (done || by apply op_wires_ok).
    by rewrite field_bytes_written.
  - intros s field out Hd Hf Hs.
    rewrite getField_message_spec by (done || by apply op_wires_ok).
    by rewrite field_values_written.
Qed.

(** C11: on every well-formed message the readers compute the specification: fields of another
number or wire type are skipped, the last match wins, repeated byte fields come in order,
and a varint too large for its type is [VarintDecode] with the output untouched. *)
Theorem readers_refine_spec (flags : ProtoFlags) (pre : bytes) (fs : list wire_field) (field : Z) :
  Forall wire_field_ok fs -> field_number_ok field ->
  let data := initProtoBuffer_data (pre ++ wire_message fs) (length pre) flags in
  (forall s out, decodable s ->
    getField s data field out =
      Some (match field_values s field fs with
            | Err e => (Err e, out) | Ok vs => last_or out vs end)) /\
  (forall out, getField_seq data field out = Some (last_or out (field_bytes field fs))) /\
  getRepeatedField_seq data field =
    Some (Ok (0 <? length (field_bytes field fs))%nat, field_bytes field fs).
Proof.
  intros Hfs Hf. split; [|split].
  - intros s out Hd. by apply getField_message_spec.
  - intros out. by apply getField_seq_message_spec.
  - by apply getRepeatedField_seq_message_spec.
Qed.

(** on arbitrary bytes, however malformed, the readers of a scalar, of a byte sequence
and of a repeated byte sequence return: no assertion fails and the loops stop within the
bytes that are left. *)
Theorem readers_total (pb : ProtoBuffer) (field : Z) :
  valid_buffer pb -> field_number_ok field ->
  (forall s out, decodable s -> is_Some (getField s pb field out)) /\
  (forall out, is_Some (getField_seq pb field out)) /\
  is_Some (getRepeatedField_seq pb field).
Proof.
  intros Hpb Hf.
  assert (Hfuel : (length (buffer pb) - offset pb < fuel_of pb)%nat) by (unfold fuel_of; lia).
  split; [|split].
  - intros s out Hd. unfold getField. rewrite field_number_check by done.
    destruct (getField_loop_total s field Hd None _ _ Hpb Hfuel) as [[r pb'] ->]. by eexists.
  - intros out. unfold getField_seq. rewrite field_number_check by done.
    destruct (getField_seq_loop_total field None _ _ Hpb Hfuel) as [[r pb'] ->]. by eexists.
  - unfold getRepeatedField_seq. rewrite field_number_check by done.
    destruct (getRepeated_seq_loop_total field [] _ _ Hpb Hfuel) as [[r pb'] ->]. by eexists.
Qed.

(** packed repeated fields: any number of [writePacked] calls on a field followed by
[getPackedRepeatedField] gives the concatenation of the lists written. *)
Theorem packed_roundtrip (s : ProtoScalar) (opts flags : ProtoFlags) (pre : bytes)
    (field : Z) (xss : list (list Z)) :
  decodable s -> field_number_ok field ->
  Forall (fun xs => Forall (scalar_ok s) xs /\
                    Z.of_nat (length (packed_payload s xs)) < 2 ^ 64) xss ->
  exists pb, run_packed s field xss (initProtoBuffer_data pre (length pre) opts) = Some pb /\
    getPackedRepeatedField s (initProtoBuffer_data (buffer pb) (length pre) flags) field =
      Some (Ok (0 <? length (mjoin xss))%nat, mjoin xss).
Proof.
  intros Hd Hf Hxss.
  set (msg := wire_message ((fun xs => (field, WBytes (packed_payload s xs))) <$> xss)).
  exists (mkPB opts (pre ++ msg) (length (pre ++ msg))). split.
  - subst msg. generalize pre as p. induction Hxss as [|xs xss [Hxs Hn] Hxss IH]; intros p.
    { cbn. by rewrite app_nil_r. }
    cbn [run_packed]. unfold initProtoBuffer_data. rewrite writePacked_appends by done.
    cbn [mbind option_bind]. specialize (IH (p ++ wire_bytes (field, WBytes (packed_payload s xs)))).
    unfold initProtoBuffer_data in IH. rewrite IH.
    by rewrite fmap_cons, wire_message_cons, app_assoc.
  - unfold getPackedRepeatedField. rewrite field_number_check by done. cbn [mbind option_bind].
    change (initProtoBuffer_data _ _ _) with (at_ flags pre msg).
    edestruct (getPacked_loop_message (fuel_of (at_ flags pre msg)) s field [] flags pre xss)
      as [pb E]; [done..|apply fuel_of_at|]. fold msg in E. by rewrite E.
Qed.

(** the framing of [finish].  After any writes into a fresh buffer, with the varint flag
the bytes from the offset on are the varint of the body's length and the body; with a
32-bit flag the length, modulo 2^32, fills the first four bytes, and the offset is left
behind them; without a flag the buffer is the body, from offset 0. *)
Theorem finish_framing (uninit : nat -> bytes) (opts : ProtoFlags) (ws : list write_op) :
  (forall n, length (uninit n) = n) -> Forall write_op_ok ws ->
  let body := wire_message (op_wire <$> ws) in
  let n := Z.of_nat (length body) in
  n < 2 ^ 63 ->
  exists pb, (pb ← run_writes (initProtoBuffer uninit opts) ws; finish pb) = Some pb /\
    (if WithVarintLength opts then toOpenArray pb = leb_toBytes n ++ body
     else if WithUint32BeLength opts
     then buffer pb = toBytesBE 4 (wrap 32 n) ++ body /\ offset pb = 4%nat
     else if WithUint32LeLength opts
     then buffer pb = toBytesLE 4 (wrap 32 n) ++ body /\ offset pb = 4%nat
     else toOpenArray pb = body).
Proof.
  intros Hu Hws body n Hn.
  assert (Hrun : forall k, run_writes (mkPB opts (uninit k) k) ws =
    Some (mkPB opts (uninit k ++ body) (k + length body))).
  { intros k. rewrite <- (Hu k) at 2. rewrite run_writes_appends by done.
    by rewrite length_app, Hu. }
  assert (Hblit : forall (w : bytes), length w = 4%nat ->
    blit 0 w (uninit 4%nat ++ body) = w ++ body).
  { intros w Hw. rewrite blit_prefix, Hw. f_equal. rewrite <- (Hu 4%nat) at 1.
    apply drop_app_length. }
  destruct opts as [v be le]. unfold initProtoBuffer.
  destruct v; cbn [WithVarintLength WithUint32BeLength WithUint32LeLength] in *.
  - rewrite Hrun. cbn [mbind option_bind]. unfold finish. cbn [options WithVarintLength buffer].
    rewrite length_app, Hu, (proj2 (Nat.leb_le _ _)) by lia. cbn [doAssert mbind option_bind].
    replace (Z.of_nat (10 + length body) - 10) with n by lia.
    assert (Hw : uint_ok 64 n) by (unfold uint_ok; revert Hn; pow2; lia).
    change (vsizeof uint n) with (vsizeof uint64 n). rewrite vsizeof_uint64 by done.
    pose proof (toBytes_length_max 64 n ltac:(unfold uint_width; lia) Hw) as Hmax.
    change (leb_maxLen 64) with 10%nat in Hmax.
    rewrite (take_app_length' _ _ 10) by (by rewrite Hu).
    rewrite (drop_app_length' _ _ 10) by (by rewrite Hu).
    set (m := length (leb_toBytes n)) in *.
    assert (Hlen : length (drop (10 - m) (uninit 10%nat)) = m) by (rewrite length_drop, Hu; lia).
    rewrite putUVarint_Ok by (try done; fold m; lia). fold m.
    cbn [isOk doAssert mbind option_bind]. eexists. split; [done|].
    unfold toOpenArray. cbn [buffer offset].
    rewrite drop_app_length' by (rewrite length_take, length_app, Hu; lia).
    rewrite (drop_ge _ m) by lia. by rewrite app_nil_r.
  - destruct be, le; cbn [orb]; try (rewrite Hrun; cbn [mbind option_bind]); unfold finish;
      cbn [options WithVarintLength WithUint32BeLength WithUint32LeLength buffer];
      try (rewrite length_app, Hu, (proj2 (Nat.leb_le _ _)) by lia;
           cbn [doAssert mbind option_bind]; eexists; split; [done|]; cbn [buffer offset];
           replace (Z.of_nat (4 + length body) - 4) with n by lia;
           rewrite Hblit by (by rewrite ?toBytesBE_length, ?toBytesLE_length); done).
    rewrite (run_writes_appends _ [] ws Hws). cbn [mbind option_bind]. by eexists.
Qed.

(** the repeated-scalar reader only tests that the field is some scalar, not that its
wire type is the one of its type: a message made of one field of another scalar wire type
fails the assertion of [getValue] and aborts the program. *)
Theorem getRepeatedField_assertion (s : ProtoScalar) (field : Z) (v : wire_value) :
  field_number_ok field -> wire_field_ok (field, v) ->
  is_scalar_wire (wire_kind v) = true -> wire_kind v <> scalar_wire s ->
  getRepeatedField s (initProtoBuffer_data (wire_message [(field, v)]) 0 no_flags) field = None.
Proof.
  intros Hf Hv Hsc Hne. unfold getRepeatedField. rewrite field_number_check by done.
  cbn [mbind option_bind]. rewrite wire_message_cons.
  change (initProtoBuffer_data _ _ _) with (at_ no_flags [] (wire_bytes (field, v) ++ wire_message [])).
  unfold fuel_of. cbn [getRepeated_loop]. rewrite first_not_empty, first_header_at by done.
  cbn [index wire]. rewrite Z.eqb_refl, Hsc. cbn [andb]. unfold getValue.
  destruct s; cbn [scalar_wire wire] in *; rewrite bool_decide_false by done; done.
Qed.

End Properties.

(** ** Witnesses *)

Definition demo_writes : list write_op :=
  [OpScalar (PInt uint64) 1 300; OpBytes 2 [7; 8; 9]; OpScalar (PInt zint32) 3 (-5);
   OpScalar (PInt uint64) 1 4; OpScalar float32 4 0x40490fdb].

Lemma demo_writes_ok : Forall write_op_ok demo_writes.
Proof.
  unfold demo_writes. repeat constructor; simpl; try lia;
    unfold value_ok, uint_ok, int_ok; simpl; pow2; lia.
Defined.

#[export] Instance SomeVarint_eq_dec : EqDecision SomeVarint.
Proof. solve_decision. Defined.

#[export] Instance ProtoScalar_eq_dec : EqDecision ProtoScalar.
Proof. solve_decision. Defined.

(** Every write to [field] is at type [s]. *)
Definition only_type (s : ProtoScalar) (field : Z) (ws : list write_op) : bool :=
  forallb (fun w => match w with
                    | OpScalar s' f _ => negb (f =? field) || bool_decide (s' = s)
                    | OpBytes f _ => negb (f =? field) end) ws.

Lemma demo_only_type s field ws : only_type s field ws = true ->
  forall w, w ∈ ws -> op_field w = field -> exists x, w = OpScalar s field x.
Proof.
  unfold only_type. rewrite forallb_forall. intros H w Hw Hf.
  specialize (H w (proj1 (list_elem_of_In _ _) Hw)).
  destruct w as [s' f x|f bs]; cbn [op_field] in Hf; subst f; rewrite Z.eqb_refl in H; [|done].
  apply bool_decide_eq_true in H as ->. by eexists.
Qed.

Lemma write_read_roundtrip_witness :
  exists pb, @run_writes leb128_ref endians_ref (mkPB no_flags [] 0) demo_writes = Some pb /\
    @getField leb128_ref endians_ref (PInt zint32) (mkPB no_flags (buffer pb) 0) 3 0 =
      Some (Ok true, -5) /\
    @getField leb128_ref endians_ref (PInt uint64) (mkPB no_flags (buffer pb) 0) 1 0 =
      Some (Ok true, 4) /\
    @getField_seq leb128_ref (mkPB no_flags (buffer pb) 0) 2 [] = Some (Ok true, [7; 8; 9]).
Proof.
  destruct (@write_read_roundtrip leb128_ref endians_ref no_flags no_flags [] demo_writes
    demo_writes_ok) as (pb & Hr & _ & _ & Hs & Hg).
  exists pb. split; [exact Hr|]. split_and!.
  - apply (Hg (PInt zint32) 3 0); [split; discriminate|split; simpl; lia|].
    apply demo_only_type. reflexivity.
  - apply (Hg (PInt uint64) 1 0); [split; discriminate|split; simpl; lia|].
    apply demo_only_type. reflexivity.
  - apply (Hs 2 []). split; simpl; lia.
Defined.

(** A message with a varint too large for 32 bits, a field of another wire type, and two
values of a repeated field. *)
Definition demo_message : list wire_field :=
  [(1, WVarint (2 ^ 40)); (2, WBytes [1]); (1, WFixed64 5); (2, WBytes [2; 3])].

Lemma demo_message_ok : Forall wire_field_ok demo_message.
Proof.
  unfold demo_message. repeat constructor; simpl; try lia; unfold uint_ok; simpl; pow2; lia.
Defined.

Lemma readers_refine_spec_witness :
  let data := mkPB no_flags (@wire_message leb128_ref endians_ref demo_message) 0 in
  @getField leb128_ref endians_ref (PInt uint64) data 1 7 = Some (Ok true, 2 ^ 40) /\
  @getField leb128_ref endians_ref (PInt uint32) data 1 7 = Some (Err VarintDecode, 7) /\
  @getRepeatedField_seq leb128_ref data 2 = Some (Ok true, [[1]; [2; 3]]).
Proof.
  destruct (@readers_refine_spec leb128_ref endians_ref no_flags [] demo_message 1
    demo_message_ok) as (H1 & _ & _); [split; simpl; lia|].
  destruct (@readers_refine_spec leb128_ref endians_ref no_flags [] demo_message 2
    demo_message_ok) as (_ & _ & H2); [split; simpl; lia|].
  split_and!.
  - apply (H1 (PInt uint64) 7). split; discriminate.
  - apply (H1 (PInt uint32) 7). split; discriminate.
  - exact H2.
Defined.

Lemma readers_total_witness :
  is_Some (@getField leb128_ref endians_ref (PInt uint64) (mkPB no_flags [0x0a; 0xff; 0x80] 0) 1 0).
Proof.
  destruct (@readers_total leb128_ref endians_ref (mkPB no_flags [0x0a; 0xff; 0x80] 0) 1)
    as [H _]; [|split; simpl; lia|apply H; split; discriminate].
  split; [|simpl; lia]. repeat constructor; unfold byte_ok; simpl; lia.
Defined.

Lemma packed_roundtrip_witness :
  exists pb, @run_packed leb128_ref endians_ref (PInt zint64) 6 [[1; -2]; [300]]
      (mkPB no_flags [9] 1) = Some pb /\
    @getPackedRepeatedField leb128_ref endians_ref (PInt zint64) (mkPB no_flags (buffer pb) 1) 6 =
      Some (Ok true, [1; -2; 300]).
Proof.
  apply (@packed_roundtrip leb128_ref endians_ref (PInt zint64) no_flags no_flags [9] 6
    [[1; -2]; [300]]).
  - split; discriminate.
  - split; simpl; lia.
  - repeat constructor; simpl; unfold value_ok, int_ok; simpl; pow2; lia || (vm_compute; lia).
Defined.

Lemma finish_framing_witness :
  exists pb, (pb ← @run_writes leb128_ref endians_ref
                (@initProtoBuffer (fun n => replicate n 0xEE) (mkFlags true false false))
                [OpBytes 2 [7; 8]];
              @finish leb128_ref endians_ref pb) = Some pb /\
    toOpenArray pb = [4; 0x12; 2; 7; 8].
Proof.
  apply (@finish_framing leb128_ref endians_ref (fun n => replicate n 0xEE)
    (mkFlags true false false) [OpBytes 2 [7; 8]]).
  - intros n. apply length_replicate.
  - repeat constructor; simpl; lia.
  - vm_compute. reflexivity.
Defined.

Lemma getRepeatedField_assertion_witness :
  @getRepeatedField leb128_ref endians_ref (PInt uint64)
    (mkPB no_flags [0x0d; 1; 2; 3; 4] 0) 1 = None.
Proof.
  apply (@getRepeatedField_assertion leb128_ref endians_ref (PInt uint64) 1 (WFixed32 0x04030201)).
  - split; simpl; lia.
  - split; simpl; [lia|]. unfold uint_ok. simpl. lia.
  - reflexivity.
  - discriminate.
Defined.
