(* ===== verification/Ed25519Field.v ===== *)
(** * Ed25519Field: libp2p/crypto/ed25519/ed25519.nim, the field arithmetic

Field elements of GF(2^255 - 19) as ten signed limbs of alternately 26 and 25 bits.  The
source computes with [int32] and [int64], whose additions, subtractions and products raise
an [OverflowDefect] when the result leaves the type: here they return an [option], [None]
being the defect, while [shl], [cast] and the bit operations wrap.  The theorems show that
on the inputs the code uses no operation overflows, and that the results are the field
operations.  [ashr] is the arithmetic shift of the standard library. *)
From S2P Require Import Prelude Endians.

#[local] Open Scope Z_scope.

(** ** Checked and wrapping arithmetic *)

Definition checked (w x : Z) : option Z :=
  if (- 2 ^ (w - 1) <=? x) && (x <? 2 ^ (w - 1)) then Some x else None.

Definition add32 (x y : Z) : option Z := checked 32 (x + y).
Definition sub32 (x y : Z) : option Z := checked 32 (x - y).
Definition mul32 (x y : Z) : option Z := checked 32 (x * y).
Definition add64 (x y : Z) : option Z := checked 64 (x + y).
Definition sub64 (x y : Z) : option Z := checked 64 (x - y).
Definition mul64 (x y : Z) : option Z := checked 64 (x * y).

(** [cast] to a signed type of [w] bits, and [shl] at that type. *)
Definition cast_int (w x : Z) : Z := to_signed w (wrap w x).
Definition shl_int (w x n : Z) : Z := cast_int w (Z.shiftl x n).
Definition ashr (x n : Z) : Z := Z.shiftr x n.
Definition cast_byte (x : Z) : Z := wrap 8 x.

(** The sum of two [int64] expressions. *)
Definition sum64 (m n : option Z) : option Z := x ← m; y ← n; add64 x y.

Declare Scope int64_scope.
Notation "m + n" := (sum64 m n) : int64_scope.

(** ** Field elements *)

Record Fe := mkFe { l0 : Z; l1 : Z; l2 : Z; l3 : Z; l4 : Z; l5 : Z; l6 : Z; l7 : Z; l8 : Z; l9 : Z }.

Definition fe0 : Fe := mkFe 0 0 0 0 0 0 0 0 0 0.

Definition fe1 : Fe := mkFe 1 0 0 0 0 0 0 0 0 0.

Definition feAdd (f g : Fe) : option Fe :=
  let '(mkFe f0 f1 f2 f3 f4 f5 f6 f7 f8 f9) := f in
  let '(mkFe g0 g1 g2 g3 g4 g5 g6 g7 g8 g9) := g in
  h0 ← add32 f0 g0; h1 ← add32 f1 g1; h2 ← add32 f2 g2; h3 ← add32 f3 g3;
  h4 ← add32 f4 g4; h5 ← add32 f5 g5; h6 ← add32 f6 g6; h7 ← add32 f7 g7;
  h8 ← add32 f8 g8; h9 ← add32 f9 g9;
  Some (mkFe h0 h1 h2 h3 h4 h5 h6 h7 h8 h9).

Definition feSub (f g : Fe) : option Fe :=
  let '(mkFe f0 f1 f2 f3 f4 f5 f6 f7 f8 f9) := f in
  let '(mkFe g0 g1 g2 g3 g4 g5 g6 g7 g8 g9) := g in
  h0 ← sub32 f0 g0; h1 ← sub32 f1 g1; h2 ← sub32 f2 g2; h3 ← sub32 f3 g3;
  h4 ← sub32 f4 g4; h5 ← sub32 f5 g5; h6 ← sub32 f6 g6; h7 ← sub32 f7 g7;
  h8 ← sub32 f8 g8; h9 ← sub32 f9 g9;
  Some (mkFe h0 h1 h2 h3 h4 h5 h6 h7 h8 h9).

(** Unary minus on [uint32]. *)
Definition neg_uint32 (x : Z) : Z := wrap 32 (0xFFFFFFFF - x + 1).

Definition feCmov (f g : Fe) (b : Z) : Fe :=
  let '(mkFe f0 f1 f2 f3 f4 f5 f6 f7 f8 f9) := f in
  let '(mkFe g0 g1 g2 g3 g4 g5 g6 g7 g8 g9) := g in
  let x0 := Z.lxor f0 g0 in let x1 := Z.lxor f1 g1 in let x2 := Z.lxor f2 g2 in
  let x3 := Z.lxor f3 g3 in let x4 := Z.lxor f4 g4 in let x5 := Z.lxor f5 g5 in
  let x6 := Z.lxor f6 g6 in let x7 := Z.lxor f7 g7 in let x8 := Z.lxor f8 g8 in
  let x9 := Z.lxor f9 g9 in
  let bc := cast_int 32 (neg_uint32 b) in
  let x0 := Z.land x0 bc in let x1 := Z.land x1 bc in let x2 := Z.land x2 bc in
  let x3 := Z.land x3 bc in let x4 := Z.land x4 bc in let x5 := Z.land x5 bc in
  let x6 := Z.land x6 bc in let x7 := Z.land x7 bc in let x8 := Z.land x8 bc in
  let x9 := Z.land x9 bc in
  mkFe (Z.lxor f0 x0) (Z.lxor f1 x1) (Z.lxor f2 x2) (Z.lxor f3 x3) (Z.lxor f4 x4)
       (Z.lxor f5 x5) (Z.lxor f6 x6) (Z.lxor f7 x7) (Z.lxor f8 x8) (Z.lxor f9 x9).

Definition feCopy (f : Fe) : Fe :=
  let '(mkFe f0 f1 f2 f3 f4 f5 f6 f7 f8 f9) := f in mkFe f0 f1 f2 f3 f4 f5 f6 f7 f8 f9.

Definition load_3 (inp : bytes) : option Z :=
  match inp with
  | b0 :: b1 :: b2 :: _ => Some (Z.lor (Z.lor b0 (Z.shiftl b1 8)) (Z.shiftl b2 16))
  | _ => None
  end.

Definition load_4 (inp : bytes) : option Z :=
  match inp with
  | b0 :: b1 :: b2 :: b3 :: _ =>
      Some (Z.lor (Z.lor (Z.lor b0 (Z.shiftl b1 8)) (Z.shiftl b2 16)) (Z.shiftl b3 24))
  | _ => None
  end.

(** [s.toOpenArray(a, b)]. *)
Definition slice (s : bytes) (a b : nat) : bytes := take (b - a + 1) (drop a s).

(** [c = ashr(h + (1 shl (k - 1)), k); hn = hn + c; h -= (c shl k)]. *)
Definition carry (k h hn : Z) : option (Z * Z) :=
  t ← add64 h (Z.shiftl 1 (k - 1));
  let c := ashr t k in
  hn ← add64 hn c;
  h ← sub64 h (shl_int 64 c k);
  Some (h, hn).

(** The same with [hn = hn + (c * 19)]. *)
Definition carry19 (k h hn : Z) : option (Z * Z) :=
  t ← add64 h (Z.shiftl 1 (k - 1));
  let c := ashr t k in
  c19 ← mul64 c 19;
  hn ← add64 hn c19;
  h ← sub64 h (shl_int 64 c k);
  Some (h, hn).

(** [h[0] = cast[int32](h0)], ... *)
Definition fe_cast (h0 h1 h2 h3 h4 h5 h6 h7 h8 h9 : Z) : Fe :=
  mkFe (cast_int 32 h0) (cast_int 32 h1) (cast_int 32 h2) (cast_int 32 h3) (cast_int 32 h4)
       (cast_int 32 h5) (cast_int 32 h6) (cast_int 32 h7) (cast_int 32 h8) (cast_int 32 h9).

Definition feFromBytes (s : bytes) : option Fe :=
  h0 ← load_4 (slice s 0 3);
  h1 ← load_3 (slice s 4 6); let h1 := shl_int 64 h1 6 in
  h2 ← load_3 (slice s 7 9); let h2 := shl_int 64 h2 5 in
  h3 ← load_3 (slice s 10 12); let h3 := shl_int 64 h3 3 in
  h4 ← load_3 (slice s 13 15); let h4 := shl_int 64 h4 2 in
  h5 ← load_4 (slice s 16 19);
  h6 ← load_3 (slice s 20 22); let h6 := shl_int 64 h6 7 in
  h7 ← load_3 (slice s 23 25); let h7 := shl_int 64 h7 5 in
  h8 ← load_3 (slice s 26 28); let h8 := shl_int 64 h8 4 in
  h9 ← load_3 (slice s 29 31); let h9 := shl_int 64 (Z.land h9 8388607) 2 in
  '(h9, h0) ← carry19 25 h9 h0; '(h1, h2) ← carry 25 h1 h2;
  '(h3, h4) ← carry 25 h3 h4; '(h5, h6) ← carry 25 h5 h6;
  '(h7, h8) ← carry 25 h7 h8; '(h0, h1) ← carry 26 h0 h1;
  '(h2, h3) ← carry 26 h2 h3; '(h4, h5) ← carry 26 h4 h5;
  '(h6, h7) ← carry 26 h6 h7; '(h8, h9) ← carry 26 h8 h9;
  Some (fe_cast h0 h1 h2 h3 h4 h5 h6 h7 h8 h9).

(** [q = ashr(h + q, k)]. *)
Definition carry_in (h q k : Z) : option Z := t ← add32 h q; Some (ashr t k).

(** [c = ashr(h, k); hn += c; h -= c shl k]. *)
Definition carry32 (k h hn : Z) : option (Z * Z) :=
  let c := ashr h k in
  hn ← add32 hn c;
  h ← sub32 h (shl_int 32 c k);
  Some (h, hn).

(** [c9 = ashr(h9, 25); h9 -= c9 shl 25]. *)
Definition drop_carry (k h : Z) : option Z := sub32 h (shl_int 32 (ashr h k) k).

Definition fe_bytes (h0 h1 h2 h3 h4 h5 h6 h7 h8 h9 : Z) : bytes :=
  [ cast_byte (ashr h0 0); cast_byte (ashr h0 8); cast_byte (ashr h0 16);
    cast_byte (Z.lor (ashr h0 24) (shl_int 32 h1 2));
    cast_byte (ashr h1 6); cast_byte (ashr h1 14);
    cast_byte (Z.lor (ashr h1 22) (shl_int 32 h2 3));
    cast_byte (ashr h2 5); cast_byte (ashr h2 13);
    cast_byte (Z.lor (ashr h2 21) (shl_int 32 h3 5));
    cast_byte (ashr h3 3); cast_byte (ashr h3 11);
    cast_byte (Z.lor (ashr h3 19) (shl_int 32 h4 6));
    cast_byte (ashr h4 2); cast_byte (ashr h4 10); cast_byte (ashr h4 18);
    cast_byte (ashr h5 0); cast_byte (ashr h5 8); cast_byte (ashr h5 16);
    cast_byte (Z.lor (ashr h5 24) (shl_int 32 h6 1));
    cast_byte (ashr h6 7); cast_byte (ashr h6 15);
    cast_byte (Z.lor (ashr h6 23) (shl_int 32 h7 3));
    cast_byte (ashr h7 5); cast_byte (ashr h7 13);
    cast_byte (Z.lor (ashr h7 21) (shl_int 32 h8 4));
    cast_byte (ashr h8 4); cast_byte (ashr h8 12);
    cast_byte (Z.lor (ashr h8 20) (shl_int 32 h9 6));
    cast_byte (ashr h9 2); cast_byte (ashr h9 10); cast_byte (ashr h9 18) ].

Definition feToBytes (h : Fe) : option bytes :=
  let '(mkFe h0 h1 h2 h3 h4 h5 h6 h7 h8 h9) := h in
  t ← mul32 19 h9; t ← add32 t (Z.shiftl 1 24); let q := ashr t 25 in
  q ← carry_in h0 q 26; q ← carry_in h1 q 25; q ← carry_in h2 q 26; q ← carry_in h3 q 25;
  q ← carry_in h4 q 26; q ← carry_in h5 q 25; q ← carry_in h6 q 26; q ← carry_in h7 q 25;
  q ← carry_in h8 q 26; q ← carry_in h9 q 25;
  t ← mul32 19 q; h0 ← add32 h0 t;
  '(h0, h1) ← carry32 26 h0 h1; '(h1, h2) ← carry32 25 h1 h2;
  '(h2, h3) ← carry32 26 h2 h3; '(h3, h4) ← carry32 25 h3 h4;
  '(h4, h5) ← carry32 26 h4 h5; '(h5, h6) ← carry32 25 h5 h6;
  '(h6, h7) ← carry32 26 h6 h7; '(h7, h8) ← carry32 25 h7 h8;
  '(h8, h9) ← carry32 26 h8 h9; h9 ← drop_carry 25 h9;
  Some (fe_bytes h0 h1 h2 h3 h4 h5 h6 h7 h8 h9).

(** The carry chain that ends [feMul], [feSq] and [feSq2], and the final casts. *)
Definition fe_reduce (h0 h1 h2 h3 h4 h5 h6 h7 h8 h9 : Z) : option Fe :=
  '(h0, h1) ← carry 26 h0 h1; '(h4, h5) ← carry 26 h4 h5;
  '(h1, h2) ← carry 25 h1 h2; '(h5, h6) ← carry 25 h5 h6;
  '(h2, h3) ← carry 26 h2 h3; '(h6, h7) ← carry 26 h6 h7;
  '(h3, h4) ← carry 25 h3 h4; '(h7, h8) ← carry 25 h7 h8;
  '(h4, h5) ← carry 26 h4 h5; '(h8, h9) ← carry 26 h8 h9;
  '(h9, h0) ← carry19 25 h9 h0; '(h0, h1) ← carry 26 h0 h1;
  Some (fe_cast h0 h1 h2 h3 h4 h5 h6 h7 h8 h9).

(** The products are bound unevaluated; each is summed exactly once below. *)
#[local] Open Scope int64_scope.

Definition feMul (f g : Fe) : option Fe :=
  let '(mkFe f0 f1 f2 f3 f4 f5 f6 f7 f8 f9) := f in
  let '(mkFe g0 g1 g2 g3 g4 g5 g6 g7 g8 g9) := g in
  g1_19 ← mul32 19 g1; g2_19 ← mul32 19 g2; g3_19 ← mul32 19 g3; g4_19 ← mul32 19 g4;
  g5_19 ← mul32 19 g5; g6_19 ← mul32 19 g6; g7_19 ← mul32 19 g7; g8_19 ← mul32 19 g8;
  g9_19 ← mul32 19 g9; f1_2 ← mul32 2 f1; f3_2 ← mul32 2 f3; f5_2 ← mul32 2 f5;
  f7_2 ← mul32 2 f7; f9_2 ← mul32 2 f9;
  let f0g0 := mul64 f0 g0 in let f0g1 := mul64 f0 g1 in
  let f0g2 := mul64 f0 g2 in let f0g3 := mul64 f0 g3 in
  let f0g4 := mul64 f0 g4 in let f0g5 := mul64 f0 g5 in
  let f0g6 := mul64 f0 g6 in let f0g7 := mul64 f0 g7 in
  let f0g8 := mul64 f0 g8 in let f0g9 := mul64 f0 g9 in
  let f1g0 := mul64 f1 g0 in let f1g1_2 := mul64 f1_2 g1 in
  let f1g2 := mul64 f1 g2 in let f1g3_2 := mul64 f1_2 g3 in
  let f1g4 := mul64 f1 g4 in let f1g5_2 := mul64 f1_2 g5 in
  let f1g6 := mul64 f1 g6 in let f1g7_2 := mul64 f1_2 g7 in
  let f1g8 := mul64 f1 g8 in let f1g9_38 := mul64 f1_2 g9_19 in
  let f2g0 := mul64 f2 g0 in let f2g1 := mul64 f2 g1 in
  let f2g2 := mul64 f2 g2 in let f2g3 := mul64 f2 g3 in
  let f2g4 := mul64 f2 g4 in let f2g5 := mul64 f2 g5 in
  let f2g6 := mul64 f2 g6 in let f2g7 := mul64 f2 g7 in
  let f2g8_19 := mul64 f2 g8_19 in let f2g9_19 := mul64 f2 g9_19 in
  let f3g0 := mul64 f3 g0 in let f3g1_2 := mul64 f3_2 g1 in
  let f3g2 := mul64 f3 g2 in let f3g3_2 := mul64 f3_2 g3 in
  let f3g4 := mul64 f3 g4 in let f3g5_2 := mul64 f3_2 g5 in
  let f3g6 := mul64 f3 g6 in let f3g7_38 := mul64 f3_2 g7_19 in
  let f3g8_19 := mul64 f3 g8_19 in let f3g9_38 := mul64 f3_2 g9_19 in
  let f4g0 := mul64 f4 g0 in let f4g1 := mul64 f4 g1 in
  let f4g2 := mul64 f4 g2 in let f4g3 := mul64 f4 g3 in
  let f4g4 := mul64 f4 g4 in let f4g5 := mul64 f4 g5 in
  let f4g6_19 := mul64 f4 g6_19 in let f4g7_19 := mul64 f4 g7_19 in
  let f4g8_19 := mul64 f4 g8_19 in let f4g9_19 := mul64 f4 g9_19 in
  let f5g0 := mul64 f5 g0 in let f5g1_2 := mul64 f5_2 g1 in
  let f5g2 := mul64 f5 g2 in let f5g3_2 := mul64 f5_2 g3 in
  let f5g4 := mul64 f5 g4 in let f5g5_38 := mul64 f5_2 g5_19 in
  let f5g6_19 := mul64 f5 g6_19 in let f5g7_38 := mul64 f5_2 g7_19 in
  let f5g8_19 := mul64 f5 g8_19 in let f5g9_38 := mul64 f5_2 g9_19 in
  let f6g0 := mul64 f6 g0 in let f6g1 := mul64 f6 g1 in
  let f6g2 := mul64 f6 g2 in let f6g3 := mul64 f6 g3 in
  let f6g4_19 := mul64 f6 g4_19 in let f6g5_19 := mul64 f6 g5_19 in
  let f6g6_19 := mul64 f6 g6_19 in let f6g7_19 := mul64 f6 g7_19 in
  let f6g8_19 := mul64 f6 g8_19 in let f6g9_19 := mul64 f6 g9_19 in
  let f7g0 := mul64 f7 g0 in let f7g1_2 := mul64 f7_2 g1 in
  let f7g2 := mul64 f7 g2 in let f7g3_38 := mul64 f7_2 g3_19 in
  let f7g4_19 := mul64 f7 g4_19 in let f7g5_38 := mul64 f7_2 g5_19 in
  let f7g6_19 := mul64 f7 g6_19 in let f7g7_38 := mul64 f7_2 g7_19 in
  let f7g8_19 := mul64 f7 g8_19 in let f7g9_38 := mul64 f7_2 g9_19 in
  let f8g0 := mul64 f8 g0 in let f8g1 := mul64 f8 g1 in
  let f8g2_19 := mul64 f8 g2_19 in let f8g3_19 := mul64 f8 g3_19 in
  let f8g4_19 := mul64 f8 g4_19 in let f8g5_19 := mul64 f8 g5_19 in
  let f8g6_19 := mul64 f8 g6_19 in let f8g7_19 := mul64 f8 g7_19 in
  let f8g8_19 := mul64 f8 g8_19 in let f8g9_19 := mul64 f8 g9_19 in
  let f9g0 := mul64 f9 g0 in let f9g1_38 := mul64 f9_2 g1_19 in
  let f9g2_19 := mul64 f9 g2_19 in let f9g3_38 := mul64 f9_2 g3_19 in
  let f9g4_19 := mul64 f9 g4_19 in let f9g5_38 := mul64 f9_2 g5_19 in
  let f9g6_19 := mul64 f9 g6_19 in let f9g7_38 := mul64 f9_2 g7_19 in
  let f9g8_19 := mul64 f9 g8_19 in let f9g9_38 := mul64 f9_2 g9_19 in
  h0 ← f0g0 + f1g9_38 + f2g8_19 + f3g7_38 + f4g6_19 + f5g5_38 + f6g4_19 + f7g3_38 + f8g2_19
    + f9g1_38;
  h1 ← f0g1 + f1g0 + f2g9_19 + f3g8_19 + f4g7_19 + f5g6_19 + f6g5_19 + f7g4_19 + f8g3_19 +
    f9g2_19;
  h2 ← f0g2 + f1g1_2 + f2g0 + f3g9_38 + f4g8_19 + f5g7_38 + f6g6_19 + f7g5_38 + f8g4_19 +
    f9g3_38;
  h3 ← f0g3 + f1g2 + f2g1 + f3g0 + f4g9_19 + f5g8_19 + f6g7_19 + f7g6_19 + f8g5_19 +
    f9g4_19;
  h4 ← f0g4 + f1g3_2 + f2g2 + f3g1_2 + f4g0 + f5g9_38 + f6g8_19 + f7g7_38 + f8g6_19 +
    f9g5_38;
  h5 ← f0g5 + f1g4 + f2g3 + f3g2 + f4g1 + f5g0 + f6g9_19 + f7g8_19 + f8g7_19 + f9g6_19;
  h6 ← f0g6 + f1g5_2 + f2g4 + f3g3_2 + f4g2 + f5g1_2 + f6g0 + f7g9_38 + f8g8_19 + f9g7_38;
  h7 ← f0g7 + f1g6 + f2g5 + f3g4 + f4g3 + f5g2 + f6g1 + f7g0 + f8g9_19 + f9g8_19;
  h8 ← f0g8 + f1g7_2 + f2g6 + f3g5_2 + f4g4 + f5g3_2 + f6g2 + f7g1_2 + f8g0 + f9g9_38;
  h9 ← f0g9 + f1g8 + f2g7 + f3g6 + f4g5 + f5g4 + f6g3 + f7g2 + f8g1 + f9g0;
  fe_reduce h0 h1 h2 h3 h4 h5 h6 h7 h8 h9.

Definition feSq (f : Fe) : option Fe :=
  let '(mkFe f0 f1 f2 f3 f4 f5 f6 f7 f8 f9) := f in
  f0_2 ← mul32 2 f0; f1_2 ← mul32 2 f1; f2_2 ← mul32 2 f2; f3_2 ← mul32 2 f3;
  f4_2 ← mul32 2 f4; f5_2 ← mul32 2 f5; f6_2 ← mul32 2 f6; f7_2 ← mul32 2 f7;
  f5_38 ← mul32 38 f5; f6_19 ← mul32 19 f6; f7_38 ← mul32 38 f7; f8_19 ← mul32 19 f8;
  f9_38 ← mul32 38 f9;
  let f0f0 := mul64 f0 f0 in let f0f1_2 := mul64 f0_2 f1 in
  let f0f2_2 := mul64 f0_2 f2 in let f0f3_2 := mul64 f0_2 f3 in
  let f0f4_2 := mul64 f0_2 f4 in let f0f5_2 := mul64 f0_2 f5 in
  let f0f6_2 := mul64 f0_2 f6 in let f0f7_2 := mul64 f0_2 f7 in
  let f0f8_2 := mul64 f0_2 f8 in let f0f9_2 := mul64 f0_2 f9 in
  let f1f1_2 := mul64 f1_2 f1 in let f1f2_2 := mul64 f1_2 f2 in
  let f1f3_4 := mul64 f1_2 f3_2 in let f1f4_2 := mul64 f1_2 f4 in
  let f1f5_4 := mul64 f1_2 f5_2 in let f1f6_2 := mul64 f1_2 f6 in
  let f1f7_4 := mul64 f1_2 f7_2 in let f1f8_2 := mul64 f1_2 f8 in
  let f1f9_76 := mul64 f1_2 f9_38 in let f2f2 := mul64 f2 f2 in
  let f2f3_2 := mul64 f2_2 f3 in let f2f4_2 := mul64 f2_2 f4 in
  let f2f5_2 := mul64 f2_2 f5 in let f2f6_2 := mul64 f2_2 f6 in
  let f2f7_2 := mul64 f2_2 f7 in let f2f8_38 := mul64 f2_2 f8_19 in
  let f2f9_38 := mul64 f2 f9_38 in let f3f3_2 := mul64 f3_2 f3 in
  let f3f4_2 := mul64 f3_2 f4 in let f3f5_4 := mul64 f3_2 f5_2 in
  let f3f6_2 := mul64 f3_2 f6 in let f3f7_76 := mul64 f3_2 f7_38 in
  let f3f8_38 := mul64 f3_2 f8_19 in let f3f9_76 := mul64 f3_2 f9_38 in
  let f4f4 := mul64 f4 f4 in let f4f5_2 := mul64 f4_2 f5 in
  let f4f6_38 := mul64 f4_2 f6_19 in let f4f7_38 := mul64 f4 f7_38 in
  let f4f8_38 := mul64 f4_2 f8_19 in let f4f9_38 := mul64 f4 f9_38 in
  let f5f5_38 := mul64 f5 f5_38 in let f5f6_38 := mul64 f5_2 f6_19 in
  let f5f7_76 := mul64 f5_2 f7_38 in let f5f8_38 := mul64 f5_2 f8_19 in
  let f5f9_76 := mul64 f5_2 f9_38 in let f6f6_19 := mul64 f6 f6_19 in
  let f6f7_38 := mul64 f6 f7_38 in let f6f8_38 := mul64 f6_2 f8_19 in
  let f6f9_38 := mul64 f6 f9_38 in let f7f7_38 := mul64 f7 f7_38 in
  let f7f8_38 := mul64 f7_2 f8_19 in let f7f9_76 := mul64 f7_2 f9_38 in
  let f8f8_19 := mul64 f8 f8_19 in let f8f9_38 := mul64 f8 f9_38 in
  let f9f9_38 := mul64 f9 f9_38 in
  h0 ← f0f0 + f1f9_76 + f2f8_38 + f3f7_76 + f4f6_38 + f5f5_38;
  h1 ← f0f1_2 + f2f9_38 + f3f8_38 + f4f7_38 + f5f6_38;
  h2 ← f0f2_2 + f1f1_2 + f3f9_76 + f4f8_38 + f5f7_76 + f6f6_19;
  h3 ← f0f3_2 + f1f2_2 + f4f9_38 + f5f8_38 + f6f7_38;
  h4 ← f0f4_2 + f1f3_4 + f2f2 + f5f9_76 + f6f8_38 + f7f7_38;
  h5 ← f0f5_2 + f1f4_2 + f2f3_2 + f6f9_38 + f7f8_38;
  h6 ← f0f6_2 + f1f5_4 + f2f4_2 + f3f3_2 + f7f9_76 + f8f8_19;
  h7 ← f0f7_2 + f1f6_2 + f2f5_2 + f3f4_2 + f8f9_38;
  h8 ← f0f8_2 + f1f7_4 + f2f6_2 + f3f5_4 + f4f4 + f9f9_38;
  h9 ← f0f9_2 + f1f8_2 + f2f7_2 + f3f6_2 + f4f5_2;
  fe_reduce h0 h1 h2 h3 h4 h5 h6 h7 h8 h9.

Definition feSq2 (f : Fe) : option Fe :=
  let '(mkFe f0 f1 f2 f3 f4 f5 f6 f7 f8 f9) := f in
  f0_2 ← mul32 2 f0; f1_2 ← mul32 2 f1; f2_2 ← mul32 2 f2; f3_2 ← mul32 2 f3;
  f4_2 ← mul32 2 f4; f5_2 ← mul32 2 f5; f6_2 ← mul32 2 f6; f7_2 ← mul32 2 f7;
  f5_38 ← mul32 38 f5; f6_19 ← mul32 19 f6; f7_38 ← mul32 38 f7; f8_19 ← mul32 19 f8;
  f9_38 ← mul32 38 f9;
  let f0f0 := mul64 f0 f0 in let f0f1_2 := mul64 f0_2 f1 in
  let f0f2_2 := mul64 f0_2 f2 in let f0f3_2 := mul64 f0_2 f3 in
  let f0f4_2 := mul64 f0_2 f4 in let f0f5_2 := mul64 f0_2 f5 in
  let f0f6_2 := mul64 f0_2 f6 in let f0f7_2 := mul64 f0_2 f7 in
  let f0f8_2 := mul64 f0_2 f8 in let f0f9_2 := mul64 f0_2 f9 in
  let f1f1_2 := mul64 f1_2 f1 in let f1f2_2 := mul64 f1_2 f2 in
  let f1f3_4 := mul64 f1_2 f3_2 in let f1f4_2 := mul64 f1_2 f4 in
  let f1f5_4 := mul64 f1_2 f5_2 in let f1f6_2 := mul64 f1_2 f6 in
  let f1f7_4 := mul64 f1_2 f7_2 in let f1f8_2 := mul64 f1_2 f8 in
  let f1f9_76 := mul64 f1_2 f9_38 in let f2f2 := mul64 f2 f2 in
  let f2f3_2 := mul64 f2_2 f3 in let f2f4_2 := mul64 f2_2 f4 in
  let f2f5_2 := mul64 f2_2 f5 in let f2f6_2 := mul64 f2_2 f6 in
  let f2f7_2 := mul64 f2_2 f7 in let f2f8_38 := mul64 f2_2 f8_19 in
  let f2f9_38 := mul64 f2 f9_38 in let f3f3_2 := mul64 f3_2 f3 in
  let f3f4_2 := mul64 f3_2 f4 in let f3f5_4 := mul64 f3_2 f5_2 in
  let f3f6_2 := mul64 f3_2 f6 in let f3f7_76 := mul64 f3_2 f7_38 in
  let f3f8_38 := mul64 f3_2 f8_19 in let f3f9_76 := mul64 f3_2 f9_38 in
  let f4f4 := mul64 f4 f4 in let f4f5_2 := mul64 f4_2 f5 in
  let f4f6_38 := mul64 f4_2 f6_19 in let f4f7_38 := mul64 f4 f7_38 in
  let f4f8_38 := mul64 f4_2 f8_19 in let f4f9_38 := mul64 f4 f9_38 in
  let f5f5_38 := mul64 f5 f5_38 in let f5f6_38 := mul64 f5_2 f6_19 in
  let f5f7_76 := mul64 f5_2 f7_38 in let f5f8_38 := mul64 f5_2 f8_19 in
  let f5f9_76 := mul64 f5_2 f9_38 in let f6f6_19 := mul64 f6 f6_19 in
  let f6f7_38 := mul64 f6 f7_38 in let f6f8_38 := mul64 f6_2 f8_19 in
  let f6f9_38 := mul64 f6 f9_38 in let f7f7_38 := mul64 f7 f7_38 in
  let f7f8_38 := mul64 f7_2 f8_19 in let f7f9_76 := mul64 f7_2 f9_38 in
  let f8f8_19 := mul64 f8 f8_19 in let f8f9_38 := mul64 f8 f9_38 in
  let f9f9_38 := mul64 f9 f9_38 in
  h0 ← f0f0 + f1f9_76 + f2f8_38 + f3f7_76 + f4f6_38 + f5f5_38;
  h1 ← f0f1_2 + f2f9_38 + f3f8_38 + f4f7_38 + f5f6_38;
  h2 ← f0f2_2 + f1f1_2 + f3f9_76 + f4f8_38 + f5f7_76 + f6f6_19;
  h3 ← f0f3_2 + f1f2_2 + f4f9_38 + f5f8_38 + f6f7_38;
  h4 ← f0f4_2 + f1f3_4 + f2f2 + f5f9_76 + f6f8_38 + f7f7_38;
  h5 ← f0f5_2 + f1f4_2 + f2f3_2 + f6f9_38 + f7f8_38;
  h6 ← f0f6_2 + f1f5_4 + f2f4_2 + f3f3_2 + f7f9_76 + f8f8_19;
  h7 ← f0f7_2 + f1f6_2 + f2f5_2 + f3f4_2 + f8f9_38;
  h8 ← f0f8_2 + f1f7_4 + f2f6_2 + f3f5_4 + f4f4 + f9f9_38;
  h9 ← f0f9_2 + f1f8_2 + f2f7_2 + f3f6_2 + f4f5_2;
  h0 ← add64 h0 h0; h1 ← add64 h1 h1; h2 ← add64 h2 h2; h3 ← add64 h3 h3; h4 ← add64 h4 h4;
  h5 ← add64 h5 h5; h6 ← add64 h6 h6; h7 ← add64 h7 h7; h8 ← add64 h8 h8; h9 ← add64 h9 h9;
  fe_reduce h0 h1 h2 h3 h4 h5 h6 h7 h8 h9.

#[local] Close Scope int64_scope.

Definition feNeg (f : Fe) : option Fe :=
  let '(mkFe f0 f1 f2 f3 f4 f5 f6 f7 f8 f9) := f in
  h0 ← sub32 0 f0; h1 ← sub32 0 f1; h2 ← sub32 0 f2; h3 ← sub32 0 f3; h4 ← sub32 0 f4;
  h5 ← sub32 0 f5; h6 ← sub32 0 f6; h7 ← sub32 0 f7; h8 ← sub32 0 f8; h9 ← sub32 0 f9;
  Some (mkFe h0 h1 h2 h3 h4 h5 h6 h7 h8 h9).

(** [d = d or (x[i] xor y[i])] for the 32 indices, on [uint32]. *)
Definition verify32_acc (x y : bytes) : option Z :=
  doAssert ((32 <=? length x) && (32 <=? length y))%nat;;
  Some (foldl (fun d p => Z.lor d (Z.lxor (fst p) (snd p))) 0 (zip (take 32 x) (take 32 y))).

Definition verify32 (x y : bytes) : option Z :=
  d ← verify32_acc x y;
  Some (cast_int 32 (wrap 32 (Z.land 1 (Z.shiftr (wrap 32 (d - 1)) 8) - 1))).

Definition ZeroFe : bytes := replicate 32 0.

Definition feIsNegative (f : Fe) : option Z :=
  s ← feToBytes f; b ← head s; Some (Z.land b 1).

Definition feIsNonZero (f : Fe) : option Z := s ← feToBytes f; verify32 s ZeroFe.

(** [for i in 1 ..< n: feSq(t, t)]. *)
Fixpoint feSq_loop (n : nat) (t : Fe) : option Fe :=
  match n with
  | O => Some t
  | S n => t ← feSq t; feSq_loop n t
  end.

(** [feSq(t, x)] followed by the loop up to [n]. *)
Definition feSqs (n : nat) (x : Fe) : option Fe := t ← feSq x; feSq_loop (n - 1) t.

Definition feInvert (z : Fe) : option Fe :=
  t0 ← feSqs 1 z;
  t1 ← feSqs 2 t0;
  t1 ← feMul z t1;
  t0 ← feMul t0 t1;
  t2 ← feSqs 1 t0;
  t1 ← feMul t1 t2;
  t2 ← feSqs 5 t1;
  t1 ← feMul t2 t1;
  t2 ← feSqs 10 t1;
  t2 ← feMul t2 t1;
  t3 ← feSqs 20 t2;
  t2 ← feMul t3 t2;
  t2 ← feSqs 10 t2;
  t1 ← feMul t2 t1;
  t2 ← feSqs 50 t1;
  t2 ← feMul t2 t1;
  t3 ← feSqs 100 t2;
  t2 ← feMul t3 t2;
  t2 ← feSqs 50 t2;
  t1 ← feMul t2 t1;
  t1 ← feSqs 5 t1;
  feMul t1 t0.

Definition fePow22523 (z : Fe) : option Fe :=
  t0 ← feSqs 1 z;
  t1 ← feSqs 2 t0;
  t1 ← feMul z t1;
  t0 ← feMul t0 t1;
  t0 ← feSqs 1 t0;
  t0 ← feMul t1 t0;
  t1 ← feSqs 5 t0;
  t0 ← feMul t1 t0;
  t1 ← feSqs 10 t0;
  t1 ← feMul t1 t0;
  t2 ← feSqs 20 t1;
  t1 ← feMul t2 t1;
  t1 ← feSqs 10 t1;
  t0 ← feMul t1 t0;
  t1 ← feSqs 50 t0;
  t1 ← feMul t1 t0;
  t2 ← feSqs 100 t1;
  t1 ← feMul t2 t1;
  t1 ← feSqs 50 t1;
  t0 ← feMul t1 t0;
  t0 ← feSqs 2 t0;
  feMul t0 z.

(** ** Specification *)

Definition p25519 : Z := 2 ^ 255 - 19.

Definition limbs_val (h0 h1 h2 h3 h4 h5 h6 h7 h8 h9 : Z) : Z :=
  h0 + 2 ^ 26 * h1 + 2 ^ 51 * h2 + 2 ^ 77 * h3 + 2 ^ 102 * h4 + 2 ^ 128 * h5 + 2 ^ 153 * h6
  + 2 ^ 179 * h7 + 2 ^ 204 * h8 + 2 ^ 230 * h9.

Definition fe_val (f : Fe) : Z :=
  let '(mkFe h0 h1 h2 h3 h4 h5 h6 h7 h8 h9) := f in limbs_val h0 h1 h2 h3 h4 h5 h6 h7 h8 h9.

(** Congruence modulo the prime. *)
Definition eqm (a b : Z) : Prop := exists c, a = b + p25519 * c.

(** The even limbs are bounded by [a], the odd ones by [b]. *)
Definition fe_bound (a b : Z) (f : Fe) : Prop :=
  let '(mkFe h0 h1 h2 h3 h4 h5 h6 h7 h8 h9) := f in
  Z.abs h0 <= a /\ Z.abs h1 <= b /\ Z.abs h2 <= a /\ Z.abs h3 <= b /\ Z.abs h4 <= a /\
  Z.abs h5 <= b /\ Z.abs h6 <= a /\ Z.abs h7 <= b /\ Z.abs h8 <= a /\ Z.abs h9 <= b.

(** What a product returns (1.01 * 2^25 and 1.01 * 2^24), and what it accepts
(1.65 * 2^26 and 1.65 * 2^25): the sum or difference of two products, and more. *)
Definition tight : Fe -> Prop := fe_bound 33889976 16944988.

Definition loose : Fe -> Prop := fe_bound 110729625 55364812.

(** ** Congruence *)

#[export] Instance eqm_equiv : Equivalence eqm.
Proof.
  split; unfold eqm.
  - intros x. exists 0. lia.
  - intros x y [c ->]. exists (- c). lia.
  - intros x y z [c ->] [d ->]. exists (c + d). lia.
Qed.

#[export] Instance eqm_add : Proper (eqm ==> eqm ==> eqm) Z.add.
Proof. intros a a' [c ->] b b' [d ->]. exists (c + d). lia. Qed.

#[export] Instance eqm_sub : Proper (eqm ==> eqm ==> eqm) Z.sub.
Proof. intros a a' [c ->] b b' [d ->]. exists (c - d). lia. Qed.

#[export] Instance eqm_opp : Proper (eqm ==> eqm) Z.opp.
Proof. intros a a' [c ->]. exists (- c). lia. Qed.

#[export] Instance eqm_mul : Proper (eqm ==> eqm ==> eqm) Z.mul.
Proof. intros a a' [c ->] b b' [d ->]. exists (c * b' + d * a' + p25519 * c * d). ring. Qed.

Lemma eqm_mod a b : eqm a b <-> a mod p25519 = b mod p25519.
Proof.
  assert (Hp : 0 < p25519) by (unfold p25519; pow2; lia). split.
  - intros [c ->]. by rewrite (Z.mul_comm p25519), Z_mod_plus_full.
  - intros H. exists (a / p25519 - b / p25519).
    rewrite (Z.div_mod a p25519) at 1 by lia. rewrite (Z.div_mod b p25519) at 1 by lia. lia.
Qed.

Lemma eqm_pow a b n : eqm a b -> 0 <= n -> eqm (a ^ n) (b ^ n).
Proof.
  intros Hab. revert n. apply natlike_ind; [done|]. intros n Hn IH.
  rewrite !Z.pow_succ_r by done. by rewrite IH, Hab.
Qed.

(** ** Overflow *)

Lemma checked_Some w x : - 2 ^ (w - 1) <= x < 2 ^ (w - 1) -> checked w x = Some x.
Proof.
  intros Hx. unfold checked. rewrite (proj2 (Z.leb_le _ _)), (proj2 (Z.ltb_lt _ _)) by lia. done.
Qed.

Lemma cast_int_small w x : 0 < w -> - 2 ^ (w - 1) <= x < 2 ^ (w - 1) -> cast_int w x = x.
Proof. intros Hw Hx. by apply to_signed_wrap. Qed.

Lemma ashr_div x n : 0 <= n -> ashr x n = x / 2 ^ n.
Proof. apply Z.shiftr_div_pow2. Qed.

(** A computation that succeeds with a value bounded by [B]. *)
Definition bnd (B : Z) (m : option Z) (x : Z) : Prop := m = Some x /\ Z.abs x <= B.

Lemma bnd_checked w B x : Z.abs x <= B -> (B <? 2 ^ (w - 1)) = true -> bnd B (checked w x) x.
Proof. intros Hx HB%Z.ltb_lt. split; [apply checked_Some; lia|done]. Qed.

Lemma bnd_mul w A B x y : Z.abs x <= A -> Z.abs y <= B -> (A * B <? 2 ^ (w - 1)) = true ->
  bnd (A * B) (checked w (x * y)) (x * y).
Proof.
  intros Hx Hy HB. apply bnd_checked; [|done]. rewrite Z.abs_mul.
  apply Z.mul_le_mono_nonneg; lia.
Qed.

Lemma bnd_mul32 A B x y : Z.abs x <= A -> Z.abs y <= B -> (A * B <? 2 ^ 31) = true ->
  bnd (A * B) (mul32 x y) (x * y).
Proof. apply (bnd_mul 32). Qed.

Lemma bnd_mul64 A B x y : Z.abs x <= A -> Z.abs y <= B -> (A * B <? 2 ^ 63) = true ->
  bnd (A * B) (mul64 x y) (x * y).
Proof. apply (bnd_mul 64). Qed.

Lemma bnd_sum64 A B m n x y : bnd A m x -> bnd B n y -> (A + B <? 2 ^ 63) = true ->
  bnd (A + B) (sum64 m n) (x + y).
Proof.
  intros [-> Hx] [-> Hy] HB. unfold sum64, add64. cbn [mbind option_bind].
  apply (bnd_checked 64); [lia|done].
Qed.

Lemma bnd_add64 A B x y : Z.abs x <= A -> Z.abs y <= B -> (A + B <? 2 ^ 63) = true ->
  bnd (A + B) (add64 x y) (x + y).
Proof. intros Hx Hy HB. apply (bnd_checked 64); [lia|done]. Qed.

Lemma bnd_add32 A B x y : Z.abs x <= A -> Z.abs y <= B -> (A + B <? 2 ^ 31) = true ->
  bnd (A + B) (add32 x y) (x + y).
Proof. intros Hx Hy HB. apply (bnd_checked 32); [lia|done]. Qed.

Lemma bnd_sub32 A B x y : Z.abs x <= A -> Z.abs y <= B -> (A + B <? 2 ^ 31) = true ->
  bnd (A + B) (sub32 x y) (x - y).
Proof. intros Hx Hy HB. apply (bnd_checked 32); [lia|done]. Qed.

Lemma bnd_bind {A} B m x (K : Z -> option A) (Q : A -> Prop) : bnd B m x ->
  (forall y, y = x -> Z.abs y <= B -> exists h, K y = Some h /\ Q h) ->
  exists h, (m ≫= K) = Some h /\ Q h.
Proof. intros [-> Hx] HK. by apply HK. Qed.

Lemma carry_spec k H N h hn : (k = 25 \/ k = 26) -> Z.abs h <= H -> Z.abs hn <= N ->
  H <= 2 ^ 62 + 2 ^ 38 -> N <= 2 ^ 62 + 2 ^ 38 ->
  let c := (h + 2 ^ (k - 1)) / 2 ^ k in
  carry k h hn = Some (h - 2 ^ k * c, hn + c) /\
  - 2 ^ (k - 1) <= h - 2 ^ k * c < 2 ^ (k - 1) /\ Z.abs c <= H / 2 ^ k + 1.
Proof.
  intros Hk Hh Hn HH HN c.
  assert (Hc : - 2 ^ (k - 1) <= h - 2 ^ k * c < 2 ^ (k - 1) /\ Z.abs c <= H / 2 ^ k + 1).
  { subst c. destruct Hk as [-> | ->]; revert Hh; pow2; intros Hh;
      split; Z.div_mod_to_equations; lia. }
  assert (Hd : (h + 2 ^ (k - 1)) / 2 ^ k = c) by done. clearbody c.
  split; [|done]. unfold carry, add64, sub64.
  assert (Hs : Z.shiftl 1 (k - 1) = 2 ^ (k - 1)) by (apply Z.shiftl_1_l). rewrite Hs.
  assert (Hb : 0 <= H / 2 ^ k <= 2 ^ 38 + 2 ^ 14).
  { destruct Hk as [-> | ->]; revert HH; pow2; intros HH; Z.div_mod_to_equations; lia. }
  assert (Hm : shl_int 64 c k = 2 ^ k * c).
  { unfold shl_int. rewrite Z.shiftl_mul_pow2 by lia. rewrite cast_int_small; [lia|lia|].
    destruct Hk as [-> | ->]; revert Hc Hb; pow2; lia. }
  rewrite checked_Some by (destruct Hk as [-> | ->]; revert HH; pow2; lia).
  cbn [mbind option_bind]. rewrite ashr_div, Hd by lia. clear Hd Hs.
  rewrite (checked_Some 64 (hn + c)) by (destruct Hc as [_ Hc]; clear Hm Hk Hh; revert Hc Hb HN; pow2; lia).
  cbn [mbind option_bind]. rewrite Hm.
  rewrite checked_Some by (destruct Hk as [-> | ->]; revert Hc; pow2; lia).
  done.
Qed.

Lemma carry_bind {A} k H N B h hn (K : Z * Z -> option A) (Q : A -> Prop) :
  (k = 25 \/ k = 26) -> Z.abs h <= H -> Z.abs hn <= N ->
  (H <=? 2 ^ 62 + 2 ^ 38) && (N <=? 2 ^ 62 + 2 ^ 38) && (H / 2 ^ k + 1 <=? B) = true ->
  (forall c h' hn', h' = h - 2 ^ k * c -> hn' = hn + c -> - 2 ^ (k - 1) <= h' < 2 ^ (k - 1) ->
    Z.abs c <= B -> exists r, K (h', hn') = Some r /\ Q r) ->
  exists r, (carry k h hn ≫= K) = Some r /\ Q r.
Proof.
  intros Hk Hh Hn [[HH%Z.leb_le HN%Z.leb_le]%andb_true_iff HB%Z.leb_le]%andb_true_iff HK.
  destruct (carry_spec k H N h hn) as (E & Hr & Hc); [done..|]. rewrite E.
  eapply HK; [done|done|done|lia].
Qed.

Lemma carry19_bind {A} k H N B h hn (K : Z * Z -> option A) (Q : A -> Prop) :
  (k = 25 \/ k = 26) -> Z.abs h <= H -> Z.abs hn <= N ->
  (H <=? 2 ^ 62 + 2 ^ 38) && (N <=? 2 ^ 62) && (H / 2 ^ k + 1 <=? B) = true ->
  (forall c h' hn', h' = h - 2 ^ k * c -> hn' = hn + 19 * c ->
    - 2 ^ (k - 1) <= h' < 2 ^ (k - 1) ->
    Z.abs c <= B -> exists r, K (h', hn') = Some r /\ Q r) ->
  exists r, (carry19 k h hn ≫= K) = Some r /\ Q r.
Proof.
  intros Hk Hh Hn [[HH%Z.leb_le HN%Z.leb_le]%andb_true_iff HB%Z.leb_le]%andb_true_iff HK.
  destruct (carry_spec k H N h hn) as (E & Hr & Hc); [done..|lia|].
  unfold carry, carry19 in *. destruct (add64 h _) as [t|]; [|done].
  cbn [mbind option_bind] in *.
  destruct (add64 hn (ashr t k)) as [s|] eqn:Es; [|done]. cbn [mbind option_bind] in E.
  destruct (sub64 h _) as [u|] eqn:Eu; [|done]. cbn [mbind option_bind] in E. 
  injection E as Hu Hs.
  assert (Ht : ashr t k = (h + 2 ^ (k - 1)) / 2 ^ k).
  { unfold add64, checked in Es. destruct (_ && _); [|done]. injection Es. lia. }
  assert (Hb : H / 2 ^ k + 1 <= 2 ^ 38 + 2 ^ 14).
  { destruct Hk as [-> | ->]; revert HH; pow2; intros HH; Z.div_mod_to_equations; lia. }
  unfold mul64, add64. rewrite <- Ht in *. set (c := ashr t k) in *. clearbody c.
  rewrite (checked_Some 64 (c * 19)) by (clear Hr Ht; revert Hb; pow2; lia).
  cbn [mbind option_bind].
  rewrite (checked_Some 64 (hn + c * 19)) by (clear Hr Ht; revert Hb HN; pow2; lia).
  cbn [mbind option_bind].
  eapply (HK c); lia.
Qed.

Lemma cast_int_bnd B x : Z.abs x <= B -> (B <? 2 ^ 31) = true -> cast_int 32 x = x.
Proof. intros Hx HB%Z.ltb_lt. apply cast_int_small; [lia|]. change (32 - 1) with 31. lia. Qed.

(** One step of a carry chain: the bounds are the ones of the context. *)
Lemma carry_step {A} k H N h hn (K : Z * Z -> option A) (Q : A -> Prop) :
  (k = 25 \/ k = 26) -> Z.abs h <= H -> Z.abs hn <= N ->
  (H <=? 2 ^ 62 + 2 ^ 38) && (N <=? 2 ^ 62 + 2 ^ 38) = true ->
  (forall c h' hn', h' = h - 2 ^ k * c -> hn' = hn + c -> Z.abs h' <= 2 ^ (k - 1) ->
    Z.abs hn' <= N + (H / 2 ^ k + 1) -> exists r, K (h', hn') = Some r /\ Q r) ->
  exists r, (carry k h hn ≫= K) = Some r /\ Q r.
Proof.
  intros Hk Hh Hn Hb HK. eapply (carry_bind k H N (H / 2 ^ k + 1)); [done..| |].
  { rewrite Hb. apply Z.leb_refl. }
  intros c h' hn' Eh En Hr Hc. apply (HK c); [done|done|lia|lia].
Qed.

Lemma carry19_step {A} k H N h hn (K : Z * Z -> option A) (Q : A -> Prop) :
  (k = 25 \/ k = 26) -> Z.abs h <= H -> Z.abs hn <= N ->
  (H <=? 2 ^ 62 + 2 ^ 38) && (N <=? 2 ^ 62) = true ->
  (forall c h' hn', h' = h - 2 ^ k * c -> hn' = hn + 19 * c -> Z.abs h' <= 2 ^ (k - 1) ->
    Z.abs hn' <= N + 19 * (H / 2 ^ k + 1) -> exists r, K (h', hn') = Some r /\ Q r) ->
  exists r, (carry19 k h hn ≫= K) = Some r /\ Q r.
Proof.
  intros Hk Hh Hn Hb HK. eapply (carry19_bind k H N (H / 2 ^ k + 1)); [done..| |].
  { rewrite Hb. apply Z.leb_refl. }
  intros c h' hn' Eh En Hr Hc. apply (HK c); [done|done|lia|lia].
Qed.

(** Evaluates the bound of a hypothesis [Z.abs x <= B]. *)
Ltac eval_bound H :=
  match type of H with
  | Z.abs _ <= ?B => let v := eval vm_compute in B in change B with v in H
  end.

Ltac carry_tac :=
  first
    [ eapply carry_step; [by auto|eassumption|eassumption|vm_compute; reflexivity|]
    | eapply carry19_step; [by auto|eassumption|eassumption|vm_compute; reflexivity|] ];
  let c := fresh "c" in let h := fresh "h" in let n := fresh "n" in
  let Eh := fresh "Eh" in let En := fresh "En" in
  let Bh := fresh "Bh" in let Bn := fresh "Bn" in
  intros c h n Eh En Bh Bn; cbv beta iota; eval_bound Bh; eval_bound Bn.

Lemma fe_reduce_spec h0 h1 h2 h3 h4 h5 h6 h7 h8 h9 :
  Z.abs h0 <= 2 ^ 62 -> Z.abs h1 <= 2 ^ 62 -> Z.abs h2 <= 2 ^ 62 -> Z.abs h3 <= 2 ^ 62 ->
  Z.abs h4 <= 2 ^ 62 -> Z.abs h5 <= 2 ^ 62 -> Z.abs h6 <= 2 ^ 62 -> Z.abs h7 <= 2 ^ 62 ->
  Z.abs h8 <= 2 ^ 62 -> Z.abs h9 <= 2 ^ 62 ->
  exists h, fe_reduce h0 h1 h2 h3 h4 h5 h6 h7 h8 h9 = Some h /\
    (tight h /\ eqm (fe_val h) (limbs_val h0 h1 h2 h3 h4 h5 h6 h7 h8 h9)).
Proof.
  unfold fe_reduce. intros. do 12 carry_tac.
  eexists. split; [reflexivity|]. unfold fe_cast.
  erewrite !cast_int_bnd by (eassumption || (vm_compute; reflexivity)). split.
  - unfold tight, fe_bound. split_and!; (etrans; [eassumption|vm_compute; discriminate]).
  - subst. exists (- c9). unfold fe_val, limbs_val, p25519. ring.
Qed.

(** ** Products *)

Ltac bnd_tac :=
  lazymatch goal with
  | |- bnd _ (sum64 _ _) _ => eapply bnd_sum64; [bnd_tac|bnd_tac|vm_compute; reflexivity]
  | |- bnd _ (mul64 _ _) _ => eapply bnd_mul64; [eassumption|eassumption|vm_compute; reflexivity]
  | |- bnd _ (mul32 _ _) _ =>
      eapply bnd_mul32; [apply Z.le_refl|eassumption|vm_compute; reflexivity]
  | |- bnd _ (add64 _ _) _ => eapply bnd_add64; [eassumption|eassumption|vm_compute; reflexivity]
  | |- bnd _ (add32 _ _) _ => eapply bnd_add32; [eassumption|eassumption|vm_compute; reflexivity]
  | |- bnd _ (sub32 _ _) _ => eapply bnd_sub32; [eassumption|eassumption|vm_compute; reflexivity]
  end.

(** Runs the next checked operation. *)
Ltac run_tac :=
  eapply bnd_bind; [bnd_tac|];
  let x := fresh "x" in let Ex := fresh "Ex" in let Bx := fresh "Bx" in
  intros x Ex Bx; cbv beta; eval_bound Bx.

Lemma bnd_reduce h0 h1 h2 h3 h4 h5 h6 h7 h8 h9 v b0 b1 b2 b3 b4 b5 b6 b7 b8 b9 :
  Z.abs h0 <= b0 -> Z.abs h1 <= b1 -> Z.abs h2 <= b2 -> Z.abs h3 <= b3 ->
  Z.abs h4 <= b4 -> Z.abs h5 <= b5 -> Z.abs h6 <= b6 -> Z.abs h7 <= b7 ->
  Z.abs h8 <= b8 -> Z.abs h9 <= b9 ->
  forallb (fun b => b <=? 2 ^ 62) [b0; b1; b2; b3; b4; b5; b6; b7; b8; b9] = true ->
  eqm (limbs_val h0 h1 h2 h3 h4 h5 h6 h7 h8 h9) v ->
  exists h, fe_reduce h0 h1 h2 h3 h4 h5 h6 h7 h8 h9 = Some h /\ (tight h /\ eqm (fe_val h) v).
Proof.
  intros ?????????? Hb Hv. rewrite forallb_forall in Hb.
  assert (Hle : forall b, In b [b0; b1; b2; b3; b4; b5; b6; b7; b8; b9] -> b <= 2 ^ 62)
    by (intros b Hin; apply Z.leb_le; auto).
  destruct (fe_reduce_spec h0 h1 h2 h3 h4 h5 h6 h7 h8 h9) as (h & E & Ht & Hh);
    [(etrans; [eassumption|apply Hle; simpl; tauto])..|].
  exists h. split; [done|]. split; [done|]. by rewrite Hh.
Qed.

(** What the limbs of a product beyond the tenth weigh: 2^255 is 19. *)
Definition mul_over (f0 f1 f2 f3 f4 f5 f6 f7 f8 f9 g0 g1 g2 g3 g4 g5 g6 g7 g8 g9 : Z) : Z :=
  2 ^ 0 * (2 * f1 * g9 + f2 * g8 + 2 * f3 * g7 + f4 * g6 + 2 * f5 * g5 + f6 * g4 + 2 * f7
    * g3 + f8 * g2 + 2 * f9 * g1) + 2 ^ 26 * (f2 * g9 + f3 * g8 + f4 * g7 + f5 * g6 + f6 *
    g5 + f7 * g4 + f8 * g3 + f9 * g2) + 2 ^ 51 * (2 * f3 * g9 + f4 * g8 + 2 * f5 * g7 + f6 *
    g6 + 2 * f7 * g5 + f8 * g4 + 2 * f9 * g3) + 2 ^ 77 * (f4 * g9 + f5 * g8 + f6 * g7 + f7 *
    g6 + f8 * g5 + f9 * g4) + 2 ^ 102 * (2 * f5 * g9 + f6 * g8 + 2 * f7 * g7 + f8 * g6 + 2 *
    f9 * g5) + 2 ^ 128 * (f6 * g9 + f7 * g8 + f8 * g7 + f9 * g6) + 2 ^ 153 * (2 * f7 * g9 +
    f8 * g8 + 2 * f9 * g7) + 2 ^ 179 * (f8 * g9 + f9 * g8) + 2 ^ 204 * (2 * f9 * g9).

Lemma feMul_spec f g : loose f -> loose g ->
  exists h, feMul f g = Some h /\ (tight h /\ eqm (fe_val h) (fe_val f * fe_val g)).
Proof.
  destruct f as [f0 f1 f2 f3 f4 f5 f6 f7 f8 f9], g as [g0 g1 g2 g3 g4 g5 g6 g7 g8 g9].
  unfold loose, fe_bound. intros Hf Hg. destruct_and!. cbv beta iota zeta delta [feMul].
  do 24 run_tac. eapply bnd_reduce; [eassumption..|vm_compute; reflexivity|].
  exists (- mul_over f0 f1 f2 f3 f4 f5 f6 f7 f8 f9 g0 g1 g2 g3 g4 g5 g6 g7 g8 g9). subst.
  unfold fe_val, limbs_val, p25519, mul_over. ring.
Qed.

Lemma feSq_spec f : loose f ->
  exists h, feSq f = Some h /\ (tight h /\ eqm (fe_val h) (fe_val f * fe_val f)).
Proof.
  destruct f as [f0 f1 f2 f3 f4 f5 f6 f7 f8 f9].
  unfold loose, fe_bound. intros Hf. destruct_and!. cbv beta iota zeta delta [feSq].
  do 23 run_tac. eapply bnd_reduce; [eassumption..|vm_compute; reflexivity|].
  exists (- mul_over f0 f1 f2 f3 f4 f5 f6 f7 f8 f9 f0 f1 f2 f3 f4 f5 f6 f7 f8 f9). subst.
  unfold fe_val, limbs_val, p25519, mul_over. ring.
Qed.

Lemma feSq2_spec f : loose f ->
  exists h, feSq2 f = Some h /\ (tight h /\ eqm (fe_val h) (2 * (fe_val f * fe_val f))).
Proof.
  destruct f as [f0 f1 f2 f3 f4 f5 f6 f7 f8 f9].
  unfold loose, fe_bound. intros Hf. destruct_and!. cbv beta iota zeta delta [feSq2].
  do 33 run_tac. eapply bnd_reduce; [eassumption..|vm_compute; reflexivity|].
  exists (- (2 * mul_over f0 f1 f2 f3 f4 f5 f6 f7 f8 f9 f0 f1 f2 f3 f4 f5 f6 f7 f8 f9)). subst.
  unfold fe_val, limbs_val, p25519, mul_over. ring.
Qed.

(** ** Sums, differences and selection *)

Lemma bound_weaken a b a' b' f : fe_bound a b f -> a <= a' -> b <= b' -> fe_bound a' b' f.
Proof.
  destruct f. unfold fe_bound. intros. destruct_and!. split_and!; (etrans; [eassumption|done]).
Qed.

Lemma tight_loose f : tight f -> loose f.
Proof. intros H. by eapply bound_weaken; [exact H|vm_compute..]. Qed.

Lemma plus32 A B x y : Z.abs x <= A -> Z.abs y <= B -> A + B < 2 ^ 31 ->
  bnd (A + B) (add32 x y) (x + y).
Proof. intros Hx Hy HB. apply bnd_add32; [done|done|by apply Z.ltb_lt]. Qed.

Lemma minus32 A B x y : Z.abs x <= A -> Z.abs y <= B -> A + B < 2 ^ 31 ->
  bnd (A + B) (sub32 x y) (x - y).
Proof. intros Hx Hy HB. apply bnd_sub32; [done|done|by apply Z.ltb_lt]. Qed.

Ltac limbwise lem :=
  do 10 (eapply bnd_bind; [by eapply lem; eassumption|];
         let x := fresh "x" in let Ex := fresh "Ex" in let Bx := fresh "Bx" in
         intros x Ex Bx; cbv beta);
  eexists; split; [reflexivity|]; split; [by split_and!|];
  subst; unfold fe_val, limbs_val; ring.

Lemma feAdd_spec a b a' b' f g : fe_bound a b f -> fe_bound a' b' g ->
  a + a' < 2 ^ 31 -> b + b' < 2 ^ 31 ->
  exists h, feAdd f g = Some h /\ (fe_bound (a + a') (b + b') h /\ fe_val h = fe_val f + fe_val g).
Proof.
  destruct f, g. unfold fe_bound. intros Hf Hg Ha Hb. destruct_and!. unfold feAdd.
  limbwise plus32.
Qed.

Lemma feSub_spec a b a' b' f g : fe_bound a b f -> fe_bound a' b' g ->
  a + a' < 2 ^ 31 -> b + b' < 2 ^ 31 ->
  exists h, feSub f g = Some h /\ (fe_bound (a + a') (b + b') h /\ fe_val h = fe_val f - fe_val g).
Proof.
  destruct f, g. unfold fe_bound. intros Hf Hg Ha Hb. destruct_and!. unfold feSub.
  limbwise minus32.
Qed.

Lemma feNeg_spec a b f : fe_bound a b f -> a < 2 ^ 31 -> b < 2 ^ 31 ->
  exists h, feNeg f = Some h /\ (fe_bound a b h /\ fe_val h = - fe_val f).
Proof.
  intros Hf Ha Hb.
  assert (H0 : fe_bound 0 0 fe0) by (by repeat split).
  destruct (feSub_spec 0 0 a b fe0 f H0 Hf Ha Hb) as (h & E & Hh & Hv).
  exists h. destruct f. split; [exact E|]. split; [exact Hh|].
  change (fe_val fe0) with 0 in Hv. lia.
Qed.

Lemma feCmov_spec f g b : b = 0 \/ b = 1 -> feCmov f g b = if b =? 1 then g else f.
Proof.
  intros Hb. destruct f, g. unfold feCmov.
  destruct Hb as [-> | ->]; cbn [Z.eqb Pos.eqb].
  - change (cast_int 32 (neg_uint32 0)) with 0. by rewrite !Z.land_0_r, !Z.lxor_0_r.
  - change (cast_int 32 (neg_uint32 1)) with (-1).
    rewrite !Z.land_m1_r, <- !Z.lxor_assoc, !Z.lxor_nilpotent, !Z.lxor_0_l. done.
Qed.

(** ** Powers *)

(** [t] is the [e]-th power of [z]. *)
Definition pow_of (z : Fe) (e : Z) (t : Fe) : Prop := tight t /\ eqm (fe_val t) (fe_val z ^ e).

Lemma mul_pow z a b f g : 0 <= a -> 0 <= b -> loose f -> loose g ->
  eqm (fe_val f) (fe_val z ^ a) -> eqm (fe_val g) (fe_val z ^ b) ->
  exists h, feMul f g = Some h /\ pow_of z (a + b) h.
Proof.
  intros Ha Hb Hf Hg Ef Eg. destruct (feMul_spec f g Hf Hg) as (h & E & Ht & Hv).
  exists h. split; [done|]. split; [done|]. by rewrite Hv, Ef, Eg, Z.pow_add_r.
Qed.

Lemma sq_loop_pow z n a t : 0 <= a -> pow_of z a t ->
  exists h, feSq_loop n t = Some h /\ pow_of z (a * 2 ^ Z.of_nat n) h.
Proof.
  revert a t. induction n as [|n IH]; intros a t Ha [Ht Hv]; cbn [feSq_loop].
  { exists t. split; [done|]. by rewrite Z.mul_1_r. }
  destruct (feSq_spec t (tight_loose t Ht)) as (h & -> & Hth & Hh). cbn [mbind option_bind].
  destruct (IH (a + a) h) as (h' & -> & Hp); [lia| |].
  { split; [done|]. by rewrite Hh, Hv, Z.pow_add_r. }
  exists h'. split; [done|]. rewrite Nat2Z.inj_succ, Z.pow_succ_r by lia.
  by replace (a * (2 * 2 ^ Z.of_nat n)) with ((a + a) * 2 ^ Z.of_nat n) by ring.
Qed.

Lemma sqs_pow z n a t : 0 <= a -> loose t -> eqm (fe_val t) (fe_val z ^ a) ->
  exists h, feSqs (S n) t = Some h /\ pow_of z (a * 2 ^ Z.of_nat (S n)) h.
Proof.
  intros Ha Ht Hv. unfold feSqs. destruct (feSq_spec t Ht) as (h & -> & Hth & Hh).
  cbn [mbind option_bind Nat.sub]. rewrite Nat.sub_0_r.
  destruct (sq_loop_pow z n (a + a) h) as (h' & -> & Hp); [lia| |].
  { split; [done|]. by rewrite Hh, Hv, Z.pow_add_r. }
  exists h'. split; [done|]. rewrite Nat2Z.inj_succ, Z.pow_succ_r by lia.
  by replace (a * (2 * 2 ^ Z.of_nat n)) with ((a + a) * 2 ^ Z.of_nat n) by ring.
Qed.

Lemma pow_bind z e m (K : Fe -> option Fe) (Q : Fe -> Prop) :
  (exists h, m = Some h /\ pow_of z e h) ->
  (forall t, loose t -> eqm (fe_val t) (fe_val z ^ e) -> exists h, K t = Some h /\ Q h) ->
  exists h, (m ≫= K) = Some h /\ Q h.
Proof. intros (h & -> & Ht & Hv) HK. apply HK; [by apply tight_loose|done]. Qed.

Ltac pow_tac :=
  eapply pow_bind;
  [ first [ eapply mul_pow; [| |eassumption|eassumption|eassumption|eassumption]
          | eapply sqs_pow; [|eassumption|eassumption] ]; vm_compute; discriminate
  | let t := fresh "t" in let Ht := fresh "Ht" in let E := fresh "E" in
    intros t Ht E; cbv beta;
    match type of E with eqm _ (?z ^ ?e) =>
      let v := eval vm_compute in e in change e with v in E end ].

Lemma mul_pow_eq z a b e f g : 0 <= a -> 0 <= b -> loose f -> loose g ->
  eqm (fe_val f) (fe_val z ^ a) -> eqm (fe_val g) (fe_val z ^ b) -> e = a + b ->
  exists h, feMul f g = Some h /\ pow_of z e h.
Proof. intros Ha Hb Hf Hg Ef Eg ->. by apply mul_pow. Qed.

Lemma feInvert_spec z : loose z ->
  exists h, feInvert z = Some h /\ pow_of z (2 ^ 255 - 21) h.
Proof.
  intros Hz. assert (Ez : eqm (fe_val z) (fe_val z ^ 1)) by (by rewrite Z.pow_1_r).
  unfold feInvert. do 21 pow_tac.
  eapply mul_pow_eq; [| |eassumption..|]; vm_compute; try discriminate; reflexivity.
Qed.

Lemma fePow22523_spec z : loose z ->
  exists h, fePow22523 z = Some h /\ pow_of z (2 ^ 252 - 3) h.
Proof.
  intros Hz. assert (Ez : eqm (fe_val z) (fe_val z ^ 1)) by (by rewrite Z.pow_1_r).
  unfold fePow22523. do 21 pow_tac.
  eapply mul_pow_eq; [| |eassumption..|]; vm_compute; try discriminate; reflexivity.
Qed.

(** ** Bytes *)

Lemma load_3_spec b0 b1 b2 r : byte_ok b0 -> byte_ok b1 -> byte_ok b2 ->
  load_3 (b0 :: b1 :: b2 :: r) = Some (b0 + 2 ^ 8 * b1 + 2 ^ 16 * b2).
Proof.
  unfold byte_ok, load_3. intros.
  rewrite (lor_shiftl b0) by (pow2; lia). rewrite lor_shiftl by (pow2; lia).
  f_equal. lia.
Qed.

Lemma load_4_spec b0 b1 b2 b3 r : byte_ok b0 -> byte_ok b1 -> byte_ok b2 -> byte_ok b3 ->
  load_4 (b0 :: b1 :: b2 :: b3 :: r) = Some (b0 + 2 ^ 8 * b1 + 2 ^ 16 * b2 + 2 ^ 24 * b3).
Proof.
  unfold byte_ok, load_4. intros. rewrite (lor_shiftl b0) by (pow2; lia).
  rewrite (lor_shiftl _ b2) by (pow2; lia). rewrite lor_shiftl by (pow2; lia).
  f_equal. lia.
Qed.

Lemma shl64_small x n : 0 <= n <= 8 -> 0 <= x < 2 ^ 32 -> shl_int 64 x n = 2 ^ n * x.
Proof.
  intros Hn Hx. unfold shl_int. rewrite Z.shiftl_mul_pow2 by lia.
  rewrite cast_int_small; [lia|lia|]. change (64 - 1) with 63.
  pose proof (Z.pow_le_mono_r 2 n 8 ltac:(lia) ltac:(lia)).
  assert (0 < 2 ^ n) by lia. revert Hx H; pow2. nia.
Qed.

Lemma le_value_snoc low b : le_value (low ++ [b]) = le_value low + 2 ^ (8 * Z.of_nat (length low)) * b.
Proof.
  induction low as [|x low IH]; [simpl; lia|]. cbn [app le_value length]. rewrite IH.
  replace (8 * Z.of_nat (S (length low))) with (8 + 8 * Z.of_nat (length low)) by lia.
  rewrite Z.pow_add_r by lia. change (2 ^ 8) with 256. ring.
Qed.

(** Dropping the top bit of a 32-byte string. *)
Lemma le_value_top low b : bytes_ok low -> length low = 31%nat ->
  le_value (low ++ [b]) mod 2 ^ 255 = le_value low + 2 ^ 248 * (b mod 128).
Proof.
  intros Hl Hn. pose proof (le_value_bound low Hl) as Hb. rewrite le_value_snoc, Hn in *.
  change (8 * Z.of_nat 31) with 248 in *. set (v := le_value low) in *. clearbody v.
  rewrite (Z.div_mod b 128) at 1 by lia.
  replace (v + 2 ^ 248 * (128 * (b / 128) + b mod 128))
    with (v + 2 ^ 248 * (b mod 128) + (b / 128) * 2 ^ 255) by (pow2; ring).
  rewrite Z_mod_plus_full. apply Z.mod_small.
  pose proof (Z.mod_pos_bound b 128). revert Hb; pow2; lia.
Qed.

Lemma fe_from_limbs_spec h0 h1 h2 h3 h4 h5 h6 h7 h8 h9 :
  Z.abs h0 <= 2 ^ 32 -> Z.abs h1 <= 2 ^ 30 -> Z.abs h2 <= 2 ^ 29 -> Z.abs h3 <= 2 ^ 27 ->
  Z.abs h4 <= 2 ^ 26 -> Z.abs h5 <= 2 ^ 32 -> Z.abs h6 <= 2 ^ 31 -> Z.abs h7 <= 2 ^ 29 ->
  Z.abs h8 <= 2 ^ 28 -> Z.abs h9 <= 2 ^ 25 ->
  exists h,
    ('(h9, h0) ← carry19 25 h9 h0; '(h1, h2) ← carry 25 h1 h2;
     '(h3, h4) ← carry 25 h3 h4; '(h5, h6) ← carry 25 h5 h6;
     '(h7, h8) ← carry 25 h7 h8; '(h0, h1) ← carry 26 h0 h1;
     '(h2, h3) ← carry 26 h2 h3; '(h4, h5) ← carry 26 h4 h5;
     '(h6, h7) ← carry 26 h6 h7; '(h8, h9) ← carry 26 h8 h9;
     Some (fe_cast h0 h1 h2 h3 h4 h5 h6 h7 h8 h9)) = Some h /\
    (tight h /\ eqm (fe_val h) (limbs_val h0 h1 h2 h3 h4 h5 h6 h7 h8 h9)).
Proof.
  intros. do 10 carry_tac. eexists. split; [reflexivity|]. unfold fe_cast.
  erewrite !cast_int_bnd by (eassumption || (vm_compute; reflexivity)). split.
  - unfold tight, fe_bound. split_and!; (etrans; [eassumption|vm_compute; discriminate]).
  - subst. exists (- c). unfold fe_val, limbs_val, p25519. ring.
Qed.

Lemma load_3_shl n b0 b1 b2 : 0 <= n <= 8 -> byte_ok b0 -> byte_ok b1 -> byte_ok b2 ->
  shl_int 64 (b0 + 2 ^ 8 * b1 + 2 ^ 16 * b2) n = 2 ^ n * (b0 + 2 ^ 8 * b1 + 2 ^ 16 * b2).
Proof. unfold byte_ok. intros. apply shl64_small; [done|pow2; lia]. Qed.

Lemma load_3_bound n b0 b1 b2 B : 0 <= n -> byte_ok b0 -> byte_ok b1 -> byte_ok b2 ->
  (2 ^ n * 2 ^ 24 <=? B) = true -> Z.abs (2 ^ n * (b0 + 2 ^ 8 * b1 + 2 ^ 16 * b2)) <= B.
Proof.
  unfold byte_ok. intros Hn ??? HB%Z.leb_le. etrans; [|exact HB].
  rewrite Z.abs_mul, (Z.abs_eq (2 ^ n)) by lia. apply Z.mul_le_mono_nonneg_l; [lia|].
  pow2. lia.
Qed.

Lemma load_4_bound b0 b1 b2 b3 : byte_ok b0 -> byte_ok b1 -> byte_ok b2 -> byte_ok b3 ->
  Z.abs (b0 + 2 ^ 8 * b1 + 2 ^ 16 * b2 + 2 ^ 24 * b3) <= 2 ^ 32.
Proof. unfold byte_ok. intros. pow2. lia. Qed.

Lemma load_3_top b0 b1 b2 : byte_ok b0 -> byte_ok b1 -> byte_ok b2 ->
  Z.land (b0 + 2 ^ 8 * b1 + 2 ^ 16 * b2) 8388607 = b0 + 2 ^ 8 * b1 + 2 ^ 16 * (b2 mod 128).
Proof.
  unfold byte_ok. intros. change 8388607 with (Z.ones 23). rewrite Z.land_ones by lia.
  pow2. Z.div_mod_to_equations. lia.
Qed.

Lemma mod_128_byte b : byte_ok (b mod 128).
Proof. pose proof (Z.mod_pos_bound b 128). unfold byte_ok. lia. Qed.

Lemma feFromBytes_spec s : bytes_ok s -> length s = 32%nat ->
  exists h, feFromBytes s = Some h /\
    (tight h /\ eqm (fe_val h) (le_value s mod 2 ^ 255)).
Proof.
  intros Hs Hn. do 32 (destruct s as [|? s]; [discriminate|]). destruct s; [|discriminate].
  unfold bytes_ok in Hs. rewrite !Forall_cons in Hs. destruct_and!.
  unfold feFromBytes, slice. cbn [take drop Nat.sub Nat.add].
  rewrite !load_3_spec, !load_4_spec by done. cbn [mbind option_bind].
  rewrite load_3_top by done. rewrite !load_3_shl by (lia || done || apply mod_128_byte).
  edestruct fe_from_limbs_spec as (h & E & Ht & Hv); cycle -1.
  - exists h. split; [exact E|]. split; [exact Ht|]. rewrite Hv.
    match goal with |- eqm ?v (le_value ?s mod _) =>
      change s with (take 31 s ++ drop 31 s); cbn [take drop] end.
    rewrite le_value_top;
      [|repeat first [apply Forall_nil_2|apply Forall_cons_2; [assumption|]]|reflexivity].
    exists 0. cbn [le_value]. unfold limbs_val. pow2. ring.
  - by apply load_4_bound.
  - by apply load_3_bound.
  - by apply load_3_bound.
  - by apply load_3_bound.
  - by apply load_3_bound.
  - by apply load_4_bound.
  - by apply load_3_bound.
  - by apply load_3_bound.
  - by apply load_3_bound.
  - pose proof (Z.mod_pos_bound z30 128). unfold byte_ok in *. pow2. lia.
Qed.

(** ** To bytes *)

Lemma div_bound h H k : (k = 25 \/ k = 26) -> Z.abs h <= H ->
  exists c r, h = 2 ^ k * c + r /\ 0 <= r < 2 ^ k /\ Z.abs c <= H / 2 ^ k + 1 /\ ashr h k = c.
Proof.
  intros Hk Hh. exists (h / 2 ^ k), (h mod 2 ^ k).
  assert (0 < 2 ^ k) by (destruct Hk as [-> | ->]; done).
  split; [by apply Z.div_mod; lia|]. split; [by apply Z.mod_pos_bound|].
  split; [|by apply ashr_div; lia].
  destruct Hk as [-> | ->]; revert Hh; pow2; intros; Z.div_mod_to_equations; lia.
Qed.

Lemma carry_in_step {A} k H C h q (K : Z -> option A) (Q : A -> Prop) :
  (k = 25 \/ k = 26) -> Z.abs h <= H -> Z.abs q <= C -> (H + C <? 2 ^ 31) = true ->
  (forall q' r, h + q = 2 ^ k * q' + r -> 0 <= r < 2 ^ k -> Z.abs q' <= (H + C) / 2 ^ k + 1 ->
    exists x, K q' = Some x /\ Q x) ->
  exists x, (carry_in h q k ≫= K) = Some x /\ Q x.
Proof.
  intros Hk Hh Hq HB HK. destruct (bnd_add32 H C h q) as [E Hs]; [done..|].
  destruct (div_bound (h + q) (H + C) k Hk Hs) as (c & r & Er & Hr & Hc & Ec).
  unfold carry_in. rewrite E. cbn [mbind option_bind]. rewrite Ec. by apply (HK c r).
Qed.

Lemma shl32_carry k c H : (k = 25 \/ k = 26) -> Z.abs c <= H / 2 ^ k + 1 ->
  ((H / 2 ^ k + 1) * 2 ^ k <? 2 ^ 31) = true -> shl_int 32 c k = 2 ^ k * c.
Proof.
  intros Hk Hc HB%Z.ltb_lt. unfold shl_int. rewrite Z.shiftl_mul_pow2 by lia.
  rewrite cast_int_small; [lia|lia|]. change (32 - 1) with 31.
  set (B := H / 2 ^ k + 1) in *. clearbody B.
  destruct Hk as [-> | ->]; revert Hc HB; pow2; lia.
Qed.

Lemma carry32_step {A} k H N h hn (K : Z * Z -> option A) (Q : A -> Prop) :
  (k = 25 \/ k = 26) -> Z.abs h <= H -> Z.abs hn <= N ->
  ((H / 2 ^ k + 1) * 2 ^ k <? 2 ^ 31) && (N + (H / 2 ^ k + 1) <? 2 ^ 31) = true ->
  (forall c r hn', h = 2 ^ k * c + r -> 0 <= r < 2 ^ k -> hn' = hn + c ->
    Z.abs hn' <= N + (H / 2 ^ k + 1) -> exists x, K (r, hn') = Some x /\ Q x) ->
  exists x, (carry32 k h hn ≫= K) = Some x /\ Q x.
Proof.
  intros Hk Hh Hn [HB HB']%andb_true_iff HK.
  destruct (div_bound h H k Hk Hh) as (c & r & Er & Hr & Hc & Ec).
  unfold carry32. rewrite Ec.
  destruct (bnd_add32 N (H / 2 ^ k + 1) hn c) as [E Hs]; [done..|]. rewrite E.
  cbn [mbind option_bind]. rewrite (shl32_carry k c H) by done.
  assert (Es : sub32 h (2 ^ k * c) = Some r).
  { unfold sub32. replace (h - 2 ^ k * c) with r by lia. apply checked_Some.
    destruct Hk as [-> | ->]; revert Hr; pow2; lia. }
  rewrite Es. cbn [mbind option_bind]. by apply (HK c r).
Qed.

Lemma drop_carry_step {A} k H h (K : Z -> option A) (Q : A -> Prop) :
  (k = 25 \/ k = 26) -> Z.abs h <= H -> ((H / 2 ^ k + 1) * 2 ^ k <? 2 ^ 31) = true ->
  (forall c r, h = 2 ^ k * c + r -> 0 <= r < 2 ^ k -> exists x, K r = Some x /\ Q x) ->
  exists x, (drop_carry k h ≫= K) = Some x /\ Q x.
Proof.
  intros Hk Hh HB HK. destruct (div_bound h H k Hk Hh) as (c & r & Er & Hr & Hc & Ec).
  unfold drop_carry. rewrite Ec, (shl32_carry k c H) by done.
  assert (Es : sub32 h (2 ^ k * c) = Some r).
  { unfold sub32. replace (h - 2 ^ k * c) with r by lia. apply checked_Some.
    destruct Hk as [-> | ->]; revert Hr; pow2; lia. }
  rewrite Es. by apply (HK c).
Qed.

(** *** The bytes of reduced limbs *)

Lemma byte_at x s : 0 <= s -> cast_byte (ashr x s) = (x / 2 ^ s) mod 2 ^ 8.
Proof. intros Hs. unfold cast_byte, wrap. by rewrite ashr_div. Qed.

Lemma cast_int_byte w x : 8 <= w -> cast_int w x mod 2 ^ 8 = x mod 2 ^ 8.
Proof.
  intros Hw. unfold cast_int, to_signed, wrap.
  replace (2 ^ w) with (2 ^ (w - 8) * 2 ^ 8) by (rewrite <- Z.pow_add_r by lia; f_equal; lia).
  set (p := 2 ^ (w - 8)). set (y := x mod (p * 2 ^ 8)).
  assert (0 < p) by (subst p; lia).
  assert (Hy : y mod 2 ^ 8 = x mod 2 ^ 8).
  { subst y. rewrite (Z.div_mod x (p * 2 ^ 8)) at 2 by (pow2; lia).
    replace (p * 2 ^ 8 * (x / (p * 2 ^ 8)) + x mod (p * 2 ^ 8))
      with (x mod (p * 2 ^ 8) + (p * (x / (p * 2 ^ 8))) * 2 ^ 8) by ring.
    by rewrite Z_mod_plus_full. }
  destruct (_ <? _); [done|]. replace (y - p * 2 ^ 8) with (y + (- p) * 2 ^ 8) by ring.
  by rewrite Z_mod_plus_full.
Qed.

(** A byte that joins the top of one limb and the bottom of the next. *)
Lemma byte_join w x y s n : 8 <= w -> 0 <= s -> 0 <= n <= 8 -> 0 <= x < 2 ^ (s + n) ->
  cast_byte (Z.lor (ashr x s) (shl_int w y n)) = x / 2 ^ s + 2 ^ n * (y mod 2 ^ (8 - n)).
Proof.
  intros Hw Hs Hn Hx. unfold cast_byte, wrap. rewrite ashr_div by done.
  assert (Hq : 0 <= x / 2 ^ s < 2 ^ n).
  { split; [apply Z.div_pos; lia|]. apply Z.div_lt_upper_bound; [lia|].
    rewrite <- Z.pow_add_r by lia. lia. }
  pose proof (Z.pow_le_mono_r 2 n 8 ltac:(lia) ltac:(lia)) as Hn8.
  rewrite <- Z.land_ones, Z.land_lor_distr_l, !Z.land_ones by lia.
  rewrite (Z.mod_small (x / 2 ^ s)) by lia.
  unfold shl_int. rewrite cast_int_byte, Z.shiftl_mul_pow2 by lia.
  replace (2 ^ 8) with (2 ^ (8 - n) * 2 ^ n) by (rewrite <- Z.pow_add_r by lia; f_equal; lia).
  rewrite Z.mul_mod_distr_r by lia. rewrite <- Z.shiftl_mul_pow2 by lia.
  rewrite lor_shiftl by lia. lia.
Qed.

(** A limb as the pieces its bytes hold. *)
Lemma limb_split x a : 0 <= a -> x =
  x mod 2 ^ a + 2 ^ a * ((x / 2 ^ a) mod 2 ^ 8)
  + 2 ^ (a + 8) * ((x / 2 ^ (a + 8)) mod 2 ^ 8) + 2 ^ (a + 16) * (x / 2 ^ (a + 16)).
Proof.
  intros Ha. rewrite !Z.pow_add_r by lia.
  assert (0 < 2 ^ a) by lia.
  rewrite <- !Z.div_div by lia.
  replace (2 ^ 16) with (2 ^ 8 * 2 ^ 8) by done. rewrite <- !Z.div_div by lia.
  rewrite (Z.div_mod x (2 ^ a)) at 1 by lia.
  rewrite (Z.div_mod (x / 2 ^ a) (2 ^ 8)) at 1 by lia.
  rewrite (Z.div_mod (x / 2 ^ a / 2 ^ 8) (2 ^ 8)) at 1 by lia. ring.
Qed.

Lemma top_split x : x / 2 ^ 16 = (x / 2 ^ 16) mod 2 ^ 8 + 2 ^ 8 * (x / 2 ^ 24).
Proof.
  replace (2 ^ 24) with (2 ^ 16 * 2 ^ 8) by done. rewrite <- Z.div_div by done.
  rewrite (Z.div_mod (x / 2 ^ 16) (2 ^ 8)) at 1 by done. lia.
Qed.

Lemma top_byte x k : k <= 26 -> 0 <= x < 2 ^ k -> (x / 2 ^ 18) mod 2 ^ 8 = x / 2 ^ 18.
Proof.
  intros Hk Hx. apply Z.mod_small. split; [apply Z.div_pos; lia|].
  apply Z.div_lt_upper_bound; [lia|]. pose proof (Z.pow_le_mono_r 2 k 26 ltac:(lia) Hk).
  revert H; pow2; lia.
Qed.

Definition reduced (k h : Z) : Prop := 0 <= h < 2 ^ k.

Lemma fe_bytes_spec h0 h1 h2 h3 h4 h5 h6 h7 h8 h9 :
  reduced 26 h0 -> reduced 25 h1 -> reduced 26 h2 -> reduced 25 h3 -> reduced 26 h4 ->
  reduced 25 h5 -> reduced 26 h6 -> reduced 25 h7 -> reduced 26 h8 -> reduced 25 h9 ->
  let s := fe_bytes h0 h1 h2 h3 h4 h5 h6 h7 h8 h9 in
  bytes_ok s /\ length s = 32%nat /\ le_value s = limbs_val h0 h1 h2 h3 h4 h5 h6 h7 h8 h9.
Proof.
  intros H0 H1 H2 H3 H4 H5 H6 H7 H8 H9 s. unfold reduced in *. split; [|split; [done|]].
  { subst s. unfold fe_bytes, bytes_ok, cast_byte.
    repeat apply Forall_cons_2; try apply Forall_nil_2; apply (wrap_ok 8); lia. }
  subst s. unfold fe_bytes. cbn [le_value].
  rewrite !byte_join by (simpl; lia). rewrite !byte_at by lia.
  pose proof (limb_split h0 0 ltac:(lia)) as E0. pose proof (limb_split h1 6 ltac:(lia)) as E1.
  pose proof (limb_split h2 5 ltac:(lia)) as E2. pose proof (limb_split h3 3 ltac:(lia)) as E3.
  pose proof (limb_split h4 2 ltac:(lia)) as E4. pose proof (limb_split h5 0 ltac:(lia)) as E5.
  pose proof (limb_split h6 7 ltac:(lia)) as E6. pose proof (limb_split h7 5 ltac:(lia)) as E7.
  pose proof (limb_split h8 4 ltac:(lia)) as E8. pose proof (limb_split h9 2 ltac:(lia)) as E9.
  pose proof (top_split h0) as T0. pose proof (top_split h5) as T5.
  pose proof (top_byte h4 26 ltac:(lia) H4) as T4.
  pose proof (top_byte h9 25 ltac:(lia) H9) as T9.
  clear H0 H1 H2 H3 H4 H5 H6 H7 H8 H9.
  change (2 ^ 0) with 1 in *. rewrite (Z.mod_1_r h0) in E0. rewrite (Z.mod_1_r h5) in E5.
  unfold limbs_val. revert E0 E1 E2 E3 E4 E5 E6 E7 E8 E9 T0 T4 T5 T9. pow2.
  repeat match goal with |- context [?a mod ?b] => generalize (a mod b); intro end.
  repeat match goal with |- context [?a / ?b] => generalize (a / b); intro end.
  intros. lia.
Qed.

(** The quotient the source estimates from the top limb is the right one. *)
Lemma quotient_exact v h9 q0 q r : 0 <= r < 2 ^ 255 ->
  Z.abs (v - 2 ^ 230 * h9) <= 2 ^ 231 ->
  2 ^ 25 * q0 <= 19 * h9 + 2 ^ 24 < 2 ^ 25 * q0 + 2 ^ 25 -> Z.abs q0 <= 64 ->
  v + q0 = 2 ^ 255 * q + r -> v - p25519 * q = v mod p25519.
Proof.
  intros Hr Hlow Hq0 Hb Hv.
  assert (H : 0 <= v - p25519 * q < p25519) by (unfold p25519; revert Hr Hlow Hq0 Hb Hv; pow2; lia).
  apply (Z.mod_unique_pos _ _ q); [done|lia].
Qed.

Lemma canonical_value v h9 q0 q r c s : 0 <= r < 2 ^ 255 -> 0 <= s < 2 ^ 255 ->
  Z.abs (v - 2 ^ 230 * h9) <= 2 ^ 231 ->
  2 ^ 25 * q0 <= 19 * h9 + 2 ^ 24 < 2 ^ 25 * q0 + 2 ^ 25 -> Z.abs q0 <= 64 ->
  v + q0 = 2 ^ 255 * q + r -> v + 19 * q = 2 ^ 255 * c + s -> s = v mod p25519.
Proof.
  intros Hr Hs Hlow Hq0 Hb Hv Hc.
  pose proof (quotient_exact v h9 q0 q r Hr Hlow Hq0 Hb Hv) as E. rewrite <- E.
  pose proof (Z.mod_pos_bound v p25519 ltac:(done)) as Hm. rewrite <- E in Hm.
  clear E Hr Hlow Hq0 Hb Hv. unfold p25519 in *. revert Hs Hc Hm; pow2; lia.
Qed.

Lemma limbs_bound h0 h1 h2 h3 h4 h5 h6 h7 h8 h9 :
  reduced 26 h0 -> reduced 25 h1 -> reduced 26 h2 -> reduced 25 h3 -> reduced 26 h4 ->
  reduced 25 h5 -> reduced 26 h6 -> reduced 25 h7 -> reduced 26 h8 -> reduced 25 h9 ->
  0 <= limbs_val h0 h1 h2 h3 h4 h5 h6 h7 h8 h9 < 2 ^ 255.
Proof. unfold reduced, limbs_val. pow2. lia. Qed.

(** All limbs but the last weigh less than two units of the last. *)
Lemma low_limbs_bound h0 h1 h2 h3 h4 h5 h6 h7 h8 h9 :
  Z.abs h0 <= 110729625 -> Z.abs h1 <= 55364812 -> Z.abs h2 <= 110729625 ->
  Z.abs h3 <= 55364812 -> Z.abs h4 <= 110729625 -> Z.abs h5 <= 55364812 ->
  Z.abs h6 <= 110729625 -> Z.abs h7 <= 55364812 -> Z.abs h8 <= 110729625 ->
  Z.abs (limbs_val h0 h1 h2 h3 h4 h5 h6 h7 h8 h9 - 2 ^ 230 * h9) <= 2 ^ 231.
Proof.
  rewrite !Z.abs_le. unfold limbs_val. pow2. intros. lia.
Qed.

Ltac step_tac :=
  first
    [ eapply carry_in_step; [by auto|eassumption|eassumption|vm_compute; reflexivity|];
      let q := fresh "q" in let r := fresh "r" in let E := fresh "E" in
      let R := fresh "R" in let B := fresh "B" in
      intros q r E R B; cbv beta; eval_bound B
    | eapply carry32_step; [by auto|eassumption|eassumption|vm_compute; reflexivity|];
      let c := fresh "c" in let s := fresh "s" in let n := fresh "n" in let E := fresh "F" in
      let R := fresh "S" in let En := fresh "N" in let B := fresh "B" in
      intros c s n E R En B; cbv beta iota; eval_bound B
    | eapply drop_carry_step; [by auto|eassumption|vm_compute; reflexivity|];
      let c := fresh "c" in let s := fresh "s" in let E := fresh "F" in let R := fresh "S" in
      intros c s E R; cbv beta
    | run_tac ].

Lemma feToBytes_spec h : loose h ->
  exists s, feToBytes h = Some s /\
    (bytes_ok s /\ length s = 32%nat /\ le_value s = fe_val h mod p25519).
Proof.
  destruct h as [h0 h1 h2 h3 h4 h5 h6 h7 h8 h9]. unfold loose, fe_bound. intros H.
  destruct_and!. unfold feToBytes.
  eapply bnd_bind; [bnd_tac|]. intros t Et Bt. cbv beta. eval_bound Bt.
  eapply bnd_bind. { eapply (bnd_add32 _ (2 ^ 24)); [exact Bt|done|vm_compute; reflexivity]. }
  intros u Eu Bu. cbv beta zeta. eval_bound Bu.
  destruct (div_bound u _ 25 ltac:(by auto) Bu) as (q0 & r0 & E0 & R0 & B0 & ->).
  eval_bound B0. do 22 step_tac.
  eexists. split; [reflexivity|].
  edestruct fe_bytes_spec as (Hb & Hl & ->); cycle -1; [split; [exact Hb|split; [exact Hl|]]|..];
    [|eassumption..].
  cbn [fe_val].
  apply (canonical_value _ h9 q0 q9 (limbs_val r r1 r2 r3 r4 r5 r6 r7 r8 r9) c8).
  - by apply limbs_bound.
  - by apply limbs_bound.
  - by apply low_limbs_bound.
  - change (Z.shiftl 1 24) with (2 ^ 24) in Eu. clear - Et Eu E0 R0.
    revert Eu E0 R0; pow2; lia.
  - by transitivity 32.
  - clear - E E1 E2 E3 E4 E5 E6 E7 E8 E9. unfold limbs_val.
    revert E E1 E2 E3 E4 E5 E6 E7 E8 E9; pow2; lia.
  - clear - Ex Ex0 F N F0 N0 F1 N1 F2 N2 F3 N3 F4 N4 F5 N5 F6 N6 F7 N7 F8. unfold limbs_val.
    revert Ex Ex0 F N F0 N0 F1 N1 F2 N2 F3 N3 F4 N4 F5 N5 F6 N6 F7 N7 F8; pow2; lia.
Qed.

(** ** Comparison with zero *)

Lemma byte_land a : byte_ok a -> Z.land a (Z.ones 8) = a.
Proof. intros Ha. rewrite Z.land_ones by lia. apply Z.mod_small, Ha. Qed.

Lemma byte_ok_land a : Z.land a (Z.ones 8) = a -> byte_ok a.
Proof.
  intros <-. rewrite Z.land_ones by lia. unfold byte_ok.
  pose proof (Z.mod_pos_bound a (2 ^ 8)). revert H; pow2; lia.
Qed.

Lemma lor_byte a b : byte_ok a -> byte_ok b -> byte_ok (Z.lor a b).
Proof.
  intros Ha Hb. apply byte_ok_land. by rewrite Z.land_lor_distr_l, !byte_land.
Qed.

Lemma lxor_byte a b : byte_ok a -> byte_ok b -> byte_ok (Z.lxor a b).
Proof.
  intros Ha Hb. apply byte_ok_land. rewrite Z.land_comm.
  assert (E : Z.land (Z.ones 8) (Z.lxor a b) =
    Z.lxor (Z.land a (Z.ones 8)) (Z.land b (Z.ones 8))); [|by rewrite E, !byte_land].
  apply Z.bits_inj'. intros n Hn. rewrite ?Z.land_spec, ?Z.lxor_spec, ?Z.land_spec.
  by destruct (Z.testbit a n), (Z.testbit b n), (Z.testbit (Z.ones 8) n).
Qed.

Lemma verify_fold x y d : bytes_ok x -> bytes_ok y -> length x = length y -> byte_ok d ->
  let d' := foldl (fun d p => Z.lor d (Z.lxor (fst p) (snd p))) d (zip x y) in
  byte_ok d' /\ (d' = 0 <-> d = 0 /\ x = y).
Proof.
  intros Hx. revert y d. induction Hx as [|a x Ha Hx IH]; intros [|b y] d Hy Hl Hd; try done.
  { cbn. split; [done|]. split; [done|by intros []]. }
  apply Forall_cons in Hy as [Hb Hy]. cbn [zip zip_with foldl fst snd].
  destruct (IH y (Z.lor d (Z.lxor a b))) as [H1 H2]; [done|by injection Hl| |].
  { apply lor_byte; [done|by apply lxor_byte]. }
  split; [exact H1|]. rewrite H2, Z.lor_eq_0_iff, Z.lxor_eq_0_iff. split.
  - intros [[-> ->] ->]. done.
  - intros [-> [= -> ->]]. done.
Qed.

Lemma verify32_spec x y : bytes_ok x -> bytes_ok y -> length x = 32%nat -> length y = 32%nat ->
  verify32 x y = Some (if decide (x = y) then 0 else -1).
Proof.
  intros Hx Hy Hlx Hly. unfold verify32, verify32_acc. rewrite Hlx, Hly.
  cbn [Nat.leb andb doAssert mbind option_bind]. rewrite !take_ge by lia.
  destruct (verify_fold x y 0 Hx Hy) as [Hb H0]; [congruence|by unfold byte_ok|].
  set (d := foldl _ _ _) in *. clearbody d. f_equal. destruct (decide (x = y)) as [E|E].
  - assert (d = 0) as -> by tauto. done.
  - assert (d <> 0) by tauto. unfold byte_ok in Hb.
    rewrite (wrap_small 32 (d - 1)) by (unfold uint_ok; pow2; lia).
    rewrite Z.shiftr_div_pow2, Z.div_small by (pow2; lia). done.
Qed.

Lemma le_value_zero : le_value ZeroFe = 0.
Proof. done. Qed.

Lemma feIsNonZero_spec f : loose f ->
  feIsNonZero f = Some (if fe_val f mod p25519 =? 0 then 0 else -1).
Proof.
  intros Hf. destruct (feToBytes_spec f Hf) as (s & E & Hb & Hl & Hv). unfold feIsNonZero.
  rewrite E. cbn [mbind option_bind].
  rewrite verify32_spec by (done || by apply Forall_replicate). f_equal. rewrite <- Hv.
  destruct (decide (s = ZeroFe)) as [->|Hne]; [done|].
  destruct (Z.eqb_spec (le_value s) 0) as [H0|]; [|done]. destruct Hne.
  apply le_value_inj; [done|by apply Forall_replicate|done|done].
Qed.

Lemma feIsNegative_spec f : loose f -> feIsNegative f = Some ((fe_val f mod p25519) mod 2).
Proof.
  intros Hf. destruct (feToBytes_spec f Hf) as (s & E & Hb & Hl & Hv). unfold feIsNegative.
  rewrite E. cbn [mbind option_bind]. destruct s as [|b s]; [done|]. cbn [head mbind option_bind].
  rewrite <- Hv. change 1 with (Z.ones 1). rewrite Z.land_ones by lia. f_equal. cbn [le_value].
  replace (b + 256 * le_value s) with (b + (128 * le_value s) * 2) by lia.
  by rewrite Z_mod_plus_full.
Qed.

(** ** Properties *)

(** C18: on limbs of up to 1.65 * 2^26 and 1.65 * 2^25, the product and the two squares run
without overflow of [int32] or [int64], give limbs of at most 1.01 * 2^25 and 1.01 * 2^24,
and are the product, the square and twice the square modulo 2^255 - 19. *)
Theorem fe_products_correct (f g : Fe) : loose f -> loose g ->
  (exists h, feMul f g = Some h /\ (tight h /\ eqm (fe_val h) (fe_val f * fe_val g))) /\
  (exists h, feSq f = Some h /\ (tight h /\ eqm (fe_val h) (fe_val f * fe_val f))) /\
  (exists h, feSq2 f = Some h /\ (tight h /\ eqm (fe_val h) (2 * (fe_val f * fe_val f)))).
Proof.
  intros Hf Hg. split; [by apply feMul_spec|split; [by apply feSq_spec|by apply feSq2_spec]].
Qed.

(** the sum, the difference and the opposite of products do not overflow, are exact and
are again arguments a product accepts; the constant-time selection returns its second
argument exactly when the flag is 1. *)
Theorem fe_linear_correct (f g : Fe) (b : Z) : tight f -> tight g -> b = 0 \/ b = 1 ->
  (exists h, feAdd f g = Some h /\ (loose h /\ fe_val h = fe_val f + fe_val g)) /\
  (exists h, feSub f g = Some h /\ (loose h /\ fe_val h = fe_val f - fe_val g)) /\
  (exists h, feNeg f = Some h /\ (tight h /\ fe_val h = - fe_val f)) /\
  feCmov f g b = (if b =? 1 then g else f).
Proof.
  intros Hf Hg Hb. unfold tight in *. split_and!.
  - edestruct feAdd_spec as (h & E & Hh & Hv); [exact Hf|exact Hg|done..|].
    exists h. split; [done|]. split; [|done]. by eapply bound_weaken; [exact Hh|vm_compute..].
  - edestruct feSub_spec as (h & E & Hh & Hv); [exact Hf|exact Hg|done..|].
    exists h. split; [done|]. split; [|done]. by eapply bound_weaken; [exact Hh|vm_compute..].
  - by apply feNeg_spec.
  - by apply feCmov_spec.
Qed.

(** encoding writes the 32 little-endian bytes of the canonical representative, for
every representation a product accepts, and decoding a 32-byte string reads its value
without the top bit; so decoding after encoding gives an equal element. *)
Theorem fe_encoding_canonical (f : Fe) (s : bytes) : loose f -> bytes_ok s -> length s = 32%nat ->
  (exists t, feToBytes f = Some t /\ bytes_ok t /\ length t = 32%nat /\
     le_value t = fe_val f mod p25519 /\
     exists g, feFromBytes t = Some g /\ tight g /\ eqm (fe_val g) (fe_val f)) /\
  (exists g, feFromBytes s = Some g /\ tight g /\ eqm (fe_val g) (le_value s mod 2 ^ 255)).
Proof.
  intros Hf Hs Hl. split; [|by apply feFromBytes_spec].
  destruct (feToBytes_spec f Hf) as (t & E & Ht & Hlt & Hv). exists t. split_and!; try done.
  destruct (feFromBytes_spec t Ht Hlt) as (g & Eg & Hg & Hgv). exists g. split_and!; try done.
  rewrite Hgv, Hv. pose proof (Z.mod_pos_bound (fe_val f) p25519 ltac:(done)) as Hm.
  rewrite Z.mod_small by (unfold p25519 in *; revert Hm; pow2; lia).
  apply eqm_mod. by apply Zmod_mod.
Qed.

(** the two addition chains run without overflow and compute the powers they are named
after: the inverse is the power 2^255 - 21, that is p - 2, and [fePow22523] is the power
2^252 - 3. *)
Theorem fe_powers_correct (z : Fe) : loose z ->
  (exists h, feInvert z = Some h /\ tight h /\ eqm (fe_val h) (fe_val z ^ (p25519 - 2))) /\
  (exists h, fePow22523 z = Some h /\ tight h /\ eqm (fe_val h) (fe_val z ^ (2 ^ 252 - 3))).
Proof. intros Hz. split; [by apply feInvert_spec|by apply fePow22523_spec]. Qed.

(** the zero test and the sign test answer for the element, not its representation. *)
Theorem fe_tests_correct (f : Fe) : loose f ->
  feIsNonZero f = Some (if fe_val f mod p25519 =? 0 then 0 else -1) /\
  feIsNegative f = Some ((fe_val f mod p25519) mod 2).
Proof. intros Hf. split; [by apply feIsNonZero_spec|by apply feIsNegative_spec]. Qed.

(** ** Witnesses *)

Definition fe_demo : Fe := mkFe 5 (-3) 1000000 7 (-20000000) 12 0 1 33554431 (-9).

Lemma fe_products_correct_witness : feMul fe_demo fe1 = Some fe_demo /\
  exists h, feMul fe_demo fe1 = Some h /\ (tight h /\ eqm (fe_val h) (fe_val fe_demo * fe_val fe1)).
Proof.
  split; [vm_compute; reflexivity|].
  apply (fe_products_correct fe_demo fe1); repeat split; vm_compute; discriminate.
Defined.

Lemma fe_linear_correct_witness : feCmov fe_demo fe1 1 = fe1.
Proof.
  apply (fe_linear_correct fe_demo fe1 1); [..|right; reflexivity];
    repeat split; vm_compute; discriminate.
Defined.

(** The representation of p itself: it encodes to zero. *)
Definition fe_prime : Fe :=
  mkFe (2 ^ 26 - 19) (2 ^ 25 - 1) (2 ^ 26 - 1) (2 ^ 25 - 1) (2 ^ 26 - 1) (2 ^ 25 - 1)
       (2 ^ 26 - 1) (2 ^ 25 - 1) (2 ^ 26 - 1) (2 ^ 25 - 1).

Lemma fe_encoding_canonical_witness :
  exists t, feToBytes fe_prime = Some t /\ bytes_ok t /\ length t = 32%nat /\
    le_value t = fe_val fe_prime mod p25519 /\
    exists g, feFromBytes t = Some g /\ tight g /\ eqm (fe_val g) (fe_val fe_prime).
Proof.
  apply (fe_encoding_canonical fe_prime ZeroFe).
  - repeat split; vm_compute; discriminate.
  - repeat constructor; vm_compute; discriminate.
  - reflexivity.
Defined.

Lemma fe_powers_correct_witness :
  exists h, feInvert fe_demo = Some h /\ tight h /\
    eqm (fe_val h) (fe_val fe_demo ^ (p25519 - 2)).
Proof.
  assert (H : loose fe_demo) by (repeat split; vm_compute; discriminate).
  exact (proj1 (fe_powers_correct fe_demo H)).
Defined.

Lemma fe_tests_correct_witness : feIsNonZero fe_prime = Some 0.
Proof.
  rewrite (proj1 (fe_tests_correct fe_prime ltac:(repeat split; vm_compute; discriminate))).
  vm_compute. reflexivity.
Defined.
