(* ===== verification/Ed25519Scalar.v ===== *)
(** * Ed25519Scalar: libp2p/crypto/ed25519/ed25519.nim, arithmetic modulo the group order

Scalars as limbs of 21 bits in [int64] variables [s0] ... [s23], here a list.  The source
unrolls three groups of statements, each a [step] of the model: adding a multiple of the
order that clears a limb from 12 up ([Fold]), the carry of a limb rounded to the nearest
([Round]) and towards minus infinity ([Floor]).  A bound checker over intervals, evaluated by
the kernel, shows that no step overflows. *)
From S2P Require Import Prelude Endians Ed25519Field.

#[local] Open Scope Z_scope.

(** ** Limbs *)

(** [s[i] += x], [s[i] -= x]: checked. *)
Definition add_at (i : nat) (x : Z) (s : list Z) : option (list Z) :=
  y ← s !! i; z ← add64 y x; Some (<[i := z]> s).

Definition sub_at (i : nat) (x : Z) (s : list Z) : option (list Z) :=
  y ← s !! i; z ← sub64 y x; Some (<[i := z]> s).

Inductive step := Fold (i : nat) | Round (i : nat) | Floor (i : nat).

Definition carry_at (i : nat) (c : Z) (s : list Z) : option (list Z) :=
  s ← add_at (i + 1) c s; sub_at i (shl_int 64 c 21) s.

Definition exec_step (st : step) (s : list Z) : option (list Z) :=
  match st with
  | Fold i =>
      x ← s !! i;
      p ← mul64 x 666643; s ← add_at (i - 12) p s;
      p ← mul64 x 470296; s ← add_at (i - 11) p s;
      p ← mul64 x 654183; s ← add_at (i - 10) p s;
      p ← mul64 x 997805; s ← sub_at (i - 9) p s;
      p ← mul64 x 136657; s ← add_at (i - 8) p s;
      p ← mul64 x 683901; s ← sub_at (i - 7) p s;
      Some (<[i := 0]> s)
  | Round i => x ← s !! i; t ← add64 x (Z.shiftl 1 20); carry_at i (ashr t 21) s
  | Floor i => x ← s !! i; carry_at i (ashr x 21) s
  end.

Fixpoint exec_steps (sts : list step) (s : list Z) : option (list Z) :=
  match sts with
  | [] => Some s
  | st :: sts => s ← exec_step st s; exec_steps sts s
  end.

(** The carries after the products of [scMulAdd]. *)
Definition product_steps : list step :=
  (Round <$> [0; 2; 4; 6; 8; 10; 12; 14; 16; 18; 20; 22]%nat) ++
  (Round <$> [1; 3; 5; 7; 9; 11; 13; 15; 17; 19; 21]%nat).

(** The statements [scReduce] and [scMulAdd] share. *)
Definition reduce_high : list step :=
  (Fold <$> [23; 22; 21; 20; 19; 18]%nat) ++
  (Round <$> [6; 8; 10; 12; 14; 16]%nat) ++ (Round <$> [7; 9; 11; 13; 15]%nat).

Definition reduce_low : list step :=
  (Fold <$> [17; 16; 15; 14; 13; 12]%nat) ++
  (Round <$> [0; 2; 4; 6; 8; 10]%nat) ++ (Round <$> [1; 3; 5; 7; 9; 11]%nat) ++
  [Fold 12] ++ (Floor <$> [0; 1; 2; 3; 4; 5; 6; 7; 8; 9; 10; 11]%nat).

Definition reduce_steps : list step := reduce_high ++ reduce_low.

Definition final_steps : list step :=
  [Fold 12] ++ (Floor <$> [0; 1; 2; 3; 4; 5; 6; 7; 8; 9; 10]%nat).

(** ** Bytes *)

(** [cast[int64](w shr n)]; [limb] also masks it to 21 bits. *)
Definition top_limb (w : option Z) (n : Z) : option Z := x ← w; Some (cast_int 64 (Z.shiftr x n)).

Definition limb (w : option Z) (n : Z) : option Z :=
  x ← top_limb w n; Some (Z.land 2097151 x).

(** The 12 limbs of a 32-byte string, and the 24 of a 64-byte one. *)
Definition load_scalar (s : bytes) : option (list Z) :=
  mapM id
       [ limb (load_3 (slice s 0 2)) 0;
         limb (load_4 (slice s 2 5)) 5;
         limb (load_3 (slice s 5 7)) 2;
         limb (load_4 (slice s 7 10)) 7;
         limb (load_4 (slice s 10 13)) 4;
         limb (load_3 (slice s 13 15)) 1;
         limb (load_4 (slice s 15 18)) 6;
         limb (load_3 (slice s 18 20)) 3;
         limb (load_3 (slice s 21 23)) 0;
         limb (load_4 (slice s 23 26)) 5;
         limb (load_3 (slice s 26 28)) 2;
         top_limb (load_4 (slice s 28 31)) 7 ].

Definition load_digest (s : bytes) : option (list Z) :=
  mapM id
       [ limb (load_3 (slice s 0 2)) 0;
         limb (load_4 (slice s 2 5)) 5;
         limb (load_3 (slice s 5 7)) 2;
         limb (load_4 (slice s 7 10)) 7;
         limb (load_4 (slice s 10 13)) 4;
         limb (load_3 (slice s 13 15)) 1;
         limb (load_4 (slice s 15 18)) 6;
         limb (load_3 (slice s 18 20)) 3;
         limb (load_3 (slice s 21 23)) 0;
         limb (load_4 (slice s 23 26)) 5;
         limb (load_3 (slice s 26 28)) 2;
         limb (load_4 (slice s 28 31)) 7;
         limb (load_4 (slice s 31 34)) 4;
         limb (load_3 (slice s 34 36)) 1;
         limb (load_4 (slice s 36 39)) 6;
         limb (load_3 (slice s 39 42)) 3;
         limb (load_3 (slice s 42 44)) 0;
         limb (load_4 (slice s 44 47)) 5;
         limb (load_3 (slice s 47 49)) 2;
         limb (load_4 (slice s 49 52)) 7;
         limb (load_4 (slice s 52 55)) 4;
         limb (load_3 (slice s 55 57)) 1;
         limb (load_4 (slice s 57 60)) 6;
         top_limb (load_4 (slice s 60 63)) 3 ].

Definition sc_bytes (s : list Z) : option bytes :=
  match s with
  | s0 :: s1 :: s2 :: s3 :: s4 :: s5 :: s6 :: s7 :: s8 :: s9 :: s10 :: s11 :: _ => Some
     [ cast_byte (ashr s0 0); cast_byte (ashr s0 8);
       cast_byte (Z.lor (ashr s0 16) (shl_int 64 s1 5)); cast_byte (ashr s1 3);
       cast_byte (ashr s1 11); cast_byte (Z.lor (ashr s1 19) (shl_int 64 s2 2));
       cast_byte (ashr s2 6); cast_byte (Z.lor (ashr s2 14) (shl_int 64 s3 7));
       cast_byte (ashr s3 1); cast_byte (ashr s3 9);
       cast_byte (Z.lor (ashr s3 17) (shl_int 64 s4 4)); cast_byte (ashr s4 4);
       cast_byte (ashr s4 12); cast_byte (Z.lor (ashr s4 20) (shl_int 64 s5 1));
       cast_byte (ashr s5 7); cast_byte (Z.lor (ashr s5 15) (shl_int 64 s6 6));
       cast_byte (ashr s6 2); cast_byte (ashr s6 10);
       cast_byte (Z.lor (ashr s6 18) (shl_int 64 s7 3)); cast_byte (ashr s7 5);
       cast_byte (ashr s7 13); cast_byte (ashr s8 0); cast_byte (ashr s8 8);
       cast_byte (Z.lor (ashr s8 16) (shl_int 64 s9 5)); cast_byte (ashr s9 3);
       cast_byte (ashr s9 11); cast_byte (Z.lor (ashr s9 19) (shl_int 64 s10 2));
       cast_byte (ashr s10 6); cast_byte (Z.lor (ashr s10 14) (shl_int 64 s11 7));
       cast_byte (ashr s11 1); cast_byte (ashr s11 9); cast_byte (ashr s11 17) ]
  | _ => None
  end.

(** ** Operations *)

Definition scReduce (s : bytes) : option bytes :=
  s ← load_digest s; s ← exec_steps (reduce_steps ++ final_steps) s; sc_bytes s.

#[local] Open Scope int64_scope.

#[local] Notation "x * y" := (mul64 x y) : int64_scope.

Definition sc_products (a b c : list Z) : option (list Z) :=
  match a, b, c with
  | [a0; a1; a2; a3; a4; a5; a6; a7; a8; a9; a10; a11],
    [b0; b1; b2; b3; b4; b5; b6; b7; b8; b9; b10; b11],
    [c0; c1; c2; c3; c4; c5; c6; c7; c8; c9; c10; c11] =>
  s0 ← Some c0 + a0 * b0;
  s1 ← Some c1 + a0 * b1 + a1 * b0;
  s2 ← Some c2 + a0 * b2 + a1 * b1 + a2 * b0;
  s3 ← Some c3 + a0 * b3 + a1 * b2 + a2 * b1 + a3 * b0;
  s4 ← Some c4 + a0 * b4 + a1 * b3 + a2 * b2 + a3 * b1 + a4 * b0;
  s5 ← Some c5 + a0 * b5 + a1 * b4 + a2 * b3 + a3 * b2 + a4 * b1 + a5 * b0;
  s6 ← Some c6 + a0 * b6 + a1 * b5 + a2 * b4 + a3 * b3 + a4 * b2 + a5 * b1 + a6 * b0;
  s7 ← Some c7 + a0 * b7 + a1 * b6 + a2 * b5 + a3 * b4 + a4 * b3 + a5 * b2 + a6 * b1 + a7 * b0;
  s8 ← Some c8 + a0 * b8 + a1 * b7 + a2 * b6 + a3 * b5 + a4 * b4 + a5 * b3 + a6 * b2 + a7 * b1 +
    a8 * b0;
  s9 ← Some c9 + a0 * b9 + a1 * b8 + a2 * b7 + a3 * b6 + a4 * b5 + a5 * b4 + a6 * b3 + a7 * b2 +
    a8 * b1 + a9 * b0;
  s10 ← Some c10 + a0 * b10 + a1 * b9 + a2 * b8 + a3 * b7 + a4 * b6 + a5 * b5 + a6 * b4 +
    a7 * b3 + a8 * b2 + a9 * b1 + a10 * b0;
  s11 ← Some c11 + a0 * b11 + a1 * b10 + a2 * b9 + a3 * b8 + a4 * b7 + a5 * b6 + a6 * b5 +
    a7 * b4 + a8 * b3 + a9 * b2 + a10 * b1 + a11 * b0;
  s12 ← a1 * b11 + a2 * b10 + a3 * b9 + a4 * b8 + a5 * b7 + a6 * b6 + a7 * b5 + a8 * b4 + a9 * b3
    + a10 * b2 + a11 * b1;
  s13 ← a2 * b11 + a3 * b10 + a4 * b9 + a5 * b8 + a6 * b7 + a7 * b6 + a8 * b5 + a9 * b4 + a10 * b3
    + a11 * b2;
  s14 ← a3 * b11 + a4 * b10 + a5 * b9 + a6 * b8 + a7 * b7 + a8 * b6 + a9 * b5 + a10 * b4 +
    a11 * b3;
  s15 ← a4 * b11 + a5 * b10 + a6 * b9 + a7 * b8 + a8 * b7 + a9 * b6 + a10 * b5 + a11 * b4;
  s16 ← a5 * b11 + a6 * b10 + a7 * b9 + a8 * b8 + a9 * b7 + a10 * b6 + a11 * b5;
  s17 ← a6 * b11 + a7 * b10 + a8 * b9 + a9 * b8 + a10 * b7 + a11 * b6;
  s18 ← a7 * b11 + a8 * b10 + a9 * b9 + a10 * b8 + a11 * b7;
  s19 ← a8 * b11 + a9 * b10 + a10 * b9 + a11 * b8;
  s20 ← a9 * b11 + a10 * b10 + a11 * b9;
  s21 ← a10 * b11 + a11 * b10;
  s22 ← a11 * b11;
  Some [ s0; s1; s2; s3; s4; s5; s6; s7; s8; s9; s10; s11; s12; s13; s14; s15; s16; s17; s18; s19;
         s20; s21; s22; 0 ]
  | _, _, _ => None
  end.

#[local] Close Scope int64_scope.

Definition scMulAdd (a b c : bytes) : option bytes :=
  a ← load_scalar a; b ← load_scalar b; c ← load_scalar c;
  s ← sc_products a b c;
  s ← exec_steps (product_steps ++ reduce_steps ++ final_steps) s; sc_bytes s.

(** The constant-time comparisons on [uint32] and [int32]. *)
Definition GT (x y : Z) : Z :=
  let z := wrap 32 (y - x) in Z.shiftr (Z.lxor z (Z.land (Z.lxor x y) (Z.lxor x z))) 31.

Definition CMP (x y : Z) : option Z :=
  g ← sub32 0 (cast_int 32 (GT y x)); Some (Z.lor (cast_int 32 (GT x y)) g).

(** Unary minus on [uint32] is [neg_uint32]; [not] complements the 32 bits. *)
Definition EQ0 (x : Z) : Z :=
  let q := wrap 32 x in Z.shiftr (Z.lxor (Z.lor q (neg_uint32 q)) 0xFFFFFFFF) 31.

Definition NEQ (x y : Z) : Z := let q := Z.lxor x y in Z.shiftr (Z.lor q (neg_uint32 q)) 31.

Definition LT0 (x : Z) : Z := Z.shiftr (wrap 32 x) 31.

Definition CurveOrder : bytes :=
  [0xED; 0xD3; 0xF5; 0x5C; 0x1A; 0x63; 0x12; 0x58; 0xD6; 0x9C; 0xF7; 0xA2; 0xDE; 0xF9; 0xDE; 0x14]
  ++ replicate 15 0x00 ++ [0x10].

(** [for i in countdown(scalar.high, 0)], on the bytes from the last one. *)
Fixpoint checkScalar_loop (scalar order : bytes) (c : Z) : option Z :=
  match scalar, order with
  | x :: scalar, y :: order =>
      e ← sub32 0 (cast_int 32 (EQ0 c)); m ← CMP x y;
      checkScalar_loop scalar order (Z.lor c (Z.land e m))
  | _, _ => Some c
  end.

Definition checkScalar (scalar : bytes) : option Z :=
  let z := foldl Z.lor 0 scalar in
  c ← (if (length scalar =? length CurveOrder)%nat
       then checkScalar_loop (rev scalar) (rev CurveOrder) 0 else Some (-1));
  Some (Z.land (NEQ z 0) (LT0 c)).

(** ** The order of the group *)

Definition order25519 : Z := 2 ^ 252 + 27742317777372353535851937790883648493.

(** Congruence modulo the order. *)
Definition eqo (a b : Z) : Prop := exists c, a = b + order25519 * c.

#[export] Instance eqo_equiv : Equivalence eqo.
Proof.
  split.
  - intros a. exists 0. lia.
  - intros a b [c E]. exists (- c). lia.
  - intros a b d [c E] [c' E']. exists (c + c'). lia.
Qed.

Lemma eqo_mod a b : eqo a b -> a mod order25519 = b mod order25519.
Proof. intros [c ->]. rewrite Z.mul_comm. apply Z_mod_plus_full. Qed.

(** The value of a list of limbs. *)
Fixpoint val21 (s : list Z) : Z :=
  match s with [] => 0 | x :: r => x + 2 ^ 21 * val21 r end.

Lemma val21_insert s i x z : s !! i = Some x ->
  val21 (<[i := z]> s) = val21 s + (z - x) * 2 ^ (21 * Z.of_nat i).
Proof.
  revert i. induction s as [|y s IH]; intros [|i]; [done|done| |].
  - intros [= ->]. change (val21 (<[0%nat := z]> (x :: s))) with (z + 2 ^ 21 * val21 s).
    cbn [val21]. change (2 ^ (21 * Z.of_nat 0)) with 1. lia.
  - intros E. change (val21 (<[S i := z]> (y :: s))) with (y + 2 ^ 21 * val21 (<[i := z]> s)).
    rewrite (IH i E). cbn [val21].
    replace (21 * Z.of_nat (S i)) with (21 + 21 * Z.of_nat i) by lia.
    rewrite Z.pow_add_r by lia. ring.
Qed.

(** ** The bound checker *)

(** [lo <= x <= hi]. *)
Definition ival : Type := Z * Z.

Definition inside (x : Z) (b : ival) : Prop := b.1 <= x <= b.2.

Definition within (s : list Z) (bs : list ival) : Prop := Forall2 inside s bs.

Definition fits64 (b : ival) : bool := (- 2 ^ 63 <=? b.1) && (b.2 <? 2 ^ 63).

Definition guard64 (b : ival) : option ival := if fits64 b then Some b else None.

Definition i_add_at (i : nat) (b : ival) (bs : list ival) : option (list ival) :=
  y ← bs !! i; z ← guard64 (y.1 + b.1, y.2 + b.2); Some (<[i := z]> bs).

Definition i_sub_at (i : nat) (b : ival) (bs : list ival) : option (list ival) :=
  y ← bs !! i; z ← guard64 (y.1 - b.2, y.2 - b.1); Some (<[i := z]> bs).

Definition i_mul (b : ival) (k : Z) : option ival := guard64 (b.1 * k, b.2 * k).

Definition i_carry (i : nat) (c rem : ival) (bs : list ival) : option (list ival) :=
  bs ← i_add_at (i + 1) c bs;
  _ ← guard64 (c.1 * 2 ^ 21, c.2 * 2 ^ 21);
  Some (<[i := rem]> bs).

Definition i_step (st : step) (bs : list ival) : option (list ival) :=
  match st with
  | Fold i =>
      if (i <? 12)%nat then None
      else
        x ← bs !! i;
        p ← i_mul x 666643; bs ← i_add_at (i - 12) p bs;
        p ← i_mul x 470296; bs ← i_add_at (i - 11) p bs;
        p ← i_mul x 654183; bs ← i_add_at (i - 10) p bs;
        p ← i_mul x 997805; bs ← i_sub_at (i - 9) p bs;
        p ← i_mul x 136657; bs ← i_add_at (i - 8) p bs;
        p ← i_mul x 683901; bs ← i_sub_at (i - 7) p bs;
        Some (<[i := (0, 0)]> bs)
  | Round i =>
      x ← bs !! i;
      t ← guard64 (x.1 + 2 ^ 20, x.2 + 2 ^ 20);
      i_carry i (t.1 / 2 ^ 21, t.2 / 2 ^ 21) (- 2 ^ 20, 2 ^ 20 - 1) bs
  | Floor i =>
      x ← bs !! i;
      i_carry i (x.1 / 2 ^ 21, x.2 / 2 ^ 21) (0, 2 ^ 21 - 1) bs
  end.

Fixpoint i_steps (sts : list step) (bs : list ival) : option (list ival) :=
  match sts with [] => Some bs | st :: sts => bs ← i_step st bs; i_steps sts bs end.

(** What a step takes off the value: nothing for a carry. *)
Definition step_loss (st : step) (s : list Z) : Z :=
  match st with
  | Fold i => default 0 (s !! i) * 2 ^ (21 * (Z.of_nat i - 12)) * order25519
  | _ => 0
  end.

Lemma checked64 x : fits64 (x, x) = true -> checked 64 x = Some x.
Proof.
  unfold fits64. cbn [fst snd]. rewrite andb_true_iff, Z.leb_le, Z.ltb_lt. intros [].
  apply checked_Some. change (64 - 1) with 63. lia.
Qed.

Lemma guard64_inside b b' x : guard64 b = Some b' -> inside x b -> b' = b /\ checked 64 x = Some x.
Proof.
  unfold guard64. destruct (fits64 b) eqn:E; [|done]. intros [= <-] Hx. split; [done|].
  apply checked64. unfold fits64, inside in *. cbn [fst snd].
  rewrite andb_true_iff, Z.leb_le, Z.ltb_lt in *. lia.
Qed.

Lemma within_lookup s bs i b : within s bs -> bs !! i = Some b ->
  exists x, s !! i = Some x /\ inside x b.
Proof. intros Hw Hb. by eapply Forall2_lookup_r. Qed.

Lemma within_insert s bs i x b : within s bs -> inside x b -> within (<[i := x]> s) (<[i := b]> bs).
Proof. intros Hw Hx. by apply Forall2_insert. Qed.

(** What [add_at] and [sub_at] do when the checker accepts them. *)
Lemma add_at_ok s bs bs' i x b : within s bs -> inside x b -> i_add_at i b bs = Some bs' ->
  exists s' y, add_at i x s = Some s' /\ within s' bs' /\ s !! i = Some y /\
    s' = <[i := y + x]> s.
Proof.
  intros Hw Hx. unfold i_add_at, add_at. destruct (bs !! i) as [yb|] eqn:Eb; [|done].
  destruct (within_lookup _ _ _ _ Hw Eb) as (y & -> & Hy). cbn [mbind option_bind].
  destruct (guard64 _) as [z|] eqn:Ez; [|done]. cbn. intros [= <-].
  destruct (guard64_inside _ _ (y + x) Ez) as [-> Ec].
  { unfold inside in *. cbn [fst snd] in *. lia. }
  unfold add64. rewrite Ec. cbn. eexists _, y. split; [done|]. split; [|done].
  apply within_insert; [done|]. unfold inside in *. cbn [fst snd] in *. lia.
Qed.

Lemma sub_at_ok s bs bs' i x b : within s bs -> inside x b -> i_sub_at i b bs = Some bs' ->
  exists s' y, sub_at i x s = Some s' /\ within s' bs' /\ s !! i = Some y /\
    s' = <[i := y - x]> s.
Proof.
  intros Hw Hx. unfold i_sub_at, sub_at. destruct (bs !! i) as [yb|] eqn:Eb; [|done].
  destruct (within_lookup _ _ _ _ Hw Eb) as (y & -> & Hy). cbn [mbind option_bind].
  destruct (guard64 _) as [z|] eqn:Ez; [|done]. cbn. intros [= <-].
  destruct (guard64_inside _ _ (y - x) Ez) as [-> Ec].
  { unfold inside in *. cbn [fst snd] in *. lia. }
  unfold sub64. rewrite Ec. cbn. eexists _, y. split; [done|]. split; [|done].
  apply within_insert; [done|]. unfold inside in *. cbn [fst snd] in *. lia.
Qed.

Lemma mul_ok x b k b' : 0 <= k -> inside x b -> i_mul b k = Some b' ->
  mul64 x k = Some (x * k) /\ inside (x * k) b'.
Proof.
  intros Hk Hx Hb. assert (Hi : inside (x * k) (b.1 * k, b.2 * k))
    by (unfold inside in *; cbn [fst snd]; nia).
  destruct (guard64_inside _ _ (x * k) Hb Hi) as [-> Ec]. done.
Qed.

(** One statement pair of [Fold]: the value moves by the product, the other limbs stay. *)
Lemma fold_add_ok s bs bs' j i x b b' k : 0 <= k -> j <> i -> inside x b -> within s bs ->
  s !! i = Some x -> i_mul b k = Some b' -> i_add_at j b' bs = Some bs' ->
  exists s', (p ← mul64 x k; add_at j p s) = Some s' /\ within s' bs' /\ s' !! i = Some x /\
    val21 s' = val21 s + x * k * 2 ^ (21 * Z.of_nat j).
Proof.
  intros Hk Hj Hx Hw Hs Hm Ha. destruct (mul_ok _ _ _ _ Hk Hx Hm) as [Em Hi]. rewrite Em.
  destruct (add_at_ok _ _ _ _ _ _ Hw Hi Ha) as (s' & y & E & Hw' & Hy & ->).
  cbn [mbind option_bind]. rewrite E. eexists. split; [done|]. split; [done|].
  rewrite list_lookup_insert_ne, (val21_insert _ _ y) by done. split; [done|]. ring.
Qed.

Lemma fold_sub_ok s bs bs' j i x b b' k : 0 <= k -> j <> i -> inside x b -> within s bs ->
  s !! i = Some x -> i_mul b k = Some b' -> i_sub_at j b' bs = Some bs' ->
  exists s', (p ← mul64 x k; sub_at j p s) = Some s' /\ within s' bs' /\ s' !! i = Some x /\
    val21 s' = val21 s - x * k * 2 ^ (21 * Z.of_nat j).
Proof.
  intros Hk Hj Hx Hw Hs Hm Ha. destruct (mul_ok _ _ _ _ Hk Hx Hm) as [Em Hi]. rewrite Em.
  destruct (sub_at_ok _ _ _ _ _ _ Hw Hi Ha) as (s' & y & E & Hw' & Hy & ->).
  cbn [mbind option_bind]. rewrite E. eexists. split; [done|]. split; [done|].
  rewrite list_lookup_insert_ne, (val21_insert _ _ y) by done. split; [done|]. ring.
Qed.

Lemma shl64_exact c : fits64 (c * 2 ^ 21, c * 2 ^ 21) = true -> shl_int 64 c 21 = c * 2 ^ 21.
Proof.
  unfold fits64, shl_int. cbn [fst snd]. rewrite andb_true_iff, Z.leb_le, Z.ltb_lt. intros [].
  rewrite Z.shiftl_mul_pow2 by lia. apply cast_int_small; [lia|]. change (64 - 1) with 63. lia.
Qed.

Lemma carry_at_ok s bs bs' i x c cb rem : within s bs -> s !! i = Some x -> inside c cb ->
  inside (x - c * 2 ^ 21) rem -> fits64 rem = true -> i_carry i cb rem bs = Some bs' ->
  exists s', carry_at i c s = Some s' /\ within s' bs' /\ val21 s' = val21 s.
Proof.
  intros Hw Hx Hc Hrem Hfit Hi. unfold i_carry in Hi.
  destruct (i_add_at (i + 1) cb bs) as [bs1|] eqn:Ea; [|done]. cbn [mbind option_bind] in Hi.
  destruct (guard64 _) as [g|] eqn:Eg; [|done]. cbn in Hi. injection Hi as <-.
  destruct (add_at_ok _ _ _ _ _ _ Hw Hc Ea) as (s1 & y & E1 & Hw1 & Hy & Es1).
  unfold carry_at. rewrite E1. cbn [mbind option_bind].
  assert (Hx1 : s1 !! i = Some x) by (rewrite Es1, list_lookup_insert_ne by lia; done).
  rewrite shl64_exact.
  2: { unfold guard64 in Eg. destruct (fits64 (cb.1 * 2 ^ 21, _)) eqn:Ef; [|done].
       unfold fits64, inside in *. cbn [fst snd] in *.
       rewrite andb_true_iff, Z.leb_le, Z.ltb_lt in *. nia. }
  unfold sub_at. rewrite Hx1. cbn [mbind option_bind]. unfold sub64.
  rewrite checked64.
  2: { unfold fits64, inside in *. cbn [fst snd] in *.
       rewrite andb_true_iff, Z.leb_le, Z.ltb_lt in *. lia. }
  cbn. eexists. split; [done|]. split; [by apply within_insert|].
  rewrite (val21_insert _ _ x), Es1, (val21_insert _ _ y) by done.
  replace (21 * Z.of_nat (i + 1)) with (21 + 21 * Z.of_nat i) by lia.
  rewrite Z.pow_add_r by lia. ring.
Qed.

Lemma div_inside x (b : ival) : inside x b -> inside (x / 2 ^ 21) (b.1 / 2 ^ 21, b.2 / 2 ^ 21).
Proof. intros []. split; apply Z.div_le_mono; done. Qed.

(** The multiples of the order: 2^252 is minus its low part. *)
Lemma fold_weight i : (12 <= i)%nat ->
  666643 * 2 ^ (21 * Z.of_nat (i - 12)) + 470296 * 2 ^ (21 * Z.of_nat (i - 11))
  + 654183 * 2 ^ (21 * Z.of_nat (i - 10)) - 997805 * 2 ^ (21 * Z.of_nat (i - 9))
  + 136657 * 2 ^ (21 * Z.of_nat (i - 8)) - 683901 * 2 ^ (21 * Z.of_nat (i - 7))
  = 2 ^ (21 * Z.of_nat i) - 2 ^ (21 * (Z.of_nat i - 12)) * order25519.
Proof.
  intros Hi. set (w := 21 * (Z.of_nat i - 12)).
  replace (21 * Z.of_nat (i - 12)) with w by lia.
  replace (21 * Z.of_nat (i - 11)) with (w + 21) by lia.
  replace (21 * Z.of_nat (i - 10)) with (w + 42) by lia.
  replace (21 * Z.of_nat (i - 9)) with (w + 63) by lia.
  replace (21 * Z.of_nat (i - 8)) with (w + 84) by lia.
  replace (21 * Z.of_nat (i - 7)) with (w + 105) by lia.
  replace (21 * Z.of_nat i) with (w + 252) by lia.
  rewrite !Z.pow_add_r by lia. unfold order25519. ring.
Qed.

(** A step the checker accepts does not overflow, stays in its bounds and keeps the value, up
to a multiple of the order. *)
Lemma i_step_sound st s bs bs' : within s bs -> i_step st bs = Some bs' ->
  exists s', exec_step st s = Some s' /\ within s' bs' /\ val21 s' = val21 s - step_loss st s.
Proof.
  intros Hw. destruct st as [i|i|i]; cbn [i_step exec_step step_loss].
  - destruct (Nat.ltb_spec i 12) as [|Hi]; [done|].
    destruct (bs !! i) as [b|] eqn:Eb; [|done].
    destruct (within_lookup _ _ _ _ Hw Eb) as (x & Ex & Hx). rewrite Ex. cbn [mbind option_bind].
    pose proof (fold_weight i Hi) as Hfw.
    assert (Hstep : forall s bs bs' j k b' (K : list Z -> option (list Z)) (Q : list Z -> Prop),
      0 <= k -> j <> i -> within s bs -> s !! i = Some x -> i_mul b k = Some b' ->
      i_add_at j b' bs = Some bs' ->
      (forall s', within s' bs' -> s' !! i = Some x ->
         val21 s' = val21 s + x * k * 2 ^ (21 * Z.of_nat j) ->
         exists s'', K s' = Some s'' /\ Q s'') ->
      exists s'', (p ← mul64 x k; s ← add_at j p s; K s) = Some s'' /\ Q s'').
    { intros s0 bs0 bs1 j k b' K Q Hk Hj Hw0 Hs0 Hm Ha HK.
      destruct (fold_add_ok s0 bs0 bs1 j i x b b' k) as (s1 & E & Hw1 & Hs1 & Hv); [done..|].
      destruct (mul64 x k); [|done]. cbn in E |- *. rewrite E. by apply HK. }
    assert (Hstep' : forall s bs bs' j k b' (K : list Z -> option (list Z)) (Q : list Z -> Prop),
      0 <= k -> j <> i -> within s bs -> s !! i = Some x -> i_mul b k = Some b' ->
      i_sub_at j b' bs = Some bs' ->
      (forall s', within s' bs' -> s' !! i = Some x ->
         val21 s' = val21 s - x * k * 2 ^ (21 * Z.of_nat j) ->
         exists s'', K s' = Some s'' /\ Q s'') ->
      exists s'', (p ← mul64 x k; s ← sub_at j p s; K s) = Some s'' /\ Q s'').
    { intros s0 bs0 bs1 j k b' K Q Hk Hj Hw0 Hs0 Hm Ha HK.
      destruct (fold_sub_ok s0 bs0 bs1 j i x b b' k) as (s1 & E & Hw1 & Hs1 & Hv); [done..|].
      destruct (mul64 x k); [|done]. cbn in E |- *. rewrite E. by apply HK. }
    intros Hb.
    repeat match type of Hb with
    | (i_mul ?b ?k ≫= _) = _ =>
        let E := fresh "Em" in destruct (i_mul b k) eqn:E; [cbn [mbind option_bind] in Hb|done]
    | (i_add_at ?j ?b ?l ≫= _) = _ =>
        let E := fresh "Ea" in destruct (i_add_at j b l) eqn:E; [cbn [mbind option_bind] in Hb|done]
    | (i_sub_at ?j ?b ?l ≫= _) = _ =>
        let E := fresh "Ea" in destruct (i_sub_at j b l) eqn:E; [cbn [mbind option_bind] in Hb|done]
    end.
    injection Hb as <-.
    eapply Hstep; [lia|lia|eassumption..|]. intros s1 Hw1 Hs1 V1.
    eapply Hstep; [lia|lia|eassumption..|]. intros s2 Hw2 Hs2 V2.
    eapply Hstep; [lia|lia|eassumption..|]. intros s3 Hw3 Hs3 V3.
    eapply Hstep'; [lia|lia|eassumption..|]. intros s4 Hw4 Hs4 V4.
    eapply Hstep; [lia|lia|eassumption..|]. intros s5 Hw5 Hs5 V5.
    eapply Hstep'; [lia|lia|eassumption..|]. intros s6 Hw6 Hs6 V6.
    eexists. split; [done|]. split; [apply within_insert; [done|split; done]|].
    rewrite (val21_insert _ _ x), V6, V5, V4, V3, V2, V1 by done. cbn [default from_option id].
    nia.
  - destruct (bs !! i) as [b|] eqn:Eb; [|done].
    destruct (within_lookup _ _ _ _ Hw Eb) as (x & Ex & Hx). rewrite Ex. cbn [mbind option_bind].
    destruct (guard64 _) as [t|] eqn:Et; [|done]. cbn [mbind option_bind]. intros Hb.
    destruct (guard64_inside _ _ (x + 2 ^ 20) Et) as [-> Ec].
    { unfold inside in *. cbn [fst snd]. lia. }
    unfold add64. change (Z.shiftl 1 20) with (2 ^ 20). rewrite Ec. cbn [mbind option_bind].
    rewrite Z.sub_0_r. eapply (carry_at_ok _ _ _ _ x _ _ _ Hw Ex); [| |
      |exact Hb]; [| |reflexivity].
    + rewrite ashr_div by lia. apply (div_inside _ (b.1 + 2 ^ 20, b.2 + 2 ^ 20)).
      unfold inside in *. cbn [fst snd]. lia.
    + rewrite ashr_div by lia. unfold inside. cbn [fst snd].
      pose proof (Z.div_mod (x + 2 ^ 20) (2 ^ 21) ltac:(lia)).
      pose proof (Z.mod_pos_bound (x + 2 ^ 20) (2 ^ 21) ltac:(lia)). lia.
  - destruct (bs !! i) as [b|] eqn:Eb; [|done].
    destruct (within_lookup _ _ _ _ Hw Eb) as (x & Ex & Hx). rewrite Ex. cbn [mbind option_bind].
    intros Hb. rewrite Z.sub_0_r. eapply (carry_at_ok _ _ _ _ x _ _ _ Hw Ex); [| |
      |exact Hb]; [| |reflexivity].
    + rewrite ashr_div by lia. by apply div_inside.
    + rewrite ashr_div by lia. unfold inside. cbn [fst snd].
      pose proof (Z.div_mod x (2 ^ 21) ltac:(lia)).
      pose proof (Z.mod_pos_bound x (2 ^ 21) ltac:(lia)). lia.
Qed.

Lemma i_steps_sound sts s bs bs' : within s bs -> i_steps sts bs = Some bs' ->
  exists s', exec_steps sts s = Some s' /\ within s' bs' /\ eqo (val21 s') (val21 s).
Proof.
  revert s bs. induction sts as [|st sts IH]; intros s bs Hw; cbn [i_steps exec_steps].
  { intros [= <-]. by exists s. }
  destruct (i_step st bs) as [bs1|] eqn:E; [|done]. cbn. intros Hb.
  destruct (i_step_sound st s bs bs1 Hw E) as (s1 & -> & Hw1 & Hv).
  destruct (IH s1 bs1 Hw1 Hb) as (s' & E' & Hw' & Hv'). exists s'. split; [exact E'|].
  split; [done|]. rewrite Hv', Hv. destruct st as [i| |]; cbn [step_loss].
  - exists (- (default 0 (s !! i) * 2 ^ (21 * (Z.of_nat i - 12)))). ring.
  - exists 0. ring.
  - exists 0. ring.
Qed.

(** Carries keep the value. *)
Definition is_carry (st : step) : bool := match st with Fold _ => false | _ => true end.

Lemma i_steps_exact sts s bs bs' : Forall (fun st => is_carry st = true) sts ->
  within s bs -> i_steps sts bs = Some bs' ->
  exists s', exec_steps sts s = Some s' /\ within s' bs' /\ val21 s' = val21 s.
Proof.
  intros Hc. revert s bs. induction Hc as [|st sts Hst Hc IH]; intros s bs Hw;
    cbn [i_steps exec_steps].
  { intros [= <-]. by exists s. }
  destruct (i_step st bs) as [bs1|] eqn:E; [|done]. cbn. intros Hb.
  destruct (i_step_sound st s bs bs1 Hw E) as (s1 & -> & Hw1 & Hv).
  destruct (IH s1 bs1 Hw1 Hb) as (s' & E' & Hw' & Hv'). exists s'. split; [exact E'|].
  split; [done|]. destruct st; [done|cbn [step_loss] in Hv; lia..].
Qed.

Lemma exec_steps_app l k s : exec_steps (l ++ k) s = (s ← exec_steps l s; exec_steps k s).
Proof.
  revert s. induction l as [|st l IH]; intros s; [done|]. cbn.
  destruct (exec_step st s); cbn; [apply IH|done].
Qed.

(** ** Loads *)

Lemma load_3_slice s a b : bytes_ok s -> (b < length s)%nat -> (a + 2 <= b)%nat ->
  load_3 (slice s a b) = Some ((le_value s / 2 ^ (8 * Z.of_nat a)) mod 2 ^ 24).
Proof.
  intros Hs Hb Ha. change 24 with (8 * Z.of_nat 3). rewrite <- le_value_slice by (done || lia).
  unfold slice. pose proof (Forall_drop byte_ok a s Hs) as Hd.
  pose proof (length_drop s a) as Hl. destruct (drop a s) as [|b0 [|b1 [|b2 r]]]; cbn in Hl; try lia.
  do 3 (apply Forall_cons in Hd as [? Hd]).
  replace (b - a + 1)%nat with (S (S (S (b - a - 2)))) by lia. cbn [take].
  rewrite load_3_spec by done. rewrite take_0. cbn [le_value]. f_equal. pow2. lia.
Qed.

Lemma load_4_slice s a b : bytes_ok s -> (b < length s)%nat -> (a + 3 <= b)%nat ->
  load_4 (slice s a b) = Some ((le_value s / 2 ^ (8 * Z.of_nat a)) mod 2 ^ 32).
Proof.
  intros Hs Hb Ha. change 32 with (8 * Z.of_nat 4). rewrite <- le_value_slice by (done || lia).
  unfold slice. pose proof (Forall_drop byte_ok a s Hs) as Hd.
  pose proof (length_drop s a) as Hl.
  destruct (drop a s) as [|b0 [|b1 [|b2 [|b3 r]]]]; cbn in Hl; try lia.
  do 4 (apply Forall_cons in Hd as [? Hd]).
  replace (b - a + 1)%nat with (S (S (S (S (b - a - 3))))) by lia. cbn [take].
  rewrite load_4_spec by done. rewrite take_0. cbn [le_value]. f_equal. pow2. lia.
Qed.

Lemma div_mod_low v w n k : 0 <= n -> 0 <= k -> n + k <= w ->
  (v mod 2 ^ w / 2 ^ n) mod 2 ^ k = (v / 2 ^ n) mod 2 ^ k.
Proof.
  intros Hn Hk Hw. replace w with (n + (k + (w - n - k))) by lia.
  rewrite !Z.pow_add_r by lia. set (q := 2 ^ (w - n - k)).
  assert (0 < 2 ^ n) by lia. assert (0 < 2 ^ k) by lia. assert (0 < q) by (subst q; lia).
  rewrite (Z.div_mod v (2 ^ n * (2 ^ k * q))) at 2 by nia.
  set (m := v mod _). set (d := v / (2 ^ n * (2 ^ k * q))).
  replace (2 ^ n * (2 ^ k * q) * d + m) with (m + (2 ^ k * q * d) * 2 ^ n) by ring.
  rewrite Z.div_add by lia. replace (2 ^ k * q * d) with (q * d * 2 ^ k) by ring.
  by rewrite Z_mod_plus_full.
Qed.

Lemma top_limb_spec x n : 0 <= n -> 0 <= x < 2 ^ 32 ->
  top_limb (Some x) n = Some (x / 2 ^ n).
Proof.
  intros Hn Hx. unfold top_limb. cbn. f_equal. rewrite Z.shiftr_div_pow2 by done.
  assert (0 <= x / 2 ^ n <= x).
  { split; [apply Z.div_pos; lia|]. apply Z.div_le_upper_bound; nia. }
  apply cast_int_small; [lia|]. change (64 - 1) with 63. pow2. lia.
Qed.

(** The [i]-th limb of a value. *)
Definition digit21 (v : Z) (i : nat) : Z := (v / 2 ^ (21 * Z.of_nat i)) mod 2 ^ 21.

Lemma limb_spec v a w n i : 0 <= n -> n + 21 <= w <= 32 -> 8 * Z.of_nat a + n = 21 * Z.of_nat i ->
  limb (Some ((v / 2 ^ (8 * Z.of_nat a)) mod 2 ^ w)) n = Some (digit21 v i).
Proof.
  intros Hn Hw Hi. unfold limb. rewrite top_limb_spec; [|done|].
  2: { pose proof (Z.mod_pos_bound (v / 2 ^ (8 * Z.of_nat a)) (2 ^ w) ltac:(lia)).
       pose proof (Z.pow_le_mono_r 2 w 32 ltac:(lia) ltac:(lia)). lia. }
  cbn. f_equal. change 2097151 with (Z.ones 21). rewrite Z.land_comm, Z.land_ones by lia.
  rewrite div_mod_low by lia. unfold digit21. f_equal.
  rewrite Z.div_div by lia. by rewrite <- Z.pow_add_r, Hi by lia.
Qed.

Lemma val21_digits v n : val21 (digit21 v <$> seq 0 n) = v mod 2 ^ (21 * Z.of_nat n).
Proof.
  assert (H : forall n j, val21 (digit21 v <$> seq j n) =
    (v / 2 ^ (21 * Z.of_nat j)) mod 2 ^ (21 * Z.of_nat n)).
  { clear n. induction n as [|n IH]; intros j.
    { cbn [seq fmap list_fmap val21]. change (2 ^ (21 * Z.of_nat 0)) with 1. by rewrite Z.mod_1_r. }
    cbn [seq fmap list_fmap val21]. change (list_fmap _ _ (digit21 v) (seq (S j) n))
      with (digit21 v <$> seq (S j) n). rewrite IH. unfold digit21.
    replace (21 * Z.of_nat (S j)) with (21 * Z.of_nat j + 21) by lia.
    replace (21 * Z.of_nat (S n)) with (21 + 21 * Z.of_nat n) by lia.
    rewrite !Z.pow_add_r by lia. rewrite <- Z.div_div by lia.
    set (x := v / 2 ^ (21 * Z.of_nat j)). rewrite (Z.rem_mul_r x (2 ^ 21)) by lia. done. }
  rewrite H. change (2 ^ (21 * Z.of_nat 0)) with 1. by rewrite Z.div_1_r.
Qed.

Lemma val21_snoc l x : val21 (l ++ [x]) = val21 l + 2 ^ (21 * Z.of_nat (length l)) * x.
Proof.
  induction l as [|y l IH]; [cbn [app val21 length]; change (2 ^ (21 * Z.of_nat 0)) with 1; lia|].
  cbn [app val21 length]. rewrite IH.
  replace (21 * Z.of_nat (S (length l))) with (21 + 21 * Z.of_nat (length l)) by lia.
  rewrite Z.pow_add_r by lia. ring.
Qed.

(** Every limb but the last is a digit. *)
Definition limbs_of (v : Z) (n : nat) : list Z :=
  (digit21 v <$> seq 0 n) ++ [v / 2 ^ (21 * Z.of_nat n)].

Lemma limbs_of_val v n : val21 (limbs_of v n) = v.
Proof.
  unfold limbs_of. rewrite val21_snoc, val21_digits, length_fmap, length_seq.
  pose proof (Z.div_mod v (2 ^ (21 * Z.of_nat n)) ltac:(lia)). lia.
Qed.

Lemma limbs_of_within v n top : 0 <= v -> v < 2 ^ (21 * Z.of_nat n) * (top + 1) ->
  within (limbs_of v n) (replicate n (0, 2 ^ 21 - 1) ++ [(0, top)]).
Proof.
  intros Hv Ht. apply Forall2_app.
  - apply Forall2_same_length_lookup_2; [by rewrite length_fmap, length_seq, length_replicate|].
    intros i x b Hx [-> _]%lookup_replicate.
    rewrite list_lookup_fmap, fmap_Some in Hx. destruct Hx as (j & _ & ->).
    pose proof (Z.mod_pos_bound (v / 2 ^ (21 * Z.of_nat j)) (2 ^ 21) ltac:(lia)).
    unfold inside, digit21. cbn [fst snd]. lia.
  - apply Forall2_cons. split; [|apply Forall2_nil_2]. unfold inside. cbn [fst snd].
    split; [apply Z.div_pos; lia|].
    assert (v / 2 ^ (21 * Z.of_nat n) < top + 1) by (apply Z.div_lt_upper_bound; lia). lia.
Qed.

Lemma le_value_uint s n : bytes_ok s -> length s = n ->
  0 <= le_value s < 2 ^ (8 * Z.of_nat n).
Proof. intros Hs <-. by apply le_value_bound. Qed.

Ltac load_tac :=
  rewrite ?load_3_slice, ?load_4_slice by (done || lia);
  repeat match goal with
  | |- context [limb (Some ((?v / 2 ^ (8 * Z.of_nat ?a)) mod 2 ^ ?w)) ?n] =>
      let i := eval vm_compute in (Z.to_nat ((8 * Z.of_nat a + n) / 21)) in
      rewrite (limb_spec v a w n i) by lia
  end.

Lemma top_piece v a w n i : 0 <= n -> 0 <= w -> 0 <= v < 2 ^ (8 * Z.of_nat a + w) ->
  8 * Z.of_nat a + n = 21 * Z.of_nat i ->
  (v / 2 ^ (8 * Z.of_nat a)) mod 2 ^ w / 2 ^ n = v / 2 ^ (21 * Z.of_nat i).
Proof.
  intros Hn Hw Hv Hi. rewrite Z.pow_add_r in Hv by lia.
  rewrite Z.mod_small; [by rewrite Z.div_div, <- Z.pow_add_r, Hi by lia|].
  split; [apply Z.div_pos; lia|apply Z.div_lt_upper_bound; lia].
Qed.

Lemma load_scalar_spec s : bytes_ok s -> length s = 32%nat ->
  load_scalar s = Some (limbs_of (le_value s) 11).
Proof.
  intros Hs Hl. unfold load_scalar. pose proof (le_value_uint s 32 Hs Hl) as Hv. load_tac.
  rewrite top_limb_spec; [|lia|by apply Z.mod_pos_bound].
  rewrite (top_piece _ 28 32 7 11) by (lia || exact Hv). reflexivity.
Qed.

Lemma load_digest_spec s : bytes_ok s -> length s = 64%nat ->
  load_digest s = Some (limbs_of (le_value s) 23).
Proof.
  intros Hs Hl. unfold load_digest. pose proof (le_value_uint s 64 Hs Hl) as Hv. load_tac.
  rewrite top_limb_spec; [|lia|by apply Z.mod_pos_bound].
  rewrite (top_piece _ 60 32 3 23) by (lia || exact Hv). reflexivity.
Qed.

(** ** The last steps *)

(** The bounds of the 24 limbs before the reduction: [lo] for the low limbs, [top] for the
last. *)
Definition reduced_bounds : list ival :=
  replicate 12 (0, 2 ^ 21 - 1) ++ [(-1, 0)] ++ replicate 11 (0, 0).

Definition within_b (b b' : list ival) : bool :=
  bool_decide (length b = length b') &&
  forallb (fun p => (p.2.1 <=? p.1.1) && (p.1.2 <=? p.2.2)) (zip b b').

Lemma within_weaken s b b' : within_b b b' = true -> within s b -> within s b'.
Proof.
  unfold within_b. rewrite andb_true_iff, bool_decide_eq_true. intros [Hl Hf] Hw.
  revert b' Hl Hf. induction Hw as [|x i s b Hx Hw IH]; intros [|i' b'] Hl Hf; try done.
  { apply Forall2_nil_2. }
  cbn in Hf. rewrite !andb_true_iff, !Z.leb_le in Hf. destruct Hf as [[H1 H2] Hf].
  apply Forall2_cons. split; [unfold inside in *; lia|]. apply IH; [|done].
    by injection Hl.
Qed.

(** The value of reduced limbs, before the last fold. *)
Lemma reduced_split s : within s reduced_bounds ->
  exists low s12, 0 <= low < 2 ^ 252 /\ -1 <= s12 <= 0 /\ s !! 12%nat = Some s12 /\
    val21 s = low + 2 ^ 252 * s12.
Proof.
  intros Hw. pose proof (Forall2_length _ _ _ Hw) as Hl. change (length reduced_bounds) with 24%nat in Hl.
  do 24 (destruct s as [|? s]; [discriminate|]). destruct s; [|discriminate].
  unfold reduced_bounds in Hw. cbn [replicate app] in Hw.
  do 24 (apply Forall2_cons_1 in Hw as [? Hw]). unfold inside in *. cbn [fst snd] in *.
  clear Hl Hw. pow2.
  eexists (val21 [z; z0; z1; z2; z3; z4; z5; z6; z7; z8; z9; z10]), z11. cbn [val21]. pow2.
  repeat match goal with H : 0 <= ?x <= 0 |- _ => assert (x = 0) by lia; clear H; subst x end.
  split; [lia|]. split; [lia|]. split; [done|]. ring.
Qed.

Lemma order_bounds : 2 ^ 252 < order25519 < 2 ^ 253.
Proof. unfold order25519. pow2. lia. Qed.

(** The last fold and carries give the canonical limbs. *)
Lemma final_steps_ok s : within s reduced_bounds ->
  exists s', exec_steps final_steps s = Some s' /\ 0 <= val21 s' < order25519 /\
    eqo (val21 s') (val21 s) /\
    exists bs, i_steps final_steps reduced_bounds = Some bs /\ within s' bs.
Proof.
  intros Hw. destruct (i_steps final_steps reduced_bounds) as [bs|] eqn:Ei; [|by vm_compute in Ei].
  destruct (reduced_split s Hw) as (low & s12 & Hlow & H12 & E12 & Hv).
  pose proof Ei as Ei'. unfold final_steps in Ei'. cbn [app i_steps] in Ei'.
  destruct (i_step (Fold 12) reduced_bounds) as [bs1|] eqn:E1; [|done].
  cbn [mbind option_bind] in Ei'.
  destruct (i_step_sound (Fold 12) s reduced_bounds bs1 Hw E1) as (s1 & X1 & Hw1 & V1).
  destruct (i_steps_exact (Floor <$> [0; 1; 2; 3; 4; 5; 6; 7; 8; 9; 10]%nat) s1 bs1 bs)
    as (s' & X2 & Hw' & V2); [by repeat constructor|done|done|].
  exists s'. unfold final_steps. rewrite exec_steps_app. cbn [exec_steps].
  rewrite X1. cbn [mbind option_bind]. split; [exact X2|].
  cbn [step_loss] in V1. rewrite E12 in V1. cbn [default from_option id] in V1.
  change (2 ^ (21 * (Z.of_nat 12 - 12))) with 1 in V1.
  rewrite V2, V1, Hv. pose proof order_bounds as Ho. unfold order25519 in *. split; [|split].
  - assert (s12 = -1 \/ s12 = 0) as [-> | ->] by lia; revert Hlow; pow2; lia.
  - exists (- s12). unfold order25519. ring.
  - eauto.
Qed.

(** *** The bytes of reduced limbs *)

Lemma limb_split2 x a : 0 <= a -> x =
  x mod 2 ^ a + 2 ^ a * ((x / 2 ^ a) mod 2 ^ 8) + 2 ^ (a + 8) * (x / 2 ^ (a + 8)).
Proof.
  intros Ha. rewrite !Z.pow_add_r by lia. rewrite <- !Z.div_div by lia.
  rewrite (Z.div_mod x (2 ^ a)) at 1 by lia.
  rewrite (Z.div_mod (x / 2 ^ a) (2 ^ 8)) at 1 by lia. ring.
Qed.

Lemma div_lt_byte x a : 0 <= a -> 0 <= x < 2 ^ (a + 8) -> (x / 2 ^ a) mod 2 ^ 8 = x / 2 ^ a.
Proof.
  intros Ha Hx. rewrite Z.pow_add_r in Hx by lia. apply Z.mod_small.
  split; [apply Z.div_pos; lia|apply Z.div_lt_upper_bound; lia].
Qed.

Lemma sc_bytes_spec s0 s1 s2 s3 s4 s5 s6 s7 s8 s9 s10 s11 r :
  reduced 21 s0 -> reduced 21 s1 -> reduced 21 s2 -> reduced 21 s3 -> reduced 21 s4 ->
  reduced 21 s5 -> reduced 21 s6 -> reduced 21 s7 -> reduced 21 s8 -> reduced 21 s9 ->
  reduced 21 s10 -> reduced 22 s11 ->
  exists b, sc_bytes (s0 :: s1 :: s2 :: s3 :: s4 :: s5 :: s6 :: s7 :: s8 :: s9 :: s10 :: s11 :: r)
      = Some b /\ bytes_ok b /\ length b = 32%nat /\
    le_value b = val21 [s0; s1; s2; s3; s4; s5; s6; s7; s8; s9; s10; s11].
Proof.
  intros H0 H1 H2 H3 H4 H5 H6 H7 H8 H9 H10 H11. unfold reduced in *. unfold sc_bytes.
  eexists. split; [reflexivity|]. split; [|split; [done|]].
  { unfold bytes_ok, cast_byte.
    repeat apply Forall_cons_2; try apply Forall_nil_2; apply (wrap_ok 8); lia. }
  cbn [le_value val21]. rewrite !byte_join by (simpl; lia). rewrite !byte_at by lia.
  pose proof (limb_split2 s0 0 ltac:(lia)) as E0. pose proof (limb_split s1 3 ltac:(lia)) as E1.
  pose proof (limb_split2 s2 6 ltac:(lia)) as E2. pose proof (limb_split s3 1 ltac:(lia)) as E3.
  pose proof (limb_split s4 4 ltac:(lia)) as E4. pose proof (limb_split2 s5 7 ltac:(lia)) as E5.
  pose proof (limb_split s6 2 ltac:(lia)) as E6. pose proof (limb_split2 s7 5 ltac:(lia)) as E7.
  pose proof (limb_split2 s8 0 ltac:(lia)) as E8. pose proof (limb_split s9 3 ltac:(lia)) as E9.
  pose proof (limb_split2 s10 6 ltac:(lia)) as E10. pose proof (limb_split s11 1 ltac:(lia)) as E11.
  pose proof (limb_split2 s0 8 ltac:(lia)) as F0. pose proof (limb_split2 s8 8 ltac:(lia)) as F8.
  pose proof (div_lt_byte s7 13 ltac:(lia) H7) as T7.
  pose proof (div_lt_byte s11 17 ltac:(lia) ltac:(revert H11; simpl; lia)) as T11.
  clear H0 H1 H2 H3 H4 H5 H6 H7 H8 H9 H10 H11.
  change (2 ^ 0) with 1 in *. rewrite (Z.mod_1_r s0), (Z.div_1_r s0) in E0.
  rewrite (Z.mod_1_r s8), (Z.div_1_r s8) in E8. rewrite !Z.div_1_r.
  revert E0 E1 E2 E3 E4 E5 E6 E7 E8 E9 E10 E11 F0 F8 T7 T11. pow2.
  repeat match goal with |- context [?a mod ?b] => generalize (a mod b); intro end.
  repeat match goal with |- context [?a / ?b] => generalize (a / b); intro end.
  intros. lia.
Qed.

(** Canonical limbs, as bytes. *)
Lemma finish_ok s v : within s reduced_bounds -> eqo (val21 s) v ->
  exists b, (s ← exec_steps final_steps s; sc_bytes s) = Some b /\ bytes_ok b /\
    length b = 32%nat /\ le_value b = v mod order25519.
Proof.
  intros Hw Hv. destruct (final_steps_ok s Hw) as (s' & -> & Hr & Hv' & bs & Hbs & Hw').
  cbn [mbind option_bind]. vm_compute in Hbs. injection Hbs as <-.
  pose proof (Forall2_length _ _ _ Hw') as Hl. cbn [length] in Hl.
  do 24 (destruct s' as [|? s']; [discriminate|]). destruct s'; [|discriminate]. clear Hl.
  do 24 (apply Forall2_cons_1 in Hw' as [? Hw']). clear Hw'.
  unfold inside in *. cbn [fst snd] in *.
  repeat match goal with H : 0 <= ?x <= 0 |- _ => assert (x = 0) by lia; clear H; subst x end.
  pose proof order_bounds as Ho.
  assert (E : v mod order25519 = val21 [z; z0; z1; z2; z3; z4; z5; z6; z7; z8; z9; z10]).
  { rewrite <- (eqo_mod _ _ Hv), <- (eqo_mod _ _ Hv'), Z.mod_small by done.
    cbn [val21]. ring. }
  assert (Hz : 0 <= z10 < 2 ^ 22).
  { revert Hr Ho. cbn [val21]. pow2. lia. }
  destruct (sc_bytes_spec z z0 z1 z2 z3 z4 z5 z6 z7 z8 z9 z10 (replicate 12 0))
    as (b & Eb & Hb & Hlb & Hvb); [unfold reduced; pow2; lia..|].
  exists b. split; [exact Eb|]. split; [done|]. split; [done|]. congruence.
Qed.

(** *** Products *)

Lemma bnd_const B c : Z.abs c <= B -> bnd B (Some c) c.
Proof. by split. Qed.

Ltac product_tac :=
  lazymatch goal with
  | |- bnd _ (sum64 _ _) _ => eapply bnd_sum64; [product_tac|product_tac|vm_compute; reflexivity]
  | |- bnd _ (mul64 _ _) _ => eapply bnd_mul64; [eassumption|eassumption|vm_compute; reflexivity]
  | |- bnd _ (Some _) _ => eapply bnd_const; eassumption
  end.

Definition product_bounds : list ival :=
  ((fun n => (- n, n)) <$> replicate 11 (2 ^ 47) ++ replicate 11 (2 ^ 48) ++ [2 ^ 51]) ++ [(0, 0)].

Lemma abs_inside x B N : Z.abs x <= B -> (B <=? N) = true -> inside x (- N, N).
Proof. rewrite Z.leb_le. intros H1 H2. unfold inside. cbn [fst snd]. lia. Qed.

Definition scalar_limbs (l : list Z) : Prop :=
  exists low top, l = low ++ [top] /\ length low = 11%nat /\
    Forall (fun x => Z.abs x <= 2 ^ 21) low /\ Z.abs top <= 2 ^ 25.

Lemma sc_products_spec a b c : scalar_limbs a -> scalar_limbs b -> scalar_limbs c ->
  exists s, sc_products a b c = Some s /\
    (within s product_bounds /\ val21 s = val21 a * val21 b + val21 c).
Proof.
  intros (al & at' & -> & Hal & Ha & Hat) (bl & bt & -> & Hbl & Hb & Hbt)
    (cl & ct & -> & Hcl & Hc & Hct).
  do 11 (destruct al as [|? al]; [discriminate|]). destruct al; [|discriminate].
  do 11 (destruct bl as [|? bl]; [discriminate|]). destruct bl; [|discriminate].
  do 11 (destruct cl as [|? cl]; [discriminate|]). destruct cl; [|discriminate].
  clear Hal Hbl Hcl. rewrite !Forall_cons in *. destruct_and!.
  cbn [app sc_products].
  do 23 (eapply bnd_bind; [product_tac|];
    let x := fresh "x" in let Ex := fresh "Ex" in let Bx := fresh "Bx" in
    intros x Ex Bx; cbv beta; eval_bound Bx).
  eexists. split; [reflexivity|]. split.
  - unfold product_bounds. cbn [replicate app fmap list_fmap].
    repeat (apply Forall2_cons; split;
      [first [eapply abs_inside; [eassumption|vm_compute; reflexivity]|by split]|]).
    apply Forall2_nil_2.
  - subst. cbn [val21]. ring.
Qed.

Lemma limbs_of_scalar v : 0 <= v < 2 ^ 256 -> scalar_limbs (limbs_of v 11).
Proof.
  intros Hv. exists (digit21 v <$> seq 0 11), (v / 2 ^ (21 * Z.of_nat 11)).
  split; [done|]. split; [done|]. split.
  - apply Forall_fmap, Forall_forall. intros i _. cbn. unfold digit21.
    pose proof (Z.mod_pos_bound (v / 2 ^ (21 * Z.of_nat i)) (2 ^ 21) ltac:(lia)). lia.
  - change (21 * Z.of_nat 11) with 231. assert (0 <= v / 2 ^ 231) by (apply Z.div_pos; lia).
    assert (v / 2 ^ 231 < 2 ^ 25) by (apply Z.div_lt_upper_bound; [lia|]; revert Hv; pow2; lia).
    lia.
Qed.

Lemma scReduce_spec s : bytes_ok s -> length s = 64%nat ->
  exists b, scReduce s = Some b /\ bytes_ok b /\ length b = 32%nat /\
    le_value b = le_value s mod order25519.
Proof.
  intros Hs Hl. unfold scReduce. rewrite load_digest_spec by done. cbn [mbind option_bind].
  pose proof (le_value_uint s 64 Hs Hl) as Hv.
  assert (Hw : within (limbs_of (le_value s) 23) (replicate 23 (0, 2 ^ 21 - 1) ++ [(0, 2 ^ 29 - 1)])).
  { apply limbs_of_within; [lia|]. change (21 * Z.of_nat 23) with 483.
    change (8 * Z.of_nat 64) with 512 in Hv. revert Hv. pow2. lia. }
  destruct (i_steps reduce_steps (replicate 23 (0, 2 ^ 21 - 1) ++ [(0, 2 ^ 29 - 1)])) as [bs|] eqn:E;
    [|by vm_compute in E].
  destruct (i_steps_sound _ _ _ _ Hw E) as (s1 & E1 & Hw1 & V1).
  rewrite exec_steps_app, E1. cbn [mbind option_bind].
  apply finish_ok.
  - eapply within_weaken; [|exact Hw1]. vm_compute in E. injection E as <-. reflexivity.
  - rewrite V1, limbs_of_val. reflexivity.
Qed.

Lemma scMulAdd_spec a b c : bytes_ok a -> length a = 32%nat -> bytes_ok b -> length b = 32%nat ->
  bytes_ok c -> length c = 32%nat ->
  exists r, scMulAdd a b c = Some r /\ bytes_ok r /\ length r = 32%nat /\
    le_value r = (le_value a * le_value b + le_value c) mod order25519.
Proof.
  intros Ha Hla Hb Hlb Hc Hlc. unfold scMulAdd.
  rewrite !load_scalar_spec by done. cbn [mbind option_bind].
  destruct (sc_products_spec (limbs_of (le_value a) 11) (limbs_of (le_value b) 11)
    (limbs_of (le_value c) 11)) as (s & -> & Hw & V);
    [apply limbs_of_scalar; change 256 with (8 * Z.of_nat 32); by apply le_value_uint..|].
  cbn [mbind option_bind]. rewrite !limbs_of_val in V.
  destruct (i_steps (product_steps ++ reduce_steps) product_bounds) as [bs|] eqn:E;
    [|by vm_compute in E].
  destruct (i_steps_sound _ _ _ _ Hw E) as (s1 & E1 & Hw1 & V1).
  rewrite app_assoc, exec_steps_app, E1. cbn [mbind option_bind]. apply finish_ok.
  - eapply within_weaken; [|exact Hw1]. vm_compute in E. injection E as <-. reflexivity.
  - rewrite V1, V. reflexivity.
Qed.

(** ** The range check *)

Lemma CMP_spec x y : byte_ok x -> byte_ok y -> CMP x y = Some (Z.sgn (x - y)).
Proof.
  intros Hx Hy.
  assert (H : forallb (fun m => forallb (fun n => match CMP (Z.of_nat m) (Z.of_nat n) with
      | Some r => r =? Z.sgn (Z.of_nat m - Z.of_nat n) | None => false end)
    (seq 0 256)) (seq 0 256) = true) by (vm_compute; reflexivity).
  rewrite forallb_forall in H. unfold byte_ok in *.
  specialize (H (Z.to_nat x) ltac:(apply in_seq; lia)). rewrite forallb_forall in H.
  specialize (H (Z.to_nat y) ltac:(apply in_seq; lia)). rewrite !Z2Nat.id in H by lia.
  destruct (CMP x y); [|done]. by apply Z.eqb_eq in H as ->.
Qed.

Lemma checkScalar_loop_spec x y c : bytes_ok x -> bytes_ok y -> length x = length y ->
  c = -1 \/ c = 0 \/ c = 1 ->
  checkScalar_loop x y c =
    Some (if c =? 0 then Z.sgn (le_value (rev x) - le_value (rev y)) else c).
Proof.
  intros Hx. revert y c. induction Hx as [|a x Ha Hx IH]; intros [|b y] c Hy Hl Hc; try done.
  { cbn. destruct Hc as [-> |[-> | ->]]; done. }
  apply Forall_cons in Hy as [Hb Hy]. injection Hl as Hl. cbn [checkScalar_loop].
  rewrite CMP_spec by done.
  assert (E : sub32 0 (cast_int 32 (EQ0 c)) = Some (if c =? 0 then -1 else 0))
    by (destruct Hc as [-> |[-> | ->]]; reflexivity).
  rewrite E. cbn [mbind option_bind]. fold (be_value (a :: x)) (be_value (b :: y)).
  rewrite !be_value_cons. pose proof (be_value_bound x Hx) as Bx.
  pose proof (be_value_bound y Hy) as By. rewrite <- Hl in *.
  set (p := 2 ^ (8 * Z.of_nat (length x))) in *. clearbody p.
  assert (Hm : Z.lor c (Z.land (if c =? 0 then -1 else 0) (Z.sgn (a - b))) =
    if c =? 0 then Z.sgn (a - b) else c).
  { destruct (Z.eqb_spec c 0) as [->|]; [by rewrite Z.land_m1_l|].
    by rewrite Z.land_0_l, Z.lor_0_r. }
  rewrite Hm. unfold byte_ok in *.
  rewrite IH; [|done|done|destruct (c =? 0); [destruct (Z.sgn_spec (a - b)) as [[_ ->]|[[_ ->]|[_ ->]]]; tauto|done]].
  fold (be_value x) (be_value y). f_equal. destruct (Z.eqb_spec c 0) as [->|Hne].
  - destruct (Z.sgn_spec (a - b)) as [[Hs ->]|[[Hs ->]|[Hs ->]]]; cbn.
    + symmetry. apply Z.sgn_pos. nia.
    + f_equal. nia.
    + symmetry. apply Z.sgn_neg. nia.
  - by destruct (Z.eqb_spec c 0).
Qed.

Lemma foldl_lor_zero l z : bytes_ok l -> 0 <= z < 2 ^ 32 ->
  0 <= foldl Z.lor z l < 2 ^ 32 /\ (foldl Z.lor z l = 0 <-> z = 0 /\ le_value l = 0).
Proof.
  intros Hl. revert z. induction Hl as [|b l Hb Hl IH]; intros z Hz; cbn [foldl le_value].
  { split; [done|tauto]. }
  unfold byte_ok in Hb. pose proof (le_value_bound l Hl) as Hv.
  assert (Hlor : 0 <= Z.lor z b < 2 ^ 32).
  { split; [apply Z.lor_nonneg; lia|]. destruct (Z.eq_dec (Z.lor z b) 0) as [->|]; [lia|].
    apply Z.log2_lt_pow2; [assert (0 <= Z.lor z b) by (apply Z.lor_nonneg; lia); lia|].
    rewrite Z.log2_lor by lia. apply Z.max_lub_lt.
    - destruct (Z.eq_dec z 0) as [->|]; [done|]. apply Z.log2_lt_pow2; lia.
    - destruct (Z.eq_dec b 0) as [->|]; [done|]. apply Z.log2_lt_pow2; lia. }
  destruct (IH (Z.lor z b) Hlor) as [H1 H2]. split; [done|]. rewrite H2, Z.lor_eq_0_iff. lia.
Qed.

Lemma NEQ_zero x : 0 <= x < 2 ^ 32 -> NEQ x 0 = if x =? 0 then 0 else 1.
Proof.
  intros Hx. unfold NEQ. rewrite Z.lxor_0_r. unfold neg_uint32, wrap.
  destruct (Z.eqb_spec x 0) as [->|]; [reflexivity|].
  replace (0xFFFFFFFF - x + 1) with (2 ^ 32 - x) by (pow2; lia). rewrite Z.mod_small by lia.
  set (y := Z.lor x (2 ^ 32 - x)).
  assert (H31 : Z.testbit y 31 = true).
  { subst y. rewrite Z.lor_spec, orb_true_iff, !Z.testbit_true by lia. pow2.
    destruct (Z.le_gt_cases 2147483648 x) as [H|H]; [left|right]; Z.div_mod_to_equations; lia. }
  assert (Hy : 0 <= y < 2 ^ 32).
  { subst y. split; [apply Z.lor_nonneg; lia|].
    apply Z.log2_lt_pow2.
    - assert (0 <= Z.lor x (2 ^ 32 - x)) by (apply Z.lor_nonneg; lia).
      assert (Z.lor x (2 ^ 32 - x) <> 0) by (rewrite Z.lor_eq_0_iff; lia). lia.
    - rewrite Z.log2_lor by lia. apply Z.max_lub_lt; apply Z.log2_lt_pow2; lia. }
  rewrite Z.shiftr_div_pow2 by lia. apply Z.testbit_true in H31; [|lia].
  revert H31 Hy. pow2. Z.div_mod_to_equations. lia.
Qed.

Lemma checkScalar_spec s : bytes_ok s -> length s = 32%nat ->
  checkScalar s = Some (if (0 <? le_value s) && (le_value s <? order25519) then 1 else 0).
Proof.
  intros Hs Hl. unfold checkScalar. rewrite Hl. change (length CurveOrder) with 32%nat. rewrite Nat.eqb_refl.
  rewrite checkScalar_loop_spec; [|by apply Forall_rev|vm_compute; repeat constructor; congruence|
    by rewrite !length_rev, Hl|tauto].
  rewrite !rev_involutive. change (le_value CurveOrder) with order25519. cbn [Z.eqb mbind option_bind].
  destruct (foldl_lor_zero s 0 Hs ltac:(lia)) as [Hz Hz0].
  rewrite NEQ_zero by done. pose proof (le_value_bound s Hs) as Hv.
  f_equal. destruct (Z.eqb_spec (foldl Z.lor 0 s) 0) as [E|E].
  - apply Hz0 in E as [_ ->]. done.
  - destruct (Z.ltb_spec 0 (le_value s)) as [Hp|Hp]; [|destruct E; apply Hz0; lia].
    destruct (Z.ltb_spec (le_value s) order25519).
    + rewrite (proj2 (Z.sgn_neg_iff _)) by lia. reflexivity.
    + destruct (Z.sgn_spec (le_value s - order25519)) as [[_ ->]|[[_ ->]|[? ->]]]; [done|done|lia].
Qed.

(** ** Properties *)

(** C22: [scReduce] of 64 bytes and [scMulAdd] of three scalars of 32 bytes (of any value)
overflow nowhere, and return the 32 bytes of the canonical representative, below the order of
the group, of the little-endian value of the input and of [a * b + c]. *)
Theorem scalar_arithmetic (a b c d : bytes) :
  bytes_ok a -> bytes_ok b -> bytes_ok c -> bytes_ok d ->
  length a = 32%nat -> length b = 32%nat -> length c = 32%nat -> length d = 64%nat ->
  (exists r, scMulAdd a b c = Some r /\ bytes_ok r /\ length r = 32%nat /\
    le_value r = (le_value a * le_value b + le_value c) mod order25519) /\
  (exists r, scReduce d = Some r /\ bytes_ok r /\ length r = 32%nat /\
    le_value r = le_value d mod order25519).
Proof. intros. split; [by apply scMulAdd_spec|by apply scReduce_spec]. Qed.

(** [checkScalar] of 32 bytes is 1 exactly for the values strictly between zero and the
order of the group, so the reduced scalars it refuses are zero. *)
Theorem checkScalar_correct (s : bytes) : bytes_ok s -> length s = 32%nat ->
  checkScalar s = Some (if (0 <? le_value s) && (le_value s <? order25519) then 1 else 0) /\
  (forall d, bytes_ok d -> length d = 64%nat -> scReduce d = Some s ->
    checkScalar s = Some (if le_value d mod order25519 =? 0 then 0 else 1)).
Proof.
  intros Hs Hl. rewrite checkScalar_spec by done. split; [done|]. intros d Hd Hld E.
  destruct (scReduce_spec d Hd Hld) as (r & E' & _ & _ & Hv). rewrite E in E'. injection E' as <-.
  pose proof (Z.mod_pos_bound (le_value d) order25519 ltac:(pose proof order_bounds; lia)) as Hm.
  rewrite <- Hv in *. destruct (Z.ltb_spec (le_value s) order25519); [|lia].
  destruct (Z.ltb_spec 0 (le_value s)), (Z.eqb_spec (le_value s) 0); lia || done.
Qed.

Lemma scalar_arithmetic_witness :
  exists r, scReduce (replicate 64 255) = Some r /\
    le_value r = le_value (replicate 64 255) mod order25519.
Proof.
  assert (H : forall n, bytes_ok (replicate n 255))
    by (intros n; apply Forall_replicate; unfold byte_ok; lia).
  destruct (scalar_arithmetic (replicate 32 255) (replicate 32 255) (replicate 32 255)
    (replicate 64 255)) as [_ (r & E & _ & _ & V)]; [apply H..|reflexivity|reflexivity|reflexivity
    |reflexivity|].
  exists r. split; [exact E|exact V].
Defined.

Lemma checkScalar_correct_witness : checkScalar CurveOrder = Some 0.
Proof.
  destruct (checkScalar_correct CurveOrder) as [H _].
  - vm_compute. repeat constructor; congruence.
  - reflexivity.
  - rewrite H. vm_compute. reflexivity.
Defined.
