(* ===== verification/Ed25519Prime.v ===== *)
(** * Ed25519Prime: the two primes of libp2p/crypto/ed25519/

The field of the curve is the integers modulo 2^255 - 19, and the base point has the order of the
constant [CurveOrder].  Both are prime.  A prime is proved with a certificate of Pocklington: a
base and some prime factors of [n - 1], which are proved in the same way, down to primes small
enough for trial division. *)
From S2P Require Import Prelude.
From Stdlib Require Import Zmod Znumtheory Zdivisibility.

#[local] Open Scope Z_scope.

(** ** Powers modulo an integer *)

(** The reduction of Barrett: whatever [mu] is, the result is congruent to [x]; it is below [2 * n]
when [mu] is [2^(2k+8) / n] and [n] has [k] bits. *)
Definition reduce (n mu k x : Z) : Z := x - Z.shiftr (Z.shiftr x (k - 4) * mu) (k + 12) * n.

Fixpoint pow_reduce (n mu k a : Z) (e : positive) : Z :=
  match e with
  | xH => a
  | xO e => let t := pow_reduce n mu k a e in reduce n mu k (t * t)
  | xI e => let t := pow_reduce n mu k a e in reduce n mu k (a * reduce n mu k (t * t))
  end.

Definition powmod (a : Z) (e : positive) (n : Z) : Z :=
  let k := Z.log2 n + 1 in pow_reduce n (2 ^ (2 * k + 8) / n) k a e mod n.

Lemma reduce_mod n mu k x : reduce n mu k x mod n = x mod n.
Proof. unfold reduce, Z.sub. by rewrite <- Z.mul_opp_l, Z_mod_plus_full. Qed.

Lemma powmod_spec a e n : powmod a e n = a ^ Zpos e mod n.
Proof.
  unfold powmod. generalize (2 ^ (2 * (Z.log2 n + 1) + 8) / n), (Z.log2 n + 1). intros mu k.
  induction e as [e IH|e IH|]; cbn [pow_reduce]; rewrite ?reduce_mod.
  - rewrite <- Zmult_mod_idemp_r, reduce_mod, (Zmult_mod (pow_reduce _ _ _ _ _)), IH, <- Zmult_mod.
    rewrite Zmult_mod_idemp_r. f_equal. rewrite Pos2Z.inj_xI, Z.pow_add_r, Z.pow_twice_r by lia. ring.
  - rewrite Zmult_mod, IH, <- Zmult_mod. f_equal. by rewrite Pos2Z.inj_xO, Z.pow_twice_r.
  - by rewrite Z.pow_1_r.
Qed.

(** ** Primes from their divisors *)

Lemma prime_divisor n : 1 < n -> exists q, Z.prime q /\ (q | n).
Proof.
  induction (Z.lt_wf 0 n) as [n _ IH]. intros Hn.
  destruct (prime_dec n) as [H|H]; [exists n; split; [by apply prime_alt|done]|].
  destruct (not_prime_divide n Hn H) as (m & Hm & Hd).
  destruct (IH m) as (q & Hq & Hqm); [lia|lia|]. exists q. split; [done|]. by etrans.
Qed.

(** A composite number has a prime factor that is not above its root. *)
Lemma prime_by_factors n : 1 < n -> (forall q, Z.prime q -> (q | n) -> n < q * q) -> Z.prime n.
Proof.
  intros Hn Hq. apply prime_alt. destruct (prime_dec n) as [|H]; [done|]. exfalso.
  destruct (not_prime_divide n Hn H) as (m & Hm & [k Hk]).
  assert (Hsmall : exists d, 1 < d /\ (d | n) /\ d * d <= n).
  { destruct (Z.le_gt_cases (m * m) n).
    - exists m. split; [lia|]. split; [by exists k|done].
    - exists k. split; [nia|]. split; [exists m; lia|nia]. }
  destruct Hsmall as (d & Hd & Hdn & Hdd). destruct (prime_divisor d Hd) as (q & Hpq & Hqd).
  assert (n < q * q) by (apply Hq; [done|by etrans]).
  pose proof (Z.prime_ge_2 q Hpq). apply Z.divide_pos_le in Hqd; nia.
Qed.

(** Trial division by [2], ..., [k + 1]. *)
Fixpoint trial (n : Z) (k : nat) : bool :=
  match k with O => true | S k' => negb (n mod Z.of_nat (k + 1) =? 0) && trial n k' end.

Lemma trial_prime n k : 1 < n -> trial n k = true -> n < Z.of_nat (k + 2) * Z.of_nat (k + 2) ->
  Z.prime n.
Proof.
  intros Hn Ht Hk. apply prime_by_factors; [done|]. intros q Hq Hd.
  pose proof (Z.prime_ge_2 q Hq). enough (Z.of_nat (k + 1) < q) by nia.
  clear Hk. induction k as [|k IH]; [lia|]. cbn [trial] in Ht.
  apply andb_true_iff in Ht as [H1%negb_true_iff%Z.eqb_neq H2]. specialize (IH H2).
  destruct (Z.eq_dec q (Z.of_nat (S k + 1))) as [->|]; [|lia].
  exfalso. by apply H1, Z.mod_divide; [lia|].
Qed.

(** ** Certificates *)

(** [x^q] and [x^(r-1)] are both one, so that [x] is one unless [q] divides [r - 1]. *)
Lemma order_divides r q x : Z.prime r -> Z.prime q -> x ^ q mod r = 1 -> (x - 1) mod r <> 0 ->
  (q | r - 1).
Proof.
  intros Hr Hq Hx H1. pose proof (Z.prime_ge_2 r Hr). pose proof (Z.prime_ge_2 q Hq).
  destruct (Z.BoolSpec_divide_nz q (r - 1) ltac:(lia)) as [|Hnd]; [done|]. destruct H1.
  apply (Z.coprime_prime_l q _ Hq), Z.Bezout_coprime_iff in Hnd as (u & v & Huv).
  set (y := Zmod.of_Z r x).
  assert (Hy : Zmod.pow y q = Zmod.one).
  { unfold y. rewrite <- Zmod.of_Z_pow by lia. rewrite <- Zmod.of_Z_mod, Hx. apply Zmod.of_Z_1. }
  assert (Hnz : y <> Zmod.zero).
  { intros E. rewrite E, Zmod.pow_0_l in Hy by lia. symmetry in Hy. revert Hy.
    apply Zmod.one_neq_zero. lia. }
  assert (Hco : Z.gcd (Zmod.to_Z y) r = 1).
  { rewrite Z.gcd_comm. apply Z.coprime_prime_small; [done|].
    pose proof (Zmod.to_Z_pos_bound y). apply Zmod.to_Z_nz in Hnz. lia. }
  assert (E : y = Zmod.one).
  { rewrite <- (Zmod.pow_1_r y), <- Huv, (Z.mul_comm u), (Z.mul_comm v).
    rewrite Zmod.pow_add_r_coprime, !Zmod.pow_mul_r_coprime by done.
    rewrite Hy, Z.sub_1_r, (Zmod.fermat_nz y Hnz Hr), !Zmod.pow_1_l. apply Zmod.mul_1_l. }
  apply (f_equal Zmod.to_Z) in E. unfold y in E. rewrite Zmod.to_Z_of_Z, Zmod.to_Z_1_pos in E by lia.
  rewrite Zminus_mod, E, (Z.mod_small 1) by lia. done.
Qed.

(** [n - 1] is [q * m], and [a] has the order [n - 1] as far as [q] goes. *)
Definition factor_check (n a q : Z) : bool :=
  let m := (n - 1) / q in (q * m =? n - 1) && (Z.gcd (powmod a (Z.to_pos m) n - 1) n =? 1).

Lemma factor_check_divides n a q r : 1 < n -> Z.prime q -> factor_check n a q = true ->
  a ^ (n - 1) mod n = 1 -> Z.prime r -> (r | n) -> (q | r - 1).
Proof.
  unfold factor_check. intros Hn Hq [Hm%Z.eqb_eq Hg%Z.eqb_eq]%andb_true_iff Ha Hr Hrn.
  set (m := (n - 1) / q) in *. pose proof (Z.prime_ge_2 r Hr). pose proof (Z.prime_ge_2 q Hq).
  assert (0 < m) by nia.
  rewrite powmod_spec, Z2Pos.id in Hg by lia.
  assert (Hmod : forall x, x mod n mod r = x mod r).
  { intros x. by apply Z.mod_mod_divide. }
  apply (order_divides r q (a ^ m) Hr Hq).
  - rewrite <- Z.pow_mul_r, (Z.mul_comm m), Hm by lia. rewrite <- Hmod, Ha. apply Z.mod_small. lia.
  - intros E. apply Z.mod_divide in E; [|lia].
    assert (Hd : (r | a ^ m mod n - 1)).
    { apply Z.mod_divide; [lia|]. rewrite Zminus_mod, Hmod, <- Zminus_mod.
      by apply Z.mod_divide in E; [|lia]. }
    pose proof (Z.gcd_greatest _ _ _ Hd Hrn) as Hr1. rewrite Hg in Hr1.
    apply Z.divide_pos_le in Hr1; lia.
Qed.

Lemma divide_mul_coprime a b x : Z.gcd a b = 1 -> (a | x) -> (b | x) -> (a * b | x).
Proof.
  intros Hg [k ->] Hb. rewrite (Z.mul_comm k) in Hb.
  destruct (Z.gauss b a k Hb) as [j ->]; [by rewrite Z.gcd_comm|]. exists j. ring.
Qed.

Definition product (qs : list Z) : Z := foldr Z.mul 1 qs.

Fixpoint coprimes (qs : list Z) : bool :=
  match qs with [] => true | q :: qs => (Z.gcd q (product qs) =? 1) && coprimes qs end.

Definition certificate (n a : Z) (qs : list Z) : bool :=
  (1 <? n) && (powmod a (Z.to_pos (n - 1)) n =? 1) && forallb (factor_check n a) qs &&
  coprimes qs && (n <? (product qs + 1) * (product qs + 1)).

Lemma pocklington n a qs : certificate n a qs = true -> Forall Z.prime qs -> Z.prime n.
Proof.
  unfold certificate. intros [[[[Hn%Z.ltb_lt Ha%Z.eqb_eq]%andb_true_iff Hf]%andb_true_iff
    Hc]%andb_true_iff Hb%Z.ltb_lt]%andb_true_iff Hq.
  rewrite powmod_spec, Z2Pos.id in Ha by lia. apply prime_by_factors; [done|]. intros r Hr Hrn.
  assert (Hd : (product qs | r - 1)).
  { clear Hb. induction Hq as [|q qs Hq _ IH]; [apply Z.divide_1_l|].
    change (q * product qs | r - 1). cbn in Hf, Hc. apply andb_true_iff in Hf as [Hf Hf']. apply andb_true_iff in Hc as [Hc Hc'].
    apply divide_mul_coprime; [by apply Z.eqb_eq| |by apply IH].
    by eapply factor_check_divides. }
  pose proof (Z.prime_ge_2 r Hr). apply Z.divide_pos_le in Hd; [|lia].
  assert (0 < product qs).
  { clear -Hq. induction Hq as [|q qs Hq _ IH]; [done|].
    pose proof (Z.prime_ge_2 q Hq). change (0 < q * product qs). nia. }
  nia.
Qed.

(** ** The two primes *)

Ltac by_trial k := apply (trial_prime _ k); vm_compute; reflexivity.

Ltac by_certificate a qs :=
  apply (pocklington _ a qs); [vm_compute; reflexivity|repeat apply Forall_cons_2; try by apply Forall_nil_2].

Lemma prime_51bit : Z.prime 1919519569386763.
Proof.
  by_certificate 2 [8574133; 127]; [|by_trial 20%nat].
  by_certificate 2 [991; 103]; by_trial 40%nat.
Qed.

Lemma prime_37bit : Z.prime 72106336199.
Proof.
  by_certificate 2 [2773320623]. by_certificate 2 [569003]. by_trial 800%nat.
Qed.

Lemma prime_116bit : Z.prime 75445702479781427272750846543864801.
Proof. by_certificate 2 [1919519569386763; 72106336199]; [apply prime_51bit|apply prime_37bit]. Qed.

Lemma prime_55bit : Z.prime 31757755568855353.
Proof. by_certificate 2 [430751; 4153]; by_trial 700%nat. Qed.

Lemma prime_236bit :
  Z.prime 74058212732561358302231226437062788676166966415465897661863160754340907.
Proof.
  by_certificate 2 [75445702479781427272750846543864801; 31757755568855353];
    [apply prime_116bit|apply prime_55bit].
Qed.

Lemma prime_p25519 : Z.prime (2 ^ 255 - 19).
Proof.
  by_certificate 2 [74058212732561358302231226437062788676166966415465897661863160754340907].
  apply prime_236bit.
Qed.

Lemma prime_62bit : Z.prime 4434155615661930479.
Proof.
  by_certificate 2 [1257559732178653]. by_certificate 2 [1224481; 531581]; [|by_trial 800%nat].
  by_certificate 2 [2551]. by_trial 60%nat.
Qed.

Lemma prime_134bit : Z.prime 19757330305831588566944191468367130476339.
Proof.
  by_certificate 2 [172054593956031949258510691]. by_certificate 2 [4434155615661930479].
  apply prime_62bit.
Qed.

Lemma prime_138bit : Z.prime 276602624281642239937218680557139826668747.
Proof. by_certificate 2 [19757330305831588566944191468367130476339]. apply prime_134bit. Qed.

Lemma prime_order : Z.prime (2 ^ 252 + 27742317777372353535851937790883648493).
Proof. by_certificate 2 [276602624281642239937218680557139826668747]. apply prime_138bit. Qed.
