(* ===== verification/Edwards.v ===== *)
(** * Edwards: the group that libp2p/crypto/ed25519/ computes in

The twisted Edwards curve [y^2 - x^2 = 1 + d x^2 y^2] over the integers modulo a prime in which
-1 is a square and [d] is not.  Its addition is then total, and a commutative group: the
denominators never vanish, and associativity is a polynomial identity modulo the equations of the
three points.  The last part relates the affine points to the coordinates of the source. *)
From S2P Require Import Prelude.
From Stdlib Require Import Zmod Field.

#[local] Open Scope Z_scope.

(** The curve: a prime modulus, a root [ci] of -1, and [cd], which is not a square. *)
Class EdwardsCurve : Type := {
  cm : Z;
  cd : Zmod cm;
  ci : Zmod cm;
  cm_prime : Z.prime cm;
  cm_odd : 2 < cm;
  ci_square : Zmod.mul ci ci = Zmod.opp Zmod.one;
  cd_nonsquare : forall x : Zmod cm, Zmod.mul x x <> cd;
}.

Section Curve.
Context `{C : EdwardsCurve}.

Notation F := (Zmod cm).
#[local] Open Scope Zmod_scope.
#[local] Infix "/" := Zmod.mdiv : Zmod_scope.

Add Field curve_field : (Zmod.field_theory cm cm_prime).

Lemma F_mul_0 (x y : F) : x * y = 0 -> x = 0 \/ y = 0.
Proof. apply Zmod.mul_0_iff_prime, cm_prime. Qed.

Lemma F_mul_nz (x y : F) : x <> 0 -> y <> 0 -> x * y <> 0.
Proof. by intros Hx Hy [?|?]%F_mul_0. Qed.

Lemma F_1_nz : (1 : F) <> 0.
Proof. apply Zmod.one_neq_zero. pose proof cm_odd. lia. Qed.

Lemma F_2_nz : (1 + 1 : F) <> 0.
Proof.
  intros E. apply (f_equal Zmod.to_Z) in E. pose proof cm_odd.
  rewrite Zmod.to_Z_add, Zmod.to_Z_1_pos, Zmod.to_Z_0, Z.mod_small in E by lia. done.
Qed.

Lemma F_cancel (x y z : F) : z <> 0 -> x * z = y * z -> x = y.
Proof. intros Hz E. transitivity (x * z / z); [by field|]. rewrite E. by field. Qed.

Lemma F_sub_0 (x y : F) : x - y = 0 -> x = y.
Proof. intros E. transitivity (x - y + y); [ring|]. rewrite E. ring. Qed.

(** ** Points *)

Definition curve_eqb (x y : F) : bool := Zmod.eqb (cd * x * x * y * y) (y * y - x * x - 1).

Definition on_curve (x y : F) : Prop := cd * x * x * y * y = y * y - x * x - 1.

Record point : Type := mkPoint { px : F; py : F; p_ok : curve_eqb px py = true }.

Lemma curve_iff x y : curve_eqb x y = true <-> on_curve x y.
Proof. apply Zmod.eqb_eq. Qed.

Lemma point_curve (P : point) : on_curve (px P) (py P).
Proof. apply curve_iff, p_ok. Qed.

Lemma point_eq (P Q : point) : px P = px Q -> py P = py Q -> P = Q.
Proof.
  destruct P as [x y H], Q as [x' y' H']; cbn. intros -> ->. f_equal. apply proof_irrel.
Qed.

(** ** The denominators *)

Lemma square_ratio (u v : F) : cd * (u * u) = v * v -> u = 0.
Proof.
  intros E. destruct (Zmod.eqb u 0) eqn:Hu; [by apply Zmod.eqb_eq|].
  assert (Hnz : u <> 0) by (intros ->; by rewrite (proj2 (Zmod.eqb_eq 0 0) eq_refl) in Hu).
  destruct (cd_nonsquare (v / u)). apply (F_cancel _ _ (u * u)); [by apply F_mul_nz|].
  rewrite E. by field.
Qed.

Lemma denominator_nz (P Q : point) (e : F) : e * e = 1 ->
  cd * px P * px Q * py P * py Q <> e.
Proof.
  pose proof (point_curve P) as HP. pose proof (point_curve Q) as HQ. unfold on_curve in *.
  generalize dependent (px P); intros x1; generalize dependent (py P); intros y1 HP.
  generalize dependent (px Q); intros x2; generalize dependent (py Q); intros y2 HQ.
  intros He E. pose proof ci_square as Hi. pose proof F_1_nz as H1.
  assert (Hxy : x1 * y1 <> 0).
  { intros Hxy. apply H1. rewrite <- He, <- E.
    transitivity (cd * x2 * y2 * (x1 * y1) * (cd * x1 * x2 * y1 * y2)); [ring|]. rewrite Hxy. ring. }
  assert (Ha : ci * x2 + y2 = 0).
  { enough (x1 * y1 * (ci * x2 + y2) = 0) as [?|?]%F_mul_0; [done|done|].
    apply (square_ratio _ (ci * x1 + e * y1)).
    transitivity (cd * (x1 * y1) * (x1 * y1) * (ci * ci * x2 * x2 + y2 * y2) +
      (1 + 1) * ci * x1 * y1 * (cd * x1 * x2 * y1 * y2)); [ring|].
    transitivity (ci * ci * x1 * x1 + e * e * y1 * y1 + (1 + 1) * ci * x1 * y1 * e); [|ring].
    rewrite E, Hi, He. f_equal.
    transitivity (cd * (x1 * y1) * (x1 * y1) + e * e); [|rewrite He; ring [HP]].
    rewrite <- E. ring [HQ]. }
  assert (Hb : ci * x2 - y2 = 0).
  { enough (x1 * y1 * (ci * x2 - y2) = 0) as [?|?]%F_mul_0; [done|done|].
    apply (square_ratio _ (ci * x1 - e * y1)).
    transitivity (cd * (x1 * y1) * (x1 * y1) * (ci * ci * x2 * x2 + y2 * y2) -
      (1 + 1) * ci * x1 * y1 * (cd * x1 * x2 * y1 * y2)); [ring|].
    transitivity (ci * ci * x1 * x1 + e * e * y1 * y1 - (1 + 1) * ci * x1 * y1 * e); [|ring].
    rewrite E, Hi, He. f_equal.
    transitivity (cd * (x1 * y1) * (x1 * y1) + e * e); [|rewrite He; ring [HP]].
    rewrite <- E. ring [HQ]. }
  assert (Hy : (1 + 1) * y2 = 0).
  { transitivity (ci * x2 + y2 - (ci * x2 - y2)); [ring|]. rewrite Ha, Hb. ring. }
  apply F_mul_0 in Hy as [Hy|Hy]; [by apply F_2_nz|].
  apply H1. rewrite <- He, <- E, Hy. ring.
Qed.

Lemma denominators (P Q : point) :
  1 + cd * px P * px Q * py P * py Q <> 0 /\ 1 - cd * px P * px Q * py P * py Q <> 0.
Proof.
  split; intros E.
  - apply (denominator_nz P Q (- (1))); [ring|]. apply F_sub_0. rewrite <- E. ring.
  - apply (denominator_nz P Q 1); [ring|]. symmetry. by apply F_sub_0.
Qed.

(** ** The group *)

Definition add_x (P Q : point) : F :=
  (px P * py Q + px Q * py P) / (1 + cd * px P * px Q * py P * py Q).

Definition add_y (P Q : point) : F :=
  (py P * py Q + px P * px Q) / (1 - cd * px P * px Q * py P * py Q).

Lemma add_x_spec P Q :
  add_x P Q * (1 + cd * px P * px Q * py P * py Q) = px P * py Q + px Q * py P.
Proof. destruct (denominators P Q) as [H1 H2]. unfold add_x. by field. Qed.

Lemma add_y_spec P Q :
  add_y P Q * (1 - cd * px P * px Q * py P * py Q) = py P * py Q + px P * px Q.
Proof. destruct (denominators P Q) as [H1 H2]. unfold add_y. by field. Qed.

Lemma sum_on_curve x1 y1 x2 y2 x y : on_curve x1 y1 -> on_curve x2 y2 ->
  let e := cd * x1 * x2 * y1 * y2 in 1 + e <> 0 -> 1 - e <> 0 ->
  x * (1 + e) = x1 * y2 + x2 * y1 -> y * (1 - e) = y1 * y2 + x1 * x2 -> on_curve x y.
Proof.
  intros HP HQ e H1 H2 Ex Ey. unfold on_curve in *.
  apply (F_cancel _ _ ((1 + e) * (1 - e) * ((1 + e) * (1 - e)))).
  { by repeat apply F_mul_nz. }
  transitivity (cd * (x * (1 + e)) * (x * (1 + e)) * (y * (1 - e)) * (y * (1 - e))); [ring|].
  transitivity ((y * (1 - e)) * (y * (1 - e)) * (1 + e) * (1 + e) -
    (x * (1 + e)) * (x * (1 + e)) * (1 - e) * (1 - e) - (1 + e) * (1 - e) * ((1 + e) * (1 - e)));
    [|ring].
  rewrite Ex, Ey. unfold e. ring [HP HQ].
Qed.

Lemma sum_ok P Q : curve_eqb (add_x P Q) (add_y P Q) = true.
Proof.
  destruct (denominators P Q) as [H1 H2].
  apply curve_iff. by apply (sum_on_curve (px P) (py P) (px Q) (py Q) _ _ (point_curve P) (point_curve Q));
    [| |apply add_x_spec|apply add_y_spec].
Qed.

Definition padd (P Q : point) : point := mkPoint (add_x P Q) (add_y P Q) (sum_ok P Q).

Lemma zero_ok : curve_eqb 0 1 = true.
Proof. apply curve_iff. unfold on_curve. ring. Qed.

Definition pzero : point := mkPoint 0 1 zero_ok.

Lemma opp_ok P : curve_eqb (- px P) (py P) = true.
Proof. apply curve_iff. pose proof (point_curve P) as HP. unfold on_curve in *. ring [HP]. Qed.

Definition popp (P : point) : point := mkPoint (- px P) (py P) (opp_ok P).

(** The sum is the point with these coordinates. *)
Lemma padd_unique P Q R :
  px R * (1 + cd * px P * px Q * py P * py Q) = px P * py Q + px Q * py P ->
  py R * (1 - cd * px P * px Q * py P * py Q) = py P * py Q + px P * px Q -> R = padd P Q.
Proof.
  destruct (denominators P Q) as [H1 H2]. intros Hx Hy. apply point_eq; cbn.
  - apply (F_cancel _ _ _ H1). rewrite Hx. unfold add_x. by field.
  - apply (F_cancel _ _ _ H2). rewrite Hy. unfold add_y. by field.
Qed.

#[export] Instance padd_comm : Comm (=) padd.
Proof.
  intros P Q. apply padd_unique; [etrans; [|rewrite Zmod.add_comm; apply add_x_spec]|
    etrans; [|rewrite (Zmod.mul_comm (py Q)), (Zmod.mul_comm (px Q)); apply add_y_spec]]; f_equal; ring.
Qed.

#[export] Instance padd_0_l : LeftId (=) pzero padd.
Proof. intros P. symmetry. apply padd_unique; cbn; ring. Qed.

#[export] Instance padd_0_r : RightId (=) pzero padd.
Proof. intros P. rewrite (comm padd). apply (left_id pzero padd). Qed.

Lemma padd_opp P : padd P (popp P) = pzero.
Proof. symmetry. apply padd_unique; cbn; pose proof (point_curve P) as HP; unfold on_curve in HP; ring [HP]. Qed.

(** Associativity of the first coordinates: [x12], ... are the coordinates of the partial sums. *)
Lemma assoc_x x1 y1 x2 y2 x3 y3 x12 y12 x23 y23 : on_curve x1 y1 -> on_curve x2 y2 -> on_curve x3 y3 ->
  let e := cd * x1 * x2 * y1 * y2 in let f := cd * x2 * x3 * y2 * y3 in
  1 + e <> 0 -> 1 - e <> 0 -> 1 + f <> 0 -> 1 - f <> 0 ->
  x12 * (1 + e) = x1 * y2 + x2 * y1 -> y12 * (1 - e) = y1 * y2 + x1 * x2 ->
  x23 * (1 + f) = x2 * y3 + x3 * y2 -> y23 * (1 - f) = y2 * y3 + x2 * x3 ->
  (x1 * y23 + x23 * y1) * (1 + cd * x12 * x3 * y12 * y3) =
  (x12 * y3 + x3 * y12) * (1 + cd * x1 * x23 * y1 * y23).
Proof.
  intros HP HQ HR e f H1 H2 H3 H4 E1 E2 E3 E4. unfold on_curve in *.
  apply (F_cancel _ _ ((1 + e) * (1 - e) * ((1 + f) * (1 - f)))).
  { by repeat apply F_mul_nz. }
  transitivity ((x1 * (y23 * (1 - f)) * (1 + f) + x23 * (1 + f) * y1 * (1 - f)) *
    ((1 + e) * (1 - e) + cd * (x12 * (1 + e)) * x3 * (y12 * (1 - e)) * y3)); [ring|].
  transitivity ((x12 * (1 + e) * y3 * (1 - e) + x3 * (y12 * (1 - e)) * (1 + e)) *
    ((1 + f) * (1 - f) + cd * x1 * (x23 * (1 + f)) * y1 * (y23 * (1 - f)))); [|ring].
  rewrite E1, E2, E3, E4. unfold e, f. ring [HP HQ HR].
Qed.

Lemma assoc_y x1 y1 x2 y2 x3 y3 x12 y12 x23 y23 : on_curve x1 y1 -> on_curve x2 y2 -> on_curve x3 y3 ->
  let e := cd * x1 * x2 * y1 * y2 in let f := cd * x2 * x3 * y2 * y3 in
  1 + e <> 0 -> 1 - e <> 0 -> 1 + f <> 0 -> 1 - f <> 0 ->
  x12 * (1 + e) = x1 * y2 + x2 * y1 -> y12 * (1 - e) = y1 * y2 + x1 * x2 ->
  x23 * (1 + f) = x2 * y3 + x3 * y2 -> y23 * (1 - f) = y2 * y3 + x2 * x3 ->
  (y1 * y23 + x1 * x23) * (1 - cd * x12 * x3 * y12 * y3) =
  (y12 * y3 + x12 * x3) * (1 - cd * x1 * x23 * y1 * y23).
Proof.
  intros HP HQ HR e f H1 H2 H3 H4 E1 E2 E3 E4. unfold on_curve in *.
  apply (F_cancel _ _ ((1 + e) * (1 - e) * ((1 + f) * (1 - f)))).
  { by repeat apply F_mul_nz. }
  transitivity ((y1 * (y23 * (1 - f)) * (1 + f) + x1 * (x23 * (1 + f)) * (1 - f)) *
    ((1 + e) * (1 - e) - cd * (x12 * (1 + e)) * x3 * (y12 * (1 - e)) * y3)); [ring|].
  transitivity ((y12 * (1 - e) * y3 * (1 + e) + x12 * (1 + e) * x3 * (1 - e)) *
    ((1 + f) * (1 - f) - cd * x1 * (x23 * (1 + f)) * y1 * (y23 * (1 - f)))); [|ring].
  rewrite E1, E2, E3, E4. unfold e, f. ring [HP HQ HR].
Qed.

#[export] Instance padd_assoc : Assoc (=) padd.
Proof.
  intros P Q R.
  destruct (denominators P Q) as [H1 H2]. destruct (denominators Q R) as [H3 H4].
  destruct (denominators (padd P Q) R) as [H5 H6]. destruct (denominators P (padd Q R)) as [H7 H8].
  apply padd_unique.
  - apply (F_cancel _ _ _ H7).
    change (px (padd P (padd Q R))) with (add_x P (padd Q R)).
    rewrite <- Zmod.mul_assoc, (Zmod.mul_comm (1 + _)), Zmod.mul_assoc, add_x_spec.
    exact (assoc_x _ _ (px Q) (py Q) _ _ (px (padd P Q)) (py (padd P Q))
      (px (padd Q R)) (py (padd Q R)) (point_curve P) (point_curve Q) (point_curve R) H1 H2 H3 H4
      (add_x_spec P Q) (add_y_spec P Q) (add_x_spec Q R) (add_y_spec Q R)).
  - apply (F_cancel _ _ _ H8).
    change (py (padd P (padd Q R))) with (add_y P (padd Q R)).
    rewrite <- Zmod.mul_assoc, (Zmod.mul_comm (1 - _)), Zmod.mul_assoc, add_y_spec.
    exact (assoc_y _ _ (px Q) (py Q) _ _ (px (padd P Q)) (py (padd P Q))
      (px (padd Q R)) (py (padd Q R)) (point_curve P) (point_curve Q) (point_curve R) H1 H2 H3 H4
      (add_x_spec P Q) (add_y_spec P Q) (add_x_spec Q R) (add_y_spec Q R)).
Qed.

(** ** Multiples *)

Lemma padd_swap P Q R : padd P (padd Q R) = padd Q (padd P R).
Proof. by rewrite !(assoc padd), (comm padd P Q). Qed.

Lemma padd_opp_l P Q : padd (popp P) (padd P Q) = Q.
Proof. by rewrite (assoc padd), (comm padd (popp P)), padd_opp, (left_id pzero padd). Qed.

Lemma padd_cancel P Q R : padd P Q = padd P R -> Q = R.
Proof. intros E. by rewrite <- (padd_opp_l P Q), E, padd_opp_l. Qed.

Lemma popp_padd P Q : popp (padd P Q) = padd (popp P) (popp Q).
Proof.
  apply (padd_cancel (padd P Q)). rewrite padd_opp, <- (assoc padd), (padd_swap Q).
  by rewrite padd_opp, (right_id pzero padd), padd_opp.
Qed.

Lemma popp_0 : popp pzero = pzero.
Proof. by rewrite <- (padd_opp pzero) at 2; rewrite (left_id pzero padd). Qed.

Lemma popp_popp P : popp (popp P) = P.
Proof. apply (padd_cancel (popp P)). by rewrite padd_opp, (comm padd), padd_opp. Qed.

Fixpoint nmul (n : nat) (P : point) : point :=
  match n with O => pzero | S n => padd P (nmul n P) end.

Definition smul (z : Z) (P : point) : point :=
  match z with
  | Z0 => pzero
  | Zpos n => nmul (Pos.to_nat n) P
  | Zneg n => popp (nmul (Pos.to_nat n) P)
  end.

Lemma smul_nat n P : smul (Z.of_nat n) P = nmul n P.
Proof. destruct n as [|n]; [done|]. unfold smul, Z.of_nat. by rewrite SuccNat2Pos.id_succ. Qed.

Lemma smul_opp z P : smul (Z.opp z) P = popp (smul z P).
Proof. destruct z; cbn; [by rewrite popp_0|done|by rewrite popp_popp]. Qed.

Lemma smul_succ z P : smul (Z.succ z) P = padd P (smul z P).
Proof.
  destruct (Z.le_gt_cases 0 z) as [Hz|Hz].
  - rewrite <- (Z2Nat.id z Hz), <- Nat2Z.inj_succ, !smul_nat. done.
  - replace z with (Z.opp (Z.of_nat (S (Z.to_nat (- z - 1))))) by lia.
    replace (Z.succ _) with (Z.opp (Z.of_nat (Z.to_nat (- z - 1)))) by lia.
    rewrite !smul_opp, !smul_nat. cbn [nmul].
    by rewrite popp_padd, (assoc padd), padd_opp, (left_id pzero padd).
Qed.

Lemma smul_1 P : smul 1 P = P.
Proof. cbn. apply (right_id pzero padd). Qed.

Lemma smul_add a b P : smul (a + b) P = padd (smul a P) (smul b P).
Proof.
  revert b. induction a as [|a IH|a IH] using Z.peano_ind; intros b.
  - by rewrite Z.add_0_l, (left_id pzero padd).
  - by rewrite Z.add_succ_l, !smul_succ, IH, (assoc padd).
  - apply (padd_cancel P). rewrite <- smul_succ, (assoc padd), <- smul_succ, Z.succ_pred.
    rewrite <- IH. f_equal. lia.
Qed.

Lemma smul_padd a P Q : smul a (padd P Q) = padd (smul a P) (smul a Q).
Proof.
  induction a as [|a IH|a IH] using Z.peano_ind.
  - cbn. by rewrite (left_id pzero padd).
  - rewrite !smul_succ, IH, !(assoc padd). f_equal. rewrite <- !(assoc padd). f_equal. apply (comm padd).
  - apply (padd_cancel (padd P Q)). rewrite <- smul_succ, <- (assoc padd), (padd_swap Q), (assoc padd).
    by rewrite <- !smul_succ, Z.succ_pred.
Qed.

Lemma smul_mul a b P : smul (a * b) P = smul a (smul b P).
Proof.
  induction a as [|a IH|a IH] using Z.peano_ind; [done| |].
  - by rewrite Z.mul_succ_l, Z.add_comm, smul_add, smul_succ, IH.
  - apply (padd_cancel (smul b P)). rewrite <- smul_succ, Z.succ_pred, <- IH, <- smul_add.
    f_equal. lia.
Qed.

Lemma smul_0_r a : smul a pzero = pzero.
Proof.
  induction a as [|a IH|a IH] using Z.peano_ind; [done| |].
  - by rewrite smul_succ, IH, (left_id pzero padd).
  - apply (padd_cancel pzero). by rewrite <- smul_succ, Z.succ_pred, IH, (left_id pzero padd).
Qed.

Lemma smul_2 P : smul 2 P = padd P P.
Proof. change 2%Z with (1 + 1)%Z. by rewrite smul_add, !smul_1. Qed.

(** Multiples of a point killed by [n] depend on the factor modulo [n]. *)
Lemma smul_mod n a P : n <> 0%Z -> smul n P = pzero -> smul (a mod n)%Z P = smul a P.
Proof.
  intros Hn E. rewrite (Z.div_mod a n Hn) at 2. rewrite smul_add, (Z.mul_comm n), smul_mul, E.
  by rewrite smul_0_r, (left_id pzero padd).
Qed.

(** ** Coordinates *)

(** (X : Y : Z) with x = X/Z and y = Y/Z. *)
Definition projective (P : point) (X Y Z : F) : Prop := Z <> 0 /\ X = px P * Z /\ Y = py P * Z.

(** The same with XY = ZT. *)
Definition extended (P : point) (X Y Z T : F) : Prop := projective P X Y Z /\ T = px P * py P * Z.

(** ((X : Z), (Y : T)) with x = X/Z and y = Y/T. *)
Definition completed (P : point) (X Y Z T : F) : Prop :=
  Z <> 0 /\ T <> 0 /\ X = px P * Z /\ Y = py P * T.

(** Y + X, Y - X, Z and 2dT. *)
Definition cached (P : point) (YpX YmX Z T2d : F) : Prop :=
  Z <> 0 /\ YpX = (py P + px P) * Z /\ YmX = (py P - px P) * Z /\
  T2d = (1 + 1) * cd * (px P * py P) * Z.

Lemma completed_projective P X Y Z T : completed P X Y Z T -> projective P (X * T) (Y * Z) (Z * T).
Proof. intros (HZ & HT & -> & ->). split; [by apply F_mul_nz|]. split; ring. Qed.

Lemma completed_extended P X Y Z T :
  completed P X Y Z T -> extended P (X * T) (Y * Z) (Z * T) (X * Y).
Proof.
  intros H. split; [by apply completed_projective|]. destruct H as (HZ & HT & -> & ->). ring.
Qed.

Lemma extended_cached P X Y Z T : extended P X Y Z T ->
  cached P (Y + X) (Y - X) Z (T * ((1 + 1) * cd)).
Proof. intros [(HZ & -> & ->) ->]. split; [done|]. split_and!; ring. Qed.

Lemma cached_opp P A B Z T : cached P A B Z T -> cached (popp P) B A Z (- T).
Proof. intros (HZ & -> & -> & ->). split; [done|]. cbn. split_and!; ring. Qed.

Lemma cached_0 : cached pzero 1 1 1 0.
Proof. split; [apply F_1_nz|]. cbn. split_and!; ring. Qed.

Lemma extended_0 : extended pzero 0 1 1 0.
Proof. split; [split; [apply F_1_nz|]|]; cbn; [split|]; ring. Qed.

Lemma projective_unique P Q X Y Z : projective P X Y Z -> projective Q X Y Z -> P = Q.
Proof.
  intros (HZ & -> & ->) (_ & Ex & Ey). apply point_eq; by apply (F_cancel _ _ Z).
Qed.

(** The addition of the source: [A], [B], [C] and [D] are its products. *)
Lemma add_completed P Q X1 Y1 Z1 T1 A B Z2 T2d :
  extended P X1 Y1 Z1 T1 -> cached Q A B Z2 T2d ->
  let a := (Y1 + X1) * A in let b := (Y1 - X1) * B in let c := T2d * T1 in
  let e := Z1 * Z2 + Z1 * Z2 in completed (padd P Q) (a - b) (a + b) (e + c) (e - c).
Proof.
  intros [(HZ1 & -> & ->) ->] (HZ2 & -> & -> & ->) a b c e.
  destruct (denominators P Q) as [H1 H2].
  assert (Ee : e + c = (1 + 1) * (Z1 * Z2) * (1 + cd * px P * px Q * py P * py Q)) by (unfold e, c; ring).
  assert (Ee' : e - c = (1 + 1) * (Z1 * Z2) * (1 - cd * px P * px Q * py P * py Q)) by (unfold e, c; ring).
  rewrite Ee, Ee'. split; [apply F_mul_nz; [apply F_mul_nz; [apply F_2_nz|by apply F_mul_nz]|done]|].
  split; [apply F_mul_nz; [apply F_mul_nz; [apply F_2_nz|by apply F_mul_nz]|done]|].
  pose proof (add_x_spec P Q) as Ex. pose proof (add_y_spec P Q) as Ey. cbn [px py padd].
  split; unfold a, b.
  - transitivity ((1 + 1) * (Z1 * Z2) * (px P * py Q + px Q * py P)); [ring|]. rewrite <- Ex. ring.
  - transitivity ((1 + 1) * (Z1 * Z2) * (py P * py Q + px P * px Q)); [ring|]. rewrite <- Ey. ring.
Qed.

Lemma sub_completed P Q X1 Y1 Z1 T1 A B Z2 T2d :
  extended P X1 Y1 Z1 T1 -> cached Q A B Z2 T2d ->
  let a := (Y1 + X1) * B in let b := (Y1 - X1) * A in let c := T2d * T1 in
  let e := Z1 * Z2 + Z1 * Z2 in completed (padd P (popp Q)) (a - b) (a + b) (e - c) (e + c).
Proof.
  intros HP HQ a b c e. pose proof (add_completed _ _ _ _ _ _ _ _ _ _ HP (cached_opp _ _ _ _ _ HQ)) as H.
  cbv zeta in H.
  assert (E1 : e - c = e + - T2d * T1) by (unfold c; ring).
  assert (E2 : e + c = e - - T2d * T1) by (unfold c; ring).
  by rewrite E1, E2.
Qed.

Lemma dbl_completed P X Y Z : projective P X Y Z ->
  let s := Y * Y + X * X in let t := Y * Y - X * X in
  completed (padd P P) ((X + Y) * (X + Y) - s) s t ((1 + 1) * (Z * Z) - t).
Proof.
  intros (HZ & -> & ->) s t. destruct (denominators P P) as [H1 H2].
  pose proof (point_curve P) as HP. unfold on_curve in HP.
  assert (Et : t = Z * Z * (1 + cd * px P * px P * py P * py P)) by (unfold t; ring [HP]).
  assert (Et' : (1 + 1) * (Z * Z) - t = Z * Z * (1 - cd * px P * px P * py P * py P))
    by (unfold t; ring [HP]).
  pose proof (add_x_spec P P) as Ex. pose proof (add_y_spec P P) as Ey.
  rewrite Et', Et. split; [by repeat apply F_mul_nz|]. split; [by repeat apply F_mul_nz|].
  cbn [px py padd]. split; unfold s.
  - transitivity (Z * Z * (px P * py P + px P * py P)); [ring|]. rewrite <- Ex. ring.
  - transitivity (Z * Z * (py P * py P + px P * px P)); [ring|]. rewrite <- Ey. ring.
Qed.

End Curve.
