(* ===== verification/Ed25519Group.v ===== *)
(** * Ed25519Group: libp2p/crypto/ed25519/ed25519.nim, the points of the curve

The four representations of a point, the additions and doublings between them, the conversions
and the encoding, over the field arithmetic of [Ed25519Field]: every operation is checked for
overflow.  The specification is the group of [Edwards] for the curve of the constant [DConst]. *)
From Stdlib Require Import Zmod Field.
From S2P Require Import Prelude Endians Ed25519Field Ed25519Prime Edwards.

#[local] Open Scope Z_scope.

(** ** Points *)

Record GeP2 := mkGeP2 { p2_x : Fe; p2_y : Fe; p2_z : Fe }.

Record GeP3 := mkGeP3 { p3_x : Fe; p3_y : Fe; p3_z : Fe; p3_t : Fe }.

Record GeP1P1 := mkGeP1P1 { r_x : Fe; r_y : Fe; r_z : Fe; r_t : Fe }.

Record GePrecomp := mkGePrecomp { yplusx : Fe; yminusx : Fe; xy2d : Fe }.

Record GeCached := mkGeCached { c_yplusx : Fe; c_yminusx : Fe; c_z : Fe; c_t2d : Fe }.

Definition DConst : Fe := mkFe
  (-10913610) 13857413 (-15372611) 6949391 114729 (-8787816) (-6275908) (-3247719)
  (-18696448) (-12055116).

Definition D2Const : Fe := mkFe
  (-21827239) (-5839606) (-30745221) 13898782 229458 15978800 (-12551817) (-6495438)
  29715968 9444199.

Definition SqrTm1 : Fe := mkFe
  (-32595792) (-7943725) 9377950 3500415 12389472 (-272473) (-25146209) (-2005654)
  326686 11406482.

Definition geAdd (p : GeP3) (q : GeCached) : option GeP1P1 :=
  x ← feAdd (p3_y p) (p3_x p);
  y ← feSub (p3_y p) (p3_x p);
  z ← feMul x (c_yplusx q);
  y ← feMul y (c_yminusx q);
  t ← feMul (c_t2d q) (p3_t p);
  x ← feMul (p3_z p) (c_z q);
  t0 ← feAdd x x;
  x ← feSub z y;
  y ← feAdd z y;
  z ← feAdd t0 t;
  t ← feSub t0 t;
  Some (mkGeP1P1 x y z t).

(** The value returned, and the point when it is zero: no caller uses the coordinates that are set
before the procedure returns -1. *)
Definition geFromBytesNegateVartime (s : bytes) : option (Z * option GeP3) :=
  y ← feFromBytes s;
  let z := fe1 in
  u ← feSq y;
  v ← feMul u DConst;
  u ← feSub u z;
  v ← feAdd v z;
  v3 ← feSq v;
  v3 ← feMul v3 v;
  x ← feSq v3;
  x ← feMul x v;
  x ← feMul x u;
  x ← fePow22523 x;
  x ← feMul x v3;
  x ← feMul x u;
  vxx ← feSq x;
  vxx ← feMul vxx v;
  check ← feSub vxx u;
  nz ← feIsNonZero check;
  x ← (if negb (nz =? 0) then
         check ← feAdd vxx u;
         nz ← feIsNonZero check;
         if negb (nz =? 0) then Some None
         else x ← feMul x SqrTm1; Some (Some x)
       else Some (Some x));
  match x with
  | None => Some (-1, None)
  | Some x =>
      neg ← feIsNegative x;
      s31 ← s !! 31%nat;
      x ← (if neg =? Z.shiftr s31 7 then feNeg x else Some x);
      t ← feMul x y;
      Some (0, Some (mkGeP3 x y z t))
  end.

Definition geMadd (p : GeP3) (q : GePrecomp) : option GeP1P1 :=
  x ← feAdd (p3_y p) (p3_x p);
  y ← feSub (p3_y p) (p3_x p);
  z ← feMul x (yplusx q);
  y ← feMul y (yminusx q);
  t ← feMul (xy2d q) (p3_t p);
  t0 ← feAdd (p3_z p) (p3_z p);
  x ← feSub z y;
  y ← feAdd z y;
  z ← feAdd t0 t;
  t ← feSub t0 t;
  Some (mkGeP1P1 x y z t).

Definition geMsub (p : GeP3) (q : GePrecomp) : option GeP1P1 :=
  x ← feAdd (p3_y p) (p3_x p);
  y ← feSub (p3_y p) (p3_x p);
  z ← feMul x (yminusx q);
  y ← feMul y (yplusx q);
  t ← feMul (xy2d q) (p3_t p);
  t0 ← feAdd (p3_z p) (p3_z p);
  x ← feSub z y;
  y ← feAdd z y;
  z ← feSub t0 t;
  t ← feAdd t0 t;
  Some (mkGeP1P1 x y z t).

Definition geSub (p : GeP3) (q : GeCached) : option GeP1P1 :=
  x ← feAdd (p3_y p) (p3_x p);
  y ← feSub (p3_y p) (p3_x p);
  z ← feMul x (c_yminusx q);
  y ← feMul y (c_yplusx q);
  t ← feMul (c_t2d q) (p3_t p);
  x ← feMul (p3_z p) (c_z q);
  t0 ← feAdd x x;
  x ← feSub z y;
  y ← feAdd z y;
  z ← feSub t0 t;
  t ← feAdd t0 t;
  Some (mkGeP1P1 x y z t).

(** [s[31] = s[31] xor cast[byte](feIsNegative(x) shl 7)]. *)
Definition xor_sign (s : bytes) (neg : Z) : option bytes :=
  b ← s !! 31%nat;
  Some (<[31%nat := Z.lxor b (cast_byte (shl_int 32 neg 7))]> s).

(** [geToBytes] and [geP3ToBytes] do the same to the first three coordinates. *)
Definition to_bytes (px py pz : Fe) : option bytes :=
  recip ← feInvert pz;
  x ← feMul px recip;
  y ← feMul py recip;
  s ← feToBytes y;
  neg ← feIsNegative x;
  xor_sign s neg.

Definition geToBytes (h : GeP2) : option bytes := to_bytes (p2_x h) (p2_y h) (p2_z h).

Definition geP1P1toP2 (p : GeP1P1) : option GeP2 :=
  x ← feMul (r_x p) (r_t p);
  y ← feMul (r_y p) (r_z p);
  z ← feMul (r_z p) (r_t p);
  Some (mkGeP2 x y z).

Definition geP1P1toP3 (p : GeP1P1) : option GeP3 :=
  x ← feMul (r_x p) (r_t p);
  y ← feMul (r_y p) (r_z p);
  z ← feMul (r_z p) (r_t p);
  t ← feMul (r_x p) (r_y p);
  Some (mkGeP3 x y z t).

Definition geP20 : GeP2 := mkGeP2 fe0 fe1 fe1.

Definition geP2dbl (p : GeP2) : option GeP1P1 :=
  x ← feSq (p2_x p);
  z ← feSq (p2_y p);
  t ← feSq2 (p2_z p);
  y ← feAdd (p2_x p) (p2_y p);
  t0 ← feSq y;
  y ← feAdd z x;
  z ← feSub z x;
  x ← feSub t0 y;
  t ← feSub t z;
  Some (mkGeP1P1 x y z t).

Definition geP30 : GeP3 := mkGeP3 fe0 fe1 fe1 fe0.

Definition geP3toP2 (p : GeP3) : GeP2 := mkGeP2 (feCopy (p3_x p)) (feCopy (p3_y p)) (feCopy (p3_z p)).

Definition geP3dbl (p : GeP3) : option GeP1P1 := geP2dbl (geP3toP2 p).

Definition geP3ToBytes (h : GeP3) : option bytes := to_bytes (p3_x h) (p3_y h) (p3_z h).

Definition geP3ToCached (p : GeP3) : option GeCached :=
  yplusx ← feAdd (p3_y p) (p3_x p);
  yminusx ← feSub (p3_y p) (p3_x p);
  t2d ← feMul (p3_t p) D2Const;
  Some (mkGeCached yplusx yminusx (feCopy (p3_z p)) t2d).

Definition gePrecomp0 : GePrecomp := mkGePrecomp fe1 fe1 fe0.

Definition cmov (t u : GePrecomp) (b : Z) : GePrecomp :=
  mkGePrecomp (feCmov (yplusx t) (yplusx u) b) (feCmov (yminusx t) (yminusx u) b)
    (feCmov (xy2d t) (xy2d u) b).

(** ** The curve *)

Lemma p25519_prime : Z.prime p25519.
Proof. exact prime_p25519. Qed.

Lemma p25519_big : 2 < p25519.
Proof. reflexivity. Qed.

Lemma SqrTm1_square :
  let i := Zmod.of_Z p25519 (fe_val SqrTm1) in Zmod.mul i i = Zmod.opp Zmod.one.
Proof.
  cbv zeta. rewrite <- Zmod.of_Z_mul, <- Zmod.of_Z_1, <- Zmod.of_Z_opp. apply Zmod.of_Z_inj.
  vm_compute. reflexivity.
Qed.

Lemma DConst_euler : powmod (fe_val DConst mod p25519) (Z.to_pos ((p25519 - 1) / 2)) p25519 = p25519 - 1.
Proof. vm_compute. reflexivity. Qed.

(** The half of [p25519 - 1]; an exponent that must not be computed. *)
Lemma half_p : exists h, 0 < h /\ p25519 - 1 = 2 * h /\ h = (p25519 - 1) / 2.
Proof. exists ((p25519 - 1) / 2). split; [by vm_compute|]. split; [by vm_compute|done]. Qed.

Lemma DConst_nonsquare (x : Zmod p25519) : Zmod.mul x x <> Zmod.of_Z p25519 (fe_val DConst).
Proof.
  intros E. destruct half_p as (h & Hh & Hp & Eh).
  assert (Ed : Zmod.pow (Zmod.of_Z p25519 (fe_val DConst)) h = Zmod.opp Zmod.one).
  { rewrite <- Zmod.of_Z_pow, <- Zmod.of_Z_1, <- Zmod.of_Z_opp by lia.
    pose proof DConst_euler as Ee. rewrite powmod_spec, <- Eh, Z2Pos.id in Ee by lia.
    apply Zmod.of_Z_inj. rewrite <- Z.mod_pow_l, Ee. vm_compute. reflexivity. }
  rewrite <- E, <- Zmod.pow_2_r, <- Zmod.pow_mul_r_nonneg, <- Hp in Ed by lia.
  destruct (Zmod.eqb_spec x Zmod.zero) as [->|Hx].
  - rewrite Zmod.pow_0_l in Ed by (pose proof p25519_big; lia).
    apply (f_equal Zmod.opp) in Ed. rewrite Zmod.opp_opp, Zmod.opp_0 in Ed.
    symmetry in Ed. revert Ed. apply Zmod.one_neq_zero. done.
  - rewrite Z.sub_1_r, (Zmod.fermat_nz x Hx p25519_prime) in Ed.
    symmetry in Ed. revert Ed. by apply Zmod.opp_1_neq_1.
Qed.

#[export] Instance Ed25519 : EdwardsCurve := {|
  cm := p25519;
  cd := Zmod.of_Z p25519 (fe_val DConst);
  ci := Zmod.of_Z p25519 (fe_val SqrTm1);
  cm_prime := p25519_prime;
  cm_odd := p25519_big;
  ci_square := SqrTm1_square;
  cd_nonsquare := DConst_nonsquare;
|}.

Notation F := (Zmod cm).

(** The element that the limbs stand for. *)
Definition fval (f : Fe) : F := Zmod.of_Z cm (fe_val f).

Lemma eqm_of_Z a b : eqm a b <-> Zmod.of_Z cm a = Zmod.of_Z cm b.
Proof. by rewrite eqm_mod, Zmod.of_Z_inj. Qed.

(** ** Running the field operations *)

(** [within k]: [k] times the bounds of [tight]; a product accepts three times. *)
Definition within (k : Z) (f : Fe) : Prop := fe_bound (k * 33889976) (k * 16944988) f.

Definition returns {A} (m : option A) (Q : A -> Prop) : Prop := exists a, m = Some a /\ Q a.

Lemma returns_ret {A} (a : A) (Q : A -> Prop) : Q a -> returns (Some a) Q.
Proof. by exists a. Qed.

Lemma returns_bind {A B} (m : option A) (K : A -> option B) P (Q : B -> Prop) : returns m P ->
  (forall a, P a -> returns (K a) Q) -> returns (m ≫= K) Q.
Proof. intros (a & -> & Ha) HK. by apply HK. Qed.

Lemma returns_mono {A} (m : option A) (P Q : A -> Prop) : returns m P -> (forall a, P a -> Q a) ->
  returns m Q.
Proof. intros (a & -> & Ha) HK. exists a. auto. Qed.

Lemma within_mono k l f : within k f -> k <= l -> within l f.
Proof. intros H Hk. eapply bound_weaken; [exact H|lia|lia]. Qed.

Lemma within_loose k f : within k f -> (k <=? 3) = true -> loose f.
Proof. intros H Hk%Z.leb_le. eapply bound_weaken; [exact H|lia|lia]. Qed.

Lemma mul_bind {B} k l f g (K : Fe -> option B) Q : within k f -> within l g ->
  (k <=? 3) && (l <=? 3) = true ->
  (forall h, within 1 h -> fval h = Zmod.mul (fval f) (fval g) -> returns (K h) Q) ->
  returns (feMul f g ≫= K) Q.
Proof.
  intros Hf Hg [Hk Hl]%andb_true_iff HK.
  destruct (feMul_spec f g) as (h & -> & Ht & E); [by eapply within_loose..|].
  apply HK; [done|]. unfold fval. rewrite <- Zmod.of_Z_mul. by apply eqm_of_Z.
Qed.

Lemma sq_bind {B} k f (K : Fe -> option B) Q : within k f -> (k <=? 3) = true ->
  (forall h, within 1 h -> fval h = Zmod.mul (fval f) (fval f) -> returns (K h) Q) ->
  returns (feSq f ≫= K) Q.
Proof.
  intros Hf Hk HK.
  destruct (feSq_spec f) as (h & -> & Ht & E); [by eapply within_loose..|].
  apply HK; [done|]. unfold fval. rewrite <- Zmod.of_Z_mul. by apply eqm_of_Z.
Qed.

Lemma sq2_bind {B} k f (K : Fe -> option B) Q : within k f -> (k <=? 3) = true ->
  (forall h, within 1 h -> fval h = Zmod.mul (Zmod.add Zmod.one Zmod.one) (Zmod.mul (fval f) (fval f)) ->
    returns (K h) Q) -> returns (feSq2 f ≫= K) Q.
Proof.
  intros Hf Hk HK.
  destruct (feSq2_spec f) as (h & -> & Ht & E); [by eapply within_loose..|].
  apply HK; [done|]. unfold fval. rewrite <- Zmod.of_Z_mul, <- Zmod.of_Z_1, <- Zmod.of_Z_add,
    <- Zmod.of_Z_mul. by apply eqm_of_Z.
Qed.

Lemma add_bind {B} k l f g (K : Fe -> option B) Q : within k f -> within l g ->
  (k + l <=? 60) = true ->
  (forall h, within (k + l) h -> fval h = Zmod.add (fval f) (fval g) -> returns (K h) Q) ->
  returns (feAdd f g ≫= K) Q.
Proof.
  intros Hf Hg Hk%Z.leb_le HK.
  destruct (feAdd_spec _ _ _ _ f g Hf Hg) as (h & -> & Ht & E); [lia|lia|].
  apply HK; [|unfold fval; by rewrite <- Zmod.of_Z_add, E].
  eapply bound_weaken; [exact Ht|lia|lia].
Qed.

Lemma sub_bind {B} k l f g (K : Fe -> option B) Q : within k f -> within l g ->
  (k + l <=? 60) = true ->
  (forall h, within (k + l) h -> fval h = Zmod.sub (fval f) (fval g) -> returns (K h) Q) ->
  returns (feSub f g ≫= K) Q.
Proof.
  intros Hf Hg Hk%Z.leb_le HK.
  destruct (feSub_spec _ _ _ _ f g Hf Hg) as (h & -> & Ht & E); [lia|lia|].
  apply HK; [|unfold fval; by rewrite <- Zmod.of_Z_sub, E].
  eapply bound_weaken; [exact Ht|lia|lia].
Qed.

Lemma neg_bind {B} k f (K : Fe -> option B) Q : within k f -> (k <=? 60) = true ->
  (forall h, within k h -> fval h = Zmod.opp (fval f) -> returns (K h) Q) ->
  returns (feNeg f ≫= K) Q.
Proof.
  intros Hf Hk%Z.leb_le HK.
  destruct (feNeg_spec _ _ f Hf) as (h & -> & Ht & E); [lia|lia|].
  apply HK; [done|]. unfold fval. by rewrite <- Zmod.of_Z_opp, E.
Qed.

Lemma feCopy_id f : feCopy f = f.
Proof. by destruct f. Qed.

(** One operation: the bound of the result is evaluated. *)
Ltac fe_step :=
  lazymatch goal with
  | |- returns (feMul _ _ ≫= _) _ =>
      eapply mul_bind; [eassumption|eassumption|vm_compute; reflexivity|]
  | |- returns (feSq _ ≫= _) _ => eapply sq_bind; [eassumption|vm_compute; reflexivity|]
  | |- returns (feSq2 _ ≫= _) _ => eapply sq2_bind; [eassumption|vm_compute; reflexivity|]
  | |- returns (feAdd _ _ ≫= _) _ =>
      eapply add_bind; [eassumption|eassumption|vm_compute; reflexivity|]
  | |- returns (feSub _ _ ≫= _) _ =>
      eapply sub_bind; [eassumption|eassumption|vm_compute; reflexivity|]
  | |- returns (feNeg _ ≫= _) _ => eapply neg_bind; [eassumption|vm_compute; reflexivity|]
  end;
  let h := fresh "h" in let Hh := fresh "Hh" in let E := fresh "E" in
  intros h Hh E; cbv beta;
  match type of Hh with within ?k _ => let v := eval vm_compute in k in change k with v in Hh end.

(** ** What the representations stand for *)

Definition P3_ok (h : GeP3) (P : point) : Prop :=
  within 1 (p3_x h) /\ within 1 (p3_y h) /\ within 1 (p3_z h) /\ within 1 (p3_t h) /\
  extended P (fval (p3_x h)) (fval (p3_y h)) (fval (p3_z h)) (fval (p3_t h)).

Definition P2_ok (h : GeP2) (P : point) : Prop :=
  within 1 (p2_x h) /\ within 1 (p2_y h) /\ within 1 (p2_z h) /\
  projective P (fval (p2_x h)) (fval (p2_y h)) (fval (p2_z h)).

Definition P1P1_ok (h : GeP1P1) (P : point) : Prop :=
  within 3 (r_x h) /\ within 3 (r_y h) /\ within 3 (r_z h) /\ within 3 (r_t h) /\
  completed P (fval (r_x h)) (fval (r_y h)) (fval (r_z h)) (fval (r_t h)).

Definition cached_ok (h : GeCached) (P : point) : Prop :=
  within 2 (c_yplusx h) /\ within 2 (c_yminusx h) /\ within 1 (c_z h) /\ within 1 (c_t2d h) /\
  cached P (fval (c_yplusx h)) (fval (c_yminusx h)) (fval (c_z h)) (fval (c_t2d h)).

Definition precomp_ok (h : GePrecomp) (P : point) : Prop :=
  within 1 (yplusx h) /\ within 1 (yminusx h) /\ within 1 (xy2d h) /\
  cached P (fval (yplusx h)) (fval (yminusx h)) Zmod.one (fval (xy2d h)).

Lemma geAdd_ok p q P Q : P3_ok p P -> cached_ok q Q -> returns (geAdd p q) (fun r => P1P1_ok r (padd P Q)).
Proof.
  intros (Hx & Hy & Hz & Ht & HP) (Ha & Hb & Hcz & Hc & HQ). unfold geAdd. do 11 fe_step.
  apply returns_ret. split_and!; try (by eapply within_mono); cbn.
  repeat match goal with E : fval _ = _ |- _ => rewrite E; clear E end.
  by apply add_completed.
Qed.

(** The values of the results replace the limbs. *)
Ltac to_field :=
  repeat match goal with E : fval _ = _ |- _ => rewrite E; clear E end.

Ltac ge_done := apply returns_ret; split_and!; try (by eapply within_mono); cbn; to_field.

Lemma geSub_ok p q P Q : P3_ok p P -> cached_ok q Q ->
  returns (geSub p q) (fun r => P1P1_ok r (padd P (popp Q))).
Proof.
  intros (Hx & Hy & Hz & Ht & HP) (Ha & Hb & Hcz & Hc & HQ). unfold geSub. do 11 fe_step. ge_done.
  by apply (sub_completed P Q).
Qed.

Lemma geMadd_ok p q P Q : P3_ok p P -> precomp_ok q Q ->
  returns (geMadd p q) (fun r => P1P1_ok r (padd P Q)).
Proof.
  intros (Hx & Hy & Hz & Ht & HP) (Ha & Hb & Hc & HQ). unfold geMadd. do 10 fe_step. ge_done.
  pose proof (add_completed P Q _ _ _ _ _ _ _ _ HP HQ) as H. cbv zeta in H.
  by rewrite Zmod.mul_1_r in H.
Qed.

Lemma geMsub_ok p q P Q : P3_ok p P -> precomp_ok q Q ->
  returns (geMsub p q) (fun r => P1P1_ok r (padd P (popp Q))).
Proof.
  intros (Hx & Hy & Hz & Ht & HP) (Ha & Hb & Hc & HQ). unfold geMsub. do 10 fe_step. ge_done.
  pose proof (sub_completed P Q _ _ _ _ _ _ _ _ HP HQ) as H. cbv zeta in H.
  by rewrite Zmod.mul_1_r in H.
Qed.

Lemma geP1P1toP2_ok r P : P1P1_ok r P -> returns (geP1P1toP2 r) (fun h => P2_ok h P).
Proof.
  intros (Hx & Hy & Hz & Ht & HP). unfold geP1P1toP2. do 3 fe_step. ge_done.
  by apply completed_projective.
Qed.

Lemma geP1P1toP3_ok r P : P1P1_ok r P -> returns (geP1P1toP3 r) (fun h => P3_ok h P).
Proof.
  intros (Hx & Hy & Hz & Ht & HP). unfold geP1P1toP3. do 4 fe_step. ge_done.
  by apply completed_extended.
Qed.

Lemma geP2dbl_ok h P : P2_ok h P -> returns (geP2dbl h) (fun r => P1P1_ok r (padd P P)).
Proof.
  intros (Hx & Hy & Hz & HP). unfold geP2dbl. do 9 fe_step. ge_done. by apply dbl_completed.
Qed.

Lemma geP3toP2_ok h P : P3_ok h P -> P2_ok (geP3toP2 h) P.
Proof. intros (Hx & Hy & Hz & Ht & HP & _). unfold geP3toP2. rewrite !feCopy_id. done. Qed.

Lemma geP3dbl_ok h P : P3_ok h P -> returns (geP3dbl h) (fun r => P1P1_ok r (padd P P)).
Proof. intros H. by apply geP2dbl_ok, geP3toP2_ok. Qed.

Lemma fval_0 : fval fe0 = Zmod.zero.
Proof. apply Zmod.of_Z_0. Qed.

Lemma fval_1 : fval fe1 = Zmod.one.
Proof. apply Zmod.of_Z_1. Qed.

Lemma fe0_within : within 1 fe0.
Proof. by repeat split. Qed.

Lemma fe1_within : within 1 fe1.
Proof. by repeat split. Qed.

#[local] Hint Resolve fe0_within fe1_within : core.

Lemma geP20_ok : P2_ok geP20 pzero.
Proof.
  unfold P2_ok. cbn [geP20 p2_x p2_y p2_z]. rewrite fval_0, fval_1.
  do 3 (split; [auto|]). exact (proj1 extended_0).
Qed.

Lemma geP30_ok : P3_ok geP30 pzero.
Proof.
  unfold P3_ok. cbn [geP30 p3_x p3_y p3_z p3_t]. rewrite fval_0, fval_1.
  do 4 (split; [auto|]). exact extended_0.
Qed.

Lemma gePrecomp0_ok : precomp_ok gePrecomp0 pzero.
Proof.
  unfold precomp_ok. cbn [gePrecomp0 yplusx yminusx xy2d]. rewrite fval_0, fval_1.
  do 3 (split; [auto|]). exact cached_0.
Qed.

(** [D2Const] is twice [DConst]. *)
Lemma fval_D2 : fval D2Const = Zmod.mul (Zmod.add Zmod.one Zmod.one) cd.
Proof.
  unfold fval, cd, Ed25519. rewrite <- Zmod.of_Z_1, <- Zmod.of_Z_add, <- Zmod.of_Z_mul.
  apply Zmod.of_Z_inj. vm_compute. reflexivity.
Qed.

Lemma D2_within : within 1 D2Const.
Proof. by repeat split. Qed.

Lemma geP3ToCached_ok h P : P3_ok h P -> returns (geP3ToCached h) (fun c => cached_ok c P).
Proof.
  intros (Hx & Hy & Hz & Ht & HP). pose proof D2_within. unfold geP3ToCached. do 3 fe_step.
  ge_done; rewrite feCopy_id; [done|]. to_field. rewrite fval_D2. by apply extended_cached.
Qed.

Lemma cmov_spec t u b : b = 0 \/ b = 1 -> cmov t u b = if b =? 1 then u else t.
Proof. intros Hb. unfold cmov. rewrite !feCmov_spec by done. destruct t, u. by destruct (b =? 1). Qed.

(** ** Encoding *)

Lemma fval_to_Z f : Zmod.to_Z (fval f) = fe_val f mod p25519.
Proof. apply Zmod.to_Z_of_Z. Qed.

(** The exponent of the inverse, and the value it has. *)
Lemma invert_exponent : 2 ^ 255 - 21 = cm - 2 /\ 0 <= cm - 2.
Proof. split; vm_compute; [reflexivity|discriminate]. Qed.

Lemma invert_bind {B} k f (K : Fe -> option B) Q : within k f -> (k <=? 3) = true ->
  fval f <> Zmod.zero ->
  (forall h, within 1 h -> fval h = Zmod.inv (fval f) -> returns (K h) Q) ->
  returns (feInvert f ≫= K) Q.
Proof.
  intros Hf Hk Hnz HK.
  destruct (feInvert_spec f) as (h & -> & Ht & E); [by eapply within_loose..|].
  apply HK; [done|]. apply eqm_of_Z in E. destruct invert_exponent as [Ee Hp]. rewrite Ee in E.
  unfold fval in *. rewrite E, Zmod.of_Z_pow by done.
  by apply (Zmod.fermat_inv (Zmod.of_Z cm (fe_val f)) Hnz cm_prime).
Qed.

(** The 32 bytes of a point: the second coordinate, and the parity of the first. *)
Definition encodes (P : point) (s : bytes) : Prop :=
  bytes_ok s /\ length s = 32%nat /\
  le_value s = Zmod.to_Z (py P) + 2 ^ 255 * (Zmod.to_Z (px P) mod 2).

Lemma encodes_unique P s s' : encodes P s -> encodes P s' -> s = s'.
Proof. intros (Hs & Hl & E) (Hs' & Hl' & E'). apply le_value_inj; congruence. Qed.

Lemma last_byte (s : bytes) : length s = 32%nat ->
  exists low b, s = low ++ [b] /\ length low = 31%nat /\ s !! 31%nat = Some b.
Proof.
  intros Hl. exists (take 31 s). destruct (drop 31 s) as [|b r] eqn:E.
  { apply (f_equal length) in E. rewrite length_drop in E. cbn in E. lia. }
  assert (r = []) as ->.
  { apply (f_equal length) in E. rewrite length_drop in E. cbn in E. destruct r; [done|cbn in E; lia]. }
  exists b. rewrite <- E, take_drop. split; [done|]. split; [rewrite length_take; lia|].
  rewrite <- (take_drop 31 s), lookup_app_r by (rewrite length_take; lia).
  rewrite E, length_take. replace (31 - 31 `min` length s)%nat with 0%nat by lia. done.
Qed.

(** The free top bit takes the sign. *)
Lemma xor_sign_ok s neg : bytes_ok s -> length s = 32%nat -> le_value s < 2 ^ 255 ->
  neg = 0 \/ neg = 1 ->
  returns (xor_sign s neg) (fun t => bytes_ok t /\ length t = 32%nat /\
    le_value t = le_value s + 2 ^ 255 * neg).
Proof.
  intros Hs Hl Hv Hneg. destruct (last_byte s Hl) as (low & b & -> & Hlow & Hb).
  unfold xor_sign. rewrite Hb. cbn [mbind option_bind]. apply returns_ret.
  apply Forall_app in Hs as [Hlo Hbb].
  assert (Hbb' : byte_ok b) by (by inversion Hbb).
  pose proof (le_value_bound low Hlo) as Hbl. rewrite le_value_snoc, Hlow in *.
  change (8 * Z.of_nat 31) with 248 in *.
  assert (Hb7 : 0 <= b < 128).
  { unfold byte_ok in Hbb'. split; [lia|]. revert Hv Hbl. pow2. lia. }
  assert (Ex : Z.lxor b (cast_byte (shl_int 32 neg 7)) = b + 128 * neg).
  { destruct Hneg as [-> | ->].
    - change (cast_byte (shl_int 32 0 7)) with 0. rewrite Z.lxor_0_r. lia.
    - change (cast_byte (shl_int 32 1 7)) with (2 ^ 7). rewrite <- Z.add_nocarry_lxor; [lia|].
      apply Z.bits_inj'. intros i Hi. rewrite Z.land_spec, Z.bits_0.
      destruct (decide (i = 7)) as [->|Hne]; [|by rewrite Z.pow2_bits_false, andb_false_r by lia].
      assert (Z.testbit b 7 = false) as ->; [|done].
      apply Z.testbit_false; [lia|]. rewrite Z.div_small; [done|]. change (2 ^ 7) with 128. lia. }
  rewrite Ex, insert_app_r_alt, Hlow by lia. cbn [Nat.sub insert list_insert].
  split; [apply Forall_app; split; [done|apply Forall_singleton; unfold byte_ok; lia]|].
  split; [rewrite length_app, Hlow; done|]. rewrite le_value_snoc, Hlow.
  change (8 * Z.of_nat 31) with 248. pow2. lia.
Qed.

Lemma to_bytes_ok x y z P : within 1 x -> within 1 y -> within 1 z ->
  projective P (fval x) (fval y) (fval z) -> returns (to_bytes x y z) (encodes P).
Proof.
  intros Hx Hy Hz (Hnz & Ex & Ey). unfold to_bytes.
  eapply invert_bind; [exact Hz|done|exact Hnz|]. intros recip Hr Er. do 2 fe_step.
  assert (Hinv : Zmod.mul (fval z) (Zmod.inv (fval z)) = Zmod.one).
  { rewrite Zmod.mul_comm. apply Zmod.mul_inv_same_l_prime; [exact cm_prime|exact Hnz]. }
  rewrite Er, Ex, <- Zmod.mul_assoc, Hinv, Zmod.mul_1_r in E.
  rewrite Er, Ey, <- Zmod.mul_assoc, Hinv, Zmod.mul_1_r in E0.
  destruct (feToBytes_spec h0) as (s & -> & Hs & Hl & Hv); [by eapply within_loose|].
  cbn [mbind option_bind].
  rewrite feIsNegative_spec by (by eapply within_loose). cbn [mbind option_bind].
  rewrite <- fval_to_Z in *. rewrite E, E0 in *.
  pose proof (Zmod.to_Z_pos_bound (py P) ltac:(done)) as Hb.
  eapply returns_mono; [apply xor_sign_ok; [done|done| |]|].
  - rewrite Hv. destruct Hb as [_ Hb]. etrans; [exact Hb|]. by vm_compute.
  - pose proof (Z.mod_pos_bound (Zmod.to_Z (px P)) 2 ltac:(lia)). lia.
  - intros t (Ht & Hlt & Et). split; [done|]. split; [done|]. by rewrite Et, Hv.
Qed.

Lemma geToBytes_ok h P : P2_ok h P -> returns (geToBytes h) (encodes P).
Proof. intros (Hx & Hy & Hz & HP). by apply to_bytes_ok. Qed.

Lemma geP3ToBytes_ok h P : P3_ok h P -> returns (geP3ToBytes h) (encodes P).
Proof. intros (Hx & Hy & Hz & Ht & HP & _). by apply to_bytes_ok. Qed.

(** ** Decoding *)

#[local] Open Scope Zmod_scope.

Add Field F_field : (Zmod.field_theory cm cm_prime).

Definition root_exponent : Z := 2 ^ 252 - 3.

(** [(p - 5) / 8]. *)
Lemma root_exponent_eq : (0 <= root_exponent /\ 8 * root_exponent + 4 = cm - 1)%Z.
Proof. split; vm_compute; [discriminate|reflexivity]. Qed.

Lemma root_bind {B} k f (K : Fe -> option B) Q : within k f -> (k <=? 3)%Z = true ->
  (forall h, within 1 h -> fval h = Zmod.pow (fval f) root_exponent -> returns (K h) Q) ->
  returns (fePow22523 f ≫= K) Q.
Proof.
  intros Hf Hk HK.
  destruct (fePow22523_spec f) as (h & -> & Ht & E); [by eapply within_loose..|].
  apply HK; [done|]. apply eqm_of_Z in E. change (2 ^ 252 - 3)%Z with root_exponent in E.
  unfold fval in *. rewrite E, Zmod.of_Z_pow; [done|]. apply root_exponent_eq.
Qed.

Lemma nonzero_bind {B} k f (K : Z -> option B) Q : within k f -> (k <=? 3)%Z = true ->
  (fval f = 0 -> returns (K 0%Z) Q) -> (fval f <> 0 -> returns (K (-1)%Z) Q) ->
  returns (feIsNonZero f ≫= K) Q.
Proof.
  intros Hf Hk H0 H1. rewrite feIsNonZero_spec by (by eapply within_loose).
  cbn [mbind option_bind]. rewrite <- fval_to_Z. destruct (Z.eqb_spec (Zmod.to_Z (fval f)) 0) as [E|E].
  - apply H0. apply Zmod.to_Z_inj. by rewrite Zmod.to_Z_0.
  - apply H1. intros E'. by rewrite E', Zmod.to_Z_0 in E.
Qed.

(** The denominator of [x^2 = (y^2 - 1) / (d y^2 + 1)] is not zero. *)
Lemma decode_denominator (y : F) : cd * (y * y) + 1 <> 0.
Proof.
  intros E. assert (Hy : y = 0).
  { apply (square_ratio y ci). rewrite ci_square. transitivity (cd * (y * y) + 1 - 1); [ring|].
    rewrite E. ring. }
  rewrite Hy in E. apply F_1_nz. rewrite <- E. ring.
Qed.

Lemma on_curve_iff (x y : F) : on_curve x y <-> (cd * (y * y) + 1) * (x * x) = y * y - 1.
Proof.
  unfold on_curve. split; intros E.
  - transitivity (cd * x * x * y * y + x * x); [ring|]. rewrite E. ring.
  - transitivity ((cd * (y * y) + 1) * (x * x) - x * x); [ring|]. rewrite E. ring.
Qed.

(** The candidate of the source for the root of [u / v]. *)
Definition root_of (u v : F) : F :=
  let v3 := v * v * v in Zmod.pow (v3 * v3 * v * u) root_exponent * v3 * u.

Lemma square_pm1 (a : F) : a * a = 1 -> a = 1 \/ a = - (1).
Proof.
  intros E. assert (H : (a - 1) * (a + 1) = 0) by (transitivity (a * a - 1); [ring|]; rewrite E; ring).
  apply F_mul_0 in H as [H|H]; [left; by apply F_sub_0|right].
  transitivity (a + 1 - 1); [ring|]. rewrite H. ring.
Qed.

(** When [u / v] is a square, [root_of] is a root of it or of its opposite. *)
Lemma root_of_square (u v x : F) : v <> 0 -> v * (x * x) = u ->
  v * (root_of u v * root_of u v) = u \/ v * (root_of u v * root_of u v) = - u.
Proof.
  intros Hv Eu. destruct root_exponent_eq as [He Hp].
  destruct (Zmod.eqb_spec x 0) as [->|Hx].
  { left. unfold root_of. rewrite <- Eu. ring. }
  set (w := v * v * v * (v * v * v) * v * u).
  set (r := Zmod.pow w root_exponent).
  assert (Er : v * (root_of u v * root_of u v) = u * (w * (r * r))).
  { unfold root_of. fold w. fold r. unfold w. ring. }
  assert (Ew : w = x * (v * v * v * v) * (x * (v * v * v * v))) by (unfold w; rewrite <- Eu; ring).
  set (t := x * (v * v * v * v)) in *.
  assert (Ht : t <> 0) by (by repeat apply F_mul_nz).
  assert (H1 : w * (r * r) * (w * (r * r)) = 1).
  { transitivity (Zmod.pow t (8 * root_exponent + 4)).
    - unfold r. rewrite <- !Zmod.pow_2_r. rewrite Ew. rewrite <- Zmod.pow_2_r.
      rewrite <- !Zmod.pow_mul_r_nonneg by lia. rewrite <- !Zmod.pow_add_r_nonneg by lia.
      rewrite <- !Zmod.pow_mul_r_nonneg by lia. f_equal; lia.
    - rewrite Hp, Z.sub_1_r. apply Zmod.fermat_nz; [exact Ht|exact cm_prime]. }
  rewrite Er. destruct (square_pm1 _ H1) as [-> | ->]; [left|right]; ring.
Qed.

Lemma SqrTm1_within : within 1 SqrTm1.
Proof. by repeat split. Qed.

Lemma DConst_within : within 1 DConst.
Proof. by repeat split. Qed.

Lemma parity_opp (x : F) : x <> 0 ->
  (Zmod.to_Z (- x) mod 2 = 1 - Zmod.to_Z x mod 2)%Z.
Proof.
  intros Hx. pose proof (Zmod.to_Z_pos_bound x ltac:(done)) as Hb. apply Zmod.to_Z_nz in Hx.
  rewrite Zmod.to_Z_opp, Z_mod_nz_opp_full by (rewrite Z.mod_small; lia).
  rewrite (Z.mod_small (Zmod.to_Z x) cm) by lia. assert (Hodd : (cm mod 2 = 1)%Z) by (by vm_compute).
  clear Hb. revert Hodd. generalize cm, (Zmod.to_Z x). intros m z Hm.
  Z.div_mod_to_equations. lia.
Qed.

(** The points over a second coordinate are opposite. *)
Lemma same_y (P Q : point) : py P = py Q -> P = Q \/ P = popp Q.
Proof.
  intros Ey. pose proof (proj1 (on_curve_iff _ _) (point_curve P)) as HP.
  pose proof (proj1 (on_curve_iff _ _) (point_curve Q)) as HQ. rewrite Ey in HP.
  assert (E : (px P - px Q) * (px P + px Q) = 0).
  { apply (F_cancel _ _ _ (decode_denominator (py Q))). transitivity
      ((cd * (py Q * py Q) + 1) * (px P * px P) - (cd * (py Q * py Q) + 1) * (px Q * px Q)); [ring|].
    rewrite HP, HQ. ring. }
  apply F_mul_0 in E as [E|E].
  - left. apply point_eq; [by apply F_sub_0|done].
  - right. apply point_eq; [|done]. change (px P = - px Q). transitivity (px P + px Q - px Q); [ring|]. rewrite E. ring.
Qed.

(** What decoding promises: the point over the coordinate encoded, whose sign is not the one
encoded unless it is its own opposite; or that there is none. *)
Definition decodes (s : bytes) (c : Z) (o : option GeP3) : Prop :=
  let y := Zmod.of_Z cm (le_value s mod 2 ^ 255) in
  match o with
  | Some h => c = 0%Z /\ exists P, P3_ok h P /\ py P = y /\
      (px P = 0 \/ (Zmod.to_Z (px P) mod 2 = 1 - (le_value s / 2 ^ 255))%Z)
  | None => (c = -1)%Z /\ forall P, py P <> y
  end.

Lemma top_bit s : bytes_ok s -> length s = 32%nat ->
  exists b, s !! 31%nat = Some b /\ (Z.shiftr b 7 = le_value s / 2 ^ 255)%Z /\
    (0 <= le_value s / 2 ^ 255 <= 1)%Z.
Proof.
  intros Hs Hl. destruct (last_byte s Hl) as (low & b & -> & Hlow & Hb). exists b. split; [done|].
  apply Forall_app in Hs as [Hlo Hbb]. assert (Hbb' : byte_ok b) by (by inversion Hbb).
  pose proof (le_value_bound low Hlo) as Hbl. rewrite le_value_snoc, Hlow in *.
  change (8 * Z.of_nat 31)%Z with 248%Z in *. rewrite Z.shiftr_div_pow2 by lia.
  assert (E : ((le_value low + 2 ^ 248 * b) / 2 ^ 255 = b / 2 ^ 7)%Z).
  { change (2 ^ 255)%Z with (2 ^ 248 * 2 ^ 7)%Z. rewrite <- Z.div_div by done.
    rewrite (Z.mul_comm (2 ^ 248)), Z.div_add, (Z.div_small (le_value low)) by done. done. }
  rewrite E. split; [done|]. unfold byte_ok in Hbb'. change (2 ^ 7)%Z with 128%Z.
  Z.div_mod_to_equations. lia.
Qed.

(** The end of the procedure: the sign, and the last coordinate. *)
Lemma decode_end s y x : bytes_ok s -> length s = 32%nat -> within 1 y -> within 1 x ->
  fval y = Zmod.of_Z cm (le_value s mod 2 ^ 255) -> on_curve (fval x) (fval y) ->
  returns (neg ← feIsNegative x; s31 ← s !! 31%nat;
    x ← (if (neg =? Z.shiftr s31 7)%Z then feNeg x else Some x);
    t ← feMul x y; Some (0%Z, Some (mkGeP3 x y fe1 t))) (fun r => decodes s r.1 r.2).
Proof.
  intros Hs Hl Hy Hx Ey Hc. destruct (top_bit s Hs Hl) as (b & Eb & Es & Hsgn).
  rewrite feIsNegative_spec by (by eapply within_loose). rewrite <- fval_to_Z, Eb.
  cbn [mbind option_bind]. rewrite Es.
  assert (Hfin : forall x', within 1 x' -> on_curve (fval x') (fval y) ->
    (fval x' = 0 \/ (Zmod.to_Z (fval x') mod 2 = 1 - (le_value s / 2 ^ 255))%Z) ->
    returns (t ← feMul x' y; Some (0%Z, Some (mkGeP3 x' y fe1 t))) (fun r => decodes s r.1 r.2)).
  { intros x' Hx' Hc' Hsg. fe_step. apply returns_ret. split; [done|].
    exists (mkPoint (fval x') (fval y) (proj2 (curve_iff _ _) Hc')).
    split; [|split; [exact Ey|exact Hsg]].
    unfold P3_ok. cbn [p3_x p3_y p3_z p3_t]. do 2 (split; [done|]). split; [apply fe1_within|].
    split; [done|]. rewrite fval_1, E. split; [split; [apply F_1_nz|]|]; cbn [px py]; [split|]; ring. }
  pose proof (Z.mod_pos_bound (Zmod.to_Z (fval x)) 2 ltac:(lia)) as Hpar.
  destruct (Z.eqb_spec (Zmod.to_Z (fval x) mod 2) (le_value s / 2 ^ 255)) as [Heq|Hne].
  - fe_step. apply Hfin; [done| |].
    + rewrite E. unfold on_curve in *. ring [Hc].
    + rewrite E. destruct (Zmod.eqb_spec (fval x) 0) as [E0|E0]; [left; rewrite E0; ring|right].
      rewrite parity_opp by done. lia.
  - cbn [mbind option_bind]. apply Hfin; [done|done|right; lia].
Qed.

Lemma bind_assoc {A B D} (m : option A) (f : A -> option B) (g : B -> option D) :
  (m ≫= f) ≫= g = m ≫= (fun a => f a ≫= g).
Proof. by destruct m. Qed.

Lemma decode_ok s : bytes_ok s -> length s = 32%nat ->
  returns (geFromBytesNegateVartime s) (fun r => decodes s r.1 r.2).
Proof.
  intros Hs Hl. unfold geFromBytesNegateVartime.
  destruct (feFromBytes_spec s Hs Hl) as (y & -> & Hy & Ey). change (within 1 y) in Hy.
  apply eqm_of_Z in Ey. change (Zmod.of_Z cm (fe_val y)) with (fval y) in Ey.
  pose proof DConst_within. pose proof SqrTm1_within. pose proof fe1_within.
  cbn [mbind option_bind]. do 9 fe_step.
  eapply root_bind; [eassumption|done|]. intros r0 Hr0 Er0. cbv beta. do 5 fe_step.
  rename h9 into x. set (Y := fval y) in *.
  assert (Eu : fval h1 = Y * Y - 1) by (by rewrite E1, E, fval_1).
  assert (Ev : fval h2 = cd * (Y * Y) + 1).
  { rewrite E2, E0, E, fval_1. change (fval DConst) with cd. ring. }
  pose proof (decode_denominator Y) as Hv. rewrite <- Ev in Hv.
  assert (Hcurve : forall x', within 1 x' -> fval h2 * (fval x' * fval x') = fval h1 ->
    on_curve (fval x') (fval y)).
  { intros x' _ Hx'. apply on_curve_iff. fold Y. by rewrite <- Ev, <- Eu. }
  assert (Ex : fval x = root_of (fval h1) (fval h2)).
  { rewrite E9, E8, Er0, E7, E6, E5, E4, E3. done. }
  assert (Evxx : fval h11 = fval h2 * (fval x * fval x)) by (rewrite E11, E10; ring).
  eapply nonzero_bind; [eassumption|done| |]; intros Hc.
  - cbn [Z.eqb negb mbind option_bind]. apply (decode_end s y); [exact Hs|exact Hl|exact Hy|assumption|exact Ey|].
    apply Hcurve; [assumption|].
    rewrite <- Evxx. apply F_sub_0. by rewrite <- E12.
  - cbn [Z.eqb negb]. rewrite bind_assoc. fe_step. rewrite bind_assoc.
    eapply nonzero_bind; [eassumption|done| |]; intros Hc'.
    + cbn [Z.eqb negb]. rewrite bind_assoc. fe_step. cbn [mbind option_bind].
      apply (decode_end s y); [exact Hs|exact Hl|exact Hy|assumption|exact Ey|].
    apply Hcurve; [assumption|].
      rewrite E14. change (fval SqrTm1) with ci.
      transitivity (ci * ci * (fval h2 * (fval x * fval x))); [ring|].
      rewrite ci_square, <- Evxx. rewrite E13 in Hc'.
      transitivity (fval h1 - (fval h11 + fval h1)); [ring|]. rewrite Hc'. ring.
    + cbn [Z.eqb negb mbind option_bind]. apply returns_ret. split; [done|]. intros P Py.
      pose proof (proj1 (on_curve_iff _ _) (point_curve P)) as HP. rewrite Py in HP.
      rewrite <- Ey in HP. fold Y in HP. rewrite <- Ev, <- Eu in HP.
      destruct (root_of_square _ _ _ Hv HP) as [Hr|Hr]; rewrite <- Ex, <- Evxx in Hr.
      * apply Hc. rewrite E12, Hr. ring.
      * apply Hc'. rewrite E13, Hr. ring.
Qed.

(** Decoding undoes encoding, up to the sign. *)
Lemma decode_encodes P s : encodes P s ->
  returns (geFromBytesNegateVartime s) (fun r => exists h, r = (0%Z, Some h) /\ P3_ok h (popp P)).
Proof.
  intros (Hs & Hl & Ev). eapply returns_mono; [by apply decode_ok|]. intros [c o]. cbn [fst snd].
  pose proof (Zmod.to_Z_pos_bound (py P) ltac:(done)) as Hb.
  pose proof (Z.mod_pos_bound (Zmod.to_Z (px P)) 2 ltac:(lia)) as Hpar.
  assert (Hp : (cm < 2 ^ 255)%Z) by (by vm_compute).
  assert (Ey : (le_value s mod 2 ^ 255 = Zmod.to_Z (py P))%Z).
  { rewrite Ev, (Z.mul_comm (2 ^ 255)), Z_mod_plus_full. apply Z.mod_small. lia. }
  assert (Esg : (le_value s / 2 ^ 255 = Zmod.to_Z (px P) mod 2)%Z).
  { rewrite Ev, (Z.mul_comm (2 ^ 255)), Z.div_add, Z.div_small by (lia || done). done. }
  unfold decodes. rewrite Ey, Esg, Zmod.of_Z_unsigned. destruct o as [h|].
  - intros (-> & Q & HQ & Hy & Hx). exists h. split; [done|].
    destruct (same_y Q P Hy) as [->| ->]; [|done].
    destruct Hx as [Hx|Hx]; [|lia].
    replace (popp P) with P; [done|]. apply point_eq; [|done].
    change (px P = - px P). rewrite Hx. ring.
  - intros [_ Hn]. by destruct (Hn P).
Qed.

(** ** Properties *)

(** C19: the representations are types of points, [GeP2], [GeP3], [GeP1P1], [GeCached] and
[GePrecomp] each with the bounds on its limbs and the coordinates it stands for.  On well-formed
operands every operation overflows nowhere and returns a well-formed representation: of the sum
or the difference, of the double, or of the same point. *)
Theorem ge_operations (P Q : point) p2 p3 p1 c m :
  P2_ok p2 P -> P3_ok p3 P -> P1P1_ok p1 P -> cached_ok c Q -> precomp_ok m Q ->
  (returns (geAdd p3 c) (fun r => P1P1_ok r (padd P Q)) /\
   returns (geMadd p3 m) (fun r => P1P1_ok r (padd P Q)) /\
   returns (geSub p3 c) (fun r => P1P1_ok r (padd P (popp Q))) /\
   returns (geMsub p3 m) (fun r => P1P1_ok r (padd P (popp Q)))) /\
  (returns (geP2dbl p2) (fun r => P1P1_ok r (padd P P)) /\
   returns (geP3dbl p3) (fun r => P1P1_ok r (padd P P))) /\
  (returns (geP1P1toP2 p1) (fun h => P2_ok h P) /\
   returns (geP1P1toP3 p1) (fun h => P3_ok h P) /\
   P2_ok (geP3toP2 p3) P /\
   returns (geP3ToCached p3) (fun h => cached_ok h P)) /\
  (P2_ok geP20 pzero /\ P3_ok geP30 pzero /\ precomp_ok gePrecomp0 pzero).
Proof.
  intros H2 H3 H1 Hc Hm. split; [|split; [|split]].
  - split; [exact (geAdd_ok _ _ _ _ H3 Hc)|]. split; [exact (geMadd_ok _ _ _ _ H3 Hm)|].
    split; [exact (geSub_ok _ _ _ _ H3 Hc)|exact (geMsub_ok _ _ _ _ H3 Hm)].
  - split; [exact (geP2dbl_ok _ _ H2)|exact (geP3dbl_ok _ _ H3)].
  - split; [exact (geP1P1toP2_ok _ _ H1)|]. split; [exact (geP1P1toP3_ok _ _ H1)|].
    split; [exact (geP3toP2_ok _ _ H3)|exact (geP3ToCached_ok _ _ H3)].
  - split; [exact geP20_ok|]. split; [exact geP30_ok|exact gePrecomp0_ok].
Qed.

(** C20: a point is encoded by its second coordinate, reduced, and the parity of the first in the
top bit; decoding an encoding gives back the opposite of the point.  On any 32 bytes decoding
returns: the point with the coordinate in the low 255 bits and the sign opposite to the one in
the top bit, or -1 when the curve has no point with that coordinate. *)
Theorem point_encoding (P : point) h p2 (s : bytes) : P3_ok h P -> P2_ok p2 P ->
  bytes_ok s -> length s = 32%nat ->
  (exists e, geP3ToBytes h = Some e /\ geToBytes p2 = Some e /\ encodes P e /\
    exists h', geFromBytesNegateVartime e = Some (0%Z, Some h') /\ P3_ok h' (popp P)) /\
  (exists c o, geFromBytesNegateVartime s = Some (c, o) /\ decodes s c o).
Proof.
  intros Hh H2 Hs Hl. split.
  - destruct (geP3ToBytes_ok h P Hh) as (e & -> & He), (geToBytes_ok p2 P H2) as (e' & -> & He').
    exists e. split; [done|]. split; [by rewrite (encodes_unique P e e')|]. split; [exact He|].
    destruct (decode_encodes P e He) as (r & -> & h' & -> & Hh'). by exists h'.
  - destruct (decode_ok s Hs Hl) as ([c o] & -> & Hd). by exists c, o.
Qed.

(** The identity with the coordinates of [GeP1P1], and cached. *)
Lemma ge_operations_witness :
  exists c, returns (geAdd geP30 c) (fun r => P1P1_ok r (padd pzero pzero)).
Proof.
  destruct (geP2dbl_ok geP20 pzero geP20_ok) as (p1 & _ & H1). rewrite (left_id pzero padd) in H1.
  destruct (geP3ToCached_ok geP30 pzero geP30_ok) as (c & _ & Hc). exists c.
  destruct (ge_operations pzero pzero geP20 geP30 p1 c gePrecomp0) as [[H _] _].
  - exact geP20_ok.
  - exact geP30_ok.
  - exact H1.
  - exact Hc.
  - exact gePrecomp0_ok.
  - exact H.
Defined.

Lemma point_encoding_witness :
  exists c o, geFromBytesNegateVartime (replicate 32 2%Z) = Some (c, o) /\ decodes (replicate 32 2%Z) c o.
Proof.
  apply (point_encoding pzero geP30 geP20 (replicate 32 2%Z) geP30_ok geP20_ok).
  - apply Forall_replicate. unfold byte_ok. lia.
  - reflexivity.
Defined.
