(* ===== verification/Ed25519Mult.v ===== *)
(** * Ed25519Mult: libp2p/crypto/ed25519/ed25519.nim, the multiples of a point

[geScalarMultBase] multiplies the base point with signed digits of four bits and the table
[BasePrecomp]; [geDoubleScalarMultVartime] computes [a A + b B] with the signed digits that
[slide] chooses.  Digits are [int8], with its overflow checks.  The loops over the 64 and the 256
digits are recursions over the list of the digits; [slide_while] has the six turns that its
condition on [b] allows. *)
From Stdlib Require Import Zmod Field.
From S2P Require Import Prelude Endians Ed25519Field Edwards Ed25519Group Ed25519Tables.

#[local] Open Scope Z_scope.

Definition add8 (x y : Z) : option Z := checked 8 (x + y).
Definition sub8 (x y : Z) : option Z := checked 8 (x - y).

(** Unary minus on [uint8]. *)
Definition neg_uint8 (x : Z) : Z := wrap 8 (0xFF - x + 1).

Definition equal (b c : Z) : Z :=
  let ub := wrap 8 b in
  let uc := wrap 8 c in
  let x := Z.lxor ub uc in
  let y := wrap 32 (x - 1) in
  let y := Z.shiftr y 31 in
  cast_byte y.

Definition negative (b : Z) : Z := cast_byte (Z.shiftr (wrap 8 b) 7).

Definition babs_of (b : Z) : Z :=
  let bnegative := negative b in
  wrap 8 (wrap 8 b - wrap 8 (Z.shiftl (Z.land (neg_uint8 bnegative) (wrap 8 b)) 1)).

Definition cmov_at (row : list GePrecomp) (babs : Z) (t : GePrecomp) (j : nat) : option GePrecomp :=
  u ← row !! j;
  Some (cmov t u (equal (cast_int 8 babs) (Z.of_nat (j + 1)))).

Definition select (pos : nat) (b : Z) : option GePrecomp :=
  let bnegative := negative b in
  let babs := babs_of b in
  row ← BasePrecomp !! pos;
  t ← cmov_at row babs gePrecomp0 0;
  t ← cmov_at row babs t 1;
  t ← cmov_at row babs t 2;
  t ← cmov_at row babs t 3;
  t ← cmov_at row babs t 4;
  t ← cmov_at row babs t 5;
  t ← cmov_at row babs t 6;
  t ← cmov_at row babs t 7;
  xy ← feNeg (xy2d t);
  let minust := mkGePrecomp (feCopy (yminusx t)) (feCopy (yplusx t)) xy in
  Some (cmov t minust bnegative).

(** The digits of [geScalarMultBase]: the halves of the first 32 bytes ... *)
Definition nibbles (a : bytes) : option (list Z) :=
  mjoin <$> mapM (fun i => b ← a !! i;
    Some [cast_int 8 (Z.land (Z.shiftr b 0) 15); cast_int 8 (Z.land (Z.shiftr b 4) 15)]) (seq 0 32).

(** ... and what the loop over [i] makes of them: from 0 to 15 to from -8 to 8. *)
Fixpoint recode (e : list Z) (carry : Z) : option (list Z) :=
  match e with
  | [] => Some []
  | [e63] => x ← add8 e63 carry; Some [x]
  | ei :: rest =>
      ei ← add8 ei carry;
      c ← add8 ei 8;
      let carry := ashr c 4 in
      ei ← sub8 ei (shl_int 8 carry 4);
      rest ← recode rest carry;
      Some (ei :: rest)
  end.

Fixpoint add_digits (e : list Z) (h : GeP3) (idx : list nat) : option GeP3 :=
  match idx with
  | [] => Some h
  | i :: idx =>
      ei ← e !! i;
      t ← select (i / 2) ei;
      r ← geMadd h t;
      h ← geP1P1toP3 r;
      add_digits e h idx
  end.

Definition odd_digits : list nat := (fun k => 2 * k + 1)%nat <$> seq 0 32.

Definition even_digits : list nat := (fun k => 2 * k)%nat <$> seq 0 32.

Definition geScalarMultBase (a : bytes) : option GeP3 :=
  e ← nibbles a;
  e ← recode e 0;
  h ← add_digits e geP30 odd_digits;
  r ← geP3dbl h;
  s ← geP1P1toP2 r;
  r ← geP2dbl s;
  s ← geP1P1toP2 r;
  r ← geP2dbl s;
  s ← geP1P1toP2 r;
  r ← geP2dbl s;
  h ← geP1P1toP3 r;
  add_digits e h even_digits.

(** The loop over [k] in [slide]: [r[k]] and what follows. *)
Fixpoint propagate (r : list Z) : list Z :=
  match r with
  | [] => []
  | x :: r => if x =? 0 then 1 :: r else 0 :: propagate r
  end.

(** The [while] loop of [slide]: [x] is [r[i]] and [rest] what follows it. *)
Fixpoint slide_while (fuel b : nat) (x : Z) (rest : list Z) : option (Z * list Z) :=
  match fuel with
  | O => Some (x, rest)
  | S fuel =>
      if (b <=? 6)%nat && (b <=? length rest)%nat then
        y ← rest !! (b - 1)%nat;
        if y =? 0 then slide_while fuel (b + 1) x rest
        else
          sum ← add8 x (shl_int 8 y (Z.of_nat b));
          if sum <=? 15 then slide_while fuel (b + 1) sum (<[(b - 1)%nat := 0]> rest)
          else
            diff ← sub8 x (shl_int 8 y (Z.of_nat b));
            if -15 <=? diff then
              slide_while fuel (b + 1) diff (take (b - 1) rest ++ propagate (drop (b - 1) rest))
            else Some (x, rest)
      else Some (x, rest)
  end.

Fixpoint slide_loop (n : nat) (r : list Z) : option (list Z) :=
  match n, r with
  | S n, x :: rest =>
      '(x, rest) ← (if x =? 0 then Some (x, rest) else slide_while 6 1 x rest);
      rest ← slide_loop n rest;
      Some (x :: rest)
  | _, _ => Some r
  end.

Definition slide_bits (a : bytes) : option (list Z) :=
  mapM (fun i => b ← a !! (i / 8)%nat;
    Some (cast_int 8 (Z.land 1 (Z.shiftr b (Z.of_nat (i mod 8)))))) (seq 0 256).

Definition slide (a : bytes) : option (list Z) := r ← slide_bits a; slide_loop 256 r.

(** [ai[j + 1]], ... from [ai[j]] and twice the point. *)
Fixpoint odd_multiples (n : nat) (a2 : GeP3) (c : GeCached) : option (list GeCached) :=
  match n with
  | O => Some [c]
  | S n =>
      t ← geAdd a2 c;
      u ← geP1P1toP3 t;
      c' ← geP3ToCached u;
      cs ← odd_multiples n a2 c';
      Some (c :: cs)
  end.

Fixpoint skip_zeros (ds : list (Z * Z)) : list (Z * Z) :=
  match ds with
  | (x, y) :: ds' => if negb (x =? 0) || negb (y =? 0) then ds else skip_zeros ds'
  | [] => []
  end.

Definition add_cached (ai : list GeCached) (x : Z) (t : GeP1P1) : option GeP1P1 :=
  if 0 <? x then
    u ← geP1P1toP3 t;
    q ← ai !! Z.to_nat (x / 2);
    geAdd u q
  else if x <? 0 then
    u ← geP1P1toP3 t;
    m ← sub8 0 x;
    q ← ai !! Z.to_nat (m / 2);
    geSub u q
  else Some t.

Definition add_base (y : Z) (t : GeP1P1) : option GeP1P1 :=
  if 0 <? y then
    u ← geP1P1toP3 t;
    q ← BiPrecomp !! Z.to_nat (y / 2);
    geMadd u q
  else if y <? 0 then
    u ← geP1P1toP3 t;
    m ← sub8 0 y;
    q ← BiPrecomp !! Z.to_nat (m / 2);
    geMsub u q
  else Some t.

(** The loop over [k]: the digits come from the highest. *)
Fixpoint mult_loop (ai : list GeCached) (ds : list (Z * Z)) (r : GeP2) : option GeP2 :=
  match ds with
  | [] => Some r
  | (x, y) :: ds =>
      t ← geP2dbl r;
      t ← add_cached ai x t;
      t ← add_base y t;
      r ← geP1P1toP2 t;
      mult_loop ai ds r
  end.

Definition geDoubleScalarMultVartime (a : bytes) (A : GeP3) (b : bytes) : option GeP2 :=
  aslide ← slide a;
  bslide ← slide b;
  c ← geP3ToCached A;
  t ← geP3dbl A;
  a2 ← geP1P1toP3 t;
  ai ← odd_multiples 7 a2 c;
  mult_loop ai (skip_zeros (rev (zip aslide bslide))) geP20.

Example slide_example : slide (243 :: replicate 31 0) =
  Some ([-13; 0; 0; 0; 0; 0; 0; 0; 1] ++ replicate 247 0).
Proof. vm_compute. reflexivity. Qed.

(** ** Selecting from the table *)

Definition small_digits : list Z := [-8; -7; -6; -5; -4; -3; -2; -1; 0; 1; 2; 3; 4; 5; 6; 7; 8].

Lemma small_digit b : -8 <= b <= 8 -> In b small_digits.
Proof. intros Hb. unfold small_digits. cbn [In]. lia. Qed.

Lemma negative_small b : -8 <= b <= 8 -> negative b = if b <? 0 then 1 else 0.
Proof.
  intros Hb%small_digit. revert b Hb. apply List.Forall_forall.
  repeat constructor; vm_compute; reflexivity.
Qed.

Lemma babs_small b : -8 <= b <= 8 -> babs_of b = Z.abs b.
Proof.
  intros Hb%small_digit. revert b Hb. apply List.Forall_forall.
  repeat constructor; vm_compute; reflexivity.
Qed.

(** The eight [cmov] in a row. *)
Lemma equal_small c j : 0 <= c <= 8 -> (j < 8)%nat ->
  equal (cast_int 8 c) (Z.of_nat (j + 1)) = if c =? Z.of_nat (j + 1) then 1 else 0.
Proof.
  intros Hc Hj. assert (Hi : In c [0; 1; 2; 3; 4; 5; 6; 7; 8]) by (cbn [In]; lia).
  assert (Hk : In j (seq 0 8)) by (apply in_seq; lia). clear Hc Hj.
  revert c Hi. apply List.Forall_forall. revert j Hk. apply List.Forall_forall.
  repeat constructor; vm_compute; reflexivity.
Qed.

Lemma cmov_at_spec row c t j u : 0 <= c <= 8 -> (j < 8)%nat -> row !! j = Some u ->
  cmov_at row c t j = Some (if c =? Z.of_nat (j + 1) then u else t).
Proof.
  intros Hc Hj Hu. unfold cmov_at. rewrite Hu. cbn [mbind option_bind].
  rewrite equal_small by done. rewrite cmov_spec by (destruct (_ =? _); auto).
  by destruct (c =? Z.of_nat (j + 1)).
Qed.

Lemma cmov_bind {A} row c t j u (K : GePrecomp -> option A) Q : 0 <= c <= 8 -> (j < 8)%nat ->
  row !! j = Some u -> returns (K (if c =? Z.of_nat (j + 1) then u else t)) Q ->
  returns (cmov_at row c t j ≫= K) Q.
Proof. intros Hc Hj Hu HK. by rewrite (cmov_at_spec _ _ _ _ u). Qed.

(** [b] times the [pos]-th power of 256. *)
Lemma select_ok pos b : (pos < 32)%nat -> -8 <= b <= 8 ->
  returns (select pos b) (fun t => precomp_ok t (smul (b * 256 ^ Z.of_nat pos) B)).
Proof.
  intros Hpos Hb. pose proof (BasePrecomp_ok pos) as Htab.
  assert (Hrow : exists row, BasePrecomp !! pos = Some row /\ forall j, (j < 8)%nat ->
    exists e, row !! j = Some e /\ precomp_ok e (smul ((Z.of_nat j + 1) * 256 ^ Z.of_nat pos) B)).
  { destruct (Htab 0%nat Hpos ltac:(lia)) as (row & _ & Hrow & _). exists row. split; [done|].
    intros j Hj. destruct (Htab j Hpos Hj) as (row' & e & Hrow' & He & Hok).
    exists e. rewrite Hrow in Hrow'. injection Hrow' as <-. done. }
  clear Htab. destruct Hrow as (row & Hrow & Hent). unfold select. rewrite Hrow.
  cbn [mbind option_bind]. rewrite babs_small, negative_small by done.
  assert (Hc : 0 <= Z.abs b <= 8) by lia.
  assert (Ec : Z.abs b = b \/ Z.abs b = - b /\ b < 0) by lia. set (c := Z.abs b) in *. clearbody c.
  destruct (Hent 0%nat ltac:(lia)) as (e0 & H0 & K0), (Hent 1%nat ltac:(lia)) as (e1 & H1 & K1),
    (Hent 2%nat ltac:(lia)) as (e2 & H2 & K2), (Hent 3%nat ltac:(lia)) as (e3 & H3 & K3),
    (Hent 4%nat ltac:(lia)) as (e4 & H4 & K4), (Hent 5%nat ltac:(lia)) as (e5 & H5 & K5),
    (Hent 6%nat ltac:(lia)) as (e6 & H6 & K6), (Hent 7%nat ltac:(lia)) as (e7 & H7 & K7).
  do 8 (eapply cmov_bind; [exact Hc|lia|eassumption|]).
  match goal with |- returns (feNeg (xy2d ?t) ≫= _) _ =>
    assert (Ht : precomp_ok t (smul (c * 256 ^ Z.of_nat pos) B)); [|generalize dependent t] end.
  { assert (Hi : In c [0; 1; 2; 3; 4; 5; 6; 7; 8]) by (cbn [In]; lia).
    destruct Hi as [<-|[<-|[<-|[<-|[<-|[<-|[<-|[<-|[<-|[]]]]]]]]]];
      [exact gePrecomp0_ok|exact K0|exact K1|exact K2|exact K3|exact K4|exact K5|exact K6|exact K7]. }
  intros t (Hp & Hm & Hxy & Hca).
  eapply neg_bind; [exact Hxy|done|]. intros xy Hxy' Exy. apply returns_ret.
  rewrite cmov_spec by (destruct (b <? 0); auto). rewrite !feCopy_id.
  destruct (Z.ltb_spec b 0) as [Hn|Hn]; cbn [Z.eqb Pos.eqb].
  - replace (b * 256 ^ Z.of_nat pos) with (- (c * 256 ^ Z.of_nat pos))
      by (replace c with (- b) by lia; ring). rewrite smul_opp.
    unfold precomp_ok. cbn [yplusx yminusx xy2d]. do 3 (split; [assumption|]). rewrite Exy.
    by apply cached_opp.
  - replace b with c by lia. unfold precomp_ok. by split_and!.
Qed.

(** ** The digits of the base *)

Definition val16 (e : list Z) : Z := foldr (fun x v => x + 16 * v) 0 e.

Lemma val16_app l k : val16 (l ++ k) = val16 l + 16 ^ Z.of_nat (length l) * val16 k.
Proof.
  unfold val16. induction l as [|x l IH]; cbn [app foldr length].
  - rewrite Z.pow_0_r. lia.
  - rewrite IH, Nat2Z.inj_succ, Z.pow_succ_r by lia. ring.
Qed.

Lemma recode_ok e carry : Forall (fun x => 0 <= x <= 15) e -> 0 <= carry <= 1 ->
  (forall x, last e = Some x -> x <= 7) ->
  returns (recode e carry) (fun e' => length e' = length e /\
    val16 e' = val16 e + match e with [] => 0 | _ => carry end /\ Forall (fun x => -8 <= x <= 8) e').
Proof.
  intros He. revert carry. induction He as [|x e Hx He IH]; intros carry Hc Hl; [by apply returns_ret|].
  destruct e as [|x' e].
  - cbn [recode]. specialize (Hl x eq_refl). unfold add8. rewrite checked_Some by (cbn; lia).
    apply returns_ret. split; [done|]. split; [cbn; lia|]. repeat constructor; lia.
  - change (recode (x :: x' :: e) carry) with (ei ← add8 x carry; c ← add8 ei 8;
      ei ← sub8 ei (shl_int 8 (ashr c 4) 4); rest ← recode (x' :: e) (ashr c 4); Some (ei :: rest)).
    unfold add8. rewrite checked_Some by (cbn; lia). cbn [mbind option_bind].
    rewrite checked_Some by (cbn; lia). cbn [mbind option_bind]. rewrite ashr_div by lia.
    assert (Hcar : 0 <= (x + carry + 8) / 2 ^ 4 <= 1 /\
      -8 <= x + carry - 16 * ((x + carry + 8) / 2 ^ 4) <= 7).
    { change (2 ^ 4) with 16. Z.div_mod_to_equations. lia. }
    destruct Hcar as [Hc' Hd]. set (c' := (x + carry + 8) / 2 ^ 4) in *. clearbody c'.
    assert (Es : shl_int 8 c' 4 = 16 * c').
    { assert (c' = 0 \/ c' = 1) as [-> | ->] by lia; reflexivity. }
    rewrite Es. unfold sub8. rewrite checked_Some by (cbn; lia). cbn [mbind option_bind].
    eapply returns_bind; [apply (IH c' Hc')|].
    { intros z Hz. by apply Hl. }
    intros rest (Hlen & Hv & Hall). apply returns_ret. split; [cbn [length] in *; lia|].
    split; [|constructor; [lia|done]]. cbn [val16 foldr] in *. unfold val16 in Hv. lia.
Qed.

Lemma mapM_app_Some {A D} (f : A -> option D) l k l' k' : mapM f l = Some l' -> mapM f k = Some k' ->
  mapM f (l ++ k) = Some (l' ++ k').
Proof. rewrite !mapM_Some. apply Forall2_app. Qed.

(** Reading the bytes of an array in order. *)
Lemma mapM_bytes {A} (f : Z -> A) (a : bytes) n : (n <= length a)%nat ->
  mapM (fun i => b ← a !! i; Some (f b)) (seq 0 n) = Some (f <$> take n a).
Proof.
  intros Hn. induction n as [|n IH]; [done|].
  destruct (lookup_lt_is_Some_2 a n) as [b Hb]; [lia|].
  rewrite seq_S, (take_S_r _ _ b), fmap_app by done. apply mapM_app_Some; [apply IH; lia|].
  cbn [mapM Nat.add]. by rewrite Hb.
Qed.

Definition nibbles_of (b : Z) : list Z :=
  [cast_int 8 (Z.land (Z.shiftr b 0) 15); cast_int 8 (Z.land (Z.shiftr b 4) 15)].

Lemma nibbles_of_val b : byte_ok b -> nibbles_of b = [b mod 16; b / 16].
Proof.
  unfold byte_ok. intros Hb. unfold nibbles_of. change 15 with (Z.ones 4).
  rewrite !Z.land_ones, !Z.shiftr_div_pow2 by lia. change (2 ^ 4) with 16. change (2 ^ 0) with 1.
  rewrite Z.div_1_r. rewrite !cast_int_small; [|lia|cbn; Z.div_mod_to_equations; lia..].
  do 2 f_equal. apply Z.mod_small. Z.div_mod_to_equations. lia.
Qed.

Lemma nibbles_ok a : bytes_ok a -> (32 <= length a)%nat -> le_value (take 32 a) < 2 ^ 255 ->
  exists e, nibbles a = Some e /\ length e = 64%nat /\ Forall (fun x => 0 <= x <= 15) e /\
    val16 e = le_value (take 32 a) /\ (forall x, last e = Some x -> x <= 7).
Proof.
  intros Ha Hl Hv. unfold nibbles.
  rewrite (mapM_bytes nibbles_of) by done. cbn [fmap option_fmap option_map].
  eexists. split; [done|].
  assert (Hs : bytes_ok (take 32 a)) by (by apply Forall_take).
  assert (Hn : length (take 32 a) = 32%nat) by (rewrite length_take; lia).
  set (s := take 32 a) in *. clearbody s. clear Ha Hl a.
  assert (Hgen : forall l, bytes_ok l -> length (mjoin (nibbles_of <$> l)) = (2 * length l)%nat /\
    Forall (fun x => 0 <= x <= 15) (mjoin (nibbles_of <$> l)) /\
    val16 (mjoin (nibbles_of <$> l)) = le_value l).
  { intros l Hb. induction Hb as [|b l Hb _ IH]; [by repeat split|].
    change (mjoin (nibbles_of <$> b :: l)) with (nibbles_of b ++ mjoin (nibbles_of <$> l)).
    rewrite nibbles_of_val by done. destruct IH as (IH1 & IH2 & IH3).
    unfold byte_ok in Hb. split; [rewrite length_app, IH1; cbn [length]; lia|].
    split; [apply Forall_app; split; [repeat constructor; Z.div_mod_to_equations; lia|done]|].
    rewrite val16_app, IH3. cbn [le_value length]. unfold val16. cbn [foldr].
    change (16 ^ Z.of_nat 2) with 256. Z.div_mod_to_equations. lia. }
  destruct (Hgen s Hs) as (H1 & H2 & H3). split; [by rewrite H1, Hn|]. do 2 (split; [done|]).
  destruct (last_byte s Hn) as (low & b & -> & Hlow & _). intros x.
  apply Forall_app in Hs as [Hs Hb]. assert (Hb' : byte_ok b) by (by inversion Hb).
  rewrite fmap_app, join_app. change (mjoin (nibbles_of <$> [b])) with (nibbles_of b ++ []).
  rewrite nibbles_of_val, app_nil_r by done. change [b mod 16; b / 16] with ([b mod 16] ++ [b / 16]).
  rewrite app_assoc, last_snoc. intros [= <-].
  pose proof (le_value_bound low Hs) as Hbl. rewrite le_value_snoc, Hlow in *.
  change (8 * Z.of_nat 31) with 248 in *. enough (b < 128) by (Z.div_mod_to_equations; lia).
  revert Hv Hbl. pow2. lia.
Qed.

(** ** Multiples of the base point *)

Definition digits_sum (e : list Z) (idx : list nat) : Z :=
  foldr (fun i v => default 0 (e !! i) * 256 ^ Z.of_nat (i / 2) + v) 0 idx.

Lemma digits_sum_app e l k : digits_sum e (l ++ k) = digits_sum e l + digits_sum e k.
Proof.
  induction l as [|i l IH]; [done|]. unfold digits_sum in *. cbn [app foldr]. rewrite IH. lia.
Qed.

Lemma add_digits_ok e idx h P : P3_ok h P -> length e = 64%nat -> Forall (fun x => -8 <= x <= 8) e ->
  Forall (fun i => (i < 64)%nat) idx ->
  returns (add_digits e h idx) (fun h' => P3_ok h' (padd P (smul (digits_sum e idx) B))).
Proof.
  intros Hh Hl He Hidx. revert h P Hh. induction Hidx as [|i idx Hi _ IH]; intros h P Hh.
  { apply returns_ret. change (smul (digits_sum e []) B) with pzero. by rewrite (right_id pzero padd). }
  cbn [add_digits]. destruct (lookup_lt_is_Some_2 e i) as [ei Hei]; [lia|]. rewrite Hei.
  cbn [mbind option_bind].
  pose proof (proj1 (Forall_lookup _ _) He i ei Hei) as Hb. cbv beta in Hb.
  eapply returns_bind; [apply select_ok; [by apply Nat.Div0.div_lt_upper_bound|exact Hb]|].
  intros t Ht. eapply returns_bind; [exact (geMadd_ok _ _ _ _ Hh Ht)|]. intros r Hr.
  eapply returns_bind; [exact (geP1P1toP3_ok _ _ Hr)|]. intros h' Hh'.
  eapply returns_mono; [exact (IH _ _ Hh')|]. intros h'' Hh''.
  assert (Es : digits_sum e (i :: idx) = ei * 256 ^ Z.of_nat (i / 2) + digits_sum e idx).
  { unfold digits_sum. cbn [foldr]. by rewrite Hei. }
  by rewrite Es, smul_add, (assoc padd).
Qed.

Lemma digits_sum_val e n : length e = (2 * n)%nat ->
  val16 e = 16 * digits_sum e ((fun k => 2 * k + 1)%nat <$> seq 0 n) +
    digits_sum e ((fun k => 2 * k)%nat <$> seq 0 n).
Proof.
  intros Hl. rewrite <- (firstn_all e) at 1. rewrite Hl.
  assert (Hn : (2 * n <= length e)%nat) by lia. clear Hl. induction n as [|n IH]; [done|].
  rewrite !seq_S, !fmap_app, !digits_sum_app. cbn [fmap list_fmap Nat.add].
  destruct (lookup_lt_is_Some_2 e (2 * n)) as [x Hx]; [lia|].
  destruct (lookup_lt_is_Some_2 e (2 * n + 1)) as [y Hy]; [lia|].
  replace (2 * S n)%nat with (S (2 * n + 1)) by lia.
  rewrite (take_S_r _ _ y), Nat.add_1_r, (take_S_r _ _ x) by (rewrite <- ?Nat.add_1_r; done).
  rewrite <- app_assoc, val16_app, IH, length_take by lia.
  replace ((2 * n) `min` length e)%nat with (2 * n)%nat by lia.
  unfold digits_sum at 4 6. cbn [foldr]. rewrite Hx.
  replace (S (2 * n)) with (2 * n + 1)%nat by lia. rewrite Hy. cbn [default].
  replace ((2 * n + 1) / 2)%nat with n by (rewrite Nat.mul_comm, Nat.div_add_l; [cbn; lia|lia]).
  replace ((2 * n) / 2)%nat with n by (rewrite Nat.mul_comm, Nat.div_mul; lia).
  replace (16 ^ Z.of_nat (2 * n)) with (256 ^ Z.of_nat n)
    by (rewrite Nat2Z.inj_mul, Z.pow_mul_r by lia; done).
  unfold val16. cbn [foldr app]. unfold id. ring.
Qed.

Lemma odd_digits_lt : Forall (fun i => (i < 64)%nat) odd_digits.
Proof. repeat constructor. Qed.

Lemma even_digits_lt : Forall (fun i => (i < 64)%nat) even_digits.
Proof. repeat constructor. Qed.

Lemma geScalarMultBase_ok a : bytes_ok a -> (32 <= length a)%nat -> le_value (take 32 a) < 2 ^ 255 ->
  returns (geScalarMultBase a) (fun h => P3_ok h (smul (le_value (take 32 a)) B)).
Proof.
  intros Ha Hl Hv. destruct (nibbles_ok a Ha Hl Hv) as (e0 & E0 & Hl0 & Hn0 & Hv0 & Hlast).
  unfold geScalarMultBase. rewrite E0. cbn [mbind option_bind].
  eapply returns_bind; [by apply (recode_ok e0 0); [|lia|]|]. intros e (Hle & Hve & Hde).
  assert (Eval : val16 e = le_value (take 32 a)).
  { rewrite Hve, <- Hv0. destruct e0; lia. }
  rewrite Hl0 in Hle. clear E0 Hn0 Hlast Hve Hl0 e0 Hv0.
  pose proof (digits_sum_val e 32 Hle) as Hsum. rewrite Eval in Hsum.
  fold odd_digits even_digits in Hsum.
  eapply returns_bind; [apply (add_digits_ok e odd_digits _ pzero geP30_ok Hle Hde odd_digits_lt)|].
  intros h Hh. cbv beta in Hh. rewrite (left_id pzero padd) in Hh. set (P := smul (digits_sum e odd_digits) B) in *.
  eapply returns_bind; [exact (geP3dbl_ok _ _ Hh)|]. intros r1 H1.
  eapply returns_bind; [exact (geP1P1toP2_ok _ _ H1)|]. intros s1 H2.
  eapply returns_bind; [exact (geP2dbl_ok _ _ H2)|]. intros r2 H3.
  eapply returns_bind; [exact (geP1P1toP2_ok _ _ H3)|]. intros s2 H4.
  eapply returns_bind; [exact (geP2dbl_ok _ _ H4)|]. intros r3 H5.
  eapply returns_bind; [exact (geP1P1toP2_ok _ _ H5)|]. intros s3 H6.
  eapply returns_bind; [exact (geP2dbl_ok _ _ H6)|]. intros r4 H7.
  eapply returns_bind; [exact (geP1P1toP3_ok _ _ H7)|]. intros h' H8.
  eapply returns_mono; [apply (add_digits_ok e even_digits _ _ H8 Hle Hde even_digits_lt)|].
  intros h'' H9. cbv beta in H9 |- *. rewrite Hsum, smul_add, smul_mul. fold P.
  rewrite <- !smul_2, <- !smul_mul in H9. exact H9.
Qed.

(** ** The signed digits of [slide] *)

Definition val2 (r : list Z) : Z := foldr (fun x v => x + 2 * v) 0 r.

Definition bit_ok (x : Z) : Prop := x = 0 \/ x = 1.

Lemma val2_app l k : val2 (l ++ k) = val2 l + 2 ^ Z.of_nat (length l) * val2 k.
Proof.
  unfold val2. induction l as [|x l IH]; cbn [app foldr length].
  - rewrite Z.pow_0_r. lia.
  - rewrite IH, Nat2Z.inj_succ, Z.pow_succ_r by lia. ring.
Qed.

Lemma val2_bits r : Forall bit_ok r -> 0 <= val2 r < 2 ^ Z.of_nat (length r).
Proof.
  induction 1 as [|x r Hx _ IH]; [done|]. cbn [length]. rewrite Nat2Z.inj_succ, Z.pow_succ_r by lia.
  change (val2 (x :: r)) with (x + 2 * val2 r). destruct Hx as [-> | ->]; lia.
Qed.

(** The carry is lost only when all the bits are set. *)
Lemma propagate_ok r : Forall bit_ok r -> val2 r + 1 < 2 ^ Z.of_nat (length r) ->
  length (propagate r) = length r /\ Forall bit_ok (propagate r) /\ val2 (propagate r) = val2 r + 1.
Proof.
  induction 1 as [|x r Hx Hr IH]; intros Hv; [cbn in Hv; lia|].
  change (val2 (x :: r)) with (x + 2 * val2 r) in *. cbn [length] in Hv.
  rewrite Nat2Z.inj_succ, Z.pow_succ_r in Hv by lia. cbn [propagate].
  destruct Hx as [-> | ->]; cbn [Z.eqb].
  - split; [done|]. split; [constructor; [by right|done]|].
    change (val2 (1 :: r)) with (1 + 2 * val2 r). lia.
  - destruct IH as (H1 & H2 & H3); [lia|]. split; [cbn [length]; lia|].
    split; [constructor; [by left|done]|]. change (val2 (0 :: propagate r)) with (0 + 2 * val2 (propagate r)). lia.
Qed.

(** The digit chosen is odd and small; when it is negative, the carry makes the next four zero. *)
Definition digit_ok (x : Z) : Prop := x = 0 \/ x mod 2 = 1 /\ -15 <= x <= 15.

Definition chosen (rest : list Z) (x' : Z) (rest' : list Z) : Prop :=
  length rest' = length rest /\ Forall bit_ok rest' /\ digit_ok x' /\
  x' + 2 * val2 rest' = 1 + 2 * val2 rest /\
  (0 < x' \/ x' < 0 /\ val2 rest' mod 16 = 0 /\ 16 < 1 + 2 * val2 rest).

Ltac bits := repeat match goal with H : bit_ok ?y |- _ => destruct H as [-> | ->] end.

(** Four bits and more: the next bits, when set, end the loop. *)
Lemma slide_while_long y1 y2 y3 y4 rest : bit_ok y1 -> bit_ok y2 -> bit_ok y3 -> bit_ok y4 ->
  Forall bit_ok rest -> slide_while 6 1 1 (y1 :: y2 :: y3 :: y4 :: rest) =
  Some (if y4 =? 0 then (1 + 2 * y1 + 4 * y2 + 8 * y3, 0 :: 0 :: 0 :: 0 :: rest)
        else (1 + 2 * y1 + 4 * y2 + 8 * y3 - 16, 0 :: 0 :: 0 :: propagate (1 :: rest))).
Proof.
  intros H1 H2 H3 H4 Hr. change (propagate (1 :: rest)) with (0 :: propagate rest).
  destruct Hr as [|y5 rest H5 Hr]; [by bits|].
  destruct Hr as [|y6 rest H6 Hr]; [by bits|]. by bits.
Qed.

Lemma slide_while_short rest : Forall bit_ok rest -> (length rest < 4)%nat ->
  slide_while 6 1 1 rest = Some (1 + 2 * val2 rest, replicate (length rest) 0).
Proof.
  intros Hr Hl. destruct Hr as [|y1 rest H1 Hr]; [done|]. destruct Hr as [|y2 rest H2 Hr]; [by bits|].
  destruct Hr as [|y3 rest H3 Hr]; [by bits|]. destruct Hr as [|y4 rest H4 Hr]; [by bits|].
  cbn [length] in Hl. lia.
Qed.

Lemma slide_while_ok rest : Forall bit_ok rest ->
  val2 rest + 8 < 2 ^ Z.of_nat (length rest) \/ val2 rest < 8 ->
  exists x' rest', slide_while 6 1 1 rest = Some (x', rest') /\ chosen rest x' rest'.
Proof.
  intros Hr Hv. destruct (decide (length rest < 4)%nat) as [Hs|Hl].
  - rewrite slide_while_short by done. eexists _, _. split; [done|].
    pose proof (val2_bits rest Hr) as Hb.
    assert (H2 : 2 ^ Z.of_nat (length rest) <= 2 ^ 3) by (apply Z.pow_le_mono_r; lia).
    assert (E0 : val2 (replicate (length rest) 0) = 0).
    { clear. induction (length rest) as [|n IH]; [done|].
      change (val2 (replicate (S n) 0)) with (0 + 2 * val2 (replicate n 0)). lia. }
    change (2 ^ 3) with 8 in H2. unfold chosen, digit_ok. rewrite E0, length_replicate.
    split; [done|]. split; [by apply Forall_replicate; left|].
    split; [right; split; [Z.div_mod_to_equations; lia|lia]|]. lia.
  - destruct Hr as [|y1 rest H1 Hr]; [cbn in Hl; lia|]. destruct Hr as [|y2 rest H2 Hr]; [cbn in Hl; lia|].
    destruct Hr as [|y3 rest H3 Hr]; [cbn in Hl; lia|]. destruct Hr as [|y4 rest H4 Hr]; [cbn in Hl; lia|].
    clear Hl. rewrite slide_while_long by done.
    assert (Ev : forall a b c l, val2 (a :: b :: c :: l) = a + 2 * b + 4 * c + 8 * val2 l).
    { intros. unfold val2. cbn [foldr]. lia. }
    assert (Ec : forall a l, val2 (a :: l) = a + 2 * val2 l) by done.
    pose proof (val2_bits rest Hr) as Hb. unfold chosen, digit_ok. rewrite Ev, Ec in Hv |- *.
    destruct H4 as [-> | ->]; cbn [Z.eqb].
    + eexists _, _. split; [done|]. split; [done|].
      split; [do 4 (constructor; [by left|]); exact Hr|].
      rewrite Ev, Ec. unfold bit_ok in H1, H2, H3.
      split; [right; split; [Z.div_mod_to_equations; lia|lia]|]. lia.
    + cbn [length] in Hv. rewrite !Nat2Z.inj_succ, !Z.pow_succ_r in Hv by lia.
      destruct (propagate_ok (1 :: rest)) as (P1 & P2 & P3); [by constructor; [right|]| |].
      { rewrite Ec. cbn [length]. rewrite Nat2Z.inj_succ, Z.pow_succ_r by lia.
        unfold bit_ok in H1, H2, H3. lia. }
      rewrite Ec in P3. eexists _, _. split; [done|]. rewrite Ev, P3.
      split; [cbn [length] in *; lia|]. split; [do 3 (constructor; [by left|]); exact P2|].
      unfold bit_ok in H1, H2, H3.
      split; [right; split; [Z.div_mod_to_equations; lia|lia]|]. split; [lia|].
      right. split; [lia|]. split; [|lia].
      replace (0 + 2 * 0 + 4 * 0 + 8 * (1 + 2 * val2 rest + 1)) with ((val2 rest + 1) * 16) by lia.
      apply Z_mod_mult.
Qed.

(** What is left to recode is at most what was there, up to a carry into bits that are zero. *)
Definition tail_ok (A s : Z) (r : list Z) : Prop :=
  exists t, 0 <= t <= 4 /\ val2 r mod 2 ^ t = 0 /\ val2 r * s <= A + 2 ^ t * s.

Lemma tail_even A s r : 0 < s -> tail_ok A s (0 :: r) -> tail_ok A (2 * s) r.
Proof.
  intros Hs (t & Ht & Hm & Hb). change (val2 (0 :: r)) with (0 + 2 * val2 r) in *.
  destruct (decide (t = 0)) as [->|Hne].
  - exists 0. split; [lia|]. split; [apply Z.mod_1_r|]. change (2 ^ 0) with 1 in *. nia.
  - exists (t - 1). split; [lia|].
    assert (E : 2 ^ t = 2 * 2 ^ (t - 1)) by (rewrite <- Z.pow_succ_r by lia; f_equal; lia).
    rewrite E in *. split; [|nia]. rewrite Z.add_0_l, Zmult_mod_distr_l in Hm. lia.
Qed.

Lemma tail_odd A s r : 0 < s -> tail_ok A s (1 :: r) -> val2 r * (2 * s) <= A.
Proof.
  intros Hs (t & Ht & Hm & Hb). change (val2 (1 :: r)) with (1 + 2 * val2 r) in *.
  destruct (decide (t = 0)) as [->|Hne]; [change (2 ^ 0) with 1 in *; nia|].
  assert (E : 2 ^ t = 2 * 2 ^ (t - 1)) by (rewrite <- Z.pow_succ_r by lia; f_equal; lia).
  rewrite E in Hm. apply Z.mod_divide in Hm as [k Hk]; lia.
Qed.

Lemma tail_chosen A s r x' r' : 0 < s -> val2 r * (2 * s) <= A -> chosen r x' r' ->
  tail_ok A (2 * s) r'.
Proof.
  intros Hs Hb (_ & _ & Hd & Ev & Hx). destruct Hx as [Hx|(Hx & Hm & _)].
  - exists 0. split; [lia|]. split; [apply Z.mod_1_r|]. change (2 ^ 0) with 1. nia.
  - exists 4. split; [lia|]. split; [done|]. change (2 ^ 4) with 16.
    destruct Hd as [->|[_ Hd]]; nia.
Qed.

Lemma slide_loop_ok A n r s : A < 2 ^ 253 -> 0 < s -> Forall bit_ok r -> length r = n ->
  s * 2 ^ Z.of_nat n = 2 ^ 256 -> tail_ok A s r ->
  exists r', slide_loop n r = Some r' /\ length r' = n /\ Forall digit_ok r' /\ val2 r' = val2 r.
Proof.
  intros HA. revert r s. induction n as [|n IH]; intros r s Hs Hr Hl Hw Ht.
  { destruct r; [|done]. by exists []. }
  destruct Hr as [|x r Hx Hr]; [done|]. cbn [length] in Hl.
  rewrite Nat2Z.inj_succ, Z.pow_succ_r in Hw by lia.
  assert (Hw' : 2 * s * 2 ^ Z.of_nat n = 2 ^ 256) by lia.
  destruct Hx as [-> | ->].
  - destruct (IH r (2 * s)) as (r' & E & Hl' & Hd & Hv); [lia|done|lia|done|by apply tail_even|].
    exists (0 :: r'). cbn [slide_loop Z.eqb mbind option_bind]. rewrite E. split; [done|].
    split; [cbn [length]; lia|]. split; [constructor; [by left|done]|].
    unfold val2 in *. cbn [foldr]. lia.
  - pose proof (tail_odd A s r Hs Ht) as Hb. destruct (val2_bits r Hr) as [H0 _].
    destruct (slide_while_ok r Hr) as (x' & r1 & E1 & Hch).
    { destruct (Z.lt_ge_cases (val2 r) 8) as [|H8]; [by right|left].
      replace (length r) with n by lia.
      assert (Hlt : val2 r * 8 < 2 ^ Z.of_nat n); [|lia].
      apply (Z.mul_lt_mono_pos_l (2 * s)); [lia|]. rewrite Hw'.
      change (2 ^ 256) with (8 * 2 ^ 253). lia. }
    pose proof (tail_chosen A s r x' r1 Hs Hb Hch) as Ht1.
    destruct Hch as (Hl1 & Hr1 & Hd1 & Ev1 & _).
    destruct (IH r1 (2 * s)) as (r' & E & Hl' & Hd & Hv); [lia|done|lia|done|done|].
    exists (x' :: r'). cbn [slide_loop]. cbn [Z.eqb]. rewrite E1. cbn [mbind option_bind]. rewrite E.
    split; [done|]. split; [cbn [length]; lia|]. split; [by constructor|].
    unfold val2 in *. cbn [foldr]. lia.
Qed.

(** The bits of the first [n] bytes. *)
Definition bits_of (b : Z) : list Z :=
  (fun j => cast_int 8 (Z.land 1 (Z.shiftr b (Z.of_nat j)))) <$> seq 0 8.

Lemma bits_of_ok b : byte_ok b -> Forall bit_ok (bits_of b) /\ val2 (bits_of b) = b.
Proof.
  intros Hb. pose proof (byte_forall (fun b => forallb (fun x => (x =? 0) || (x =? 1)) (bits_of b) &&
    (val2 (bits_of b) =? b)) b ltac:(by vm_compute) Hb) as Hall.
  apply andb_true_iff in Hall as [H1 H2%Z.eqb_eq].
  split; [|done]. rewrite forallb_forall in H1. apply Forall_forall. intros x Hx%list_elem_of_In.
  destruct (proj1 (orb_true_iff _ _) (H1 x Hx)) as [?%Z.eqb_eq|?%Z.eqb_eq]; [by left|by right].
Qed.

Lemma slide_bits_block (a : bytes) n : (n <= length a)%nat ->
  mapM (fun i => b ← a !! (i / 8)%nat;
    Some (cast_int 8 (Z.land 1 (Z.shiftr b (Z.of_nat (i mod 8)))))) (seq 0 (8 * n)) =
  Some (mjoin (bits_of <$> take n a)).
Proof.
  intros Hn. induction n as [|n IH]; [done|].
  destruct (lookup_lt_is_Some_2 a n) as [b Hb]; [lia|].
  replace (8 * S n)%nat with (8 * n + 8)%nat by lia.
  rewrite seq_app, (take_S_r _ _ b), fmap_app, join_app by done.
  apply mapM_app_Some; [apply IH; lia|].
  change (mjoin (bits_of <$> [b])) with (bits_of b ++ []). rewrite app_nil_r. apply mapM_Some.
  assert (Hj : forall j, (j < 8)%nat -> ((8 * n + j) / 8 = n /\ (8 * n + j) mod 8 = j)%nat).
  { intros j Hj. split.
    - rewrite (Nat.mul_comm 8), Nat.div_add_l, Nat.div_small by lia. lia.
    - rewrite Nat.add_comm, (Nat.mul_comm 8), Nat.Div0.mod_add. by apply Nat.mod_small. }
  rewrite Nat.add_0_l. replace (seq (8 * n) 8) with (Nat.add (8 * n) <$> seq 0 8)
    by (rewrite fmap_add_seq; f_equal; lia).
  unfold bits_of. rewrite Forall2_fmap. apply Forall_Forall2_diag, Forall_forall.
  intros j Hjs%elem_of_seq. destruct (Hj j) as [-> ->]; [lia|]. by rewrite Hb.
Qed.

Lemma slide_ok a : bytes_ok a -> (32 <= length a)%nat -> le_value (take 32 a) < 2 ^ 253 ->
  exists r, slide a = Some r /\ length r = 256%nat /\ Forall digit_ok r /\
    val2 r = le_value (take 32 a).
Proof.
  intros Ha Hl Hv. unfold slide, slide_bits.
  change (seq 0 256) with (seq 0 (8 * 32)). rewrite (slide_bits_block a 32 Hl).
  cbn [mbind option_bind]. assert (Hs : bytes_ok (take 32 a)) by (by apply Forall_take).
  assert (Hn : length (take 32 a) = 32%nat) by (rewrite length_take; lia).
  set (s := take 32 a) in *. clearbody s. clear Ha Hl a.
  assert (Hgen : forall l, bytes_ok l -> length (mjoin (bits_of <$> l)) = (8 * length l)%nat /\
    Forall bit_ok (mjoin (bits_of <$> l)) /\ val2 (mjoin (bits_of <$> l)) = le_value l).
  { intros l Hb. induction Hb as [|b l Hb _ (IH1 & IH2 & IH3)]; [by repeat split|].
    change (mjoin (bits_of <$> b :: l)) with (bits_of b ++ mjoin (bits_of <$> l)).
    destruct (bits_of_ok b Hb) as [B1 B2].
    split; [rewrite length_app, IH1; unfold bits_of; rewrite length_fmap, length_seq; cbn [length]; lia|].
    split; [by apply Forall_app|]. rewrite val2_app, IH3, B2. cbn [le_value].
    unfold bits_of. rewrite length_fmap, length_seq. change (2 ^ Z.of_nat 8) with 256. lia. }
  destruct (Hgen s Hs) as (H1 & H2 & H3). rewrite Hn in H1.
  destruct (slide_loop_ok (le_value s) 256 _ 1 Hv ltac:(lia) H2 H1) as (r & E & Hl & Hd & Er).
  - rewrite Z.mul_1_l. reflexivity.
  - exists 0. split; [lia|]. split; [apply Z.mod_1_r|]. rewrite H3. change (2 ^ 0) with 1. lia.
  - exists r. rewrite E, <- H3. done.
Qed.

(** ** Two multiples at once *)

Section TwoMultiples.
Context (A : point).

Lemma odd_multiples_ok n a2 c Q : P3_ok a2 (padd A A) -> cached_ok c Q ->
  returns (odd_multiples n a2 c) (fun cs => forall j, (j <= n)%nat ->
    exists q, cs !! j = Some q /\ cached_ok q (padd (smul (2 * Z.of_nat j) A) Q)).
Proof.
  intros H2. revert c Q. induction n as [|n IH]; intros c Q Hc; cbn [odd_multiples].
  - apply returns_ret. intros j Hj. replace j with 0%nat by lia. exists c. split; [done|].
    cbn. by rewrite (left_id pzero padd).
  - eapply returns_bind; [exact (geAdd_ok _ _ _ _ H2 Hc)|]. intros t Ht.
    eapply returns_bind; [exact (geP1P1toP3_ok _ _ Ht)|]. intros u Hu.
    eapply returns_bind; [exact (geP3ToCached_ok _ _ Hu)|]. intros c' Hc'.
    eapply returns_bind; [exact (IH _ _ Hc')|]. intros cs Hcs. apply returns_ret.
    intros [|j] Hj.
    + exists c. split; [done|]. cbn. by rewrite (left_id pzero padd).
    + destruct (Hcs j) as (q & Hq & Hok); [lia|]. exists q. split; [done|].
      replace (2 * Z.of_nat (S j)) with (2 * Z.of_nat j + 2) by lia.
      by rewrite smul_add, smul_2, <- (assoc padd).
Qed.

Lemma odd_digit x : digit_ok x -> x <> 0 -> exists j, (j < 8)%nat /\
  (0 < x /\ Z.to_nat (x / 2) = j /\ x = 2 * Z.of_nat j + 1 \/
   x < 0 /\ Z.to_nat (- x / 2) = j /\ x = - (2 * Z.of_nat j + 1)).
Proof.
  intros [->|[Hm Hb]] Hx; [done|]. destruct (Z.lt_ge_cases 0 x).
  - exists (Z.to_nat (x / 2)). Z.div_mod_to_equations. lia.
  - exists (Z.to_nat (- x / 2)). Z.div_mod_to_equations. lia.
Qed.

Lemma sub8_opp x : digit_ok x -> sub8 0 x = Some (- x).
Proof.
  intros Hd. unfold sub8. rewrite checked_Some; [done|]. change (2 ^ (8 - 1)) with 128.
  destruct Hd as [->|[_ Hd]]; lia.
Qed.

Lemma add_cached_ok ai x t P :
  (forall j, (j < 8)%nat -> exists q, ai !! j = Some q /\ cached_ok q (smul (2 * Z.of_nat j + 1) A)) ->
  digit_ok x -> P1P1_ok t P -> returns (add_cached ai x t) (fun t' => P1P1_ok t' (padd P (smul x A))).
Proof.
  intros Hai Hd Ht. unfold add_cached. destruct (decide (x = 0)) as [->|Hx].
  { apply returns_ret. cbn. by rewrite (right_id pzero padd). }
  destruct (odd_digit x Hd Hx) as (j & Hj & Hcase). destruct (Hai j Hj) as (q & Hq & Hok).
  destruct Hcase as [(Hp & Ej & Ex)|(Hn & Ej & Ex)].
  - rewrite (proj2 (Z.ltb_lt 0 x) Hp), Ej.
    eapply returns_bind; [exact (geP1P1toP3_ok _ _ Ht)|]. intros u Hu. rewrite Hq.
    cbn [mbind option_bind]. rewrite Ex. exact (geAdd_ok _ _ _ _ Hu Hok).
  - rewrite (proj2 (Z.ltb_ge 0 x)), (proj2 (Z.ltb_lt x 0) Hn), sub8_opp by (done || lia).
    eapply returns_bind; [exact (geP1P1toP3_ok _ _ Ht)|]. intros u Hu.
    cbn [mbind option_bind]. rewrite Ej, Hq, Ex, smul_opp. cbn [mbind option_bind].
    exact (geSub_ok _ _ _ _ Hu Hok).
Qed.

Lemma add_base_ok x t P : digit_ok x -> P1P1_ok t P ->
  returns (add_base x t) (fun t' => P1P1_ok t' (padd P (smul x B))).
Proof.
  intros Hd Ht. unfold add_base. destruct (decide (x = 0)) as [->|Hx].
  { apply returns_ret. change (smul 0 B) with pzero. by rewrite (right_id pzero padd). }
  destruct (odd_digit x Hd Hx) as (j & Hj & Hcase). destruct (BiPrecomp_ok j Hj) as (q & Hq & Hok).
  destruct Hcase as [(Hp & Ej & Ex)|(Hn & Ej & Ex)].
  - rewrite (proj2 (Z.ltb_lt 0 x) Hp), Ej.
    eapply returns_bind; [exact (geP1P1toP3_ok _ _ Ht)|]. intros u Hu. rewrite Hq.
    cbn [mbind option_bind]. rewrite Ex. exact (geMadd_ok _ _ _ _ Hu Hok).
  - rewrite (proj2 (Z.ltb_ge 0 x)), (proj2 (Z.ltb_lt x 0) Hn), sub8_opp by (done || lia).
    eapply returns_bind; [exact (geP1P1toP3_ok _ _ Ht)|]. intros u Hu.
    cbn [mbind option_bind]. rewrite Ej, Hq, Ex, smul_opp. cbn [mbind option_bind].
    exact (geMsub_ok _ _ _ _ Hu Hok).
Qed.

(** The number whose digits come from the highest, after [v]. *)
Definition horner (v : Z) (ds : list Z) : Z := foldl (fun v x => 2 * v + x) v ds.

Lemma horner_rev ds : horner 0 (rev ds) = val2 ds.
Proof.
  induction ds as [|x ds IH]; [done|]. cbn [rev]. unfold horner in *. rewrite foldl_app, IH.
  unfold val2. cbn [foldl foldr]. lia.
Qed.

Lemma mult_loop_ok ai ds r u v :
  (forall j, (j < 8)%nat -> exists q, ai !! j = Some q /\ cached_ok q (smul (2 * Z.of_nat j + 1) A)) ->
  Forall (fun d => digit_ok d.1 /\ digit_ok d.2) ds -> P2_ok r (padd (smul u A) (smul v B)) ->
  returns (mult_loop ai ds r) (fun r' => P2_ok r'
    (padd (smul (horner u (fst <$> ds)) A) (smul (horner v (snd <$> ds)) B))).
Proof.
  intros Hai Hds. revert r u v. induction Hds as [|[x y] ds [Hx Hy] _ IH]; intros r u v Hr;
    cbn [mult_loop]; [by apply returns_ret|].
  eapply returns_bind; [exact (geP2dbl_ok _ _ Hr)|]. intros t1 H1.
  eapply returns_bind; [exact (add_cached_ok _ _ _ _ Hai Hx H1)|]. intros t2 H2.
  eapply returns_bind; [exact (add_base_ok _ _ _ Hy H2)|]. intros t3 H3.
  eapply returns_bind; [exact (geP1P1toP2_ok _ _ H3)|]. intros r' H4.
  change (horner u (fst <$> (x, y) :: ds)) with (horner (2 * u + x) (fst <$> ds)).
  change (horner v (snd <$> (x, y) :: ds)) with (horner (2 * v + y) (snd <$> ds)).
  apply IH. cbv beta in H4.
  replace (padd (smul (2 * u + x) A) (smul (2 * v + y) B)) with (padd (padd (padd
    (padd (smul u A) (smul v B)) (padd (smul u A) (smul v B))) (smul x A)) (smul y B)); [exact H4|].
  rewrite !smul_add, !smul_mul, !smul_2, <- !(assoc padd). f_equal.
  rewrite (padd_swap (smul v B) (smul u A)). f_equal. rewrite !(padd_swap _ (smul x A)). done.
Qed.

End TwoMultiples.

Lemma skip_zeros_horner ds : horner 0 (fst <$> skip_zeros ds) = horner 0 (fst <$> ds) /\
  horner 0 (snd <$> skip_zeros ds) = horner 0 (snd <$> ds).
Proof.
  induction ds as [|[x y] ds IH]; [done|]. cbn [skip_zeros].
  destruct (negb (x =? 0) || negb (y =? 0)) eqn:E; [done|].
  apply orb_false_iff in E as [Ex%negb_false_iff%Z.eqb_eq Ey%negb_false_iff%Z.eqb_eq]. subst. exact IH.
Qed.

Lemma skip_zeros_Forall (P : Z * Z -> Prop) ds : Forall P ds -> Forall P (skip_zeros ds).
Proof.
  induction 1 as [|[x y] ds Hx Hds IH]; [constructor|]. cbn [skip_zeros].
  destruct (_ || _); [by constructor|done].
Qed.

(** Both scalars are below 2^253, as [slide] needs. *)
Lemma geDoubleScalarMultVartime_ok a h A b : bytes_ok a -> bytes_ok b ->
  (32 <= length a)%nat -> (32 <= length b)%nat ->
  le_value (take 32 a) < 2 ^ 253 -> le_value (take 32 b) < 2 ^ 253 -> P3_ok h A ->
  returns (geDoubleScalarMultVartime a h b) (fun r => P2_ok r
    (padd (smul (le_value (take 32 a)) A) (smul (le_value (take 32 b)) B))).
Proof.
  intros Ha Hb Hla Hlb Hva Hvb Hh. unfold geDoubleScalarMultVartime.
  destruct (slide_ok a Ha Hla Hva) as (xs & -> & Hlx & Hdx & <-).
  destruct (slide_ok b Hb Hlb Hvb) as (ys & -> & Hly & Hdy & <-). cbn [mbind option_bind].
  eapply returns_bind; [exact (geP3ToCached_ok _ _ Hh)|]. intros c Hc.
  eapply returns_bind; [exact (geP3dbl_ok _ _ Hh)|]. intros t Ht.
  eapply returns_bind; [exact (geP1P1toP3_ok _ _ Ht)|]. intros a2 Ha2.
  eapply returns_bind; [exact (odd_multiples_ok A 7 _ _ _ Ha2 Hc)|]. intros ai Hai.
  assert (Hai' : forall j, (j < 8)%nat ->
    exists q, ai !! j = Some q /\ cached_ok q (smul (2 * Z.of_nat j + 1) A)).
  { intros j Hj. destruct (Hai j) as (q & Hq & Hok); [lia|]. exists q. split; [done|].
    by rewrite smul_add, smul_1. }
  assert (Hds : Forall (fun d : Z * Z => digit_ok d.1 /\ digit_ok d.2) (skip_zeros (rev (zip xs ys)))).
  { apply skip_zeros_Forall. apply Forall_rev, Forall_forall. intros [x y] Hxy.
    rewrite Forall_forall in Hdx, Hdy. split; [apply Hdx; by eapply elem_of_zip_l|].
    apply Hdy. by eapply elem_of_zip_r. }
  assert (H0 : P2_ok geP20 (padd (smul 0 A) (smul 0 B))).
  { change (smul 0 A) with pzero. change (smul 0 B) with pzero. rewrite (left_id pzero padd).
    exact geP20_ok. }
  pose proof (mult_loop_ok A ai _ geP20 0 0 Hai' Hds H0) as Hloop.
  destruct (skip_zeros_horner (rev (zip xs ys))) as [E1 E2]. rewrite E1, E2 in Hloop.
  assert (Erev : forall (f : Z * Z -> Z) l, f <$> rev l = rev (f <$> l)) by (intros; apply List.map_rev).
  rewrite !Erev, fst_zip, snd_zip, !horner_rev in Hloop by lia. exact Hloop.
Qed.

(** ** Properties *)

(** C21: [geScalarMultBase] of 32 bytes below 2^255 is the multiple of the base point by their
value, and [geDoubleScalarMultVartime] of scalars below 2^253 is [a A + b B] for the point [A] that
the representation stands for; neither overflows, leaves a table or a list of digits. *)
Theorem scalar_multiplications (a b c : bytes) h A : bytes_ok a -> bytes_ok b -> bytes_ok c ->
  (32 <= length a)%nat -> (32 <= length b)%nat -> (32 <= length c)%nat ->
  le_value (take 32 a) < 2 ^ 255 -> le_value (take 32 b) < 2 ^ 253 ->
  le_value (take 32 c) < 2 ^ 253 -> P3_ok h A ->
  (exists r, geScalarMultBase a = Some r /\ P3_ok r (smul (le_value (take 32 a)) B)) /\
  (exists r, geDoubleScalarMultVartime b h c = Some r /\
    P2_ok r (padd (smul (le_value (take 32 b)) A) (smul (le_value (take 32 c)) B))).
Proof.
  intros Ha Hb Hc Hla Hlb Hlc Hva Hvb Hvc Hh.
  split; [exact (geScalarMultBase_ok a Ha Hla Hva)|].
  exact (geDoubleScalarMultVartime_ok b h A c Hb Hc Hlb Hlc Hvb Hvc Hh).
Qed.

Lemma scalar_multiplications_witness : exists h r,
  geScalarMultBase (2 :: replicate 31 0) = Some h /\ P3_ok h (smul 2 B) /\
  geDoubleScalarMultVartime (3 :: replicate 31 0) h (5 :: replicate 31 0) = Some r /\
  P2_ok r (padd (smul 3 (smul 2 B)) (smul 5 B)).
Proof.
  assert (H : forall x, byte_ok x -> bytes_ok (x :: replicate 31 0)).
  { intros x Hx. constructor; [exact Hx|]. apply Forall_replicate. unfold byte_ok. lia. }
  assert (H0 : forall x, 0 <= x < 8 -> bytes_ok (x :: replicate 31 0))
    by (intros x Hx; apply H; unfold byte_ok; lia).
  destruct (scalar_multiplications (2 :: replicate 31 0) (0 :: replicate 31 0) (0 :: replicate 31 0)
    geP30 pzero (H0 2 ltac:(lia)) (H0 0 ltac:(lia)) (H0 0 ltac:(lia)) (le_n 32) (le_n 32) (le_n 32)
    eq_refl eq_refl eq_refl geP30_ok) as [(h & Eh & Hh) _].
  destruct (scalar_multiplications (0 :: replicate 31 0) (3 :: replicate 31 0) (5 :: replicate 31 0)
    h (smul 2 B) (H0 0 ltac:(lia)) (H0 3 ltac:(lia)) (H0 5 ltac:(lia)) (le_n 32) (le_n 32) (le_n 32)
    eq_refl eq_refl eq_refl Hh) as [_ (r & Er & Hr)].
  exists h, r. split; [exact Eh|]. split; [exact Hh|]. split; [exact Er|exact Hr].
Defined.
