(* ===== verification/CCommon.v ===== *)
(** * CCommon: cbind/examples/common.h, the blocking helpers of the C clients

The C clients drive the library through its generated asynchronous API: a call submits a
request and returns, and a callback later fills the waiter the client polls.  The API is
not part of the sources: it is the environment [Env], a function of everything that
happened before, which answers each request with the arguments of its callback, or with
[None] when the callback does not come within the ten seconds [wait_done] polls, after
which the process exits.  The client runs in a state monad over the trace of its API calls;
what it prints is not modelled. *)
From Stdlib Require String.
From S2P Require Import Prelude.

#[local] Open Scope Z_scope.

(** ** C strings and buffers *)

(** A buffer read as a C string ends at its first null character. *)
Fixpoint c_str (s : string) : string :=
  match s with
  | String.EmptyString => String.EmptyString
  | String.String a s => if decide (a = Ascii.zero) then String.EmptyString else String.String a (c_str s)
  end.

(** [snprintf(buf, n, "%s", s)] leaves at most [n - 1] characters of the C string. *)
Definition snprintf_s (n : nat) (s : string) : string := String.substring 0 (n - 1) (c_str s).

(** A buffer cleared by [memset], overwritten when the source pointer is not null. *)
Definition copy_str (n : nat) (s : option string) : string :=
  match s with Some s => snprintf_s n s | None => ""%string end.

(** ** The API *)

Abbreviation ctx := nat (only parsing).

Inductive Muxer := MUXER_TYPE_MPLEX | MUXER_TYPE_YAMUX.
Inductive Transport := TRANSPORT_TYPE_TCP.

(** The protocols a node mounts. *)
Record GossipsubConfig := mkGossipsub {
  gs_mount : bool; gs_triggerSelf : bool; gs_maxMessageSize : Z; gs_overheadBytes : Z; gs_intervalMs : Z }.

Record Services := mkServices {
  svc_circuitRelay : bool; svc_circuitRelayClient : bool; svc_serviceDiscovery : bool;
  svc_gossipsub : GossipsubConfig }.

Definition gs_none : GossipsubConfig := mkGossipsub false false 0 0 0.

Definition no_services : Services := mkServices false false false gs_none.

(** The fields of [Libp2pConfig] the clients set; [memset] leaves the others zero. *)
Record Config := mkConfig {
  cfg_addrs : list string;
  cfg_muxer : Muxer;
  cfg_transport : Transport;
  cfg_mountKad : bool;
  cfg_bootstrap : list (string * list string);
  cfg_maxConnections : Z; cfg_maxIn : Z; cfg_maxOut : Z; cfg_maxConnsPerPeer : Z;
  cfg_services : Services }.

(** The requests, with their arguments. *)
Inductive request :=
| Start | Stop | PeerInfo
| AddIncomingStreamListener
| AddPubsubMessageListener
| MountProtocol (proto : string)
| Connect (peerId : string) (addrs : list string) (timeout : Z)
| Dial (peerId proto : string) (addrs : list string)
| StreamReadLp (streamId maxSize : Z)
| StreamWriteLp (streamId : Z) (data : string)
| StreamCloseWithEof (streamId : Z)
| StreamRelease (streamId : Z)
| PeerstoreAddPeer (peerId : string) (addrs protos : list string)
| PeerstoreGetPeers
| PeerstoreGetPeerInfo (peerId : string)
| PeerstoreDeletePeer (peerId : string)
| KadPutValue (key value : string)
| KadGetValue (key : string) (quorum : Z)
| KadStartProviding (cid : string)
| KadGetProviders (cid : string)
| StaticCreateCid (codec hash : string) (data : string)
| StaticCollectMetrics
| CircuitRelayReserve (peerId : string) (addrs : list string)
| DialCircuitRelay (peerId relayAddr proto : string)
| GossipsubSubscribe (topic : string)
| GossipsubPublish (topic data : string)
| ServiceDiscoStart
| ServiceDiscoStartAdvertising (serviceId data : string)
| ServiceDiscoLookup (serviceId : string).

(** Pointers in the replies may be null. *)
Record PeerInfoResponse := mkPeerInfo { pi_peerId : option string; pi_addrs : list (option string) }.

(** A record found by a service lookup, with its services' ids and data. *)
Record ExtendedPeerRecordEntry := mkRecord {
  er_peerId : option string; er_services : list (option string * option string) }.

(** The reply argument of a callback; the null pointer is [RNull]. *)
Inductive reply :=
| RNull
| RBool (b : bool)
| RPeerInfo (p : PeerInfoResponse)
| RStrings (l : list (option string))
| REntry (naddrs nprotocols : nat)
| RData (data : option string)
| RStream (streamId : Z)
| RStr (s : option string)
| RPublish (peerCount : Z)
| RRecords (l : list ExtendedPeerRecordEntry).

(** The arguments of a callback: the error code, the reply and the error message. *)
Record callback := mkCallback { cb_ec : Z; cb_reply : reply; cb_em : option string }.

Inductive event :=
| ECreate (cfg : Config) (ec : Z) (c : option ctx)
| ECall (c : option ctx) (r : request) (cb : callback)
| EListen (c : option ctx) (r : request)
| EIncoming (streamId : Z)
| EMessage (data : option string)
| EDestroy (c : option ctx) (ret : Z).

Abbreviation trace := (list event).

Record Env := mkEnv {
  env_create : trace -> Config -> option (Z * option ctx * option string);
  env_call : trace -> option ctx -> request -> option callback;
  (** The next incoming-stream event, delivered on the dispatch thread. *)
  env_incoming : trace -> option Z;
  (** The next message of a subscribed topic. *)
  env_message : trace -> option (option string);
  env_destroy : trace -> option ctx -> Z;
  (** The result of a submission, when the client looks at it. *)
  env_submit : trace -> bool }.

(** ** Programs *)

Inductive outcome (A : Type) := Ret (a : A) | Exit (code : Z).
Arguments Ret {A} a.
Arguments Exit {A} code.

Definition C (A : Type) : Type := Env -> trace -> outcome A * trace.

#[export] Instance C_ret : MRet C := fun A a _ tr => (Ret a, tr).

#[export] Instance C_bind : MBind C := fun A B f m env tr =>
  match m env tr with
  | (Ret a, tr) => f a env tr
  | (Exit code, tr) => (Exit code, tr)
  end.

Definition exit_failure {A} : C A := fun _ tr => (Exit 1, tr).

(** Submit a request and [wait_done] for its callback. *)
Definition submit_wait (c : option ctx) (r : request) : C callback := fun env tr =>
  match env_call env tr c r with
  | Some cb => (Ret cb, tr ++ [ECall c r cb])
  | None => exit_failure env tr
  end.

Definition libp2p_ctx_destroy (c : option ctx) : C Z := fun env tr =>
  let ret := env_destroy env tr c in (Ret ret, tr ++ [EDestroy c ret]).

(** Register a listener; its events come later. *)
Definition add_listener (c : option ctx) (r : request) : C unit := fun _ tr =>
  (Ret tt, tr ++ [EListen c r]).

(** Wait for the event of a listener. *)
Definition next_incoming : C Z := fun env tr =>
  match env_incoming env tr with
  | Some streamId => (Ret streamId, tr ++ [EIncoming streamId])
  | None => exit_failure env tr
  end.

Definition next_message : C (option string) := fun env tr =>
  match env_message env tr with
  | Some data => (Ret data, tr ++ [EMessage data])
  | None => exit_failure env tr
  end.

(** ** Waiters *)

Record BoolWaiter := mkBoolWaiter { bw_err_code : Z; bw_err : string }.

Definition on_bool (cb : callback) : BoolWaiter := mkBoolWaiter (cb_ec cb) (copy_str 256 (cb_em cb)).

(** [true] when the call succeeded; the value of the reply is ignored. *)
Definition await_bool (w : BoolWaiter) : bool := bw_err_code w =? 0.

Definition AWAIT_BOOL (c : ctx) (r : request) : C bool :=
  cb ← submit_wait (Some c) r; mret (await_bool (on_bool cb)).

(** The null context on an error; a context that comes with an error code is not destroyed. *)
Definition await_create (cfg : Config) : C (option ctx) := fun env tr =>
  match env_create env tr cfg with
  | None => exit_failure env tr
  | Some (ec, c, em) =>
      (Ret (if negb (ec =? 0) || bool_decide (c = None) then None else c),
       tr ++ [ECreate cfg ec c])
  end.

Definition MAX_ADDRS : nat := 16.

Record PeerInfoWaiter := mkPeerInfoWaiter {
  pw_err_code : Z; pw_err : string; pw_peerId : string; pw_addrs : list string; pw_naddrs : nat }.

(** The array of [n] buffers of size [m], filled from the start. *)
Definition copy_strs (n m : nat) (l : list (option string)) : list string :=
  copy_str m <$> take n l.

Definition on_peerinfo (cb : callback) : PeerInfoWaiter :=
  let err := copy_str 256 (cb_em cb) in
  match cb_reply cb with
  | RPeerInfo p =>
      mkPeerInfoWaiter (cb_ec cb) err (copy_str 128 (pi_peerId p))
        (copy_strs MAX_ADDRS 256 (pi_addrs p)) (Nat.min (length (pi_addrs p)) MAX_ADDRS)
  | _ => mkPeerInfoWaiter (cb_ec cb) err ""%string [] 0
  end.

(** [None] on an error code. *)
Definition await_peerinfo (c : ctx) : C (option PeerInfoWaiter) :=
  cb ← submit_wait (Some c) PeerInfo;
  let w := on_peerinfo cb in
  mret (if pw_err_code w =? 0 then Some w else None).

Definition await_connect (from : ctx) (to : PeerInfoWaiter) : C bool :=
  AWAIT_BOOL from (Connect (pw_peerId to) (take (pw_naddrs to) (pw_addrs to)) 0).

(** A node of the examples: mplex over TCP at one address. *)
Definition node_config (addr : string) : Config :=
  mkConfig [addr] MUXER_TYPE_MPLEX TRANSPORT_TYPE_TCP false [] 0 0 0 0 no_services.

Definition createNode (addr : string) : C (option ctx) := await_create (node_config addr).

(** [strcmp(x, y) == 0] of strings without null characters; [memcmp] on equal lengths. *)
Definition streq (x y : string) : bool := bool_decide (x = y).

(** [strstr(s, needle) != NULL]. *)
Definition strstr (s needle : string) : bool := bool_decide (String.index 0 needle (c_str s) <> None).

(** [if (!m) goto cleanup;] with the status still 1. *)
Definition or_fail (m : C bool) (k : C Z) : C Z := ok ← m; if (ok : bool) then k else mret 1.

Notation "'check' m ; k" := (or_fail m k)
  (at level 20, m at level 100, k at level 200, right associativity, only parsing).

(** [if (w.err_code != 0) goto cleanup;] on a call answered with a waiter of its own. *)
Definition no_error (cb : callback) : bool := cb_ec cb =? 0.
