(* ===== verification/CLogic.v ===== *)
(** * CLogic: what is proved of the C clients

Two ways to reason about a client of CCommon: [owns] follows the contexts it has alive, by
replaying the trace of its API calls; [after] follows the events of the trace in their order. *)
From stdpp Require Import gmultiset.
From Stdlib Require String.
From S2P Require Import Prelude CCommon.

#[local] Open Scope string_scope.
#[local] Open Scope Z_scope.

(** ** Ownership of contexts *)

(** Replays a trace on the contexts alive: a request on a dead context, or the destruction of
one, is [None]. *)
Definition replay1 (live : gmultiset nat) (e : event) : option (gmultiset nat) :=
  match e with
  | ECreate _ _ (Some c) => Some (live ⊎ {[+ c +]})
  | ECall (Some c) _ _ => if decide (c ∈ live) then Some live else None
  | EListen (Some c) _ => if decide (c ∈ live) then Some live else None
  | EDestroy (Some c) _ => if decide (c ∈ live) then Some (live ∖ {[+ c +]}) else None
  | _ => Some live
  end.

Fixpoint replay (live : gmultiset nat) (tr : trace) : option (gmultiset nat) :=
  match tr with
  | [] => Some live
  | e :: tr => live ← replay1 live e; replay live tr
  end.

(** The contexts that came with an error code. *)
Definition failed1 (e : event) : gmultiset nat :=
  match e with ECreate _ ec (Some c) => if ec =? 0 then ∅ else {[+ c +]} | _ => ∅ end.

Definition failed (tr : trace) : gmultiset nat := foldr (fun e s => failed1 e ⊎ s) ∅ tr.

(** Those [await_create] leaves alive, when the client uses it. *)
Definition leaked (helper : bool) (tr : trace) : gmultiset nat := if helper then failed tr else ∅.

Lemma failed_snoc tr e : failed (tr ++ [e])%list = failed tr ⊎ failed1 e.
Proof.
  unfold failed. induction tr as [|e' tr IH]; cbn [app foldr].
  - by rewrite (left_id ∅ (⊎)), (right_id ∅ (⊎)).
  - by rewrite IH, (assoc (⊎)).
Qed.

Lemma leaked_snoc h tr e : failed1 e = ∅ -> leaked h (tr ++ [e])%list = leaked h tr.
Proof. intros E. destruct h; [|done]. cbn. by rewrite failed_snoc, E, (right_id ∅ (⊎)). Qed.

Lemma replay_app live tr1 tr2 : replay live (tr1 ++ tr2)%list =
  (live ← replay live tr1; replay live tr2).
Proof.
  revert live. induction tr1 as [|e tr1 IH]; intros live; [done|]. cbn [replay app].
  destruct (replay1 live e); cbn [mbind option_bind]; [apply IH|done].
Qed.

(** [m] run with [live] alive, besides what [await_create] leaves, has [post a] alive when it
returns [a]; if it exits, nothing was used after its destruction. *)
Definition owns {A} (h : bool) (live : gmultiset nat) (m : C A) (post : A -> gmultiset nat) : Prop :=
  forall env tr, replay ∅ tr = Some (live ⊎ leaked h tr) ->
    match m env tr with
    | (Ret a, tr') => replay ∅ tr' = Some (post a ⊎ leaked h tr')
    | (Exit _, tr') => is_Some (replay ∅ tr')
    end.

Section Owns.
Context {h : bool}.

Lemma owns_ret {A} live (a : A) : owns h live (mret a) (fun _ => live).
Proof. by intros env tr H. Qed.

Lemma owns_bind {A B} live (m : C A) (f : A -> C B) mid post :
  owns h live m mid -> (forall a, owns h (mid a) (f a) post) -> owns h live (m ≫= f) post.
Proof.
  intros Hm Hf env tr Ht. unfold mbind, C_bind. specialize (Hm env tr Ht).
  destruct (m env tr) as [[a|code] tr']; [|done]. by apply Hf.
Qed.

Lemma owns_if {A} live (b : bool) (m k : C A) post :
  owns h live m post -> owns h live k post -> owns h live (if b then m else k) post.
Proof. by destruct b. Qed.

(** An event that keeps the contexts alive. *)
Lemma owns_event live e tr : replay ∅ tr = Some (live ⊎ leaked h tr) -> failed1 e = ∅ ->
  replay1 (live ⊎ leaked h tr) e = Some (live ⊎ leaked h tr) ->
  replay ∅ (tr ++ [e])%list = Some (live ⊎ leaked h (tr ++ [e])%list).
Proof. intros Ht He Hr. rewrite replay_app, Ht, leaked_snoc by done. cbn. by rewrite Hr. Qed.

Lemma owns_submit live c r : (forall c', c = Some c' -> c' ∈ live) ->
  owns h live (submit_wait c r) (fun _ => live).
Proof.
  intros Hc env tr Ht. unfold submit_wait, exit_failure.
  destruct (env_call env tr c r) as [cb|]; [|by rewrite Ht].
  apply owns_event; [done..|]. cbn. destruct c as [c|]; [|done].
  specialize (Hc c eq_refl). rewrite decide_True by multiset_solver. done.
Qed.

Lemma owns_await_bool live c r : c ∈ live -> owns h live (AWAIT_BOOL c r) (fun _ => live).
Proof.
  intros Hc. eapply owns_bind; [apply owns_submit; congruence|]. intros cb. apply owns_ret.
Qed.

Lemma owns_destroy live c : c ∈ live ->
  owns h live (libp2p_ctx_destroy (Some c)) (fun _ => live ∖ {[+ c +]}).
Proof.
  intros Hc env tr Ht. unfold libp2p_ctx_destroy. rewrite replay_app, Ht, leaked_snoc by done. cbn.
  rewrite decide_True by multiset_solver. cbn. f_equal. multiset_solver.
Qed.

Lemma owns_destroy_null live : owns h live (libp2p_ctx_destroy None) (fun _ => live).
Proof. intros env tr Ht. unfold libp2p_ctx_destroy. by apply owns_event. Qed.

Definition with_ctx (live : gmultiset nat) (c : option nat) : gmultiset nat :=
  match c with Some c => live ⊎ {[+ c +]} | None => live end.

Lemma owns_peerinfo live c : c ∈ live -> owns h live (await_peerinfo c) (fun _ => live).
Proof.
  intros Hc. eapply owns_bind; [apply owns_submit; congruence|]. intros cb. apply owns_ret.
Qed.

Lemma owns_or_fail live m k : owns h live m (fun _ => live) -> owns h live k (fun _ => live) ->
  owns h live (or_fail m k) (fun _ => live).
Proof.
  intros Hm Hk. eapply owns_bind; [exact Hm|]. intros [|]; [exact Hk|apply owns_ret].
Qed.

Lemma owns_listener live c r : c ∈ live -> owns h live (add_listener (Some c) r) (fun _ => live).
Proof.
  intros Hc env tr Ht. unfold add_listener. apply owns_event; [done..|]. cbn.
  rewrite decide_True by multiset_solver. done.
Qed.

Lemma owns_incoming live : owns h live next_incoming (fun _ => live).
Proof.
  intros env tr Ht. unfold next_incoming, exit_failure.
  destruct (env_incoming env tr); [|by rewrite Ht]. by apply owns_event.
Qed.

Lemma owns_message live : owns h live next_message (fun _ => live).
Proof.
  intros env tr Ht. unfold next_message, exit_failure.
  destruct (env_message env tr); [|by rewrite Ht]. by apply owns_event.
Qed.

Lemma owns_post {A} live (m : C A) post post' : owns h live m post ->
  (forall a, post a = post' a) -> owns h live m post'.
Proof.
  intros Hm Hp env tr Ht. specialize (Hm env tr Ht).
  destruct (m env tr) as [[a|code] tr']; [by rewrite <- Hp|done].
Qed.

Lemma owns_destroy_opt live c : owns h (with_ctx live c) (libp2p_ctx_destroy c) (fun _ => live).
Proof.
  destruct c as [c|]; [|apply owns_destroy_null].
  eapply owns_post; [apply owns_destroy; cbn [with_ctx]; multiset_solver|]. intros ?. cbn [with_ctx]. multiset_solver.
Qed.

End Owns.

(** A context that comes with an error code stays alive. *)
Lemma owns_create live cfg : owns true live (await_create cfg) (with_ctx live).
Proof.
  intros env tr Ht. unfold await_create, exit_failure.
  destruct (env_create env tr cfg) as [[[ec c] em]|] eqn:E; [|by rewrite Ht].
  rewrite replay_app, Ht. cbn. rewrite failed_snoc. cbn.
  destruct c as [c|]; cbn; [|rewrite orb_true_r; cbn; f_equal; multiset_solver].
  destruct (ec =? 0); cbn; f_equal; multiset_solver.
Qed.

(** Steps through a program whose contexts stay alive. *)
Ltac owns_tac :=
  repeat match goal with
  | |- owns _ _ (mret _) _ => apply owns_ret
  | |- owns _ _ (or_fail _ _) _ => apply owns_or_fail
  | |- owns _ _ (AWAIT_BOOL _ _) _ => apply owns_await_bool; assumption
  | |- owns _ _ (await_connect _ _) _ => apply owns_await_bool; assumption
  | |- owns _ _ (await_peerinfo _) _ => apply owns_peerinfo; assumption
  | |- owns _ _ (submit_wait _ _) _ => apply owns_submit; congruence
  | |- owns _ _ (add_listener _ _) _ => apply owns_listener; assumption
  | |- owns _ _ next_incoming _ => apply owns_incoming
  | |- owns _ _ next_message _ => apply owns_message
  | |- owns _ ?l (_ ≫= _) (fun _ => ?l) => eapply (owns_bind l _ _ (fun _ => l)); [|intros ?]
  | |- owns _ _ (match ?x with _ => _ end) _ => destruct x
  | |- owns _ _ (let _ := _ in _) _ => cbv zeta
  end.

(** ** What a status of 0 means *)

(** When [m] starts on a trace with [P] and returns [a], [Q a] holds of the trace it leaves. *)
Definition after {A} (P : trace -> Prop) (m : C A) (Q : A -> trace -> Prop) : Prop :=
  forall env tr a tr', P tr -> m env tr = (Ret a, tr') -> Q a tr'.

(** The events [L] happened, in this order. *)
Definition seen (L : list event) (tr : trace) : Prop := sublist L tr.

(** The callback of a call that succeeded. *)
Definition succeeded (cb : callback) : Prop := cb_ec cb = 0.

Lemma seen_snoc L e tr : seen L tr -> seen (L ++ [e])%list (tr ++ [e])%list.
Proof. intros H. by apply sublist_app. Qed.

Lemma seen_more L e tr : seen L tr -> seen L (tr ++ [e])%list.
Proof. intros H. by apply sublist_inserts_r. Qed.

Lemma after_ret {A} (P : trace -> Prop) (a : A) Q : (forall tr, P tr -> Q a tr) -> after P (mret a) Q.
Proof. intros H env tr b tr' Hp [= <- <-]. auto. Qed.

Lemma after_bind {A B} P (m : C A) (f : A -> C B) R Q :
  after P m R -> (forall a, after (R a) (f a) Q) -> after P (m ≫= f) Q.
Proof.
  intros Hm Hf env tr b tr'' Hp E. unfold mbind, C_bind in E.
  destruct (m env tr) as [[a|code] tr'] eqn:Em; [|done]. eapply Hf; [|exact E]. by eapply Hm.
Qed.

Lemma after_assoc {A B D} P (m : C A) (f : A -> C B) (g : B -> C D) Q :
  after P (a ← m; f a ≫= g) Q -> after P ((m ≫= f) ≫= g) Q.
Proof.
  intros H env tr d tr' Hp E. apply (H env tr d tr' Hp). unfold mbind, C_bind in *.
  by destruct (m env tr) as [[a|code] tr1].
Qed.

Lemma after_ret_bind {A B} P (a : A) (g : A -> C B) Q : after P (g a) Q -> after P (mret a ≫= g) Q.
Proof. done. Qed.

Lemma after_or_fail P m k R Q : after P m R -> after (R true) k Q -> (forall tr, Q 1 tr) ->
  after P (or_fail m k) Q.
Proof.
  intros Hm Hk H1. eapply after_bind; [exact Hm|]. intros [|]; [exact Hk|]. by apply after_ret.
Qed.

Lemma after_pre {A} (P P' : trace -> Prop) (m : C A) Q : (forall tr, P tr -> P' tr) -> after P' m Q -> after P m Q.
Proof. intros H Hm env tr a tr' Hp. by apply Hm, H. Qed.

Lemma after_exists {A B} (P : B -> trace -> Prop) (m : C A) Q : (forall x, after (P x) m Q) ->
  after (fun tr => exists x, P x tr) m Q.
Proof. intros H env tr a tr' [x Hx]. by apply (H x). Qed.

Lemma after_pure {A} (X : Prop) (P : trace -> Prop) (m : C A) Q : (X -> after P m Q) ->
  after (fun tr => P tr /\ X) m Q.
Proof. intros H env tr a tr' [Hp Hx]. by apply (H Hx). Qed.

(** What no later event undoes. *)
Definition lasting (P : trace -> Prop) : Prop := forall e tr, P tr -> P (tr ++ [e])%list.

Lemma lasting_seen L : lasting (seen L).
Proof. intros e tr. apply seen_more. Qed.

Lemma lasting_const (X : Prop) : lasting (fun _ => X).
Proof. by intros e tr. Qed.

Lemma lasting_and P Q : lasting P -> lasting Q -> lasting (fun tr => P tr /\ Q tr).
Proof. intros HP HQ e tr []. split; [by apply HP|by apply HQ]. Qed.

Lemma lasting_impl (X : Prop) P : lasting P -> lasting (fun tr => X -> P tr).
Proof. intros HP e tr H HX. by apply HP, H. Qed.

Lemma lasting_exists {B} (P : B -> trace -> Prop) : (forall x, lasting (P x)) ->
  lasting (fun tr => exists x, P x tr).
Proof. intros HP e tr [x Hx]. exists x. by apply HP. Qed.

#[export] Hint Resolve lasting_seen lasting_const lasting_and lasting_impl lasting_exists : nim.

Section Keep.
Context {A : Type} (P : trace -> Prop) (HP : lasting P) (Q : A -> trace -> Prop).

Lemma keep_submit c r (f : callback -> C A) : (forall cb, after P (f cb) Q) ->
  after P (submit_wait c r ≫= f) Q.
Proof using HP.
  intros Hf. eapply (after_bind _ _ _ (fun _ => P)); [|exact Hf].
  intros env tr a tr' Hp E. unfold submit_wait, exit_failure in E.
  destruct (env_call env tr c r) as [cb|]; [|done]. injection E as _ <-. by apply HP.
Qed.

Lemma keep_await c r (f : bool -> C A) : (forall b, after P (f b) Q) -> after P (AWAIT_BOOL c r ≫= f) Q.
Proof using HP.
  intros Hf. eapply (after_bind _ _ _ (fun _ => P)); [|exact Hf].
  intros env tr a tr' Hp E. unfold AWAIT_BOOL, submit_wait, exit_failure, mbind, C_bind in E.
  destruct (env_call env tr (Some c) r) as [cb|]; [|done]. injection E as _ <-. by apply HP.
Qed.

Lemma keep_destroy c (f : Z -> C A) : (forall ret, after P (f ret) Q) ->
  after P (libp2p_ctx_destroy c ≫= f) Q.
Proof using HP.
  intros Hf. eapply (after_bind _ _ _ (fun _ => P)); [|exact Hf].
  intros env tr a tr' Hp [= _ <-]. by apply HP.
Qed.

End Keep.

Section See.
Context {A : Type} (L : list event) (Q : A -> trace -> Prop).

Lemma see_submit c r (f : callback -> C A) :
  (forall cb, after (seen (L ++ [ECall c r cb])%list) (f cb) Q) -> after (seen L) (submit_wait c r ≫= f) Q.
Proof.
  intros Hf. eapply (after_bind _ _ _ (fun cb => seen (L ++ [ECall c r cb])%list)); [|exact Hf].
  intros env tr a tr' Hp E. unfold submit_wait, exit_failure in E.
  destruct (env_call env tr c r) as [cb|]; [|done]. injection E as <- <-. by apply seen_snoc.
Qed.

Lemma forget e (m : C A) : after (seen L) m Q -> after (seen (L ++ [e])%list) m Q.
Proof. apply after_pre. intros tr H. etransitivity; [|exact H]. by apply sublist_inserts_r. Qed.

(** A call that has to succeed. *)
Lemma see_await c r (f : bool -> C A) :
  (forall cb, succeeded cb -> after (seen (L ++ [ECall (Some c) r cb])%list) (f true) Q) ->
  after (seen L) (f false) Q -> after (seen L) (AWAIT_BOOL c r ≫= f) Q.
Proof.
  intros Ht Hf. apply after_assoc, see_submit. intros cb. apply after_ret_bind.
  unfold await_bool, on_bool. cbn [bw_err_code]. destruct (Z.eqb_spec (cb_ec cb) 0); [by apply Ht|by apply forget].
Qed.

Lemma see_peerinfo c (f : option PeerInfoWaiter -> C A) :
  (forall cb, succeeded cb -> after (seen (L ++ [ECall (Some c) PeerInfo cb])%list) (f (Some (on_peerinfo cb))) Q) ->
  after (seen L) (f None) Q -> after (seen L) (await_peerinfo c ≫= f) Q.
Proof.
  intros Ht Hf. apply after_assoc, see_submit. intros cb. apply after_ret_bind. cbv zeta.
  assert (Ec : pw_err_code (on_peerinfo cb) = cb_ec cb) by (unfold on_peerinfo; by destruct (cb_reply cb)).
  rewrite Ec. destruct (Z.eqb_spec (cb_ec cb) 0); [by apply Ht|by apply forget].
Qed.

Lemma see_create cfg (f : option nat -> C A) :
  (forall c, after (seen (L ++ [ECreate cfg 0 (Some c)])%list) (f (Some c)) Q) ->
  after (seen L) (f None) Q -> after (seen L) (await_create cfg ≫= f) Q.
Proof.
  intros Ht Hf env tr b tr' Hp E. unfold mbind, C_bind, await_create, exit_failure in E.
  destruct (env_create env tr cfg) as [[[ec c] em]|]; [|done].
  destruct (Z.eqb_spec ec 0) as [->|He], c as [c|]; cbn in E.
  - eapply Ht; [|exact E]. by apply seen_snoc.
  - eapply Hf; [|exact E]. by apply seen_more.
  - eapply Hf; [|exact E]. by apply seen_more.
  - eapply Hf; [|exact E]. by apply seen_more.
Qed.

Lemma see_listener c r (f : unit -> C A) :
  after (seen (L ++ [EListen c r])%list) (f tt) Q -> after (seen L) (add_listener c r ≫= f) Q.
Proof.
  intros Hf. eapply (after_bind _ _ _ (fun _ => seen (L ++ [EListen c r])%list)); [|by intros []].
  intros env tr a tr' Hp [= <- <-]. by apply seen_snoc.
Qed.

Lemma see_incoming (f : Z -> C A) :
  (forall id, after (seen (L ++ [EIncoming id])%list) (f id) Q) -> after (seen L) (next_incoming ≫= f) Q.
Proof.
  intros Hf. eapply (after_bind _ _ _ (fun id => seen (L ++ [EIncoming id])%list)); [|exact Hf].
  intros env tr a tr' Hp E. unfold next_incoming, exit_failure in E.
  destruct (env_incoming env tr); [|done]. injection E as <- <-. by apply seen_snoc.
Qed.

Lemma see_message (f : option string -> C A) :
  (forall d, after (seen (L ++ [EMessage d])%list) (f d) Q) -> after (seen L) (next_message ≫= f) Q.
Proof.
  intros Hf. eapply (after_bind _ _ _ (fun d => seen (L ++ [EMessage d])%list)); [|exact Hf].
  intros env tr a tr' Hp E. unfold next_message, exit_failure in E.
  destruct (env_message env tr); [|done]. injection E as <- <-. by apply seen_snoc.
Qed.

Lemma see_destroy c (f : Z -> C A) :
  (forall ret, after (seen (L ++ [EDestroy c ret])%list) (f ret) Q) ->
  after (seen L) (libp2p_ctx_destroy c ≫= f) Q.
Proof.
  intros Hf. eapply (after_bind _ _ _ (fun ret => seen (L ++ [EDestroy c ret])%list)); [|exact Hf].
  intros env tr a tr' Hp [= <- <-]. by apply seen_snoc.
Qed.

End See.

Lemma see_check L c r k (Q : Z -> trace -> Prop) :
  (forall cb, succeeded cb -> after (seen (L ++ [ECall (Some c) r cb])%list) k Q) ->
  (forall tr, Q 1 tr) -> after (seen L) (or_fail (AWAIT_BOOL c r) k) Q.
Proof. intros Hk H1. apply see_await; [exact Hk|]. by apply after_ret. Qed.

(** Steps through a program, whose failures give a status of 1. *)
Ltac fails := apply after_ret; intros; done.

Tactic Notation "sees" uconstr(lem) "as" ident(x) ident(H) :=
  apply lem; [intros x H; cbn [app]|try fails].

Tactic Notation "sees" uconstr(lem) "as" ident(x) := apply lem; intros x; cbn [app]; cbv zeta.

(** ** Copies *)

Lemma substring_length s n m : (String.length (String.substring n m s) <= m)%nat.
Proof.
  revert n m. induction s as [|a s IH]; intros n m; destruct n, m; cbn; try lia.
  - specialize (IH O m). lia.
  - apply (IH n O).
  - apply (IH n (S m)).
Qed.

Lemma copy_str_length n s : (0 < n)%nat -> (String.length (copy_str n s) < n)%nat.
Proof.
  intros Hn. destruct s as [s|]; [|done]. cbn. unfold snprintf_s.
  pose proof (substring_length (c_str s) O (n - 1)). lia.
Qed.

