(* ===== verification/CExamples.v ===== *)
(** * CExamples: the C clients of cbind/examples

[peerstore.c], [echo.c], [metrics.c], [kad.c] and [libp2p_mobile_check.c], each with its
waiters, its helpers and its [main], whose result is the exit status; then, for each, the
contexts it keeps alive and what it has seen when its status is 0. *)
From stdpp Require Import pretty gmultiset.
From Stdlib Require String.
From S2P Require Import Prelude CCommon CLogic.

#[local] Open Scope string_scope.
#[local] Open Scope Z_scope.

(** ** peerstore.c *)
Module Peerstore.

Definition Proto : string := "/cbind/peerstore/1.0.0".

Definition MAX_PEERS : nat := 16.

Record PeersWaiter := mkPeersWaiter { ps_err_code : Z; ps_err : string; ps_peerIds : list string }.

Definition on_peers (cb : callback) : PeersWaiter :=
  let err := copy_str 256 (cb_em cb) in
  match cb_reply cb with
  | RStrings l => mkPeersWaiter (cb_ec cb) err (copy_strs MAX_PEERS 128 l)
  | _ => mkPeersWaiter (cb_ec cb) err []
  end.

Definition get_peers (c : ctx) : C (option PeersWaiter) :=
  cb ← submit_wait (Some c) PeerstoreGetPeers;
  let w := on_peers cb in
  mret (if ps_err_code w =? 0 then Some w else None).

Definition holds (w : PeersWaiter) (peerId : string) : bool :=
  existsb (fun p => streq p peerId) (ps_peerIds w).

Record EntryWaiter := mkEntryWaiter { en_err_code : Z; en_err : string; en_naddrs : nat; en_nprotocols : nat }.

Definition on_entry (cb : callback) : EntryWaiter :=
  let err := copy_str 256 (cb_em cb) in
  match cb_reply cb with
  | REntry a p => mkEntryWaiter (cb_ec cb) err a p
  | _ => mkEntryWaiter (cb_ec cb) err 0 0
  end.

(** The calls between the two [createNode]s and [cleanup]. *)
Definition body (local other : ctx) : C Z :=
  check AWAIT_BOOL other Start;
  oi ← await_peerinfo other;
  match oi with
  | None => mret 1
  | Some oi =>
      check AWAIT_BOOL local
        (PeerstoreAddPeer (pw_peerId oi) (take (pw_naddrs oi) (pw_addrs oi)) [Proto]);
      peers ← get_peers local;
      match peers with
      | None => mret 1
      | Some peers =>
          cb ← submit_wait (Some local) (PeerstoreGetPeerInfo (pw_peerId oi));
          let entry := on_entry cb in
          if negb (en_err_code entry =? 0) then mret 1
          else if negb (holds peers (pw_peerId oi)) || (en_naddrs entry =? 0)%nat
                  || (en_nprotocols entry =? 0)%nat
          then mret 1
          else
            check AWAIT_BOOL local (PeerstoreDeletePeer (pw_peerId oi));
            peers ← get_peers local;
            match peers with
            | None => mret 1
            | Some peers => mret (if holds peers (pw_peerId oi) then 1 else 0)
            end
      end
  end.

Definition main : C Z :=
  local ← createNode "/ip4/127.0.0.1/tcp/5051";
  other ← createNode "/ip4/127.0.0.1/tcp/5052";
  match local, other with
  | Some l, Some o =>
      status ← body l o;
      AWAIT_BOOL o Stop;;
      libp2p_ctx_destroy other;;
      libp2p_ctx_destroy local;;
      mret status
  | _, _ =>
      libp2p_ctx_destroy local;;
      libp2p_ctx_destroy other;;
      mret 1
  end.

End Peerstore.

(** ** echo.c *)
Module Echo.

Definition EchoProto : string := "/cbind/echo/1.0.0".

Definition EchoMaxSize : Z := 4096.

(** [onIncomingStream] stores the stream id and [serveEcho] waits for it. *)
Definition wait_incoming : C Z := next_incoming.

Record ReadWaiter := mkReadWaiter { rw_err_code : Z; rw_err : string; rw_data : string }.

Definition on_read (cb : callback) : ReadWaiter :=
  let err := copy_str 256 (cb_em cb) in
  match cb_reply cb with
  | RData (Some d) => mkReadWaiter (cb_ec cb) err (String.substring 0 4096 d)
  | _ => mkReadWaiter (cb_ec cb) err ""
  end.

Definition serveEcho (server : ctx) : C bool :=
  streamId ← wait_incoming;
  cb ← submit_wait (Some server) (StreamReadLp streamId EchoMaxSize);
  let rw := on_read cb in
  if negb (rw_err_code rw =? 0) then mret false
  else
    ok ← AWAIT_BOOL server (StreamWriteLp streamId (rw_data rw));
    AWAIT_BOOL server (StreamRelease streamId);;
    mret ok.

Record DialWaiter := mkDialWaiter { dw_err_code : Z; dw_err : string; dw_streamId : Z }.

Definition on_dial (cb : callback) : DialWaiter :=
  let err := copy_str 256 (cb_em cb) in
  match cb_reply cb with
  | RStream id => mkDialWaiter (cb_ec cb) err id
  | _ => mkDialWaiter (cb_ec cb) err 0
  end.

Definition echoRoundTrip (client server : ctx) (dialReq : request) (sent : string) : C bool :=
  cb ← submit_wait (Some client) dialReq;
  let dw := on_dial cb in
  if negb (dw_err_code dw =? 0) then mret false
  else
    let streamId := dw_streamId dw in
    ok ← AWAIT_BOOL client (StreamWriteLp streamId sent);
    if negb ok then mret false
    else
      served ← serveEcho server;
      if negb served then mret false
      else
        cb ← submit_wait (Some client) (StreamReadLp streamId EchoMaxSize);
        let rw := on_read cb in
        if negb (rw_err_code rw =? 0) then mret false
        else
          let matched := streq (rw_data rw) sent in
          AWAIT_BOOL client (StreamCloseWithEof streamId);;
          AWAIT_BOOL client (StreamRelease streamId);;
          mret matched.

Definition body (client server : ctx) (pw : PeerInfoWaiter) : C Z :=
  check AWAIT_BOOL client Start;
  check echoRoundTrip client server
    (Dial (pw_peerId pw) EchoProto (take (pw_naddrs pw) (pw_addrs pw))) "hello from cbind echo";
  check echoRoundTrip client server (Dial (pw_peerId pw) EchoProto []) "hello again";
  mret 0.

(** The server is destroyed and the status is 1. *)
Definition abandon (server : ctx) : C Z := libp2p_ctx_destroy (Some server);; mret 1.

Definition main : C Z :=
  server ← createNode "/ip4/127.0.0.1/tcp/5013";
  match server with
  | None => mret 1
  | Some server =>
      add_listener (Some server) AddIncomingStreamListener;;
      mounted ← AWAIT_BOOL server (MountProtocol EchoProto);
      started ← (if (mounted : bool) then AWAIT_BOOL server Start else mret false);
      if negb started then abandon server
      else
        pw ← await_peerinfo server;
        match pw with
        | None => abandon server
        | Some pw =>
            client ← createNode "/ip4/127.0.0.1/tcp/0";
            match client with
            | None => abandon server
            | Some client =>
                status ← body client server pw;
                AWAIT_BOOL client Stop;;
                AWAIT_BOOL server Stop;;
                libp2p_ctx_destroy (Some client);;
                libp2p_ctx_destroy (Some server);;
                mret status
            end
        end
  end.

End Echo.

(** ** metrics.c *)
Module Metrics.

Record MetricsWaiter := mkMetricsWaiter { mw_err_code : Z; mw_err : string; mw_json : string }.

Definition on_metrics (cb : callback) : MetricsWaiter :=
  let err := copy_str 256 (cb_em cb) in
  match cb_reply cb with
  | RStr (Some s) => mkMetricsWaiter (cb_ec cb) err (String.substring 0 (2 ^ 16 - 1)%nat s)
  | _ => mkMetricsWaiter (cb_ec cb) err ""
  end.

Definition quote : string := String.String (Ascii.ascii_of_nat 34) "".

Definition body (node : ctx) : C Z :=
  check AWAIT_BOOL node Start;
  cb ← submit_wait None StaticCollectMetrics;
  let mw := on_metrics cb in
  if negb (mw_err_code mw =? 0) then mret 1
  else if String.prefix "[" (mw_json mw) && strstr (mw_json mw) (quote +:+ "name" +:+ quote)
  then mret 0 else mret 1.

Definition main : C Z :=
  node ← createNode "/ip4/127.0.0.1/tcp/5041";
  match node with
  | None => mret 1
  | Some n =>
      status ← body n;
      AWAIT_BOOL n Stop;;
      libp2p_ctx_destroy node;;
      mret status
  end.

End Metrics.

(** ** kad.c *)
Module Kad.

Definition ValueKey : string := "/cbind/kad/demo-key".
Definition ValueData : string := "hello kademlia".

Record CidWaiter := mkCidWaiter { cw_err_code : Z; cw_err : string; cw_cid : string }.

Definition on_cid (cb : callback) : CidWaiter :=
  let err := copy_str 256 (cb_em cb) in
  match cb_reply cb with
  | RStr s => mkCidWaiter (cb_ec cb) err (copy_str 256 s)
  | _ => mkCidWaiter (cb_ec cb) err ""
  end.

Record ValueWaiter := mkValueWaiter { vw_err_code : Z; vw_err : string; vw_data : string }.

Definition on_value (cb : callback) : ValueWaiter :=
  let err := copy_str 256 (cb_em cb) in
  match cb_reply cb with
  | RData (Some d) => mkValueWaiter (cb_ec cb) err (String.substring 0 512 d)
  | _ => mkValueWaiter (cb_ec cb) err ""
  end.

Definition MAX_PROVIDERS : nat := 8.

Record ProvidersWaiter := mkProvidersWaiter { pr_err_code : Z; pr_err : string; pr_peerIds : list string }.

Definition on_providers (cb : callback) : ProvidersWaiter :=
  let err := copy_str 256 (cb_em cb) in
  match cb_reply cb with
  | RStrings l => mkProvidersWaiter (cb_ec cb) err (copy_strs MAX_PROVIDERS 128 l)
  | _ => mkProvidersWaiter (cb_ec cb) err []
  end.

Definition kad_config (addr : string) (boot : option PeerInfoWaiter) : Config :=
  let bootstrap := match boot with
                   | Some b => [(pw_peerId b, take (pw_naddrs b) (pw_addrs b))]
                   | None => []
                   end in
  mkConfig [addr] MUXER_TYPE_MPLEX TRANSPORT_TYPE_TCP true bootstrap 0 0 0 0 no_services.

Definition kadNode (addr : string) (boot : option PeerInfoWaiter) : C (option ctx) :=
  await_create (kad_config addr boot).

(** The value and the provider round trips, up to [cleanup_client]. *)
Definition body (client server : ctx) (serverInfo : PeerInfoWaiter) : C Z :=
  check AWAIT_BOOL client Start;
  check await_connect client serverInfo;
  check AWAIT_BOOL server (KadPutValue ValueKey ValueData);
  cb ← submit_wait (Some client) (KadGetValue ValueKey 1);
  let vw := on_value cb in
  if negb (vw_err_code vw =? 0) then mret 1
  else if negb (streq (vw_data vw) ValueData) then mret 1
  else
    cb ← submit_wait None (StaticCreateCid "raw" "sha2-256" "cbind-kad");
    let cw := on_cid cb in
    if negb (cw_err_code cw =? 0) then mret 1
    else
      check AWAIT_BOOL server (KadStartProviding (cw_cid cw));
      cb ← submit_wait (Some client) (KadGetProviders (cw_cid cw));
      let pw := on_providers cb in
      if negb (pr_err_code pw =? 0) then mret 1
      else
        let serverIsProvider :=
          existsb (fun p => streq p (pw_peerId serverInfo)) (pr_peerIds pw) in
        mret (if serverIsProvider then 0 else 1).

(** The part between [start server] and [cleanup_server]. *)
Definition server_body (server : ctx) : C Z :=
  check AWAIT_BOOL server Start;
  serverInfo ← await_peerinfo server;
  match serverInfo with
  | None => mret 1
  | Some serverInfo =>
      client ← kadNode "/ip4/127.0.0.1/tcp/5032" (Some serverInfo);
      match client with
      | None => mret 1
      | Some c =>
          status ← body c server serverInfo;
          AWAIT_BOOL c Stop;;
          libp2p_ctx_destroy client;;
          mret status
      end
  end.

Definition main : C Z :=
  server ← kadNode "/ip4/127.0.0.1/tcp/5031" None;
  match server with
  | None => mret 1
  | Some s =>
      status ← server_body s;
      AWAIT_BOOL s Stop;;
      libp2p_ctx_destroy server;;
      mret status
  end.

End Kad.

(** ** libp2p_mobile_check.c *)
Module MobileCheck.

Definition NIMFFI_RET_OK : Z := 0.

(** The mutex and the condition variable order the callback before the wait. *)
Record CallbackWait := mkWait {
  done : bool; err_code : Z; err_msg : string; wctx : option ctx; bool_reply : bool }.

Definition wait_init : CallbackWait := mkWait false NIMFFI_RET_OK "" None false.

Definition record_error (w : CallbackWait) (ec : Z) (em : option string) : CallbackWait :=
  let msg :=
    if negb (streq (copy_str 512 em) "") then copy_str 512 em
    else if negb (ec =? NIMFFI_RET_OK)
    then snprintf_s 512 ("FFI returned error code " +:+ pretty ec)
    else err_msg w in
  mkWait (done w) ec msg (wctx w) (bool_reply w).

Definition signal_done (w : CallbackWait) : CallbackWait :=
  mkWait true (err_code w) (err_msg w) (wctx w) (bool_reply w).

Definition on_created (w : CallbackWait) (ec : Z) (c : option ctx) (em : option string) : CallbackWait :=
  let w := record_error w ec em in
  let w := if (ec =? NIMFFI_RET_OK) && bool_decide (c = None)
           then record_error w (-1) (Some "create callback returned a null context")
           else mkWait (done w) (err_code w) (err_msg w) c (bool_reply w) in
  signal_done w.

Definition on_bool_reply (w : CallbackWait) (cb : callback) : CallbackWait :=
  let w := record_error w (cb_ec cb) (cb_em cb) in
  let w := match cb_reply cb with
           | RBool b => mkWait (done w) (err_code w) (err_msg w) (wctx w) b
           | _ => if cb_ec cb =? NIMFFI_RET_OK
                  then record_error w (-1) (Some "bool callback returned a null reply") else w
           end in
  signal_done w.

(** The result once the callback has fired: 1 on an error code. *)
Definition wait_for_callback (w : CallbackWait) : Z :=
  if negb (err_code w =? NIMFFI_RET_OK) then 1 else 0.

Definition config : Config :=
  mkConfig ["/ip4/127.0.0.1/tcp/0"] MUXER_TYPE_YAMUX TRANSPORT_TYPE_TCP false [] 8 4 4 2 no_services.

(** The status, and the context on success; a context that comes with an error is destroyed. *)
Definition create_node : C (Z * option ctx) := fun env tr =>
  if env_submit env tr then
    match env_create env tr config with
    | None => exit_failure env tr
    | Some (ec, c, em) =>
        let w := on_created wait_init ec c em in
        (if negb (wait_for_callback w =? 0) then
           (match wctx w with
            | Some _ => libp2p_ctx_destroy (wctx w);; mret tt
            | None => mret tt
            end);;
           mret (1, None)
         else mret (0, wctx w)) env (tr ++ [ECreate config ec c])%list
    end
  else (Ret (1, None), tr).

Definition call_bool_method (c : ctx) (r : request) : C Z := fun env tr =>
  if env_submit env tr then
    (cb ← submit_wait (Some c) r;
     let w := on_bool_reply wait_init cb in
     if negb (wait_for_callback w =? 0) then mret 1
     else mret (if bool_reply w then 0 else 1)) env tr
  else (Ret 1, tr).

Definition main : C Z :=
  '(st, c) ← create_node;
  match st, c with
  | 0, Some c =>
      rc ← call_bool_method c Start;
      rc ← (if rc =? 0 then call_bool_method c Stop else mret 1);
      d ← libp2p_ctx_destroy (Some c);
      mret (if negb (d =? NIMFFI_RET_OK) then 1 else rc)
  | _, _ => mret 1
  end.

End MobileCheck.

Lemma peerstore_body_owns live l o : l ∈ live -> o ∈ live ->
  owns true live (Peerstore.body l o) (fun _ => live).
Proof. intros. unfold Peerstore.body, Peerstore.get_peers. owns_tac. Qed.

Lemma echo_round_owns live c s d t : c ∈ live -> s ∈ live ->
  owns true live (Echo.echoRoundTrip c s d t) (fun _ => live).
Proof.
  intros. unfold Echo.echoRoundTrip, Echo.serveEcho, Echo.wait_incoming. owns_tac.
Qed.

Lemma echo_body_owns live c s pw : c ∈ live -> s ∈ live ->
  owns true live (Echo.body c s pw) (fun _ => live).
Proof.
  intros. unfold Echo.body. owns_tac; by apply echo_round_owns.
Qed.

Lemma metrics_body_owns live n : n ∈ live -> owns true live (Metrics.body n) (fun _ => live).
Proof. intros. unfold Metrics.body. owns_tac. Qed.

Lemma kad_body_owns live c s i : c ∈ live -> s ∈ live ->
  owns true live (Kad.body c s i) (fun _ => live).
Proof. intros. unfold Kad.body. owns_tac. Qed.

Lemma peerstore_main_owns : owns true ∅ Peerstore.main (fun _ => ∅).
Proof.
  unfold Peerstore.main. eapply owns_bind; [apply owns_create|]. intros local.
  eapply owns_bind; [apply owns_create|]. intros other.
  assert (Hd : owns true (with_ctx (with_ctx ∅ local) other)
    (libp2p_ctx_destroy local;; libp2p_ctx_destroy other;; mret 1) (fun _ => ∅)).
  { eapply (owns_bind _ _ _ (fun _ => with_ctx ∅ other)); [|intros ?].
    - destruct local as [l|]; [|apply owns_destroy_null].
      eapply owns_post; [apply owns_destroy; destruct other; cbn [with_ctx]; multiset_solver|].
      intros ?. destruct other; cbn [with_ctx]; multiset_solver.
    - eapply owns_bind; [apply owns_destroy_opt|]. intros ?. apply owns_ret. }
  destruct local as [l|]; [|exact Hd]. destruct other as [o|]; [|exact Hd]. clear Hd.
  cbn [with_ctx].
  eapply owns_bind; [apply peerstore_body_owns; multiset_solver|]. intros st.
  eapply owns_bind; [apply owns_await_bool; multiset_solver|]. intros ?.
  eapply (owns_bind _ _ _ (fun _ => with_ctx ∅ (Some l)));
    [apply (owns_destroy_opt _ (Some o))|]. intros ?.
  eapply owns_bind; [apply owns_destroy_opt|]. intros ?. apply owns_ret.
Qed.

Lemma echo_abandon_owns s : owns true (with_ctx ∅ (Some s)) (Echo.abandon s) (fun _ => ∅).
Proof. eapply owns_bind; [apply (owns_destroy_opt ∅ (Some s))|]. intros ?. apply owns_ret. Qed.

Lemma echo_main_owns : owns true ∅ Echo.main (fun _ => ∅).
Proof.
  unfold Echo.main. eapply owns_bind; [apply owns_create|]. intros [s|]; [|apply owns_ret].
  assert (Hin : s ∈ with_ctx ∅ (Some s)) by (cbn [with_ctx]; multiset_solver).
  eapply owns_bind; [by apply owns_listener|]. intros ?.
  eapply owns_bind; [by apply owns_await_bool|]. intros mounted.
  eapply (owns_bind _ _ _ (fun _ => with_ctx ∅ (Some s))).
  { destruct mounted; [by apply owns_await_bool|apply owns_ret]. }
  intros [|]; cbn [negb]; [|apply echo_abandon_owns].
  eapply owns_bind; [by apply owns_peerinfo|]. intros [pw|]; [|apply echo_abandon_owns].
  eapply owns_bind; [apply owns_create|]. clear Hin.
  intros [c|]; [|apply echo_abandon_owns].
  eapply owns_bind; [apply echo_body_owns; cbn [with_ctx]; multiset_solver|]. intros st.
  eapply owns_bind; [apply owns_await_bool; cbn [with_ctx]; multiset_solver|]. intros ?.
  eapply owns_bind; [apply owns_await_bool; cbn [with_ctx]; multiset_solver|]. intros ?.
  eapply (owns_bind _ _ _ (fun _ => with_ctx ∅ (Some s)));
    [apply (owns_destroy_opt _ (Some c))|]. intros ?.
  eapply owns_bind; [apply (owns_destroy_opt ∅ (Some s))|]. intros ?. apply owns_ret.
Qed.

Lemma metrics_main_owns : owns true ∅ Metrics.main (fun _ => ∅).
Proof.
  unfold Metrics.main. eapply owns_bind; [apply owns_create|]. intros [n|]; [|apply owns_ret].
  eapply owns_bind; [apply metrics_body_owns; cbn [with_ctx]; multiset_solver|]. intros st.
  eapply owns_bind; [apply owns_await_bool; cbn [with_ctx]; multiset_solver|]. intros ?.
  eapply owns_bind; [apply owns_destroy_opt|]. intros ?. apply owns_ret.
Qed.

Lemma kad_server_body_owns live s : s ∈ live -> owns true live (Kad.server_body s) (fun _ => live).
Proof.
  intros Hin. unfold Kad.server_body. apply owns_or_fail; [by apply owns_await_bool|].
  eapply owns_bind; [by apply owns_peerinfo|]. intros [i|]; [|apply owns_ret].
  eapply owns_bind; [apply owns_create|]. intros [c|]; [|apply owns_ret].
  eapply owns_bind; [apply kad_body_owns; cbn [with_ctx]; multiset_solver|]. intros st.
  eapply owns_bind; [apply owns_await_bool; cbn [with_ctx]; multiset_solver|]. intros ?.
  eapply owns_bind; [apply owns_destroy_opt|]. intros ?. apply owns_ret.
Qed.

Lemma kad_main_owns : owns true ∅ Kad.main (fun _ => ∅).
Proof.
  unfold Kad.main. eapply owns_bind; [apply owns_create|]. intros [s|]; [|apply owns_ret].
  eapply owns_bind; [apply kad_server_body_owns; cbn [with_ctx]; multiset_solver|]. intros st.
  eapply owns_bind; [apply owns_await_bool; cbn [with_ctx]; multiset_solver|]. intros ?.
  eapply owns_bind; [apply owns_destroy_opt|]. intros ?. apply owns_ret.
Qed.

Lemma mobile_create_owns live :
  owns false live MobileCheck.create_node
    (fun r => if fst r =? 0 then with_ctx live (snd r) else live).
Proof.
  intros env tr Ht. unfold MobileCheck.create_node, exit_failure.
  destruct (env_submit env tr); [|done].
  destruct (env_create env tr MobileCheck.config) as [[[ec c] em]|] eqn:E; [|by rewrite Ht].
  cbn [leaked] in *. rewrite (right_id ∅ (⊎)) in Ht.
  assert (Hw : MobileCheck.wait_for_callback (MobileCheck.on_created MobileCheck.wait_init ec c em) =
      (if (ec =? 0) && negb (bool_decide (c = None)) then 0 else 1) /\
    MobileCheck.wctx (MobileCheck.on_created MobileCheck.wait_init ec c em) = c).
  { unfold MobileCheck.on_created, MobileCheck.wait_for_callback, MobileCheck.NIMFFI_RET_OK.
    destruct (Z.eqb_spec ec 0) as [->|Hne], c as [c|]; cbn; try done;
      unfold MobileCheck.NIMFFI_RET_OK; by rewrite (proj2 (Z.eqb_neq _ _) Hne). }
  destruct Hw as [-> ->].
  assert (Hc : replay ∅ (tr ++ [ECreate MobileCheck.config ec c])%list = Some (with_ctx live c))
    by (rewrite replay_app, Ht; by destruct c).
  destruct (Z.eqb_spec ec 0) as [->|Hne], c as [c|]; cbn [andb negb bool_decide decide_rel];
    unfold mbind, C_bind, mret, C_ret, libp2p_ctx_destroy; cbn -[replay];
    rewrite ?(right_id ∅ (⊎)); try done.
  rewrite replay_app, Hc. cbn. rewrite decide_True by multiset_solver. cbn. f_equal. multiset_solver.
Qed.

Lemma mobile_bool_owns live c r : c ∈ live ->
  owns false live (MobileCheck.call_bool_method c r) (fun _ => live).
Proof.
  intros Hc env tr Ht. unfold MobileCheck.call_bool_method.
  destruct (env_submit env tr); [|done].
  assert (H : owns false live (cb ← submit_wait (Some c) r;
    let w := MobileCheck.on_bool_reply MobileCheck.wait_init cb in
    if negb (MobileCheck.wait_for_callback w =? 0) then mret 1
    else mret (if MobileCheck.bool_reply w then 0 else 1)) (fun _ => live)) by owns_tac.
  by apply H.
Qed.

Lemma mobile_main_owns : owns false ∅ MobileCheck.main (fun _ => ∅).
Proof.
  unfold MobileCheck.main. eapply owns_bind; [apply mobile_create_owns|]. intros [st c].
  cbn [fst snd]. destruct (Z.eqb_spec st 0) as [->|Hst].
  - destruct c as [c|]; [|apply owns_ret].
    eapply owns_bind; [apply mobile_bool_owns; cbn [with_ctx]; multiset_solver|]. intros rc.
    eapply (owns_bind _ _ _ (fun _ => with_ctx ∅ (Some c))).
    { destruct (rc =? 0); [apply mobile_bool_owns; cbn [with_ctx]; multiset_solver|apply owns_ret]. }
    intros rc'. eapply owns_bind; [apply (owns_destroy_opt ∅ (Some c))|]. intros ?. apply owns_ret.
  - destruct st, c; try done; apply owns_ret.
Qed.

(** ** What a status of 0 means *)

(** What each client has seen when its status is 0: its calls, in their order and all answered
without an error, and what it checked of the replies. *)
Record Round := mkRound {
  ro_dial : callback; ro_write : callback; ro_incoming : Z; ro_serve : callback; ro_echo : callback;
  ro_read : callback;
}.

(** The server read what the client wrote from the stream it was told of and wrote it back, and
the client read it. *)
Definition round_events (client server : nat) (dialReq : request) (sent : string) (r : Round) : list event :=
  let id := Echo.dw_streamId (Echo.on_dial (ro_dial r)) in
  [ECall (Some client) dialReq (ro_dial r);
   ECall (Some client) (StreamWriteLp id sent) (ro_write r);
   EIncoming (ro_incoming r);
   ECall (Some server) (StreamReadLp (ro_incoming r) Echo.EchoMaxSize) (ro_serve r);
   ECall (Some server) (StreamWriteLp (ro_incoming r) (Echo.rw_data (Echo.on_read (ro_serve r)))) (ro_echo r);
   ECall (Some client) (StreamReadLp id Echo.EchoMaxSize) (ro_read r)].

Definition round_ok (sent : string) (r : Round) : Prop :=
  Forall succeeded [ro_dial r; ro_write r; ro_serve r; ro_echo r; ro_read r] /\
  Echo.rw_data (Echo.on_read (ro_read r)) = sent.

Definition echo_seen (tr : trace) : Prop := exists server client mount start info start' r1 r2,
  let peer := on_peerinfo info in
  seen ([ECreate (node_config "/ip4/127.0.0.1/tcp/5013") 0 (Some server);
         EListen (Some server) AddIncomingStreamListener;
         ECall (Some server) (MountProtocol Echo.EchoProto) mount;
         ECall (Some server) Start start;
         ECall (Some server) PeerInfo info;
         ECreate (node_config "/ip4/127.0.0.1/tcp/0") 0 (Some client);
         ECall (Some client) Start start'] ++
        round_events client server
          (Dial (pw_peerId peer) Echo.EchoProto (take (pw_naddrs peer) (pw_addrs peer))) "hello from cbind echo" r1 ++
        round_events client server (Dial (pw_peerId peer) Echo.EchoProto []) "hello again" r2)%list tr /\
  Forall succeeded [mount; start; info; start'] /\
  round_ok "hello from cbind echo" r1 /\ round_ok "hello again" r2.

Definition peerstore_seen (tr : trace) : Prop := exists local other start info add peers entry del peers',
  let peer := on_peerinfo info in
  seen [ECreate (node_config "/ip4/127.0.0.1/tcp/5051") 0 (Some local);
        ECreate (node_config "/ip4/127.0.0.1/tcp/5052") 0 (Some other);
        ECall (Some other) Start start;
        ECall (Some other) PeerInfo info;
        ECall (Some local)
          (PeerstoreAddPeer (pw_peerId peer) (take (pw_naddrs peer) (pw_addrs peer)) [Peerstore.Proto]) add;
        ECall (Some local) PeerstoreGetPeers peers;
        ECall (Some local) (PeerstoreGetPeerInfo (pw_peerId peer)) entry;
        ECall (Some local) (PeerstoreDeletePeer (pw_peerId peer)) del;
        ECall (Some local) PeerstoreGetPeers peers'] tr /\
  Forall succeeded [start; info; add; peers; entry; del; peers'] /\
  pw_peerId peer ∈ Peerstore.ps_peerIds (Peerstore.on_peers peers) /\
  Peerstore.en_naddrs (Peerstore.on_entry entry) <> O /\
  Peerstore.en_nprotocols (Peerstore.on_entry entry) <> O /\
  pw_peerId peer ∉ Peerstore.ps_peerIds (Peerstore.on_peers peers').

Definition metrics_seen (tr : trace) : Prop := exists node start collect,
  seen [ECreate (node_config "/ip4/127.0.0.1/tcp/5041") 0 (Some node);
        ECall (Some node) Start start;
        ECall None StaticCollectMetrics collect] tr /\
  Forall succeeded [start; collect] /\
  (let json := Metrics.mw_json (Metrics.on_metrics collect) in
   String.prefix "[" json = true /\ strstr json (Metrics.quote +:+ "name" +:+ Metrics.quote) = true).

Definition kad_seen (tr : trace) : Prop := exists server client start info start' conn put get cid prov provs,
  let peer := on_peerinfo info in
  let c := Kad.cw_cid (Kad.on_cid cid) in
  seen [ECreate (Kad.kad_config "/ip4/127.0.0.1/tcp/5031" None) 0 (Some server);
        ECall (Some server) Start start;
        ECall (Some server) PeerInfo info;
        ECreate (Kad.kad_config "/ip4/127.0.0.1/tcp/5032" (Some peer)) 0 (Some client);
        ECall (Some client) Start start';
        ECall (Some client) (Connect (pw_peerId peer) (take (pw_naddrs peer) (pw_addrs peer)) 0) conn;
        ECall (Some server) (KadPutValue Kad.ValueKey Kad.ValueData) put;
        ECall (Some client) (KadGetValue Kad.ValueKey 1) get;
        ECall None (StaticCreateCid "raw" "sha2-256" "cbind-kad") cid;
        ECall (Some server) (KadStartProviding c) prov;
        ECall (Some client) (KadGetProviders c) provs] tr /\
  Forall succeeded [start; info; start'; conn; put; get; cid; prov; provs] /\
  Kad.vw_data (Kad.on_value get) = Kad.ValueData /\
  pw_peerId peer ∈ Kad.pr_peerIds (Kad.on_providers provs).

(** The mobile check wants true replies, and the destruction to succeed. *)
Definition mobile_seen (tr : trace) : Prop := exists c start stop,
  seen [ECreate MobileCheck.config 0 (Some c);
        ECall (Some c) Start start; ECall (Some c) Stop stop; EDestroy (Some c) 0] tr /\
  Forall succeeded [start; stop] /\ cb_reply start = RBool true /\ cb_reply stop = RBool true.

(** The error code in a waiter is the one of its callback. *)
Lemma peers_code cb : Peerstore.ps_err_code (Peerstore.on_peers cb) = cb_ec cb.
Proof. unfold Peerstore.on_peers. by destruct (cb_reply cb). Qed.

Lemma entry_code cb : Peerstore.en_err_code (Peerstore.on_entry cb) = cb_ec cb.
Proof. unfold Peerstore.on_entry. by destruct (cb_reply cb). Qed.

Lemma read_code cb : Echo.rw_err_code (Echo.on_read cb) = cb_ec cb.
Proof. unfold Echo.on_read. by destruct (cb_reply cb) as [| | | | |[]| | | |]. Qed.

Lemma dial_code cb : Echo.dw_err_code (Echo.on_dial cb) = cb_ec cb.
Proof. unfold Echo.on_dial. by destruct (cb_reply cb). Qed.

Lemma metrics_code cb : Metrics.mw_err_code (Metrics.on_metrics cb) = cb_ec cb.
Proof. unfold Metrics.on_metrics. by destruct (cb_reply cb) as [| | | | | | |[]| |]. Qed.

Lemma value_code cb : Kad.vw_err_code (Kad.on_value cb) = cb_ec cb.
Proof. unfold Kad.on_value. by destruct (cb_reply cb) as [| | | | |[]| | | |]. Qed.

Lemma cid_code cb : Kad.cw_err_code (Kad.on_cid cb) = cb_ec cb.
Proof. unfold Kad.on_cid. by destruct (cb_reply cb). Qed.

Lemma providers_code cb : Kad.pr_err_code (Kad.on_providers cb) = cb_ec cb.
Proof. unfold Kad.on_providers. by destruct (cb_reply cb). Qed.

Lemma see_peers {A} L c (f : option Peerstore.PeersWaiter -> C A) Q :
  (forall cb, succeeded cb ->
     after (seen (L ++ [ECall (Some c) PeerstoreGetPeers cb])%list) (f (Some (Peerstore.on_peers cb))) Q) ->
  after (seen L) (f None) Q -> after (seen L) (Peerstore.get_peers c ≫= f) Q.
Proof.
  intros Ht Hf. apply after_assoc, see_submit. intros cb. apply after_ret_bind. cbv zeta.
  rewrite peers_code. destruct (Z.eqb_spec (cb_ec cb) 0); [by apply Ht|by apply forget].
Qed.

Lemma holds_spec w peerId : Peerstore.holds w peerId = true <-> peerId ∈ Peerstore.ps_peerIds w.
Proof.
  unfold Peerstore.holds. rewrite existsb_exists. split.
  - intros (p & Hp%list_elem_of_In & E%bool_decide_eq_true). by subst p.
  - intros Hp%list_elem_of_In. exists peerId. split; [done|by apply bool_decide_eq_true].
Qed.

(** A round, as a part of a longer run. *)
Lemma see_round L c s d sent k (Q : Z -> trace -> Prop) :
  (forall r, round_ok sent r -> after (seen (L ++ round_events c s d sent r)%list) k Q) ->
  (forall tr, Q 1 tr) -> after (seen L) (or_fail (Echo.echoRoundTrip c s d sent) k) Q.
Proof.
  intros Hk H1. eapply (after_or_fail _ _ _ (fun b tr => b = true ->
    exists r, seen (L ++ round_events c s d sent r)%list tr /\ round_ok sent r)); [| |done].
  2: { intros env tr a tr' Hp. destruct (Hp eq_refl) as (r & Hr & Hok). by apply (Hk r Hok). }
  unfold Echo.echoRoundTrip, Echo.serveEcho, Echo.wait_incoming.
  apply see_submit. intros dial. cbv zeta. rewrite dial_code.
  destruct (Z.eqb_spec (cb_ec dial) 0) as [Hd|]; cbn [negb]; [|fails].
  apply see_await; [intros w Hw|fails]. cbn [negb].
  apply after_assoc, see_incoming. intros id. apply after_assoc, see_submit. intros sr. rewrite read_code.
  destruct (Z.eqb_spec (cb_ec sr) 0) as [Hsr|]; cbn [negb]; [|apply after_ret_bind; fails].
  apply after_assoc, see_await; [intros sw Hsw|].
  2: { apply after_assoc, keep_await; [auto with nim|]. intros _. apply after_ret_bind. fails. }
  apply after_assoc, keep_await; [auto with nim|]. intros _. apply after_ret_bind. cbn [negb].
  apply see_submit. intros rd. rewrite read_code.
  destruct (Z.eqb_spec (cb_ec rd) 0) as [Hrd|]; cbn [negb]; [|fails].
  do 2 (apply keep_await; [auto with nim|]; intros _).
  apply after_ret. intros tr Htr Hm. apply bool_decide_eq_true in Hm.
  exists (mkRound dial w id sr sw rd). rewrite <- !app_assoc in Htr. split; [exact Htr|].
  split; [by repeat constructor|done].
Qed.

(** The clients clean up after what they have seen. *)
Ltac cleans := repeat first
  [ apply keep_await; [auto 20 with nim|intros _] | apply keep_destroy; [auto 20 with nim|intros ?] ];
  apply after_ret; auto.

Lemma lasting_echo : lasting echo_seen.
Proof. unfold echo_seen. auto 20 with nim. Qed.

Lemma lasting_peerstore : lasting peerstore_seen.
Proof. unfold peerstore_seen. auto 20 with nim. Qed.

Lemma lasting_metrics : lasting metrics_seen.
Proof. unfold metrics_seen. auto 20 with nim. Qed.

Lemma lasting_kad : lasting kad_seen.
Proof. unfold kad_seen. auto 20 with nim. Qed.

#[local] Hint Resolve lasting_echo lasting_peerstore lasting_metrics lasting_kad : nim.

(** A node that was not created: the client gives up. *)
Lemma after_give_up {A} P (m : C A) (f : A -> C Z) (Q : trace -> Prop) :
  (forall a, exists g, f a = mret 1 \/ f a = (libp2p_ctx_destroy g;; mret 1)) ->
  after P (m ≫= f) (fun st tr => st = 0 -> Q tr).
Proof.
  intros Hf env tr b tr' _ E. unfold mbind, C_bind in E. destruct (m env tr) as [[a|code] tr1]; [|done].
  destruct (Hf a) as (g & [Eg|Eg]); rewrite Eg in E; by injection E as <- _.
Qed.

Lemma peerstore_main_seen : after (seen []) Peerstore.main (fun st tr => st = 0 -> peerstore_seen tr).
Proof.
  unfold Peerstore.main, createNode.
  apply see_create; [intros l|]; (apply see_create; [intros o|]); cbn [app];
    try (apply after_give_up; by eauto).
  eapply (after_bind _ _ _ (fun st tr => st = 0 -> peerstore_seen tr)); [|intros st; cleans].
  unfold Peerstore.body. apply see_check; [intros start Hs; cbn [app]|done].
  apply see_peerinfo; [intros info Hi; cbn [app]|fails].
  apply see_check; [intros add Ha; cbn [app]|done].
  apply see_peers; [intros peers Hp; cbn [app]|fails].
  apply see_submit. intros entry. cbn [app]. cbv zeta. rewrite entry_code.
  destruct (Z.eqb_spec (cb_ec entry) 0) as [He|]; cbn [negb]; [|fails].
  destruct (Peerstore.holds _ _) eqn:Hh, (Nat.eqb_spec (Peerstore.en_naddrs (Peerstore.on_entry entry)) 0),
    (Nat.eqb_spec (Peerstore.en_nprotocols (Peerstore.on_entry entry)) 0); cbn [negb orb]; try fails.
  apply see_check; [intros del Hd; cbn [app]|done].
  apply see_peers; [intros peers' Hp'; cbn [app]|fails].
  apply after_ret. intros tr Htr Hst. destruct (Peerstore.holds (Peerstore.on_peers peers') _) eqn:Hh'; [done|].
  exists l, o, start, info, add, peers, entry, del, peers'. cbv zeta. split; [exact Htr|].
  split; [by repeat constructor|]. split; [by apply holds_spec|]. split_and!; [done..|].
  intros Hin%holds_spec. congruence.
Qed.

Lemma echo_main_seen : after (seen []) Echo.main (fun st tr => st = 0 -> echo_seen tr).
Proof.
  assert (Habandon : forall P s, after P (Echo.abandon s) (fun st tr => st = 0 -> echo_seen tr)).
  { intros P s. apply after_give_up. intros _. exists None. by left. }
  unfold Echo.main, createNode. apply see_create; [intros s; cbn [app]|fails].
  apply see_listener. cbn [app].
  apply see_await; [intros mount Hm; cbn [app]|apply after_ret_bind, Habandon].
  apply see_await; [intros start Hs; cbn [app]|apply Habandon]. cbn [negb].
  apply see_peerinfo; [intros info Hi; cbn [app]|apply Habandon].
  apply see_create; [intros c; cbn [app]|apply Habandon].
  eapply (after_bind _ _ _ (fun st tr => st = 0 -> echo_seen tr)); [|intros st; cleans].
  unfold Echo.body. apply see_check; [intros start' Hs'; cbn [app]|done].
  apply see_round; [intros r1 H1|done]. apply see_round; [intros r2 H2|done].
  apply after_ret. intros tr Htr _. exists s, c, mount, start, info, start', r1, r2. cbv zeta.
  rewrite <- app_assoc in Htr. split; [exact Htr|]. split; [by repeat constructor|done].
Qed.

Lemma metrics_main_seen : after (seen []) Metrics.main (fun st tr => st = 0 -> metrics_seen tr).
Proof.
  unfold Metrics.main, createNode. apply see_create; [intros n; cbn [app]|fails].
  eapply (after_bind _ _ _ (fun st tr => st = 0 -> metrics_seen tr)); [|intros st; cleans].
  unfold Metrics.body. apply see_check; [intros start Hs; cbn [app]|done].
  apply see_submit. intros collect. cbn [app]. cbv zeta. rewrite metrics_code.
  destruct (Z.eqb_spec (cb_ec collect) 0) as [Hc|]; cbn [negb]; [|fails].
  destruct (_ && _) eqn:E; [|fails]. apply andb_prop in E as [E1 E2].
  apply after_ret. intros tr Htr _. exists n, start, collect. split; [exact Htr|].
  split; [by repeat constructor|done].
Qed.

Lemma kad_main_seen : after (seen []) Kad.main (fun st tr => st = 0 -> kad_seen tr).
Proof.
  unfold Kad.main, Kad.kadNode. apply see_create; [intros s; cbn [app]|fails].
  eapply (after_bind _ _ _ (fun st tr => st = 0 -> kad_seen tr)); [|intros st; cleans].
  unfold Kad.server_body. apply see_check; [intros start Hs; cbn [app]|done].
  apply see_peerinfo; [intros info Hi; cbn [app]|fails].
  apply see_create; [intros c; cbn [app]|fails].
  eapply (after_bind _ _ _ (fun st tr => st = 0 -> kad_seen tr)); [|intros st; cleans].
  unfold Kad.body, await_connect.
  apply see_check; [intros start' Hs'; cbn [app]|done].
  apply see_check; [intros conn Hc; cbn [app]|done].
  apply see_check; [intros put Hp; cbn [app]|done].
  apply see_submit. intros get. cbn [app]. cbv zeta. rewrite value_code.
  destruct (Z.eqb_spec (cb_ec get) 0) as [Hg|]; cbn [negb]; [|fails].
  destruct (streq _ _) eqn:Es; cbn [negb]; [|fails]. apply bool_decide_eq_true in Es.
  apply see_submit. intros cid. cbn [app]. rewrite cid_code.
  destruct (Z.eqb_spec (cb_ec cid) 0) as [Hci|]; cbn [negb]; [|fails].
  apply see_check; [intros prov Hpr; cbn [app]|done].
  apply see_submit. intros provs. cbn [app]. rewrite providers_code.
  destruct (Z.eqb_spec (cb_ec provs) 0) as [Hps|]; cbn [negb]; [|fails].
  destruct (existsb _ _) eqn:Eb; [|fails].
  apply existsb_exists in Eb as (p & Hp1%list_elem_of_In & Hp2%bool_decide_eq_true). subst p.
  apply after_ret. intros tr Htr _. exists s, c, start, info, start', conn, put, get, cid, prov, provs.
  cbv zeta. split; [exact Htr|]. split; [by repeat constructor|done].
Qed.

Lemma see_bool_method {A} L c r (f : Z -> C A) Q :
  (forall cb, succeeded cb -> cb_reply cb = RBool true ->
     after (seen (L ++ [ECall (Some c) r cb])%list) (f 0) Q) ->
  after (seen L) (f 1) Q -> after (seen L) (MobileCheck.call_bool_method c r ≫= f) Q.
Proof.
  intros H0 H1 env tr a tr' Hp E. unfold mbind, C_bind, MobileCheck.call_bool_method, submit_wait, exit_failure in E.
  destruct (env_submit env tr); [|by apply (H1 env tr a tr')].
  unfold mbind, C_bind in E. destruct (env_call env tr (Some c) r) as [cb|]; [|done].
  pose proof (seen_snoc L (ECall (Some c) r cb) tr Hp) as Hs. pose proof (seen_more L (ECall (Some c) r cb) tr Hp) as Hm.
  unfold MobileCheck.on_bool_reply, MobileCheck.record_error, MobileCheck.wait_for_callback, MobileCheck.NIMFFI_RET_OK in E.
  destruct (Z.eqb_spec (cb_ec cb) 0) as [Ec|Ec], (cb_reply cb) as [|[|]| | | | | | | |] eqn:Er; cbn in E;
    rewrite ?Ec, ?(proj2 (Z.eqb_neq _ _) Ec) in E; cbn in E;
    try (eapply H1; [exact Hm|exact E]).
  by eapply (H0 cb Ec Er).
Qed.

Lemma mobile_main_seen : after (seen []) MobileCheck.main (fun st tr => st = 0 -> mobile_seen tr).
Proof.
  unfold MobileCheck.main. eapply (after_bind _ _ _ (fun r tr =>
    forall c, r = (0, Some c) -> seen [ECreate MobileCheck.config 0 (Some c)] tr)).
  { intros env tr [rc o] tr' _ E c [= -> ->]. unfold MobileCheck.create_node, exit_failure in E.
    destruct (env_submit env tr); [|done].
    destruct (env_create env tr MobileCheck.config) as [[[ec c'] em]|]; [|done].
    unfold MobileCheck.on_created, MobileCheck.wait_for_callback, MobileCheck.NIMFFI_RET_OK in E.
    destruct (Z.eqb_spec ec 0) as [->|Hne], c' as [c'|]; cbn in E; unfold MobileCheck.NIMFFI_RET_OK in E;
      rewrite ?(proj2 (Z.eqb_neq _ _) Hne) in E; cbn in E; try done.
    injection E as <- <-. by apply sublist_inserts_l. }
  intros [rc o]. destruct (decide (rc = 0)) as [->|Hrc]; [destruct o as [c|]|].
  - apply (after_pre _ (seen [ECreate MobileCheck.config 0 (Some c)])); [by eauto|].
    assert (Hend : forall (L : list event) (rc : Z), (rc = 0 -> exists start stop, L = [ECreate MobileCheck.config 0 (Some c);
        ECall (Some c) Start start; ECall (Some c) Stop stop] /\
      Forall succeeded [start; stop] /\ cb_reply start = RBool true /\ cb_reply stop = RBool true) ->
      after (seen L) (d ← libp2p_ctx_destroy (Some c); mret (if negb (d =? MobileCheck.NIMFFI_RET_OK) then 1 else rc))
        (fun st tr => st = 0 -> mobile_seen tr)).
    { intros L rc Hrc. apply see_destroy. intros d. apply after_ret. intros tr Htr.
      destruct (Z.eqb_spec d MobileCheck.NIMFFI_RET_OK) as [->|]; [|done]. intros E.
      destruct (Hrc E) as (start & stop & -> & Hok). by exists c, start, stop. }
    apply see_bool_method; [intros start Hs Hb; cbn [app Z.eqb]|apply after_ret_bind; by apply Hend].
    apply see_bool_method; [intros stop Hs' Hb'; cbn [app]|by apply Hend].
    apply Hend. intros _. exists start, stop. split; [done|]. split; [by repeat constructor|done].
  - fails.
  - destruct rc, o; try fails; done.
Qed.
