(* ===== verification/CNetwork.v ===== *)
(** * CNetwork: the C clients of several nodes, and the properties of all clients

[relay.c], [gossipsub.c] and [service_disco.c] of cbind/examples, as CExamples models the
others; then what holds of the eight clients: the contexts they own, what a status of 0 means,
and the bounds of their waiters. *)
From stdpp Require Import gmultiset.
From Stdlib Require String Ascii.
From S2P Require Import Prelude CCommon CLogic CExamples.

#[local] Open Scope string_scope.
#[local] Open Scope Z_scope.

(** ** relay.c *)
Module Relay.

Definition Proto : string := "/cbind/relay/1.0.0".

(** [onIncomingStream] hands the stream id over and [main] waits for it. *)
Definition wait_incoming : C Z := next_incoming.

Record ReadWaiter := mkReadWaiter { rw_err_code : Z; rw_err : string; rw_data : string }.

Definition on_read (cb : callback) : ReadWaiter :=
  let err := copy_str 256 (cb_em cb) in
  match cb_reply cb with
  | RData (Some d) => mkReadWaiter (cb_ec cb) err (String.substring 0 4096 d)
  | _ => mkReadWaiter (cb_ec cb) err ""
  end.

Record DialWaiter := mkDialWaiter { dw_err_code : Z; dw_err : string; dw_streamId : Z }.

Definition on_dial (cb : callback) : DialWaiter :=
  let err := copy_str 256 (cb_em cb) in
  match cb_reply cb with
  | RStream id => mkDialWaiter (cb_ec cb) err id
  | _ => mkDialWaiter (cb_ec cb) err 0
  end.

(** The reservation itself is not looked at. *)
Definition on_reserve (cb : callback) : BoolWaiter :=
  mkBoolWaiter (cb_ec cb) (copy_str 256 (cb_em cb)).

Definition relay_config (addr : string) (client : bool) : Config :=
  mkConfig [addr] MUXER_TYPE_MPLEX TRANSPORT_TYPE_TCP false [] 0 0 0 0
    (mkServices (negb client) client false (gs_none)).

Definition createNode (addr : string) (client : bool) : C (option ctx) :=
  await_create (relay_config addr client).

(** [AWAIT_BOOL] with the callback of a reservation. *)
Definition reserve (c : ctx) (peerId : string) (addrs : list string) : C bool :=
  cb ← submit_wait (Some c) (CircuitRelayReserve peerId addrs); mret (await_bool (on_reserve cb)).

(** [snprintf(circuit, 512, "%s/p2p/%s/p2p-circuit", addrs[0], peerId)]. *)
Definition circuit_addr (relay : PeerInfoWaiter) : string :=
  snprintf_s 512 (match pw_addrs relay with a :: _ => a | [] => "" end +:+ "/p2p/" +:+
    pw_peerId relay +:+ "/p2p-circuit").

Definition message : string := "hello over the relay".

(** From the dial through the relay to [cleanup]. *)
Definition exchange (dst src : ctx) (relayInfo dstInfo : PeerInfoWaiter) : C Z :=
  cb ← submit_wait (Some src)
    (DialCircuitRelay (pw_peerId dstInfo) (circuit_addr relayInfo) Proto);
  let dw := on_dial cb in
  if negb (dw_err_code dw =? 0) then mret 1
  else
    check AWAIT_BOOL src (StreamWriteLp (dw_streamId dw) message);
    streamId ← wait_incoming;
    cb ← submit_wait (Some dst) (StreamReadLp streamId 4096);
    let rw := on_read cb in
    if negb (rw_err_code rw =? 0) then mret 1
    else
      let status := if streq (rw_data rw) message then 0 else 1 in
      AWAIT_BOOL dst (StreamRelease streamId);;
      mret status.

(** From the listener to [cleanup]. *)
Definition body (relay dst src : ctx) : C Z :=
  add_listener (Some dst) AddIncomingStreamListener;;
  check AWAIT_BOOL dst (MountProtocol Proto);
  check AWAIT_BOOL relay Start;
  check AWAIT_BOOL dst Start;
  check AWAIT_BOOL src Start;
  relayInfo ← await_peerinfo relay;
  match relayInfo with
  | None => mret 1
  | Some relayInfo =>
      dstInfo ← await_peerinfo dst;
      match dstInfo with
      | None => mret 1
      | Some dstInfo =>
          if (pw_naddrs relayInfo =? 0)%nat then mret 1
          else
            check AWAIT_BOOL dst
              (Connect (pw_peerId relayInfo) (take (pw_naddrs relayInfo) (pw_addrs relayInfo)) 0);
            check reserve dst (pw_peerId relayInfo) (take (pw_naddrs relayInfo) (pw_addrs relayInfo));
            exchange dst src relayInfo dstInfo
      end
  end.

Definition main : C Z :=
  relay ← createNode "/ip4/127.0.0.1/tcp/5061" false;
  dst ← createNode "/ip4/127.0.0.1/tcp/5062" true;
  src ← createNode "/ip4/127.0.0.1/tcp/5063" true;
  match relay, dst, src with
  | Some r, Some d, Some s =>
      status ← body r d s;
      AWAIT_BOOL s Stop;;
      AWAIT_BOOL d Stop;;
      AWAIT_BOOL r Stop;;
      libp2p_ctx_destroy src;;
      libp2p_ctx_destroy dst;;
      libp2p_ctx_destroy relay;;
      mret status
  | _, _, _ =>
      libp2p_ctx_destroy relay;;
      libp2p_ctx_destroy dst;;
      libp2p_ctx_destroy src;;
      mret 1
  end.

End Relay.

(** ** gossipsub.c *)
Module Gossipsub.

Definition Topic : string := "/cbind/demo".

Definition message : string := "hello gossipsub".

Record PublishWaiter := mkPublishWaiter { pb_err_code : Z; pb_err : string; pb_peerCount : Z }.

Definition on_publish (cb : callback) : PublishWaiter :=
  let err := copy_str 256 (cb_em cb) in
  match cb_reply cb with
  | RPublish n => mkPublishWaiter (cb_ec cb) err n
  | _ => mkPublishWaiter (cb_ec cb) err 0
  end.

(** [g_received]: 511 bytes of the message and a null character, into a buffer of zeroes. *)
Definition onPubsubMessage (data : option string) : string :=
  match data with Some d => String.substring 0 511 d | None => "" end.

Definition gossipsub_config (listenAddr : string) : Config :=
  mkConfig [listenAddr] MUXER_TYPE_MPLEX TRANSPORT_TYPE_TCP false [] 0 0 0 0
    (mkServices false false false (mkGossipsub true true (1024 * 1024) (64 * 1024) 1000)).

Definition gossipsubNode (listenAddr : string) : C (option ctx) :=
  await_create (gossipsub_config listenAddr).

(** One turn of the loop over the two nodes. *)
Definition subscribe_start (node : ctx) (k : C Z) : C Z :=
  check AWAIT_BOOL node (GossipsubSubscribe Topic);
  check AWAIT_BOOL node Start;
  k.

(** From the listener to [cleanup]. *)
Definition body (subscriber publisher : ctx) : C Z :=
  add_listener (Some subscriber) AddPubsubMessageListener;;
  subscribe_start subscriber (subscribe_start publisher (
    pw ← await_peerinfo subscriber;
    match pw with
    | None => mret 1
    | Some pw =>
        check AWAIT_BOOL publisher (Connect (pw_peerId pw) (take (pw_naddrs pw) (pw_addrs pw)) 0);
        cb ← submit_wait (Some publisher) (GossipsubPublish Topic message);
        let pubw := on_publish cb in
        if negb (pb_err_code pubw =? 0) then mret 1
        else
          data ← next_message;
          mret (if streq (c_str (onPubsubMessage data)) message then 0 else 1)
    end)).

Definition main : C Z :=
  subscriber ← gossipsubNode "/ip4/127.0.0.1/tcp/5021";
  publisher ← gossipsubNode "/ip4/127.0.0.1/tcp/5022";
  match subscriber, publisher with
  | Some s, Some p =>
      status ← body s p;
      AWAIT_BOOL p Stop;;
      AWAIT_BOOL s Stop;;
      libp2p_ctx_destroy publisher;;
      libp2p_ctx_destroy subscriber;;
      mret status
  | _, _ =>
      libp2p_ctx_destroy subscriber;;
      libp2p_ctx_destroy publisher;;
      mret 1
  end.

End Gossipsub.

(** ** service_disco.c *)
Module ServiceDisco.

Definition ServiceId : string := "/cbind/disco/demo-service".
Definition ServiceData : string := "demo-payload".

Definition MAX_RECORDS : nat := 32.

(** A row of the three arrays of the waiter. *)
Record Row := mkRow { rr_peerId : string; rr_advertises : bool; rr_serviceData : string }.

Record RecordsWaiter := mkRecordsWaiter { rc_err_code : Z; rc_err : string; rc_rows : list Row }.

(** The first service with the id decides. *)
Fixpoint copyServiceData (services : list (option string * option string)) (dst : string)
    (cap : nat) : string * bool :=
  match services with
  | [] => (dst, false)
  | (id, data) :: rest =>
      match id with
      | Some id =>
          if streq (c_str id) ServiceId then
            (match data with Some d => String.substring 0 (cap - 1) (c_str d) | None => dst end, true)
          else copyServiceData rest dst cap
      | None => copyServiceData rest dst cap
      end
  end.

Definition copy_record (r : ExtendedPeerRecordEntry) : Row :=
  let '(data, found) := copyServiceData (er_services r) "" 128 in
  mkRow (copy_str 128 (er_peerId r)) found data.

Definition on_records (cb : callback) : RecordsWaiter :=
  let err := copy_str 256 (cb_em cb) in
  match cb_reply cb with
  | RRecords l => mkRecordsWaiter (cb_ec cb) err (copy_record <$> take MAX_RECORDS l)
  | _ => mkRecordsWaiter (cb_ec cb) err []
  end.

Definition disco_config (listenAddr : string) (boot : option PeerInfoWaiter) : Config :=
  let bootstrap := match boot with
                   | Some b => [(pw_peerId b, take (pw_naddrs b) (pw_addrs b))]
                   | None => []
                   end in
  mkConfig [listenAddr] MUXER_TYPE_MPLEX TRANSPORT_TYPE_TCP false bootstrap 0 0 0 0
    (mkServices false false true (gs_none)).

Definition discoNode (listenAddr : string) (boot : option PeerInfoWaiter) : C (option ctx) :=
  await_create (disco_config listenAddr boot).

Definition LOOKUP_ATTEMPTS : nat := 30.

(** The inner loop of [lookupProvider]: the first row of the provider that advertises the
service ends the lookup, with the answer; [None] when there is no such row. *)
Fixpoint find_provider (rows : list Row) (providerId : string) : option bool :=
  match rows with
  | [] => None
  | r :: rest =>
      if negb (rr_advertises r) || negb (streq (rr_peerId r) providerId)
      then find_provider rest providerId
      else Some (streq (rr_serviceData r) ServiceData)
  end.

Fixpoint lookup_loop (attempts : nat) (seeker : ctx) (providerId : string) : C bool :=
  match attempts with
  | O => mret false
  | S attempts =>
      cb ← submit_wait (Some seeker) (ServiceDiscoLookup ServiceId);
      let rw := on_records cb in
      if negb (rc_err_code rw =? 0) then mret false
      else
        match find_provider (rc_rows rw) providerId with
        | Some b => mret b
        | None => lookup_loop attempts seeker providerId
        end
  end.

Definition lookupProvider (seeker : ctx) (providerId : string) : C bool :=
  lookup_loop LOOKUP_ATTEMPTS seeker providerId.

Definition rejectsDiscoBeforeStart (c : ctx) : C bool :=
  cb ← submit_wait (Some c) ServiceDiscoStart;
  let bw := on_bool cb in
  if bw_err_code bw =? 0 then mret false
  else mret (strstr (bw_err bw) "switch not started").

(** Up to [cleanup_seeker]. *)
Definition body (provider seeker : ctx) (providerInfo : PeerInfoWaiter) : C Z :=
  check AWAIT_BOOL seeker Start;
  check await_connect seeker providerInfo;
  check AWAIT_BOOL provider (ServiceDiscoStartAdvertising ServiceId ServiceData);
  found ← lookupProvider seeker (pw_peerId providerInfo);
  mret (if (found : bool) then 0 else 1).

(** Up to [cleanup_provider]. *)
Definition provider_body (provider : ctx) : C Z :=
  check rejectsDiscoBeforeStart provider;
  check AWAIT_BOOL provider Start;
  providerInfo ← await_peerinfo provider;
  match providerInfo with
  | None => mret 1
  | Some providerInfo =>
      seeker ← discoNode "/ip4/127.0.0.1/tcp/5042" (Some providerInfo);
      match seeker with
      | None => mret 1
      | Some s =>
          status ← body provider s providerInfo;
          AWAIT_BOOL s Stop;;
          libp2p_ctx_destroy seeker;;
          mret status
      end
  end.

Definition main : C Z :=
  provider ← discoNode "/ip4/127.0.0.1/tcp/5041" None;
  match provider with
  | None => mret 1
  | Some p =>
      status ← provider_body p;
      AWAIT_BOOL p Stop;;
      libp2p_ctx_destroy provider;;
      mret status
  end.

End ServiceDisco.

(** ** Ownership *)

Lemma relay_body_owns live r d s : r ∈ live -> d ∈ live -> s ∈ live ->
  owns true live (Relay.body r d s) (fun _ => live).
Proof.
  intros. unfold Relay.body, Relay.reserve, Relay.exchange, Relay.wait_incoming. owns_tac.
Qed.

Lemma gossipsub_body_owns live s p : s ∈ live -> p ∈ live ->
  owns true live (Gossipsub.body s p) (fun _ => live).
Proof. intros. unfold Gossipsub.body, Gossipsub.subscribe_start. owns_tac. Qed.

Lemma disco_lookup_owns live n s i : s ∈ live ->
  owns true live (ServiceDisco.lookup_loop n s i) (fun _ => live).
Proof.
  intros Hs. induction n as [|n IH]; cbn [ServiceDisco.lookup_loop]; [apply owns_ret|].
  owns_tac. exact IH.
Qed.

Lemma disco_body_owns live p s i : p ∈ live -> s ∈ live ->
  owns true live (ServiceDisco.body p s i) (fun _ => live).
Proof.
  intros. unfold ServiceDisco.body, ServiceDisco.lookupProvider. owns_tac. by apply disco_lookup_owns.
Qed.

(** Three contexts in the order they were created. *)
Lemma destroy_three_owns a b c :
  owns true (with_ctx (with_ctx (with_ctx ∅ a) b) c)
    (libp2p_ctx_destroy a;; libp2p_ctx_destroy b;; libp2p_ctx_destroy c;; mret 1) (fun _ => ∅).
Proof.
  eapply (owns_bind _ _ _ (fun _ => with_ctx (with_ctx ∅ b) c)); [|intros ?].
  { destruct a as [a|]; [|apply owns_destroy_null].
    eapply owns_post; [apply owns_destroy; destruct b, c; cbn [with_ctx]; multiset_solver|].
    intros ?. destruct b, c; cbn [with_ctx]; multiset_solver. }
  eapply (owns_bind _ _ _ (fun _ => with_ctx ∅ c)); [|intros ?].
  { destruct b as [b|]; [|apply owns_destroy_null].
    eapply owns_post; [apply owns_destroy; destruct c; cbn [with_ctx]; multiset_solver|].
    intros ?. destruct c; cbn [with_ctx]; multiset_solver. }
  eapply owns_bind; [apply owns_destroy_opt|]. intros ?. apply owns_ret.
Qed.

Lemma relay_main_owns : owns true ∅ Relay.main (fun _ => ∅).
Proof.
  unfold Relay.main. do 3 (eapply owns_bind; [apply owns_create|]; intros ?).
  rename a into relay, a0 into dst, a1 into src.
  pose proof (destroy_three_owns relay dst src) as Hd.
  destruct relay as [r|]; [|exact Hd]. destruct dst as [d|]; [|exact Hd].
  destruct src as [s|]; [|exact Hd]. clear Hd. cbn [with_ctx].
  eapply owns_bind; [apply relay_body_owns; multiset_solver|]. intros st.
  do 3 (eapply owns_bind; [apply owns_await_bool; multiset_solver|]; intros ?).
  eapply (owns_bind _ _ _ (fun _ => with_ctx (with_ctx ∅ (Some r)) (Some d)));
    [apply (owns_destroy_opt _ (Some s))|]. intros ?.
  eapply (owns_bind _ _ _ (fun _ => with_ctx ∅ (Some r)));
    [apply (owns_destroy_opt _ (Some d))|]. intros ?.
  eapply owns_bind; [apply owns_destroy_opt|]. intros ?. apply owns_ret.
Qed.

(** Two contexts, destroyed in the order they were created. *)
Lemma destroy_two_owns a b :
  owns true (with_ctx (with_ctx ∅ a) b)
    (libp2p_ctx_destroy a;; libp2p_ctx_destroy b;; mret 1) (fun _ => ∅).
Proof.
  eapply (owns_bind _ _ _ (fun _ => with_ctx ∅ b)); [|intros ?].
  { destruct a as [a|]; [|apply owns_destroy_null].
    eapply owns_post; [apply owns_destroy; destruct b; cbn [with_ctx]; multiset_solver|].
    intros ?. destruct b; cbn [with_ctx]; multiset_solver. }
  eapply owns_bind; [apply owns_destroy_opt|]. intros ?. apply owns_ret.
Qed.

Lemma gossipsub_main_owns : owns true ∅ Gossipsub.main (fun _ => ∅).
Proof.
  unfold Gossipsub.main. do 2 (eapply owns_bind; [apply owns_create|]; intros ?).
  rename a into subscriber, a0 into publisher.
  pose proof (destroy_two_owns subscriber publisher) as Hd.
  destruct subscriber as [s|]; [|exact Hd]. destruct publisher as [p|]; [|exact Hd].
  clear Hd. cbn [with_ctx].
  eapply owns_bind; [apply gossipsub_body_owns; multiset_solver|]. intros st.
  do 2 (eapply owns_bind; [apply owns_await_bool; multiset_solver|]; intros ?).
  eapply (owns_bind _ _ _ (fun _ => with_ctx ∅ (Some s)));
    [apply (owns_destroy_opt _ (Some p))|]. intros ?.
  eapply owns_bind; [apply owns_destroy_opt|]. intros ?. apply owns_ret.
Qed.

Lemma disco_provider_owns live p : p ∈ live ->
  owns true live (ServiceDisco.provider_body p) (fun _ => live).
Proof.
  intros Hin. unfold ServiceDisco.provider_body, ServiceDisco.rejectsDiscoBeforeStart.
  apply owns_or_fail; [owns_tac|]. apply owns_or_fail; [by apply owns_await_bool|].
  eapply owns_bind; [by apply owns_peerinfo|]. intros [i|]; [|apply owns_ret].
  eapply owns_bind; [apply owns_create|]. intros [s|]; [|apply owns_ret].
  eapply owns_bind; [apply disco_body_owns; cbn [with_ctx]; multiset_solver|]. intros st.
  eapply owns_bind; [apply owns_await_bool; cbn [with_ctx]; multiset_solver|]. intros ?.
  eapply owns_bind; [apply owns_destroy_opt|]. intros ?. apply owns_ret.
Qed.

Lemma disco_main_owns : owns true ∅ ServiceDisco.main (fun _ => ∅).
Proof.
  unfold ServiceDisco.main. eapply owns_bind; [apply owns_create|]. intros [p|]; [|apply owns_ret].
  eapply owns_bind; [apply disco_provider_owns; cbn [with_ctx]; multiset_solver|]. intros st.
  eapply owns_bind; [apply owns_await_bool; cbn [with_ctx]; multiset_solver|]. intros ?.
  eapply owns_bind; [apply owns_destroy_opt|]. intros ?. apply owns_ret.
Qed.

(** ** What a status of 0 means *)

(** The destination reserved a slot at the relay; the message written by the source on the stream
it dialed through the relay was read, whole, from a stream announced at the destination. *)
Definition relay_seen (tr : trace) : Prop := exists relay dst src mount s1 s2 s3 info info' conn res dial wr id rd,
  let peer := on_peerinfo info in
  let addrs := take (pw_naddrs peer) (pw_addrs peer) in
  seen [ECreate (Relay.relay_config "/ip4/127.0.0.1/tcp/5061" false) 0 (Some relay);
        ECreate (Relay.relay_config "/ip4/127.0.0.1/tcp/5062" true) 0 (Some dst);
        ECreate (Relay.relay_config "/ip4/127.0.0.1/tcp/5063" true) 0 (Some src);
        EListen (Some dst) AddIncomingStreamListener;
        ECall (Some dst) (MountProtocol Relay.Proto) mount;
        ECall (Some relay) Start s1; ECall (Some dst) Start s2; ECall (Some src) Start s3;
        ECall (Some relay) PeerInfo info; ECall (Some dst) PeerInfo info';
        ECall (Some dst) (Connect (pw_peerId peer) addrs 0) conn;
        ECall (Some dst) (CircuitRelayReserve (pw_peerId peer) addrs) res;
        ECall (Some src) (DialCircuitRelay (pw_peerId (on_peerinfo info')) (Relay.circuit_addr peer) Relay.Proto) dial;
        ECall (Some src) (StreamWriteLp (Relay.dw_streamId (Relay.on_dial dial)) Relay.message) wr;
        EIncoming id;
        ECall (Some dst) (StreamReadLp id 4096) rd] tr /\
  Forall succeeded [mount; s1; s2; s3; info; info'; conn; res; dial; wr; rd] /\
  pw_naddrs peer <> O /\ Relay.rw_data (Relay.on_read rd) = Relay.message.

(** Both nodes subscribed, the message was published and then reached the listener. *)
Definition gossipsub_seen (tr : trace) : Prop := exists subscriber publisher sub s1 sub' s2 info conn pub data,
  let peer := on_peerinfo info in
  seen [ECreate (Gossipsub.gossipsub_config "/ip4/127.0.0.1/tcp/5021") 0 (Some subscriber);
        ECreate (Gossipsub.gossipsub_config "/ip4/127.0.0.1/tcp/5022") 0 (Some publisher);
        EListen (Some subscriber) AddPubsubMessageListener;
        ECall (Some subscriber) (GossipsubSubscribe Gossipsub.Topic) sub; ECall (Some subscriber) Start s1;
        ECall (Some publisher) (GossipsubSubscribe Gossipsub.Topic) sub'; ECall (Some publisher) Start s2;
        ECall (Some subscriber) PeerInfo info;
        ECall (Some publisher) (Connect (pw_peerId peer) (take (pw_naddrs peer) (pw_addrs peer)) 0) conn;
        ECall (Some publisher) (GossipsubPublish Gossipsub.Topic Gossipsub.message) pub;
        EMessage data] tr /\
  Forall succeeded [sub; s1; sub'; s2; info; conn; pub] /\
  c_str (Gossipsub.onPubsubMessage data) = Gossipsub.message.

(** The provider refused to start discovery before it was started; once it advertised, a lookup
brought a record of it that has the service with its data. *)
Definition disco_seen (tr : trace) : Prop := exists provider seeker refuse s1 info s2 conn adv lookup,
  let peer := on_peerinfo info in
  seen [ECreate (ServiceDisco.disco_config "/ip4/127.0.0.1/tcp/5041" None) 0 (Some provider);
        ECall (Some provider) ServiceDiscoStart refuse;
        ECall (Some provider) Start s1;
        ECall (Some provider) PeerInfo info;
        ECreate (ServiceDisco.disco_config "/ip4/127.0.0.1/tcp/5042" (Some peer)) 0 (Some seeker);
        ECall (Some seeker) Start s2;
        ECall (Some seeker) (Connect (pw_peerId peer) (take (pw_naddrs peer) (pw_addrs peer)) 0) conn;
        ECall (Some provider)
          (ServiceDiscoStartAdvertising ServiceDisco.ServiceId ServiceDisco.ServiceData) adv;
        ECall (Some seeker) (ServiceDiscoLookup ServiceDisco.ServiceId) lookup] tr /\
  Forall succeeded [s1; info; s2; conn; adv; lookup] /\
  ~ succeeded refuse /\ strstr (bw_err (on_bool refuse)) "switch not started" = true /\
  (exists r, r ∈ ServiceDisco.rc_rows (ServiceDisco.on_records lookup) /\
     ServiceDisco.rr_advertises r = true /\ ServiceDisco.rr_peerId r = pw_peerId peer /\
     ServiceDisco.rr_serviceData r = ServiceDisco.ServiceData).






Lemma lasting_relay : lasting relay_seen.
Proof. unfold relay_seen. auto 25 with nim. Qed.

Lemma lasting_gossipsub : lasting gossipsub_seen.
Proof. unfold gossipsub_seen. auto 25 with nim. Qed.

Lemma lasting_disco : lasting disco_seen.
Proof. unfold disco_seen. auto 25 with nim. Qed.

#[local] Hint Resolve lasting_relay lasting_gossipsub lasting_disco : nim.





(** ** Properties *)

(** C23: ownership.  Against every library, whatever it answers and whenever it stays silent, each
of the eight clients makes every request on a context it was given and has not destroyed, and
destroys nothing twice.  When [libp2p_mobile_check.c] returns it has destroyed every context it
was given; when one of the seven clients of [common.h] returns it has destroyed all but those
that came with an error code, which [await_create] drops. *)
Theorem clients_own_contexts (env : Env) (o : outcome Z) (tr : trace) :
  (MobileCheck.main env [] = (o, tr) ->
     exists live, replay ∅ tr = Some live /\ (forall status, o = Ret status -> live = ∅)) /\
  (forall main, main ∈ [Peerstore.main; Echo.main; Metrics.main; Kad.main; Relay.main; Gossipsub.main;
       ServiceDisco.main] ->
   main env [] = (o, tr) ->
     exists live, replay ∅ tr = Some live /\ (forall status, o = Ret status -> live = failed tr)).
Proof.
  assert (H : forall h main, owns h ∅ main (fun _ => ∅) -> main env [] = (o, tr) ->
    exists live, replay ∅ tr = Some live /\ (forall status, o = Ret status -> live = leaked h tr)).
  { intros h main Hm E. specialize (Hm env []). rewrite E in Hm. destruct o as [st|code].
    - exists (∅ ⊎ leaked h tr). split; [apply Hm; destruct h; done|]. intros _ _. apply (left_id ∅ (⊎)).
    - destruct Hm as [live Hl]; [by destruct h|]. by exists live. }
  split.
  - apply (H false), mobile_main_owns.
  - intros main Hm. apply (H true). revert main Hm. rewrite <- Forall_forall.
    repeat apply Forall_cons_2; try apply Forall_nil_2;
      [apply peerstore_main_owns|apply echo_main_owns|apply metrics_main_owns|apply kad_main_owns
      |apply relay_main_owns|apply gossipsub_main_owns|apply disco_main_owns].
Qed.


Lemma copyServiceData_bound l : (String.length (ServiceDisco.copyServiceData l "" 128).1 < 128)%nat.
Proof.
  induction l as [|[[id|] data] l IH]; cbn [ServiceDisco.copyServiceData]; [cbn; lia| |done].
  destruct (streq (c_str id) _); [|done]. destruct data as [d|]; [|cbn; lia].
  cbn [fst]. pose proof (substring_length (c_str d) 0 (128 - 1)). lia.
Qed.

Lemma copy_record_bounds r : (String.length (ServiceDisco.rr_peerId (ServiceDisco.copy_record r)) < 128)%nat /\
  (String.length (ServiceDisco.rr_serviceData (ServiceDisco.copy_record r)) < 128)%nat.
Proof.
  unfold ServiceDisco.copy_record. pose proof (copyServiceData_bound (er_services r)) as H.
  destruct (ServiceDisco.copyServiceData _ _ _) as [data found]. cbn in *. split; [|done].
  apply copy_str_length. lia.
Qed.

(** whatever the callbacks deliver, the waiters stay within their buffers: an error
message keeps 255 characters, a peer id 127, an address 255, with at most 16 addresses, 16
peers, 8 providers and 32 records (with 127 characters of service data each), and the byte
counts stay below the buffer sizes. *)
Theorem waiters_in_bounds (cb : callback) :
  (let w := on_peerinfo cb in
   (String.length (pw_err w) < 256)%nat /\ (String.length (pw_peerId w) < 128)%nat /\
   pw_naddrs w = length (pw_addrs w) /\ (pw_naddrs w <= 16)%nat /\
   Forall (fun a => (String.length a < 256)%nat) (pw_addrs w)) /\
  (let w := Peerstore.on_peers cb in
   (length (Peerstore.ps_peerIds w) <= 16)%nat /\
   Forall (fun p => (String.length p < 128)%nat) (Peerstore.ps_peerIds w)) /\
  (let w := Kad.on_providers cb in
   (length (Kad.pr_peerIds w) <= 8)%nat /\
   Forall (fun p => (String.length p < 128)%nat) (Kad.pr_peerIds w)) /\
  (String.length (Echo.rw_data (Echo.on_read cb)) <= 4096)%nat /\
  (String.length (Kad.vw_data (Kad.on_value cb)) <= 512)%nat /\
  (String.length (Kad.cw_cid (Kad.on_cid cb)) < 256)%nat /\
  (String.length (Relay.rw_data (Relay.on_read cb)) <= 4096)%nat /\
  (let rows := ServiceDisco.rc_rows (ServiceDisco.on_records cb) in
   (length rows <= 32)%nat /\
   Forall (fun r => (String.length (ServiceDisco.rr_peerId r) < 128)%nat /\
     (String.length (ServiceDisco.rr_serviceData r) < 128)%nat) rows).
Proof.
  assert (Hs : forall n m l, (0 < m)%nat -> (length (copy_strs n m l) <= n)%nat /\
    Forall (fun p => (String.length p < m)%nat) (copy_strs n m l)).
  { intros n m l Hm. unfold copy_strs. rewrite length_fmap, length_take. split; [lia|].
    apply Forall_fmap, Forall_true. intros s. by apply copy_str_length. }
  assert (Hd : forall n s, (String.length (String.substring 0 n s) <= n)%nat).
  { intros n s. pose proof (substring_length s O n). lia. }
  unfold on_peerinfo, Peerstore.on_peers, Kad.on_providers, Echo.on_read, Kad.on_value, Kad.on_cid,
    Relay.on_read, ServiceDisco.on_records.
  assert (Hc : forall n s, (0 < n)%nat -> (String.length (copy_str n s) < n)%nat)
    by apply copy_str_length.
  split; [|split; [|split; [|split; [|split; [|split; [|split]]]]]].
  - destruct (cb_reply cb) as [|b|p|l|x y|d|z|s|n|l]; cbn zeta;
      (split; [apply Hc; lia|]); cbn [pw_peerId pw_naddrs pw_addrs];
      try (split_and!; done || (cbn; lia) || by constructor).
    unfold MAX_ADDRS. split_and!; try apply Hs; try lia; [apply Hc; lia|].
    unfold copy_strs. rewrite length_fmap, length_take. lia.
  - destruct (cb_reply cb); try (split; [cbn; lia|by constructor]). apply Hs. lia.
  - destruct (cb_reply cb); try (split; [cbn; lia|by constructor]). apply Hs. lia.
  - destruct (cb_reply cb) as [| | | | |[d|]| | | |]; try (cbn; lia). apply Hd.
  - destruct (cb_reply cb) as [| | | | |[d|]| | | |]; try (cbn; lia). apply Hd.
  - destruct (cb_reply cb); try (cbn; lia). apply Hc. lia.
  - destruct (cb_reply cb) as [| | | | |[d|]| | | |]; try (cbn; lia). apply Hd.
  - destruct (cb_reply cb) as [| | | | | | | | |l]; try (split; [cbn; lia|by constructor]).
    cbn zeta. cbn [ServiceDisco.rc_rows]. rewrite length_fmap, length_take.
    unfold ServiceDisco.MAX_RECORDS. split; [lia|]. apply Forall_fmap, Forall_true. intros r.
    apply copy_record_bounds.
Qed.

(** ** Witnesses *)

(** The bytes of the last write of a trace. *)
Definition last_write (tr : trace) : option string :=
  foldl (fun d e => match e with ECall _ (StreamWriteLp _ s) _ => Some s | _ => d end) None tr.

(** A library that succeeds at everything: contexts are numbered, and a read returns what was
last written. *)
Definition demo_env : Env :=
  mkEnv (fun tr _ => Some (0, Some (length tr), None))
    (fun tr _ r => Some (mkCallback 0
       match r with
       | PeerstoreGetPeers =>
           RStrings (if existsb (fun e => match e with ECall _ (PeerstoreDeletePeer _) _ => true | _ => false end) tr
                     then [] else [Some "16Uiu2"])
       | PeerstoreGetPeerInfo _ => REntry 1 1
       | PeerInfo => RPeerInfo (mkPeerInfo (Some "16Uiu2") [Some "/ip4/127.0.0.1/tcp/5013"; None])
       | StreamReadLp _ _ => RData (last_write tr)
       | Dial _ _ _ => RStream (Z.of_nat (length tr))
       | DialCircuitRelay _ _ _ => RStream (Z.of_nat (length tr))
       | _ => RBool true
       end None))
    (fun tr => Some 7) (fun tr => Some (Some Gossipsub.message)) (fun _ _ => 0) (fun _ => true).

(** A library that reports an error with a context. *)
Definition failing_env : Env :=
  mkEnv (fun tr _ => Some (1, Some (length tr), None)) (fun _ _ _ => None) (fun _ => None) (fun _ => None)
    (fun _ _ => 0) (fun _ => true).

(** The mobile check destroys the context, the other clients do not. *)
Lemma clients_own_contexts_witness :
  (exists live, replay ∅ (snd (MobileCheck.main failing_env [])) = Some live /\ live = ∅) /\
  (exists live, replay ∅ (snd (Echo.main failing_env [])) = Some live /\ live = {[+ 0%nat +]}) /\
  (exists live, replay ∅ (snd (Echo.main demo_env [])) = Some live /\ live = ∅).
Proof.
  split; [|split].
  - destruct (clients_own_contexts failing_env (Ret 1) (snd (MobileCheck.main failing_env []))) as [H _].
    destruct H as (live & E & Hl); [vm_compute; reflexivity|]. exists live. split; [exact E|by apply (Hl 1)].
  - destruct (clients_own_contexts failing_env (Ret 1) (snd (Echo.main failing_env []))) as [_ H].
    destruct (H Echo.main) as (live & E & Hl); [right; left|vm_compute; reflexivity|].
    exists live. split; [exact E|]. rewrite (Hl 1) by reflexivity. vm_compute. reflexivity.
  - destruct (clients_own_contexts demo_env (Ret 0) (snd (Echo.main demo_env []))) as [_ H].
    destruct (H Echo.main) as (live & E & Hl); [right; left|vm_compute; reflexivity|].
    exists live. split; [exact E|]. rewrite (Hl 0) by reflexivity. vm_compute. reflexivity.
Defined.

