(* ===== verification/Rng.v ===== *)
(** * Rng: libp2p/crypto/rng.nim

The procedures that turn random bytes into numbers, permutations and samples.  The generator
itself (BearSSL's HMAC-DRBG) is the class [Drbg]: a state and a function that fills a buffer.
[randBelow] draws until a word is accepted; [fuel] bounds the number of draws, and [live]
states that a generator produces a word with its top bit set within that many draws, which is
enough for every bound. *)
From S2P Require Import Prelude Endians.

#[local] Open Scope Z_scope.

(** [hmacDrbgGenerate(ctx, buf, len)]: [len] bytes and the new state. *)
Class Drbg : Type := {
  drbg : Type;
  hmacDrbgGenerate : nat -> drbg -> bytes * drbg;
}.

Class DrbgLaws `(D : Drbg) : Prop := {
  generate_length n s : length (hmacDrbgGenerate n s).1 = n;
  generate_bytes_ok n s : bytes_ok (hmacDrbgGenerate n s).1;
}.

(** ** Operations *)

Section Operations.
Context `{D : Drbg}.

(** A procedure that uses the generator; [None] is a defect (or the fuel running out). *)
Definition rand_m (A : Type) : Type := drbg -> option (A * drbg).

#[global] Instance rand_ret : MRet rand_m := fun A a s => Some (a, s).

#[global] Instance rand_bind : MBind rand_m :=
  fun A B f m s => match m s with Some (a, s') => f a s' | None => None end.

Definition assert_m (b : bool) : rand_m unit := fun s => if b then Some (tt, s) else None.

Definition lift {A} (o : option A) : rand_m A := fun s => a ← o; Some (a, s).

Definition generate (n : nat) : rand_m bytes := fun s => Some (hmacDrbgGenerate n s).

Definition generateBytes (n : Z) : rand_m bytes :=
  if n <=? 0 then mret [] else generate (Z.to_nat n).

(** [swap(x[i], x[y])]. *)
Definition swap {A} (i j : nat) (x : list A) : option (list A) :=
  xi ← x !! i; xj ← x !! j; Some (<[j := xi]> (<[i := xj]> x)).

(** [for i in countdown(x.high, 1)]; [rand] is below 2^16, so the [int32] cannot overflow. *)
Fixpoint shuffle_loop {A} (i : nat) (randValues : bytes) (x : list A) : option (list A) :=
  match i with
  | O => Some x
  | S i' =>
      lo ← randValues !! (i * 2)%nat; hi ← randValues !! (i * 2 + 1)%nat;
      let rand := Z.lor lo (Z.shiftl hi 8) in
      let y := Z.to_nat (rand mod Z.of_nat i) in
      x ← swap i y x;
      shuffle_loop i' randValues x
  end.

Definition shuffle {A} (x : list A) : rand_m (list A) :=
  if (length x =? 0)%nat then mret x
  else randValues ← generate (length x * 2);
       lift (shuffle_loop (length x - 1) randValues x).

Definition word32 (b : bytes) : Z :=
  match b with
  | [b0; b1; b2; b3] =>
      Z.lor (Z.lor (Z.lor b0 (Z.shiftl b1 8)) (Z.shiftl b2 16)) (Z.shiftl b3 24)
  | _ => 0
  end.

Definition randBelow_threshold (max : Z) : Z := wrap 32 (0 - max) mod max.

Fixpoint randBelow_loop (fuel : nat) (max threshold : Z) : rand_m Z :=
  match fuel with
  | O => fun _ => None
  | S fuel =>
      b ← generate 4;
      let r := word32 b in
      if threshold <=? r then mret (r mod max)
      else randBelow_loop fuel max threshold
  end.

(** [max] is a [uint32]; [mod] by zero raises a defect. *)
Definition randBelow (fuel : nat) (max : Z) : rand_m Z :=
  _ ← assert_m (negb (max =? 0));
  randBelow_loop fuel max (randBelow_threshold max).

(** The [uint64] the code computes for the number of values in the range. *)
Definition rand_width (low high : Z) : Z :=
  if (0 <=? low) || (high <? 0) then wrap 64 (wrap 64 (high - low) + 1)
  else wrap 64 (wrap 64 (wrap 64 (- (low + 1)) + wrap 64 high) + 2).

Definition rand (fuel : nat) (low high : Z) : rand_m Z :=
  _ ← assert_m (low <=? high);
  let width := rand_width low high in
  _ ← assert_m (width <=? 2 ^ 32 - 1);
  r ← randBelow fuel (wrap 32 width);
  mret (low + r).

(** [for i in 0 ..< count]: [output] collects [x[indices[i]]]. *)
Fixpoint pick_loop {A} (fuel : nat) (x : list A) (i : nat) (count : nat)
    (indices : list nat) (output : list A) : rand_m (list A) :=
  match count with
  | O => mret output
  | S count =>
      r ← randBelow fuel (wrap 32 (Z.of_nat (length x - i)));
      let j := (i + Z.to_nat r)%nat in
      indices ← lift (swap i j indices);
      k ← lift (indices !! i);
      xi ← lift (x !! k);
      pick_loop fuel x (S i) count indices (output ++ [xi])
  end.

Definition pick {A} (fuel : nat) (x : list A) (n : Z) : rand_m (option (list A)) :=
  _ ← assert_m (0 <=? n);
  if (length x =? 0)%nat then mret None
  else if n =? 0 then mret (Some [])
  else
    let count := Z.to_nat (Z.min n (Z.of_nat (length x))) in
    out ← pick_loop fuel x 0 count (seq 0 (length x)) [];
    mret (Some out).

Definition pickOne {A} (fuel : nat) (x : list A) : rand_m (option A) :=
  if (length x =? 0)%nat then mret None
  else r ← randBelow fuel (wrap 32 (Z.of_nat (length x)));
       v ← lift (x !! Z.to_nat r); mret (Some v).

(** One of the next [fuel] words has its top bit set, whatever the state. *)
Fixpoint live_at (fuel : nat) (s : drbg) : Prop :=
  match fuel with
  | O => False
  | S fuel => let '(b, s') := hmacDrbgGenerate 4 s in 2 ^ 31 <= word32 b \/ live_at fuel s'
  end.

Definition live (fuel : nat) : Prop := forall s, live_at fuel s.

End Operations.

Arguments rand_m {D} A.

(** ** Lemmas *)

Section Lemmas.
Context `{L : DrbgLaws}.
Context {A : Type}.
Implicit Types (x : list A) (s : drbg).

Lemma word32_bound b : bytes_ok b -> 0 <= word32 b < 2 ^ 32.
Proof.
  intros Hb. destruct b as [|b0 [|b1 [|b2 [|b3 [|]]]]]; cbn [word32]; try (split; lia).
  repeat (apply Forall_cons in Hb as [? Hb]). unfold byte_ok in *.
  rewrite (lor_shiftl b0 b1 8), (lor_shiftl (b0 + b1 * 2 ^ 8) b2 16),
    (lor_shiftl (b0 + b1 * 2 ^ 8 + b2 * 2 ^ 16) b3 24) by (pow2; lia).
  pow2. lia.
Qed.

(** The accepted words split evenly between the residues. *)
Lemma threshold_spec max : 0 < max < 2 ^ 32 ->
  0 <= randBelow_threshold max < max /\ randBelow_threshold max <= 2 ^ 31 /\
  (max | 2 ^ 32 - randBelow_threshold max).
Proof.
  intros H. unfold randBelow_threshold, wrap.
  replace ((0 - max) mod 2 ^ 32) with (2 ^ 32 - max)
    by (rewrite <- (Z_mod_plus_full (0 - max) 1 (2 ^ 32)), Z.mod_small; lia).
  replace ((2 ^ 32 - max) mod max) with (2 ^ 32 mod max)
    by (rewrite <- (Z_mod_plus_full (2 ^ 32 - max) 1 max); f_equal; lia).
  pose proof (Z.mod_pos_bound (2 ^ 32) max ltac:(lia)) as Hm.
  pose proof (Z.div_mod (2 ^ 32) max ltac:(lia)) as Hd.
  assert (1 <= 2 ^ 32 / max) by (apply Z.div_le_lower_bound; lia).
  split; [lia|]. split; [pow2; nia|]. exists (2 ^ 32 / max). lia.
Qed.

Lemma randBelow_ok fuel max s : live fuel -> 0 < max < 2 ^ 32 ->
  exists r s', randBelow fuel max s = Some (r, s') /\ 0 <= r < max.
Proof.
  intros Hl Hm. unfold randBelow, assert_m. cbn.
  destruct (Z.eqb_spec max 0); [lia|]. cbn.
  destruct (threshold_spec max Hm) as (_ & Ht & _).
  specialize (Hl s). revert s Hl. induction fuel as [|fuel IH]; intros s; cbn; [done|].
  unfold mbind, rand_bind, generate. destruct (hmacDrbgGenerate 4 s) as [b s']. intros Hl.
  destruct (Z.leb_spec (randBelow_threshold max) (word32 b)).
  - eexists _, _. split; [reflexivity|]. apply Z.mod_pos_bound. lia.
  - destruct Hl as [?|Hl]; [lia|]. by apply IH.
Qed.

Lemma lookup_insert2 {B} i j m (x : list B) a b : (i < length x)%nat -> (j < length x)%nat ->
  <[j := a]> (<[i := b]> x) !! m =
  if decide (m = j) then Some a else if decide (m = i) then Some b else x !! m.
Proof.
  intros Hi Hj. rewrite !list_lookup_insert, length_insert.
  destruct (decide (m = j)) as [->|]; [by rewrite decide_True by done|].
  rewrite decide_False by naive_solver. destruct (decide (m = i)) as [->|].
  - by rewrite decide_True by done.
  - by rewrite decide_False by naive_solver.
Qed.

Lemma swap_spec {B} i j (x : list B) : (i < length x)%nat -> (j < length x)%nat ->
  exists (x' : list B) xi xj, swap i j x = Some x' /\ x !! i = Some xi /\ x !! j = Some xj /\
    x' = <[j := xi]> (<[i := xj]> x) /\ x' ≡ₚ x /\ length x' = length x.
Proof.
  intros Hi Hj. destruct (lookup_lt_is_Some_2 _ _ Hi) as [xi Ei].
  destruct (lookup_lt_is_Some_2 _ _ Hj) as [xj Ej]. unfold swap. rewrite Ei, Ej. cbn.
  eexists _, _, _. split; [reflexivity|]. split; [done|]. split; [done|].
  split; [done|]. split; [|by rewrite !length_insert].
  apply Permutation_inj. split; [by rewrite !length_insert|].
  exists (fun n => if decide (n = i) then j else if decide (n = j) then i else n). split.
  - intros m n. repeat case_decide; congruence.
  - intros n. rewrite lookup_insert2 by done. repeat case_decide; congruence.
Qed.

Lemma shuffle_loop_ok {B} i rv (x : list B) : bytes_ok rv -> (i * 2 + 2 <= length rv)%nat ->
  (i < length x)%nat -> NoDup x ->
  exists x' : list B, shuffle_loop i rv x = Some x' /\ x' ≡ₚ x /\
    (forall m, (i < m)%nat -> x' !! m = x !! m) /\
    ((0 < i)%nat -> forall m, (m <= i)%nat -> x' !! m <> x !! m).
Proof.
  intros Hrv. revert x. induction i as [|i IH]; intros x Hl Hi Hx; cbn [shuffle_loop].
  { exists x. split_and!; [done..|lia]. }
  destruct (lookup_lt_is_Some_2 rv (S i * 2)) as [lo ->]; [lia|]. cbn [mbind option_bind].
  destruct (lookup_lt_is_Some_2 rv (S i * 2 + 1)) as [hi ->]; [lia|]. cbn [mbind option_bind].
  set (y := Z.to_nat _). assert (Hy : (y < S i)%nat).
  { subst y. pose proof (Z.mod_pos_bound (Z.lor lo (Z.shiftl hi 8)) (Z.of_nat (S i))). lia. }
  clearbody y.
  destruct (swap_spec (S i) y x) as (x1 & xi & xj & -> & Ei & Ej & E1 & Hp & Hl1); [lia..|].
  cbn [mbind option_bind].
  destruct (IH x1) as (x' & -> & Hp' & Hsame & Hmoved); [lia..|by rewrite Hp|].
  assert (Hx' : NoDup x') by (by rewrite Hp', Hp).
  assert (Hlook : forall m, x1 !! m =
    if decide (m = y) then Some xi else if decide (m = S i) then Some xj else x !! m).
  { intros m. rewrite E1. by apply lookup_insert2; lia. }
  exists x'. split; [done|]. split; [by rewrite Hp', Hp|]. split.
  - intros m Hm. rewrite Hsame by lia. rewrite Hlook. by repeat case_decide; try lia.
  - intros _ m Hm E.
    assert (EiS : x' !! S i = Some xj)
      by (rewrite Hsame by lia; rewrite Hlook; repeat case_decide; done || lia).
    destruct (decide (m = S i)) as [->|].
    + rewrite EiS, Ei in E. simplify_eq.
      pose proof (NoDup_lookup _ _ _ _ Hx Ei Ej). lia.
    + destruct (decide (m = y)) as [->|].
      * rewrite Ej in E. pose proof (NoDup_lookup _ _ _ _ Hx' E EiS). lia.
      * refine (Hmoved _ m _ _); [lia..|]. rewrite E, Hlook. by repeat case_decide.
Qed.

Lemma lookup_swap_ne {B} i j m (x x' : list B) : swap i j x = Some x' -> m <> i -> m <> j ->
  x' !! m = x !! m.
Proof.
  unfold swap. intros E Hi Hj. destruct (x !! i); [|done]. destruct (x !! j); [|done].
  simplify_eq/=. by rewrite !list_lookup_insert_ne.
Qed.

(** [output] holds the elements the first [i] indices name, and [indices] stays a permutation. *)
Lemma pick_loop_ok fuel x i count indices s :
  live fuel -> (i + count <= length x)%nat -> Z.of_nat (length x) < 2 ^ 32 ->
  length indices = length x -> NoDup indices -> Forall (fun k => k < length x)%nat indices ->
  exists idx s', pick_loop fuel x i count indices (omap (x !!.) (take i indices)) s =
      Some (omap (x !!.) (take (i + count) idx), s') /\
    idx ≡ₚ indices /\ length idx = length x.
Proof.
  intros Hlive. revert i indices s.
  induction count as [|count IH]; intros i indices s Hc Hx Hl Hnd Hb; cbn [pick_loop].
  { exists indices, s. rewrite Nat.add_0_r. done. }
  unfold wrap. rewrite Z.mod_small by lia. unfold mbind, rand_bind.
  destruct (randBelow_ok fuel (Z.of_nat (length x - i)) s Hlive) as (r & s' & -> & Hr); [lia|].
  destruct (swap_spec i (i + Z.to_nat r) indices)
    as (ind' & xi & xj & Esw & Ei & Ej & E1 & Hp & Hl1); [lia..|].
  unfold lift. rewrite Esw. cbn.
  assert (Hk : ind' !! i = Some xj).
  { rewrite E1, lookup_insert2 by lia. repeat case_decide; congruence. }
  rewrite Hk. cbn.
  assert (Hxj : (xj < length x)%nat) by (eapply Forall_lookup in Hb; [|exact Ej]; done).
  destruct (lookup_lt_is_Some_2 _ _ Hxj) as [v Ev]. rewrite Ev. cbn.
  assert (Ht : take i ind' = take i indices).
  { rewrite E1. rewrite !take_insert_ge by lia. done. }
  assert (Eout : omap (x !!.) (take i indices) ++ [v] = omap (x !!.) (take (S i) ind')).
  { rewrite (take_S_r _ _ _ Hk), Ht, omap_app. cbn. by rewrite Ev. }
  rewrite Eout.
  destruct (IH (S i) ind' s') as (idx & s'' & -> & Hpi & Hli);
    [lia|lia|congruence|by rewrite Hp|by rewrite Hp|].
  exists idx, s''. replace (i + S count)%nat with (S i + count)%nat by lia.
  split; [done|]. split; [by rewrite Hpi|done].
Qed.

Lemma omap_lookup_seq x : omap (x !!.) (seq 0 (length x)) = x.
Proof.
  induction x as [|a x IH] using rev_ind; [done|].
  rewrite length_app, Nat.add_comm. cbn [length plus]. rewrite seq_S, omap_app. cbn.
  rewrite list_lookup_middle by done. f_equal. etrans; [|exact IH].
  apply list_omap_ext, Forall2_same_length_lookup_2; [done|].
  intros i k k' Hk Hk'. rewrite Hk in Hk'. simplify_eq.
  apply lookup_seq in Hk as [-> ?]. apply lookup_app_l. lia.
Qed.

Lemma length_omap_lookup x l : Forall (fun k => k < length x)%nat l ->
  length (omap (x !!.) l) = length l.
Proof.
  induction 1 as [|k l Hk Hl IH]; [done|]. cbn.
  destruct (lookup_lt_is_Some_2 _ _ Hk) as [v ->]. cbn. by rewrite IH.
Qed.

Lemma pick_ok fuel x n s : live fuel -> Z.of_nat (length x) < 2 ^ 32 -> 0 <= n -> x <> [] ->
  exists out s', pick fuel x n s = Some (Some out, s') /\ (out ⊆+ x) /\
    Z.of_nat (length out) = Z.min n (Z.of_nat (length x)).
Proof.
  intros Hlive Hx Hn Hne. unfold pick, assert_m.
  destruct (Z.leb_spec 0 n); [|lia]. cbn.
  destruct x as [|a x0] eqn:Ex; [done|]. rewrite <- Ex in *. clear Hne.
  replace (length x =? 0)%nat with false by (rewrite Ex; done).
  destruct (Z.eqb_spec n 0) as [->|].
  { eexists _, _. split; [reflexivity|]. split; [apply submseteq_nil_l|cbn; lia]. }
  set (count := Z.to_nat _).
  destruct (pick_loop_ok fuel x 0 count (seq 0 (length x)) s) as (idx & s' & E & Hp & Hl);
    [done|lia|done|apply length_seq|apply NoDup_seq| |].
  { apply Forall_forall. intros k Hk%elem_of_seq. lia. }
  change (omap (x !!.) (take 0 _)) with (@nil A) in E. unfold mbind, rand_bind.
  rewrite E. eexists _, _.
  split; [reflexivity|]. split.
  - assert (Hx' : omap (x !!.) idx ≡ₚ x) by (rewrite Hp, omap_lookup_seq; done).
    etrans; [|apply Permutation_submseteq, Hx'].
    rewrite <- (take_drop count idx) at 2. rewrite omap_app.
    by apply submseteq_inserts_r.
  - rewrite length_omap_lookup, length_take; [lia|]. apply Forall_take. rewrite Hp.
    apply Forall_forall. intros k Hk%elem_of_seq. lia.
Qed.

Lemma rand_width_spec low high : int_ok 64 low -> int_ok 64 high -> low <= high ->
  high - low < 2 ^ 64 - 1 -> rand_width low high = high - low + 1.
Proof.
  unfold int_ok, rand_width, wrap. pow2. change (64 - 1) with 63. pow2. intros Hl Hh Hlh Hw.
  destruct (Z.leb_spec 0 low), (Z.ltb_spec high 0); cbn [orb].
  1-3: rewrite (Z.mod_small (high - low)), Z.mod_small; lia.
  rewrite (Z.mod_small (- (low + 1))), (Z.mod_small high) by lia.
  rewrite (Z.mod_small (- (low + 1) + high)), Z.mod_small; lia.
Qed.

Lemma rand_ok fuel low high s : live fuel -> int_ok 64 low -> int_ok 64 high -> low <= high ->
  high - low < 2 ^ 32 - 1 ->
  exists v s', rand fuel low high s = Some (v, s') /\ low <= v <= high.
Proof.
  intros Hlive Hl Hh Hlh Hw. unfold rand. rewrite rand_width_spec by (try done; lia).
  unfold assert_m, mbind, rand_bind. destruct (Z.leb_spec low high); [|lia].
  destruct (Z.leb_spec (high - low + 1) (2 ^ 32 - 1)); [|lia].
  unfold wrap. rewrite Z.mod_small by lia.
  destruct (randBelow_ok fuel (high - low + 1) s Hlive) as (r & s' & -> & Hr); [lia|].
  eexists _, _. split; [reflexivity|]. lia.
Qed.

Lemma shuffle_ok {B} (x : list B) s : NoDup x ->
  exists (x' : list B) s', shuffle x s = Some (x', s') /\ x' ≡ₚ x /\
    ((2 <= length x)%nat -> forall m, (m < length x)%nat -> x' !! m <> x !! m).
Proof using L.
  intros Hx. unfold shuffle. destruct (Nat.eqb_spec (length x) 0).
  { eexists _, _. split; [reflexivity|]. split; [done|lia]. }
  unfold mbind, rand_bind, generate.
  pose proof (generate_length (length x * 2) s) as Hl.
  pose proof (generate_bytes_ok (length x * 2) s) as Hb.
  destruct (hmacDrbgGenerate (length x * 2) s) as [rv s']. cbn [fst] in *.
  destruct (shuffle_loop_ok (length x - 1) rv x) as (x' & E & Hp & _ & Hm); [done|lia|lia|done|].
  unfold lift. rewrite E. eexists _, _. split; [reflexivity|]. split; [done|].
  intros H2 m Hlt. apply Hm; lia.
Qed.

Lemma pickOne_ok fuel x s : live fuel -> Z.of_nat (length x) < 2 ^ 32 -> x <> [] ->
  exists v s', pickOne fuel x s = Some (Some v, s') /\ v ∈ x.
Proof.
  intros Hlive Hx Hne. unfold pickOne. destruct x as [|a x0] eqn:Ex; [done|]. rewrite <- Ex in *.
  replace (length x =? 0)%nat with false by (rewrite Ex; done).
  unfold wrap. rewrite Z.mod_small by lia. unfold mbind, rand_bind.
  destruct (randBelow_ok fuel (Z.of_nat (length x)) s Hlive) as (r & s' & -> & Hr).
  { rewrite Ex in *. cbn [length] in *. lia. }
  destruct (lookup_lt_is_Some_2 x (Z.to_nat r)) as [v Ev]; [lia|]. unfold lift. rewrite Ev.
  eexists _, _. split; [reflexivity|]. by eapply list_elem_of_lookup_2.
Qed.

End Lemmas.

(** ** Properties *)

(** with a generator that does not stay below 2^31 for more than [fuel] words,
[randBelow] returns a number below its bound; the words it accepts are shared evenly: each
result is the image of the same number [q] of them; and [rand] returns a number of its
(inclusive) range, negative bounds included, with no overflow. *)
Theorem rng_ranges `{L : DrbgLaws} (fuel : nat) (s : drbg) :
  live fuel ->
  (forall max, 0 < max < 2 ^ 32 ->
    (exists r s', randBelow fuel max s = Some (r, s') /\ 0 <= r < max) /\
    let t := randBelow_threshold max in
    exists q, 2 ^ 32 - t = q * max /\ 2 ^ 31 <= 2 ^ 32 - t /\
      forall r w, 0 <= r < max -> t <= w < 2 ^ 32 ->
        w mod max = r <-> exists k, 0 <= k < q /\ w = t + (r - t) mod max + k * max) /\
  (forall low high, int_ok 64 low -> int_ok 64 high -> low <= high -> high - low < 2 ^ 32 - 1 ->
    exists v s', rand fuel low high s = Some (v, s') /\ low <= v <= high).
Proof.
  intros Hlive. split; [|intros; by apply rand_ok]. intros max Hm.
  split; [by apply randBelow_ok|]. destruct (threshold_spec max Hm) as (Ht & Ht' & [q Hq]).
  cbv zeta. set (t := randBelow_threshold max) in *. clearbody t.
  exists q. split; [done|]. split; [lia|]. intros r w Hr Hw. split.
  - intros E. exists ((w - t) / max).
    assert (Em : (r - t) mod max = (w - t) mod max).
    { rewrite <- E. rewrite Zminus_mod_idemp_l. done. }
    rewrite Em. pose proof (Z.div_mod (w - t) max ltac:(lia)). split; [|lia].
    split; [apply Z.div_pos; lia|]. apply Z.div_lt_upper_bound; nia.
  - intros (k & Hk & ->). rewrite Z_mod_plus_full, Zplus_mod_idemp_r.
    replace (t + (r - t)) with r by lia. by apply Z.mod_small.
Qed.

(** C40: [shuffle] permutes its argument and, when it has two elements or more, moves every
one of them (so it never returns the identity, nor any permutation with a fixed point);
[pick] returns [min(n, len)] elements at distinct positions, nothing for an empty sequence,
and fails its assertion for a negative [n]; [pickOne] returns an element. *)
Theorem rng_selection `{L : DrbgLaws} {A} (fuel : nat) (x : list A) (n : Z) (s : drbg) :
  live fuel -> NoDup x -> Z.of_nat (length x) < 2 ^ 32 ->
  (exists (x' : list A) s', shuffle x s = Some (x', s') /\ x' ≡ₚ x /\
    ((2 <= length x)%nat -> forall m, (m < length x)%nat -> x' !! m <> x !! m)) /\
  (n < 0 -> pick fuel x n s = None) /\
  (0 <= n -> x = [] -> pick fuel x n s = Some (None, s) /\ pickOne fuel x s = Some (None, s)) /\
  (0 <= n -> x <> [] ->
    (exists out s', pick fuel x n s = Some (Some out, s') /\ (out ⊆+ x) /\ NoDup out /\
      Z.of_nat (length out) = Z.min n (Z.of_nat (length x))) /\
    (exists v s', pickOne fuel x s = Some (Some v, s') /\ v ∈ x)).
Proof.
  intros Hlive Hnd Hx. split; [by apply shuffle_ok|]. split.
  { intros Hn. unfold pick, assert_m. by destruct (Z.leb_spec 0 n); [lia|]. }
  split.
  { intros Hn ->. unfold pick, assert_m. by destruct (Z.leb_spec 0 n); [|lia]. }
  intros Hn Hne. split; [|by apply pickOne_ok].
  destruct (pick_ok fuel x n s) as (out & s' & E & Hs & Hl); [done..|].
  exists out, s'. split_and!; try done.
  apply submseteq_Permutation in Hs as [k Hk]. rewrite Hk in Hnd. by apply NoDup_app in Hnd as [? _].
Qed.

(** A generator for the witnesses: a counter, in bytes with the top bit set. *)
Definition counter_drbg : Drbg := {|
  drbg := Z;
  hmacDrbgGenerate n s := (replicate n (128 + s mod 128), s + 1);
|}.

Lemma counter_laws : DrbgLaws counter_drbg.
Proof.
  split; cbn; intros n s; [apply length_replicate|]. apply Forall_replicate. unfold byte_ok.
  pose proof (Z.mod_pos_bound s 128). lia.
Qed.

Lemma counter_live : @live counter_drbg 1.
Proof.
  intros s. cbn. left. set (b := 128 + s mod 128).
  assert (128 <= b < 256) by (subst b; pose proof (Z.mod_pos_bound s 128); lia). clearbody b.
  rewrite (lor_shiftl b b 8), (lor_shiftl (b + b * 2 ^ 8) b 16),
    (lor_shiftl (b + b * 2 ^ 8 + b * 2 ^ 16) b 24) by (pow2; lia). pow2. lia.
Qed.

Lemma rng_ranges_witness :
  exists v s', @rand counter_drbg 1 (-3) 3 7 = Some (v, s') /\ -3 <= v <= 3.
Proof.
  destruct (@rng_ranges counter_drbg counter_laws 1 7 counter_live) as [_ H].
  apply H; [split; vm_compute; congruence|split; vm_compute; congruence|lia|lia].
Defined.

Lemma rng_selection_witness :
  exists out s', @pick counter_drbg Z 1 [10; 20; 30; 40] 2 7 = Some (Some out, s') /\
    (out ⊆+ [10; 20; 30; 40]) /\ NoDup out /\ Z.of_nat (length out) = 2.
Proof.
  destruct (@rng_selection counter_drbg counter_laws Z 1 [10; 20; 30; 40] 2 7 counter_live)
    as (_ & _ & _ & H).
  - repeat constructor; rewrite ?elem_of_cons, ?elem_of_nil; lia.
  - cbn. lia.
  - destruct H as [H _]; [lia|done|exact H].
Defined.
