(* ===== verification/Ed25519.v ===== *)
(** * Ed25519: libp2p/crypto/ed25519/ed25519.nim, keys and signatures

Private keys, public keys and signatures as the byte arrays of the source, their generation,
initialisation and serialisation, [validPublicKey], [sign] and [verify], over the multiples of
[Ed25519Mult] and the scalars of [Ed25519Scalar], over the interfaces of [Nimcrypto].  The
theorems hold for every digest function. *)
From Stdlib Require Import Zmod Field.
From S2P Require Import Prelude Endians Ed25519Field Ed25519Scalar Ed25519Prime Edwards.
From S2P Require Import Ed25519Group Ed25519Tables Ed25519Mult Rng Nimcrypto.

#[local] Open Scope Z_scope.

Definition EdPrivateKeySize : nat := 64.

Definition EdPublicKeySize : nat := 32.

Definition EdSignatureSize : nat := 64.

Definition GroupOrder : bytes :=
  [0xED; 0xD3; 0xF5; 0x5C; 0x1A; 0x63; 0x12; 0x58; 0xD6; 0x9C; 0xF7; 0xA2; 0xDE;
   0xF9; 0xDE; 0x14; 0x00; 0x00; 0x00; 0x00; 0x00; 0x00; 0x00; 0x00; 0x00; 0x00; 0x00;
   0x00; 0x00; 0x00; 0x00; 0x10].

Record EdPrivateKey := mkEdPrivateKey { sk_data : bytes }.

Record EdPublicKey := mkEdPublicKey { pk_data : bytes }.

Record EdSignature := mkEdSignature { sig_data : bytes }.

Record EdKeyPair := mkEdKeyPair { seckey : EdPrivateKey; pubkey : EdPublicKey }.

Inductive EdError := EdIncorrectError.

(** [d.toOpenArray(i, i + n - 1)]; the bounds are constants, inside every array that is passed. *)
Definition open (i n : nat) (d : bytes) : bytes := take n (drop i d).

(** ** Operations *)

Section Operations.
Context `{Hash : Sha512}.

(** The three assignments to [hh.data]. *)
Definition clamp (hh : bytes) : option bytes :=
  h0 ← hh !! 0%nat;
  let hh := <[0%nat := Z.land h0 0xF8]> hh in
  h31 ← hh !! 31%nat;
  let hh := <[31%nat := Z.land h31 0x3F]> hh in
  h31 ← hh !! 31%nat;
  Some (<[31%nat := Z.lor h31 0x40]> hh).

(** What the three generators do with the first 32 bytes of [res.data]. *)
Definition derive_public (data : bytes) : option bytes :=
  hh ← clamp (sha512 (open 0 32 data));
  point ← geScalarMultBase hh;
  geP3ToBytes point.

Definition random_private `{Drbg} : rand_m EdPrivateKey :=
  b ← generate 32;
  let data := blit 0 b (replicate EdPrivateKeySize 0) in
  pk ← lift (derive_public data);
  mret (mkEdPrivateKey (blit 32 pk data)).

Definition fromSeed (seed : bytes) : option EdPrivateKey :=
  _ ← doAssert (length seed =? EdPublicKeySize)%nat;
  let data := blit 0 (open 0 32 seed) (replicate EdPrivateKeySize 0) in
  pk ← derive_public data;
  Some (mkEdPrivateKey (blit 32 pk data)).

Definition random_pair `{Drbg} : rand_m EdKeyPair :=
  b ← generate 32;
  let data := blit 0 b (replicate EdPrivateKeySize 0) in
  pk ← lift (derive_public data);
  mret (mkEdKeyPair (mkEdPrivateKey (blit 32 pk data)) (mkEdPublicKey pk)).

Definition getPublicKey (key : EdPrivateKey) : EdPublicKey :=
  mkEdPublicKey (blit 0 (open 32 32 (sk_data key)) (replicate EdPublicKeySize 0)).

(** [toBytes]: the size needed and the buffer afterwards. *)
Definition toBytes_private (key : EdPrivateKey) (data : bytes) : nat * bytes :=
  let blen := length (sk_data key) in
  (blen, if (blen <=? length data)%nat then blit 0 (sk_data key) data else data).

Definition toBytes_public (key : EdPublicKey) (data : bytes) : nat * bytes :=
  let blen := length (pk_data key) in
  (blen, if (blen <=? length data)%nat then blit 0 (pk_data key) data else data).

Definition toBytes_signature (sig : EdSignature) (data : bytes) : nat * bytes :=
  let blen := length (sig_data sig) in
  (blen, if (blen <=? length data)%nat then blit 0 (sig_data sig) data else data).

Definition getBytes_private (key : EdPrivateKey) : bytes := sk_data key.

Definition getBytes_public (key : EdPublicKey) : bytes := pk_data key.

Definition getBytes_signature (sig : EdSignature) : bytes := sig_data sig.

Definition eq_private `{CtOps} (eda edb : EdPrivateKey) : bool := isEqual (sk_data eda) (sk_data edb).

Definition eq_public `{CtOps} (eda edb : EdPublicKey) : bool := isEqual (pk_data eda) (pk_data edb).

Definition eq_signature `{CtOps} (eda edb : EdSignature) : bool :=
  isEqual (sig_data eda) (sig_data edb).

(** The procedures on a [var] key return the key too. *)
Definition init_private (key : EdPrivateKey) (data : bytes) : bool * EdPrivateKey :=
  let length := EdPrivateKeySize in
  if (length <=? List.length data)%nat
  then (true, mkEdPrivateKey (blit 0 (open 0 length data) (sk_data key)))
  else (false, key).

Definition validPublicKey (data : bytes) : option bool :=
  '(c, point) ← geFromBytesNegateVartime (open 0 32 data);
  if negb (c =? 0) then Some false
  else
    point ← point;
    encoded ← geP3ToBytes point;
    nz ← feIsNonZero (p3_x point);
    encoded ← (if negb (nz =? 0)
               then last_b ← encoded !! 31%nat; Some (<[31%nat := Z.lxor last_b 0x80]> encoded)
               else Some encoded);
    v ← verify32 encoded (open 0 32 data);
    if negb (v =? 0) then Some false
    else
      let zero := replicate EdPublicKeySize 0 in
      let identity := <[0%nat := 1]> zero in
      v ← verify32 (open 0 32 data) identity;
      if v =? 0 then Some false
      else
        multiplied ← geDoubleScalarMultVartime GroupOrder point zero;
        encoded ← geToBytes multiplied;
        v ← verify32 encoded identity;
        Some (v =? 0).

Definition init_public (key : EdPublicKey) (data : bytes) : option (bool * EdPublicKey) :=
  let length := EdPublicKeySize in
  ok ← (if (length <=? List.length data)%nat then validPublicKey data else Some false);
  Some (if (ok : bool) then (true, mkEdPublicKey (blit 0 (open 0 length data) (pk_data key)))
        else (false, key)).

Definition init_signature (sig : EdSignature) (data : bytes) : bool * EdSignature :=
  let length := EdSignatureSize in
  if (length <=? List.length data)%nat
  then (true, mkEdSignature (blit 0 (open 0 length data) (sig_data sig)))
  else (false, sig).

Definition init_private_hex `{NcrUtils} (key : EdPrivateKey) (data : string) : bool * EdPrivateKey :=
  init_private key (fromHex data).

Definition init_public_hex `{NcrUtils} (key : EdPublicKey) (data : string) : option (bool * EdPublicKey) :=
  init_public key (fromHex data).

Definition init_signature_hex `{NcrUtils} (sig : EdSignature) (data : string) : bool * EdSignature :=
  init_signature sig (fromHex data).

(** The constructors: [var res] is zeroed. *)
Definition new_private (data : bytes) : result EdError EdPrivateKey :=
  let (r, res) := init_private (mkEdPrivateKey (replicate EdPrivateKeySize 0)) data in
  if negb r then Err EdIncorrectError else Ok res.

Definition new_public (data : bytes) : option (result EdError EdPublicKey) :=
  '(r, res) ← init_public (mkEdPublicKey (replicate EdPublicKeySize 0)) data;
  Some (if negb r then Err EdIncorrectError else Ok res).

Definition new_signature (data : bytes) : result EdError EdSignature :=
  let (r, res) := init_signature (mkEdSignature (replicate EdSignatureSize 0)) data in
  if negb r then Err EdIncorrectError else Ok res.

Definition new_private_hex `{NcrUtils} (data : string) : result EdError EdPrivateKey :=
  let (r, res) := init_private_hex (mkEdPrivateKey (replicate EdPrivateKeySize 0)) data in
  if negb r then Err EdIncorrectError else Ok res.

Definition new_public_hex `{NcrUtils} (data : string) : option (result EdError EdPublicKey) :=
  '(r, res) ← init_public_hex (mkEdPublicKey (replicate EdPublicKeySize 0)) data;
  Some (if negb r then Err EdIncorrectError else Ok res).

Definition new_signature_hex `{NcrUtils} (data : string) : result EdError EdSignature :=
  let (r, res) := init_signature_hex (mkEdSignature (replicate EdSignatureSize 0)) data in
  if negb r then Err EdIncorrectError else Ok res.

Definition clear_private `{NcrUtils} (key : EdPrivateKey) : EdPrivateKey :=
  mkEdPrivateKey (burnMem (sk_data key)).

Definition clear_public `{NcrUtils} (key : EdPublicKey) : EdPublicKey :=
  mkEdPublicKey (burnMem (pk_data key)).

Definition clear_signature `{NcrUtils} (sig : EdSignature) : EdSignature :=
  mkEdSignature (burnMem (sig_data sig)).

Definition clear_pair `{NcrUtils} (pair : EdKeyPair) : EdKeyPair :=
  mkEdKeyPair (mkEdPrivateKey (burnMem (sk_data (seckey pair))))
    (mkEdPublicKey (burnMem (pk_data (pubkey pair)))).

Definition sign (key : EdPrivateKey) (message : bytes) : option EdSignature :=
  hash ← clamp (sha512 (open 0 32 (sk_data key)));
  let nonce := sha512 (open 32 32 hash ++ message) in
  n ← scReduce nonce;
  let nonce := blit 0 n nonce in
  r ← geScalarMultBase nonce;
  rbytes ← geP3ToBytes r;
  let hram := sha512 (rbytes ++ open 32 32 (sk_data key) ++ message) in
  h ← scReduce hram;
  let hram := blit 0 h hram in
  s ← scMulAdd (open 0 32 hram) (open 0 32 hash) (open 0 32 nonce);
  Some (mkEdSignature (rbytes ++ s)).

Definition verify (sig : EdSignature) (message : bytes) (key : EdPublicKey) : option bool :=
  b63 ← sig_data sig !! 63%nat;
  if negb (Z.land b63 0xE0 =? 0) then Some false
  else
    c ← checkScalar (open 32 32 (sig_data sig));
    if c =? 0 then Some false
    else
      '(c, a) ← geFromBytesNegateVartime (open 0 32 (pk_data key));
      if negb (c =? 0) then Some false
      else
        a ← a;
        let hash := sha512 (open 0 32 (sig_data sig) ++ open 0 32 (pk_data key) ++ message) in
        h ← scReduce hash;
        let hash := blit 0 h hash in
        r ← geDoubleScalarMultVartime (open 0 32 hash) a (open 32 32 (sig_data sig));
        rcheck ← geToBytes r;
        v ← verify32 (open 0 32 (sig_data sig)) rcheck;
        Some (v =? 0).

End Operations.

(** ** The order of the base point *)

Lemma order_nz : order25519 <> 0.
Proof. pose proof order_bounds. lia. Qed.

Lemma order_value : le_value GroupOrder = order25519.
Proof. reflexivity. Qed.

Lemma GroupOrder_ok : bytes_ok GroupOrder.
Proof. repeat constructor; discriminate. Qed.

(** The source's own multiplication, run on the order: the identity. *)
Lemma order_multiple : (h ← geScalarMultBase GroupOrder; Some
  (eqp (fe_val (p3_x h)) 0 && eqp (fe_val (p3_y h)) (fe_val (p3_z h)))) = Some true.
Proof. vm_compute. reflexivity. Qed.

(** The points whose coordinates are (0, 1). *)
Lemma projective_zero P X Y Z : projective P X Y Z -> X = Zmod.zero -> Y = Z -> P = pzero.
Proof.
  intros (Hz & Ex & Ey) E0 E1. apply point_eq.
  - rewrite E0 in Ex. symmetry in Ex. apply F_mul_0 in Ex as [Ex|Ex]; [exact Ex|by destruct Hz].
  - apply (F_cancel _ _ Z Hz). rewrite <- Ey, E1. change (py pzero) with (Zmod.one : F).
    symmetry. apply Zmod.mul_1_l.
Qed.

Lemma order_B : smul order25519 B = pzero.
Proof.
  destruct (geScalarMultBase_ok GroupOrder GroupOrder_ok ltac:(done)) as (h & Eh & Hh).
  { vm_compute. reflexivity. }
  pose proof order_multiple as Ho. rewrite Eh in Ho. cbn [mbind option_bind] in Ho.
  injection Ho as [Ex%eqp_true Ey%eqp_true]%andb_true_iff.
  change (take 32 GroupOrder) with GroupOrder in Hh. rewrite order_value in Hh.
  destruct Hh as (_ & _ & _ & _ & HP & _). eapply projective_zero; [exact HP| |exact Ey].
  unfold fval. rewrite Ex. apply Zmod.of_Z_0.
Qed.

Lemma B_nz : B <> pzero.
Proof.
  intros E. apply (f_equal px) in E. change (px pzero) with (Zmod.zero : F) in E.
  apply (f_equal Zmod.to_Z) in E. vm_compute in E. discriminate.
Qed.

Lemma smul_order a : smul (a mod order25519) B = smul a B.
Proof. apply smul_mod; [exact order_nz|exact order_B]. Qed.

(** The order is prime, so it divides the factors that give the identity. *)
Lemma smul_B_zero a : smul a B = pzero -> a mod order25519 = 0.
Proof.
  intros Ha. destruct (Z.eq_dec (a mod order25519) 0) as [E|E]; [exact E|exfalso].
  assert (Hc : Z.coprime order25519 a).
  { apply Z.coprime_prime_l; [exact prime_order|]. intros Hd. apply E.
    by apply Z.mod_divide; [exact order_nz|]. }
  apply Z.gcd_bezout in Hc as (u & v & E1). apply B_nz. rewrite <- (smul_1 B), <- E1.
  by rewrite smul_add, !smul_mul, order_B, Ha, !smul_0_r, (left_id pzero padd).
Qed.

(** ** Clamping *)

Lemma open_ok i n d : bytes_ok d -> bytes_ok (open i n d).
Proof. intros Hd. by apply Forall_take, Forall_drop. Qed.

Lemma open_length i n d : (i + n <= length d)%nat -> length (open i n d) = n.
Proof. intros Hl. unfold open. rewrite length_take, length_drop. lia. Qed.

Lemma open_app_l n d k : length d = n -> open 0 n (d ++ k) = d.
Proof. intros <-. unfold open. rewrite drop_0. apply take_app_length. Qed.

Lemma open_app_r i n d k : length d = i -> length k = n -> open i n (d ++ k) = k.
Proof. intros <- <-. unfold open. by rewrite drop_app_length, firstn_all. Qed.

Lemma blit_open (d k : bytes) n : length k = n -> (n <= length d)%nat -> open 0 n (blit 0 k d) = k.
Proof. intros Hk Hn. rewrite blit_prefix. by apply open_app_l. Qed.

(** The scalars of keys: multiples of 8 with the bit 254 set and the bit 255 clear. *)
Definition clamped (a : Z) : Prop := (8 | a) /\ 2 ^ 254 <= a < 2 ^ 255.

Definition clamp_byte (b : Z) : bool :=
  (Z.land b 0xF8 =? 8 * (b / 8)) && (Z.lor (Z.land b 0x3F) 0x40 =? b mod 64 + 64).

Lemma clamp_byte_ok b : byte_ok b ->
  Z.land b 0xF8 = 8 * (b / 8) /\ Z.lor (Z.land b 0x3F) 0x40 = b mod 64 + 64.
Proof.
  intros Hb. pose proof (byte_forall clamp_byte b eq_refl Hb) as H.
  by apply andb_true_iff in H as [H1%Z.eqb_eq H2%Z.eqb_eq].
Qed.

Lemma split_digest (hh : bytes) : length hh = 64%nat -> exists b0 mid b31 hi,
  hh = b0 :: mid ++ b31 :: hi /\ length mid = 30%nat /\ length hi = 32%nat.
Proof.
  intros Hl. destruct hh as [|b0 hh]; [done|]. cbn [length] in Hl.
  destruct (drop 30 hh) as [|b31 hi] eqn:E; apply (f_equal length) in E as El;
    rewrite length_drop in El; cbn [length] in El; [lia|].
  exists b0, (take 30 hh), b31, hi. rewrite <- E, take_drop, length_take. split_and!; lia || done.
Qed.

Lemma clamp_ok hh : bytes_ok hh -> length hh = 64%nat ->
  exists k, clamp hh = Some k /\ bytes_ok k /\ length k = 64%nat /\ clamped (le_value (open 0 32 k)).
Proof.
  intros Hh Hl. destruct (split_digest hh Hl) as (b0 & mid & b31 & hi & -> & Hm & Hi).
  apply Forall_cons in Hh as [H0 Hh]. apply Forall_app in Hh as [Hmid Hh].
  apply Forall_cons in Hh as [H31 Hhi].
  assert (Elook : forall x y : Z, (x :: mid ++ y :: hi) !! 31%nat = Some y).
  { intros x y. change ((mid ++ y :: hi) !! 30%nat = Some y). by apply list_lookup_middle. }
  assert (Eins : forall x y z : Z, <[31%nat := z]> (x :: mid ++ y :: hi) = x :: mid ++ z :: hi).
  { intros x y z. change (x :: <[30%nat := z]> (mid ++ y :: hi) = x :: mid ++ z :: hi).
    by rewrite insert_app_r_alt, Hm by lia. }
  unfold clamp. change ((b0 :: mid ++ b31 :: hi) !! 0%nat) with (Some b0). cbn [mbind option_bind].
  change (<[0%nat := Z.land b0 0xF8]> (b0 :: mid ++ b31 :: hi)) with
    (Z.land b0 0xF8 :: mid ++ b31 :: hi). rewrite Elook. cbn [mbind option_bind].
  rewrite Eins, Elook. cbn [mbind option_bind]. rewrite Eins.
  destruct (clamp_byte_ok b0 H0) as [E0 _], (clamp_byte_ok b31 H31) as [_ E1]. rewrite E0, E1.
  unfold byte_ok in H0, H31.
  assert (H0' : byte_ok (8 * (b0 / 8))) by (unfold byte_ok; Z.div_mod_to_equations; lia).
  assert (H31' : 64 <= b31 mod 64 + 64 < 128) by (Z.div_mod_to_equations; lia).
  set (x := b31 mod 64 + 64) in *. clearbody x.
  eexists. split; [done|]. split.
  { apply Forall_cons. split; [exact H0'|]. apply Forall_app. split; [exact Hmid|].
    apply Forall_cons. split; [unfold byte_ok; lia|exact Hhi]. }
  split; [cbn [length] in *; rewrite length_app; cbn [length]; lia|].
  replace (8 * (b0 / 8) :: mid ++ x :: hi) with ((8 * (b0 / 8) :: mid ++ [x]) ++ hi)
    by (cbn [app]; by rewrite <- (assoc app)).
  rewrite open_app_l by (cbn [length]; rewrite length_app; cbn; lia).
  cbn [le_value]. rewrite le_value_app, Hm. cbn [le_value]. change (8 * Z.of_nat 30) with 240.
  pose proof (le_value_bound mid Hmid) as Hv. rewrite Hm in Hv. change (8 * Z.of_nat 30) with 240 in Hv.
  split.
  - apply Z.divide_add_r; [apply Z.divide_factor_l|]. apply Z.divide_mul_l. by exists 32.
  - revert Hv H31'. unfold byte_ok in H0'. revert H0'. generalize (8 * (b0 / 8)), (le_value mid).
    pow2. lia.
Qed.

(** A clamped scalar is not a multiple of the order. *)
Lemma clamped_order a : clamped a -> a mod order25519 <> 0.
Proof.
  intros [[k ->] Hk] E. apply Z.mod_divide in E; [|exact order_nz].
  apply Z.divide_prime_mul in E; [|exact prime_order]. pose proof order_bounds as Ho.
  destruct E as [E|E]; apply Z.divide_pos_le in E; revert E Hk Ho; pow2; lia.
Qed.

Lemma clamped_nz a : clamped a -> smul a B <> pzero.
Proof. intros Ha E. by apply (clamped_order a Ha), smul_B_zero. Qed.

(** ** Decoding *)

(** The point over the coordinate in [s] whose sign is the one in [s]. *)
Definition decoded (s : bytes) (A : point) : Prop :=
  py A = Zmod.of_Z cm (le_value s mod 2 ^ 255) /\
  (px A = Zmod.zero \/ Zmod.to_Z (px A) mod 2 = le_value s / 2 ^ 255).

Lemma opp_zero (x : Zmod cm) : Zmod.opp x = Zmod.zero -> x = Zmod.zero.
Proof. intros E. rewrite <- (Zmod.opp_opp x), E. apply Zmod.opp_0. Qed.

Lemma decoded_unique s P Q : decoded s P -> decoded s Q -> P = Q.
Proof.
  intros [Ep Hp] [Eq Hq]. destruct (same_y P Q) as [E|E]; [by rewrite Ep, Eq|exact E|].
  destruct (Zmod.eqb_spec (px Q) Zmod.zero) as [E0|E0].
  - apply point_eq; [|by rewrite Ep, Eq]. rewrite E. change (Zmod.opp (px Q) = px Q). rewrite E0.
    apply Zmod.opp_0.
  - assert (E1 : px P = Zmod.opp (px Q)) by (by rewrite E). rewrite E1 in Hp.
    destruct Hq as [Hq|Hq]; [by destruct E0|].
    destruct Hp as [Hp|Hp]; [by destruct E0; apply opp_zero|].
    rewrite parity_opp in Hp by exact E0. lia.
Qed.

(** What an encoding stands for. *)
Lemma encodes_decoded P s : encodes P s -> decoded s P.
Proof.
  intros (Hs & Hl & Ev). unfold decoded.
  pose proof (Zmod.to_Z_pos_bound (py P) ltac:(done)) as Hb.
  pose proof (Z.mod_pos_bound (Zmod.to_Z (px P)) 2 ltac:(lia)) as Hpar.
  assert (Hp : cm < 2 ^ 255) by (by vm_compute).
  rewrite Ev, (Z.mul_comm (2 ^ 255)), Z_mod_plus_full, Z.div_add by done.
  rewrite Z.mod_small, Z.div_small, Zmod.of_Z_unsigned by lia. split; [done|by right].
Qed.

(** [geFromBytesNegateVartime] returns the opposite of the point that is decoded. *)
Lemma decode_point s : bytes_ok s -> length s = 32%nat ->
  (exists h A, geFromBytesNegateVartime s = Some (0, Some h) /\ decoded s A /\ P3_ok h (popp A)) \/
  (geFromBytesNegateVartime s = Some (-1, None) /\ forall A, ~ decoded s A).
Proof.
  intros Hs Hl. destruct (decode_ok s Hs Hl) as ([c [h|]] & -> & Hd); cbn [fst snd] in Hd.
  - destruct Hd as (-> & P & HP & Ey & Hx). left. exists h, (popp P). split; [done|].
    split; [|by rewrite popp_popp]. split; [exact Ey|]. change (px (popp P)) with (Zmod.opp (px P)).
    destruct (Zmod.eqb_spec (px P) Zmod.zero) as [E|E].
    + left. rewrite E. apply Zmod.opp_0.
    + right. rewrite parity_opp by exact E. destruct Hx as [Hx|Hx]; [by destruct E|lia].
  - destruct Hd as [-> Hn]. right. split; [done|]. intros A [Ey _]. by apply (Hn A).
Qed.

Lemma verify32_iff s t P : encodes P t -> bytes_ok s -> length s = 32%nat ->
  exists v, verify32 s t = Some v /\ ((v =? 0) = true <-> encodes P s).
Proof.
  intros He Hs Hl. pose proof He as (Ht & Hlt & _).
  exists (if decide (s = t) then 0 else -1). split; [by apply verify32_spec|].
  destruct (decide (s = t)) as [->|Hne]; [done|]. split; [done|]. intros Hs'. destruct Hne.
  by eapply encodes_unique.
Qed.

(** ** Keys *)

(** The two scalars that a seed stands for: the factor, and the prefix of the nonce. *)
Section Keys.
Context `{Hash : Sha512}.

Record key_ok (data : bytes) (k : bytes) : Prop := {
  key_bytes : bytes_ok data;
  key_length : length data = EdPrivateKeySize;
  key_clamp : clamp (sha512 (open 0 32 data)) = Some k;
  key_scalar : clamped (le_value (open 0 32 k));
  key_scalar_bytes : bytes_ok k;
  key_scalar_length : length k = 64%nat;
  key_public : encodes (smul (le_value (open 0 32 k)) B) (open 32 32 data);
}.

Lemma clamped_mult k : bytes_ok k -> length k = 64%nat -> clamped (le_value (open 0 32 k)) ->
  returns (geScalarMultBase k) (fun h => P3_ok h (smul (le_value (open 0 32 k)) B)).
Proof. intros Hk Hl [_ Hc]. apply geScalarMultBase_ok; [exact Hk|lia|]. apply Hc. Qed.

Lemma derive_public_ok b : bytes_ok b -> length b = 32%nat ->
  exists pk k, derive_public (b ++ replicate 32 0) = Some pk /\ key_ok (b ++ pk) k.
Proof.
  intros Hb Hl. unfold derive_public. rewrite open_app_l by done.
  destruct (clamp_ok (sha512 b) (sha512_bytes b) (sha512_length b)) as (k & Ek & Hk & Hlk & Hc).
  rewrite Ek. cbn [mbind option_bind]. destruct (clamped_mult k Hk Hlk Hc) as (h & -> & Hh).
  cbn [mbind option_bind]. destruct (geP3ToBytes_ok h _ Hh) as (pk & -> & Hpk).
  exists pk, k. split; [done|]. pose proof Hpk as (Hpb & Hpl & _).
  split; try done; [by apply Forall_app|by rewrite length_app, Hl, Hpl|by rewrite open_app_l|].
  by rewrite open_app_r.
Qed.

Lemma blit_seed (b : bytes) : length b = 32%nat ->
  blit 0 b (replicate EdPrivateKeySize 0) = b ++ replicate 32 0.
Proof. intros Hl. rewrite blit_prefix, Hl. done. Qed.

Lemma blit_public (b pk : bytes) : length b = 32%nat -> length pk = 32%nat ->
  blit 32 pk (b ++ replicate 32 0) = b ++ pk.
Proof.
  intros Hb Hp. unfold blit. rewrite <- Hb, take_app_length, Hp, drop_ge, app_nil_r; [done|].
  rewrite length_app, length_replicate. lia.
Qed.

Lemma key_public_length d k : key_ok d k -> length (open 32 32 d) = 32%nat.
Proof. intros Hk. by destruct (key_public _ _ Hk) as (_ & Hl & _). Qed.

Lemma key_split d k : key_ok d k -> d = open 0 32 d ++ open 32 32 d.
Proof.
  intros Hk. unfold open. change (drop 0 d) with d.
  rewrite (firstn_all2 (drop 32 d)), take_drop; [done|].
  rewrite length_drop, (key_length _ _ Hk). cbn. lia.
Qed.

Lemma open_all n (l : bytes) : length l = n -> open 0 n l = l.
Proof. intros <-. exact (firstn_all l). Qed.

Lemma generated_ok b : bytes_ok b -> length b = 32%nat ->
  exists pk k, derive_public (blit 0 b (replicate EdPrivateKeySize 0)) = Some pk /\
    blit 32 pk (blit 0 b (replicate EdPrivateKeySize 0)) = b ++ pk /\ key_ok (b ++ pk) k /\
    open 32 32 (b ++ pk) = pk.
Proof.
  intros Hb Hl. rewrite blit_seed by done. destruct (derive_public_ok b Hb Hl) as (pk & k & -> & Hk).
  assert (Hp : length pk = 32%nat).
  { pose proof (key_length _ _ Hk) as E. rewrite length_app in E. change EdPrivateKeySize with 64%nat in E. lia. }
  exists pk, k. split; [done|]. split; [by apply blit_public|]. split; [done|]. by apply open_app_r.
Qed.

Lemma fromSeed_ok seed : bytes_ok seed -> length seed = 32%nat ->
  exists pk k, fromSeed seed = Some (mkEdPrivateKey (seed ++ pk)) /\ key_ok (seed ++ pk) k.
Proof.
  intros Hs Hl. unfold fromSeed. rewrite Hl. cbn [doAssert Nat.eqb EdPublicKeySize mbind option_bind].
  rewrite open_all by done. destruct (generated_ok seed Hs Hl) as (pk & k & -> & Eb & Hk & _).
  cbn [mbind option_bind]. exists pk, k. by rewrite Eb.
Qed.

Lemma getPublicKey_ok d k : key_ok d k ->
  getPublicKey (mkEdPrivateKey d) = mkEdPublicKey (open 32 32 d).
Proof.
  intros Hk. unfold getPublicKey. f_equal. cbn [sk_data]. rewrite blit_prefix.
  rewrite (key_public_length _ _ Hk). apply app_nil_r.
Qed.

(** ** Signatures *)

Lemma mod_order_bound x : 0 <= x mod order25519 < 2 ^ 253.
Proof.
  pose proof order_bounds as [H1 H2]. pose proof (Z.mod_pos_bound x order25519 ltac:(lia)). lia.
Qed.

(** A digest that was reduced in place. *)
Lemma reduce_digest m : exists n, scReduce (sha512 m) = Some n /\
  bytes_ok (blit 0 n (sha512 m)) /\ length (blit 0 n (sha512 m)) = 64%nat /\
  open 0 32 (blit 0 n (sha512 m)) = n /\ bytes_ok n /\ length n = 32%nat /\
  le_value n = le_value (sha512 m) mod order25519.
Proof.
  destruct (scReduce_spec (sha512 m) (sha512_bytes m) (sha512_length m)) as (n & En & Hn & Hl & Ev).
  exists n. split; [done|]. pose proof (sha512_length m) as Hd. split_and!; try done.
  - rewrite blit_prefix. apply Forall_app. split; [done|]. apply Forall_drop, sha512_bytes.
  - rewrite blit_length; [done|]. cbn. lia.
  - apply blit_open; [done|]. lia.
Qed.

Definition digest_scalar (m : bytes) : Z := le_value (sha512 m) mod order25519.

(** The signature of RFC 8032: [R = r B] and [S = r + h a] modulo the order, for the secret [a],
the nonce [r] hashed from the prefix and the message, and [h] hashed from [R], the key and the
message. *)
Definition signature_of (data k message sig : bytes) : Prop :=
  let a := le_value (open 0 32 k) in
  let r := digest_scalar (open 32 32 k ++ message) in
  bytes_ok sig /\ length sig = EdSignatureSize /\
  encodes (smul r B) (open 0 32 sig) /\
  le_value (open 32 32 sig) =
    (digest_scalar (open 0 32 sig ++ open 32 32 data ++ message) * a + r) mod order25519.

Lemma sign_ok d k message : key_ok d k ->
  returns (sign (mkEdPrivateKey d) message) (fun sig => signature_of d k message (sig_data sig)).
Proof.
  intros Hk. unfold sign. cbn [sk_data]. rewrite (key_clamp _ _ Hk). cbn [mbind option_bind].
  destruct (reduce_digest (open 32 32 k ++ message)) as (n & -> & Hnb & Hnl & En & Hn & Hl & Ev).
  cbn [mbind option_bind]. set (nonce := blit 0 n _) in *.
  destruct (geScalarMultBase_ok nonce Hnb ltac:(lia)) as (h & -> & Hh).
  { change (le_value (open 0 32 nonce) < 2 ^ 255). rewrite En, Ev.
    pose proof (mod_order_bound (le_value (sha512 (open 32 32 k ++ message)))). lia. }
  cbn [mbind option_bind]. change (take 32 nonce) with (open 0 32 nonce) in Hh. rewrite En, Ev in Hh.
  destruct (geP3ToBytes_ok h _ Hh) as (R & -> & HR). cbn [mbind option_bind].
  destruct (reduce_digest (R ++ open 32 32 d ++ message)) as (x & -> & _ & _ & Ex & Hx & Hlx & Evx).
  cbn [mbind option_bind]. rewrite Ex, En.
  assert (Hk32 : bytes_ok (open 0 32 k) /\ length (open 0 32 k) = 32%nat).
  { split; [apply open_ok, Hk|apply open_length]. rewrite (key_scalar_length _ _ Hk). lia. }
  destruct (scMulAdd_spec x (open 0 32 k) n Hx Hlx (proj1 Hk32) (proj2 Hk32) Hn Hl)
    as (s & -> & Hs & Hls & Es).
  cbn [mbind option_bind]. apply returns_ret. pose proof HR as (HRb & HRl & _).
  unfold signature_of, digest_scalar. cbn [sig_data]. rewrite open_app_l, open_app_r by done.
  split; [by apply Forall_app|]. split; [by rewrite length_app, HRl, Hls|]. split; [exact HR|].
  by rewrite Es, Evx, Ev.
Qed.

(** What [verify] accepts: a scalar in range, and [R = S B - h A] for the decoded key. *)
Definition valid_signature (sig message key : bytes) : Prop :=
  let S := le_value (open 32 32 sig) in
  0 < S < order25519 /\ exists A, decoded (open 0 32 key) A /\
    encodes (padd (smul S B)
      (popp (smul (digest_scalar (open 0 32 sig ++ open 0 32 key ++ message)) A))) (open 0 32 sig).

(** The top bits of a scalar. *)
Lemma top_byte_test b : byte_ok b -> (Z.land b 0xE0 =? 0) = (b <? 32).
Proof.
  intros Hb. apply eqb_prop.
  by apply (byte_forall (fun b => Bool.eqb (Z.land b 0xE0 =? 0) (b <? 32)) b eq_refl).
Qed.

Lemma top_bits sig : bytes_ok sig -> length sig = 64%nat ->
  exists b, sig !! 63%nat = Some b /\ (Z.land b 0xE0 =? 0) = (le_value (open 32 32 sig) <? 2 ^ 253).
Proof.
  intros Hs Hl. destruct (last_byte (open 32 32 sig)) as (low & b & E & Hlow & Hb).
  { apply open_length. lia. }
  exists b. split.
  { unfold open in Hb. rewrite lookup_take_lt, lookup_drop in Hb by lia. exact Hb. }
  pose proof (open_ok 32 32 sig Hs) as Ho. rewrite E in *. apply Forall_app in Ho as [Hlo Hbb].
  assert (Hb' : byte_ok b) by (by inversion Hbb). rewrite top_byte_test by done.
  pose proof (le_value_bound low Hlo) as Hv. rewrite le_value_snoc, Hlow in *.
  change (8 * Z.of_nat 31) with 248 in *. unfold byte_ok in Hb'. revert Hv.
  generalize (le_value low). intros v Hv.
  destruct (Z.ltb_spec b 32), (Z.ltb_spec (v + 2 ^ 248 * b) (2 ^ 253)); revert Hv; pow2; lia || done.
Qed.

Lemma verify_ok sig message key : bytes_ok (sig_data sig) -> length (sig_data sig) = 64%nat ->
  bytes_ok (pk_data key) -> length (pk_data key) = 32%nat ->
  exists v, verify sig message key = Some v /\
    (v = true <-> valid_signature (sig_data sig) message (pk_data key)).
Proof.
  intros Hs Hls Hk Hlk. unfold verify. destruct sig as [sig], key as [key]. cbn [sig_data pk_data] in *.
  destruct (top_bits sig Hs Hls) as (b & -> & Eb). cbn [mbind option_bind]. rewrite Eb.
  unfold valid_signature. set (R := open 0 32 sig) in *. set (s := open 32 32 sig) in *.
  set (K := open 0 32 key) in *.
  assert (HS : bytes_ok s /\ length s = 32%nat) by (split; [by apply open_ok|apply open_length; lia]).
  assert (HR : bytes_ok R /\ length R = 32%nat) by (split; [by apply open_ok|apply open_length; lia]).
  assert (HK : bytes_ok K /\ length K = 32%nat) by (split; [by apply open_ok|apply open_length; lia]).
  pose proof order_bounds as Ho.
  destruct (Z.ltb_spec (le_value s) (2 ^ 253)) as [Htop|Htop]; cbn [negb].
  2:{ exists false. split; [done|]. split; [done|]. intros [? _]. lia. }
  rewrite checkScalar_spec by apply HS. cbn [mbind option_bind].
  destruct ((0 <? le_value s) && (le_value s <? order25519)) eqn:Er; cbn [Z.eqb].
  2:{ exists false. split; [done|]. split; [done|]. intros [? _].
      apply andb_false_iff in Er as [Er%Z.ltb_ge|Er%Z.ltb_ge]; lia. }
  apply andb_true_iff in Er as [Hpos%Z.ltb_lt Hlt%Z.ltb_lt].
  destruct (decode_point K (proj1 HK) (proj2 HK)) as [(h & A & -> & HA & Hh)|[-> Hn]];
    cbn [mbind option_bind Z.eqb negb].
  2:{ exists false. split; [done|]. split; [done|]. intros [_ (A & HA & _)]. by destruct (Hn A). }
  destruct (reduce_digest (R ++ K ++ message)) as (x & -> & Hxb & Hxl & Ex & Hx & Hlx & Evx).
  cbn [mbind option_bind]. rewrite Ex.
  assert (Etake : forall l : bytes, length l = 32%nat -> take 32 l = l) by (intros l <-; apply firstn_all).
  destruct (geDoubleScalarMultVartime_ok x h (popp A) s Hx (proj1 HS) ltac:(lia) ltac:(lia)) as (r & -> & Hr).
  { rewrite Etake, Evx by done. apply mod_order_bound. }
  { rewrite Etake by apply HS. done. }
  { exact Hh. }
  rewrite !Etake, Evx in Hr by (done || apply HS). cbn [mbind option_bind].
  destruct (geToBytes_ok r _ Hr) as (rcheck & -> & Hrc). cbn [mbind option_bind].
  destruct (verify32_iff R rcheck _ Hrc (proj1 HR) (proj2 HR)) as (v & -> & Hv). cbn [mbind option_bind].
  exists (v =? 0). split; [done|]. rewrite Hv. unfold digest_scalar.
  assert (Eneg : forall z, smul z (popp A) = popp (smul z A)).
  { intros z. apply (padd_cancel (smul z A)). by rewrite <- smul_padd, !padd_opp, smul_0_r. }
  rewrite Eneg, (comm padd). split.
  - intros He. split; [done|]. exists A. by split.
  - intros [_ (A' & HA' & He)]. by rewrite (decoded_unique _ _ _ HA' HA) in He.
Qed.

(** The signature of a generated key: [R + h A = S B]. *)
Lemma signature_valid d k message sig : key_ok d k -> signature_of d k message sig ->
  0 < le_value (open 32 32 sig) -> valid_signature sig message (open 32 32 d).
Proof.
  intros Hk (Hs & Hl & HR & HS) Hpos. unfold valid_signature.
  rewrite (open_all 32 (open 32 32 d)) by exact (key_public_length _ _ Hk).
  set (r := digest_scalar (open 32 32 k ++ message)) in *.
  set (h := digest_scalar (open 0 32 sig ++ open 32 32 d ++ message)) in *.
  set (a := le_value (open 0 32 k)) in *. pose proof order_bounds as Ho.
  split; [rewrite HS; pose proof (Z.mod_pos_bound (h * a + r) order25519 ltac:(lia)); lia|].
  exists (smul a B). split; [exact (encodes_decoded _ _ (key_public _ _ Hk))|].
  replace (padd (smul (le_value (open 32 32 sig)) B) (popp (smul h (smul a B)))) with (smul r B);
    [exact HR|].
  rewrite HS, smul_order, smul_add, smul_mul, (comm padd (smul h (smul a B))), <- (assoc padd).
  by rewrite padd_opp, (right_id pzero padd).
Qed.

Lemma verify_signed d k message sig : key_ok d k -> signature_of d k message (sig_data sig) ->
  verify sig message (mkEdPublicKey (open 32 32 d)) = Some (negb (le_value (open 32 32 (sig_data sig)) =? 0)).
Proof.
  intros Hk Hsig. pose proof Hsig as (Hs & Hl & _).
  destruct (verify_ok sig message (mkEdPublicKey (open 32 32 d)) Hs Hl) as (v & -> & Hv).
  { cbn [pk_data]. apply open_ok, Hk. }
  { exact (key_public_length _ _ Hk). }
  cbn [pk_data] in Hv. f_equal. pose proof (le_value_bound _ (open_ok 32 32 _ Hs)) as Hb.
  destruct (Z.eqb_spec (le_value (open 32 32 (sig_data sig))) 0) as [E|E]; cbn [negb].
  - destruct v; [|done]. destruct (proj1 Hv eq_refl) as [? _]. lia.
  - apply Hv. eapply signature_valid; [done|done|lia].
Qed.

(** ** Valid public keys *)

(** The encodings of the points of the order, without the identity. *)
Definition valid_key (s : bytes) : Prop :=
  exists A, encodes A s /\ A <> pzero /\ smul order25519 A = pzero.

Lemma flip_byte b : byte_ok b -> Z.lxor b 0x80 = b + 128 * (1 - 2 * (b / 128)).
Proof.
  intros Hb. apply Z.eqb_eq.
  by apply (byte_forall (fun b => Z.lxor b 0x80 =? b + 128 * (1 - 2 * (b / 128))) b eq_refl).
Qed.

(** The other sign. *)
Lemma flip_encodes P s : encodes P s -> px P <> Zmod.zero ->
  returns (b ← s !! 31%nat; Some (<[31%nat := Z.lxor b 0x80]> s)) (encodes (popp P)).
Proof.
  intros (Hs & Hl & Ev) Hx. destruct (last_byte s Hl) as (low & b & -> & Hlow & Hb).
  rewrite Hb. cbn [mbind option_bind]. apply returns_ret.
  apply Forall_app in Hs as [Hlo Hbb]. assert (Hb' : byte_ok b) by (by inversion Hbb).
  rewrite insert_app_r_alt, Hlow by lia. cbn [Nat.sub insert list_insert].
  rewrite flip_byte by done. pose proof (le_value_bound low Hlo) as Hv.
  rewrite le_value_snoc, Hlow in *. change (8 * Z.of_nat 31) with 248 in *.
  pose proof (Zmod.to_Z_pos_bound (py P) ltac:(done)) as Hy.
  pose proof (Z.mod_pos_bound (Zmod.to_Z (px P)) 2 ltac:(lia)) as Hpar.
  assert (Hp : cm < 2 ^ 255) by (by vm_compute). assert (Hy' : 0 <= Zmod.to_Z (py P) < 2 ^ 255) by lia.
  clear Hy Hp. unfold byte_ok in Hb'.
  assert (Eb : b / 128 = Zmod.to_Z (px P) mod 2).
  { revert Ev Hv Hy' Hpar Hb'. generalize (le_value low), (Zmod.to_Z (py P)), (Zmod.to_Z (px P) mod 2).
    intros l y x. pow2. Z.div_mod_to_equations. lia. }
  rewrite Eb. split; [|split].
  - apply Forall_app. split; [done|]. apply Forall_singleton. unfold byte_ok. revert Hb' Eb Hpar.
    generalize (Zmod.to_Z (px P) mod 2). intros x. Z.div_mod_to_equations. lia.
  - rewrite length_app, Hlow. done.
  - change (px (popp P)) with (Zmod.opp (px P)). change (py (popp P)) with (py P).
    rewrite le_value_snoc, Hlow, parity_opp by exact Hx. change (8 * Z.of_nat 31) with 248.
    revert Ev. generalize (le_value low), (Zmod.to_Z (py P)), (Zmod.to_Z (px P) mod 2).
    intros l y x. pow2. lia.
Qed.

Definition identity_bytes : bytes := <[0%nat := 1]> (replicate EdPublicKeySize 0).

Lemma identity_encodes : encodes pzero identity_bytes.
Proof.
  split; [|split; [done|]].
  - unfold identity_bytes. repeat constructor; discriminate.
  - vm_compute. reflexivity.
Qed.

Lemma encodes_inj P Q s : encodes P s -> encodes Q s -> P = Q.
Proof. intros HP HQ. eapply decoded_unique; by apply encodes_decoded. Qed.

(** The point is encoded again, with the sign of its opposite. *)
Lemma reencode_ok {A} h P (K : bytes -> option A) Q : P3_ok h P ->
  (forall e, encodes (popp P) e -> returns (K e) Q) ->
  returns (encoded ← geP3ToBytes h;
    nz ← feIsNonZero (p3_x h);
    encoded ← (if negb (nz =? 0)
               then last_b ← encoded !! 31%nat; Some (<[31%nat := Z.lxor last_b 0x80]> encoded)
               else Some encoded);
    K encoded) Q.
Proof.
  intros Hh HK. eapply returns_bind; [exact (geP3ToBytes_ok h P Hh)|]. intros e He. cbv beta in He.
  destruct Hh as (Hx & _ & _ & _ & (Hz & Ex & _) & _).
  eapply nonzero_bind; [exact Hx|done| |]; intros Ez; cbn [Z.eqb negb].
  - cbn [mbind option_bind]. apply HK. rewrite Ex in Ez.
    replace (popp P) with P; [exact He|]. apply point_eq; [|done].
    apply F_mul_0 in Ez as [Ez|Ez]; [|by destruct Hz]. change (px P = Zmod.opp (px P)).
    rewrite Ez. symmetry. apply Zmod.opp_0.
  - eapply returns_bind; [apply (flip_encodes P e He)|exact HK]. intros E0. apply Ez.
    rewrite Ex, E0. apply Zmod.mul_0_l.
Qed.

Lemma validPublicKey_ok data : bytes_ok data -> (32 <= length data)%nat ->
  returns (validPublicKey data) (fun v => v = true <-> valid_key (open 0 32 data)).
Proof.
  intros Hd Hl. unfold validPublicKey. set (s := open 0 32 data) in *.
  assert (Hs : bytes_ok s /\ length s = 32%nat) by (split; [by apply open_ok|apply open_length; lia]).
  destruct (decode_point s (proj1 Hs) (proj2 Hs)) as [(h & A & -> & HA & Hh)|[-> Hn]];
    cbn [mbind option_bind Z.eqb negb].
  2:{ apply returns_ret. split; [done|]. intros (A & HA & _). by destruct (Hn A (encodes_decoded _ _ HA)). }
  eapply reencode_ok; [exact Hh|]. intros e He. rewrite popp_popp in He. pose proof He as (Heb & Hel & _).
  rewrite (verify32_spec e s) by (done || apply Hs). cbn [mbind option_bind].
  destruct (decide (e = s)) as [<-|Hne]; cbn [Z.eqb negb].
  2:{ apply returns_ret. split; [done|]. intros (A' & HA' & _). destruct Hne.
      rewrite (decoded_unique _ _ _ (encodes_decoded _ _ HA') HA) in HA'. by eapply encodes_unique. }
  fold identity_bytes.
  destruct (verify32_iff e identity_bytes pzero identity_encodes Heb Hel) as (v & -> & Hv).
  cbn [mbind option_bind]. destruct (v =? 0) eqn:Ev.
  { apply returns_ret. split; [done|]. intros (A' & HA' & Hnz & _). destruct Hnz.
    exact (encodes_inj _ _ _ HA' (proj1 Hv eq_refl)). }
  assert (Hnz : A <> pzero).
  { intros ->. by apply Hv in He. }
  destruct (geDoubleScalarMultVartime_ok GroupOrder h (popp A) (replicate EdPublicKeySize 0))
    as (r & -> & Hr); try done; [exact GroupOrder_ok|by apply Forall_replicate|].
  change (take 32 GroupOrder) with GroupOrder in Hr. rewrite order_value in Hr.
  change (le_value (take 32 (replicate EdPublicKeySize 0))) with 0 in Hr.
  change (smul 0 B) with pzero in Hr. rewrite (right_id pzero padd) in Hr. cbn [mbind option_bind].
  destruct (geToBytes_ok r _ Hr) as (m & -> & Hm). cbn [mbind option_bind]. pose proof Hm as (Hmb & Hml & _).
  destruct (verify32_iff m identity_bytes pzero identity_encodes Hmb Hml) as (w & -> & Hw).
  cbn [mbind option_bind]. apply returns_ret. rewrite Hw.
  assert (Eo : smul order25519 (popp A) = popp (smul order25519 A)).
  { apply (padd_cancel (smul order25519 A)). by rewrite <- smul_padd, !padd_opp, smul_0_r. }
  rewrite Eo in Hm. split.
  - intros Hm0. exists A. split; [exact He|]. split; [exact Hnz|].
    rewrite <- (popp_popp (smul order25519 A)), (encodes_inj _ _ _ Hm Hm0). apply popp_0.
  - intros (A' & HA' & _ & HL). rewrite (encodes_inj _ _ _ HA' He) in HL. by rewrite HL, popp_0 in Hm.
Qed.

(** Multiples of the base point by clamped scalars are valid. *)
Lemma key_valid d k : key_ok d k -> valid_key (open 32 32 d).
Proof.
  intros Hk. exists (smul (le_value (open 0 32 k)) B). split; [apply Hk|].
  split; [apply clamped_nz, Hk|]. rewrite <- smul_mul, Z.mul_comm, smul_mul, order_B. apply smul_0_r.
Qed.

(** What the constructor makes of any bytes. *)
Lemma new_public_ok data : bytes_ok data -> exists r, new_public data = Some r /\
  ((32 <= length data)%nat /\ valid_key (open 0 32 data) /\ r = Ok (mkEdPublicKey (open 0 32 data)) \/
   ~ ((32 <= length data)%nat /\ valid_key (open 0 32 data)) /\ r = Err EdIncorrectError).
Proof.
  intros Hd. unfold new_public, init_public, EdPublicKeySize. cbn [pk_data].
  destruct (Nat.leb_spec 32 (length data)) as [Hle|Hlt].
  - destruct (validPublicKey_ok data Hd Hle) as (v & -> & Hv). cbn [mbind option_bind].
    destruct v; cbn [negb]; eexists; (split; [reflexivity|]).
    + left. split; [done|]. split; [by apply Hv|]. f_equal. f_equal.
      rewrite blit_prefix, open_length by lia. apply app_nil_r.
    + right. split; [|done]. intros [_ Hk]. by apply Hv in Hk.
  - exists (Err EdIncorrectError). split; [reflexivity|]. right. split; [lia|done].
Qed.

(** The halves of a generated key are accepted from their bytes. *)
Lemma key_accepted d k : key_ok d k ->
  new_private d = Ok (mkEdPrivateKey d) /\
  new_public (open 32 32 d) = Some (Ok (mkEdPublicKey (open 32 32 d))).
Proof.
  intros Hk. pose proof (key_length _ _ Hk) as Hlk. pose proof (key_public_length _ _ Hk) as Hlp. split.
  - unfold new_private, init_private. rewrite Hlk, Nat.leb_refl, open_all by done. cbn [negb sk_data].
    f_equal. f_equal. rewrite blit_prefix, Hlk. apply app_nil_r.
  - destruct (new_public_ok (open 32 32 d) (open_ok _ _ _ (key_bytes _ _ Hk)))
      as (r & -> & [(_ & _ & ->)|[Hn _]]); rewrite (open_all 32 (open 32 32 d)) in * by exact Hlp; [done|].
    destruct Hn. split; [lia|]. exact (key_valid _ _ Hk).
Qed.

Lemma random_private_ok `{D : Drbg} `{!DrbgLaws D} s :
  exists d k s', random_private s = Some (mkEdPrivateKey d, s') /\ key_ok d k.
Proof.
  pose proof (generate_length 32 s) as Hl. pose proof (generate_bytes_ok 32 s) as Hb.
  unfold random_private, generate, lift, mret, rand_ret, mbind, rand_bind.
  destruct (hmacDrbgGenerate 32 s) as [b s'] eqn:E. cbn [fst] in *.
  destruct (generated_ok b Hb Hl) as (pk & k & -> & Eb & Hk & _). cbn [option_bind].
  exists (b ++ pk), k, s'. by rewrite Eb.
Qed.

Lemma random_pair_ok `{D : Drbg} `{!DrbgLaws D} s :
  exists d k s', key_ok d k /\
    random_pair s = Some (mkEdKeyPair (mkEdPrivateKey d) (mkEdPublicKey (open 32 32 d)), s').
Proof.
  pose proof (generate_length 32 s) as Hl. pose proof (generate_bytes_ok 32 s) as Hb.
  unfold random_pair, generate, lift, mret, rand_ret, mbind, rand_bind.
  destruct (hmacDrbgGenerate 32 s) as [b s'] eqn:E. cbn [fst] in *.
  destruct (generated_ok b Hb Hl) as (pk & k & -> & Eb & Hk & Ep). cbn [option_bind].
  exists (b ++ pk), k, s'. split; [done|]. by rewrite Eb, Ep.
Qed.

End Keys.

(** ** Properties *)

Section Properties.
Context `{Hash : Sha512}.

(** C7: for every seed of 32 bytes and every message, whatever the digest function, [fromSeed]
and [sign] return, and [verify] accepts the signature under [getPublicKey] of the key, except
when the scalar of the signature is zero modulo the order of the group, which [checkScalar]
refuses. *)
Theorem sign_verify (seed message : bytes) : bytes_ok seed -> length seed = 32%nat ->
  exists key sig, fromSeed seed = Some key /\ sign key message = Some sig /\
    length (sig_data sig) = EdSignatureSize /\
    verify sig message (getPublicKey key) =
      Some (negb (le_value (open 32 32 (sig_data sig)) =? 0)).
Proof.
  intros Hs Hl. destruct (fromSeed_ok seed Hs Hl) as (pk & k & -> & Hk).
  destruct (sign_ok _ _ message Hk) as (sig & Esig & Hsig).
  exists (mkEdPrivateKey (seed ++ pk)), sig. split; [done|]. split; [done|]. split; [apply Hsig|].
  rewrite (getPublicKey_ok _ _ Hk). by eapply verify_signed.
Qed.

(** C8: on any 64 bytes and any 32 bytes [verify] returns, and it returns true exactly when the
scalar [S] of the signature lies strictly between zero and the order, the key decodes to a point
[A] of the curve, and the first half of the signature is the canonical encoding of
[S B - h A], for [h] the digest of [R], the key and the message modulo the order.  So the scalar
of an accepted signature cannot be replaced by another representative. *)
Theorem verify_equation (sig : EdSignature) (message : bytes) (key : EdPublicKey) :
  bytes_ok (sig_data sig) -> length (sig_data sig) = EdSignatureSize ->
  bytes_ok (pk_data key) -> length (pk_data key) = EdPublicKeySize ->
  exists v, verify sig message key = Some v /\
    (v = true <-> valid_signature (sig_data sig) message (pk_data key)).
Proof. apply verify_ok. Qed.

(** C9: a public key is accepted from bytes exactly when they begin with the canonical encoding
of a point other than the identity whose multiple by the order is the identity; other bytes, and
fewer than 32, give [EdIncorrectError].  The public key of every key that [fromSeed] and [random]
generate is such a point, so both halves of the key are accepted from their own bytes. *)
Theorem public_keys `{D : Drbg} `{!DrbgLaws D} (data seed : bytes) (s : drbg) :
  bytes_ok data -> bytes_ok seed -> length seed = 32%nat ->
  (exists r, new_public data = Some r /\
    ((32 <= length data)%nat /\ valid_key (open 0 32 data) /\ r = Ok (mkEdPublicKey (open 0 32 data)) \/
     ~ ((32 <= length data)%nat /\ valid_key (open 0 32 data)) /\ r = Err EdIncorrectError)) /\
  (exists key, fromSeed seed = Some key /\
    new_private (getBytes_private key) = Ok key /\
    new_public (getBytes_public (getPublicKey key)) = Some (Ok (getPublicKey key))) /\
  (exists key s', random_private s = Some (key, s') /\
    new_public (getBytes_public (getPublicKey key)) = Some (Ok (getPublicKey key))) /\
  (exists pair s', random_pair s = Some (pair, s') /\ getPublicKey (seckey pair) = pubkey pair /\
    new_private (getBytes_private (seckey pair)) = Ok (seckey pair) /\
    new_public (getBytes_public (pubkey pair)) = Some (Ok (pubkey pair))).
Proof.
  intros Hd Hs Hl. split; [by apply new_public_ok|]. split; [|split].
  - destruct (fromSeed_ok seed Hs Hl) as (pk & k & E & Hk). exists (mkEdPrivateKey (seed ++ pk)).
    rewrite (getPublicKey_ok _ _ Hk). split; [exact E|]. exact (key_accepted _ _ Hk).
  - destruct (random_private_ok s) as (d & k & s' & E & Hk). exists (mkEdPrivateKey d), s'.
    rewrite (getPublicKey_ok _ _ Hk). split; [exact E|]. exact (proj2 (key_accepted _ _ Hk)).
  - destruct (random_pair_ok s) as (d & k & s' & Hk & E). eexists _, s'. split; [exact E|].
    cbn [seckey pubkey]. split; [exact (getPublicKey_ok _ _ Hk)|]. exact (key_accepted _ _ Hk).
Qed.

End Properties.

(** A digest for the witnesses. *)
Definition length_digest (m : bytes) : bytes := replicate 63 7 ++ [Z.of_nat (length m) mod 256].

Lemma length_digest_ok m : bytes_ok (length_digest m).
Proof.
  apply Forall_app. split; [apply Forall_replicate; unfold byte_ok; lia|]. apply Forall_singleton.
  unfold byte_ok. Z.div_mod_to_equations. lia.
Qed.

#[local] Instance example_sha512 : Sha512 := {|
  sha512 := length_digest;
  sha512_length m := eq_refl;
  sha512_bytes := length_digest_ok;
|}.

Lemma bytes_replicate n b : byte_ok b -> bytes_ok (replicate n b).
Proof. intros Hb. by apply Forall_replicate. Qed.

Lemma sign_verify_witness : exists key sig, fromSeed (replicate 32 9) = Some key /\
  sign key [1; 2; 3] = Some sig /\ length (sig_data sig) = EdSignatureSize /\
  verify sig [1; 2; 3] (getPublicKey key) =
    Some (negb (le_value (open 32 32 (sig_data sig)) =? 0)).
Proof.
  apply (sign_verify (replicate 32 9) [1; 2; 3]).
  - by apply bytes_replicate.
  - reflexivity.
Defined.

Lemma verify_equation_witness :
  exists v, verify (mkEdSignature (replicate 64 1)) [] (mkEdPublicKey (replicate 32 2)) = Some v /\
    (v = true <-> valid_signature (replicate 64 1) [] (replicate 32 2)).
Proof.
  apply (verify_equation (mkEdSignature (replicate 64 1)) [] (mkEdPublicKey (replicate 32 2))).
  - by apply bytes_replicate.
  - reflexivity.
  - by apply bytes_replicate.
  - reflexivity.
Defined.

Lemma public_keys_witness : exists pair s', @random_pair _ counter_drbg 5 = Some (pair, s') /\
  getPublicKey (seckey pair) = pubkey pair /\
  new_private (getBytes_private (seckey pair)) = Ok (seckey pair) /\
  new_public (getBytes_public (pubkey pair)) = Some (Ok (pubkey pair)).
Proof.
  destruct (@public_keys _ counter_drbg counter_laws [] (replicate 32 9) 5) as (_ & _ & _ & H).
  - constructor.
  - by apply bytes_replicate.
  - reflexivity.
  - exact H.
Defined.
