(* ===== verification/Chronos.v ===== *)
(** * Chronos: the clock of the chronos package, as the modelled code uses it

A [Moment] and a [Duration] are 64-bit counts of nanoseconds, compared as integers.  The
package is not part of the repository: its least and greatest moments, its default moment, subtraction (of
a moment, and of a duration: [moment_back]), addition and the conversions between durations and
whole seconds are the class [Chronos], and [ChronosLaws] states what the theorems need of them.  [Moment.now()] is not a
function: every operation that samples the clock takes the sampled moments as arguments. *)
From S2P Require Import Prelude.

#[local] Open Scope Z_scope.

Abbreviation Moment := Z (only parsing).

Abbreviation Duration := Z (only parsing).

Class Chronos : Type := {
  moment_low : Moment;
  moment_high : Moment;
  moment_sub : Moment -> Moment -> Duration;
  moment_add : Moment -> Duration -> Moment;
  moment_back : Moment -> Duration -> Moment;
  moment_default : Moment;
  of_seconds : Z -> Duration;
  to_seconds : Duration -> Z;
}.

(** No moment is before [Moment.low]; the difference of two moments in order is the time
between them, and is not positive when they are not in order; adding a duration keeps the
order of the moments, and a duration that is not negative does not go back. *)
Class ChronosLaws `(C : Chronos) : Prop := {
  moment_sub_le a b : b <= a -> moment_sub a b = a - b;
  moment_sub_neg a b : a < b -> moment_sub a b <= 0;
  moment_add_mono a b d : a <= b -> moment_add a d <= moment_add b d;
  moment_add_ge a d : 0 <= d -> a <= moment_add a d;
}.

(** Nanoseconds since an epoch, with plain subtraction and addition. *)
Definition plain_chronos : Chronos := {|
  moment_low := 0; moment_high := 2 ^ 63 - 1; moment_sub := Z.sub; moment_add := Z.add; moment_back := Z.sub;
  moment_default := 0; of_seconds n := n * 1000000000; to_seconds d := d / 1000000000;
|}.

Lemma plain_chronos_laws : ChronosLaws plain_chronos.
Proof. split; cbn; intros; lia. Qed.
