(* ===== verification/KadTypes.v ===== *)
(** * KadTypes: libp2p/protocols/kademlia/types.nim, the XOR metric

Distances are byte arrays of [IdLength] bytes, most significant first.  The theorems relate
them to integers: the distance is the exclusive or of the two hashes, [cmp] is the integer
order, and [leadingZeros] bounds the distance by a power of two. *)
From S2P Require Import Prelude Endians.

#[local] Open Scope Z_scope.

(** [Key]: a byte string of any length. *)
Abbreviation Key := bytes (only parsing).

Definition IdLength : nat := 32.

Abbreviation XorDistance := bytes (only parsing).

Definition countLeadingZeroBits (b : Z) : Z :=
  (fix go (i : nat) (fuel : nat) : Z :=
     match fuel with
     | O => 8
     | S fuel =>
         if negb (Z.land b (Z.shiftr 0x80 (Z.of_nat i)) =? 0) then Z.of_nat i
         else go (S i) fuel
     end) O 8%nat.

(** [for i in 0 ..< dist.len]: [i] counts the bytes already passed. *)
Fixpoint leadingZeros_from (i : Z) (dist : bytes) : Z :=
  match dist with
  | [] => i * 8
  | b :: r => if negb (b =? 0) then i * 8 + countLeadingZeroBits b
              else leadingZeros_from (i + 1) r
  end.

Definition leadingZeros (dist : bytes) : Z := leadingZeros_from 0 dist.

(** On arrays of the same length. *)
Fixpoint cmp (a b : bytes) : Z :=
  match a, b with
  | x :: a, y :: b => if x <? y then -1 else if y <? x then 1 else cmp a b
  | _, _ => 0
  end.

Definition dist_lt (a b : bytes) : bool := cmp a b <? 0.

Definition dist_le (a b : bytes) : bool := cmp a b <=? 0.

Definition xorDistance (a b : Key) : option XorDistance :=
  doAssert ((length a =? IdLength) && (length b =? IdLength))%nat;;
  Some (zip_with Z.lxor a b).

(** ** Lemmas *)

Lemma be_value_zero bs : bytes_ok bs -> be_value bs = 0 <-> bs = replicate (length bs) 0.
Proof.
  induction 1 as [|b r Hb Hr IH]; [done|]. rewrite be_value_cons. cbn [length replicate].
  pose proof (be_value_bound r Hr) as Hv. unfold byte_ok in Hb.
  assert (0 < 2 ^ (8 * Z.of_nat (length r))) by lia. split.
  - intros E. assert (b = 0 /\ be_value r = 0) as [-> E'] by nia. f_equal. by apply IH.
  - intros [= -> E]. rewrite (proj2 IH); [done|]. exact E.
Qed.

Lemma cmp_value a b : bytes_ok a -> bytes_ok b -> length a = length b ->
  cmp a b = Z.sgn (be_value a - be_value b).
Proof.
  intros Ha. revert b. induction Ha as [|x a Hx Ha IH]; intros [|y b] Hb Hl; try done.
  apply Forall_cons in Hb as [Hy Hb]. injection Hl as Hl. rewrite !be_value_cons. cbn [cmp].
  pose proof (be_value_bound a Ha) as Hva. pose proof (be_value_bound b Hb) as Hvb.
  rewrite <- Hl in *. set (p := 2 ^ (8 * Z.of_nat (length a))) in *. clearbody p.
  destruct (Z.ltb_spec x y).
  - symmetry. apply Z.sgn_neg. nia.
  - destruct (Z.ltb_spec y x).
    + symmetry. apply Z.sgn_pos. nia.
    + assert (x = y) as -> by lia. rewrite IH by done. f_equal. lia.
Qed.

Lemma xor_value a b : bytes_ok a -> bytes_ok b -> length a = length b ->
  bytes_ok (zip_with Z.lxor a b) /\
  be_value (zip_with Z.lxor a b) = Z.lxor (be_value a) (be_value b).
Proof.
  intros Ha. revert b. induction Ha as [|x a Hx Ha IH]; intros [|y b] Hb Hl; try done.
  apply Forall_cons in Hb as [Hy Hb]. injection Hl as Hl. cbn [zip_with].
  destruct (IH b Hb Hl) as [H1 H2]. split.
  - apply Forall_cons. split; [|done]. apply (lxor_bound x y 8); [lia|exact Hx|exact Hy].
  - rewrite !be_value_cons, H2, <- Hl, length_zip_with_l by lia. symmetry. apply lxor_limbs.
    + lia.
    + by apply be_value_bound.
    + rewrite Hl. by apply be_value_bound.
Qed.

Lemma countLeadingZeroBits_spec b : byte_ok b -> b <> 0 ->
  let z := countLeadingZeroBits b in 0 <= z <= 7 /\ 2 ^ (7 - z) <= b < 2 ^ (8 - z).
Proof.
  intros Hb Hn.
  pose proof (byte_forall (fun b => let z := countLeadingZeroBits b in
    (b =? 0) || ((0 <=? z) && (z <=? 7) && (2 ^ (7 - z) <=? b) && (b <? 2 ^ (8 - z))))
    b ltac:(by vm_compute) Hb) as H.
  cbv zeta in H. apply orb_true_iff in H as [H|H]; [by apply Z.eqb_eq in H|].
  rewrite !andb_true_iff, !Z.leb_le, Z.ltb_lt in H. cbv zeta. tauto.
Qed.

Lemma leadingZeros_from_shift i d : leadingZeros_from i d = 8 * i + leadingZeros d.
Proof.
  unfold leadingZeros. revert i. induction d as [|b d IH]; intros i; cbn [leadingZeros_from]; [lia|].
  destruct (negb (b =? 0)); [lia|]. rewrite (IH (i + 1)), (IH (0 + 1)). lia.
Qed.

Lemma leadingZeros_spec d : bytes_ok d ->
  let n := 8 * Z.of_nat (length d) in let z := leadingZeros d in
  0 <= z <= n /\ be_value d < 2 ^ (n - z) /\ (z < n -> 2 ^ (n - z - 1) <= be_value d).
Proof.
  induction 1 as [|b d Hb Hd IH]; [cbn; lia|]. cbv zeta in *.
  unfold leadingZeros. cbn [leadingZeros_from length]. rewrite be_value_cons.
  pose proof (be_value_bound d Hd) as Hv. set (m := 8 * Z.of_nat (length d)) in *.
  assert (Hm : 0 <= m) by lia.
  replace (8 * Z.of_nat (S (length d))) with (8 + m) by lia. clearbody m.
  destruct (Z.eqb_spec b 0) as [->|Hne]; cbn [negb].
  - rewrite leadingZeros_from_shift. destruct IH as (Hz & Hlt & Hle).
    split; [lia|]. split.
    + replace (8 + m - (8 * (0 + 1) + leadingZeros d)) with (m - leadingZeros d) by lia. lia.
    + intros Hlt'.
      replace (8 + m - (8 * (0 + 1) + leadingZeros d) - 1) with (m - leadingZeros d - 1) by lia.
      rewrite Z.mul_0_l. apply Hle. lia.
  - destruct (countLeadingZeroBits_spec b Hb Hne) as [Hz Hr].
    set (z := countLeadingZeroBits b) in *. clearbody z.
    replace (8 + m - (0 * 8 + z)) with ((8 - z) + m) by lia.
    replace (8 - z + m - 1) with ((7 - z) + m) by lia. rewrite !Z.pow_add_r by lia.
    assert (0 < 2 ^ m) by lia. split; [lia|]. split; [nia|]. intros _. nia.
Qed.

(** The number of leading zeroes, as a bound on the value. *)
Lemma leadingZeros_le d n : bytes_ok d -> 0 <= n <= 8 * Z.of_nat (length d) ->
  n <= leadingZeros d <-> be_value d < 2 ^ (8 * Z.of_nat (length d) - n).
Proof.
  intros Hd Hn. destruct (leadingZeros_spec d Hd) as (Hz & Hlt & Hle). split.
  - intros Hnz. eapply Z.lt_le_trans; [exact Hlt|]. apply Z.pow_le_mono_r; lia.
  - intros Hv. destruct (Z.le_gt_cases n (leadingZeros d)) as [|Hgt]; [done|].
    specialize (Hle ltac:(lia)).
    pose proof (Z.pow_le_mono_r 2 (8 * Z.of_nat (length d) - n)
      (8 * Z.of_nat (length d) - leadingZeros d - 1) ltac:(lia) ltac:(lia)). lia.
Qed.

(** A hash: [IdLength] bytes. *)
Definition id_ok (a : Key) : Prop := bytes_ok a /\ length a = IdLength.

Lemma xorDistance_spec a b : id_ok a -> id_ok b ->
  exists d, xorDistance a b = Some d /\ id_ok d /\ be_value d = Z.lxor (be_value a) (be_value b).
Proof.
  intros [Ha Hla] [Hb Hlb]. unfold xorDistance. rewrite Hla, Hlb.
  destruct (xor_value a b Ha Hb) as [H1 H2]; [congruence|].
  eexists. split; [reflexivity|]. split; [split; [done|]|done].
  rewrite length_zip_with_l by lia. done.
Qed.

Lemma be_value_inj a b : id_ok a -> id_ok b -> be_value a = be_value b -> a = b.
Proof.
  intros [Ha Hla] [Hb Hlb] E. unfold be_value in E.
  apply le_value_inj in E; [by apply rev_inj|by apply Forall_rev..|].
  rewrite !length_rev. congruence.
Qed.

(** ** Properties *)

(** the distance is a metric given by the exclusive or of the hashes as integers: it is
zero exactly between equal hashes, symmetric, satisfies the triangle inequality and
determines the other end; [cmp] orders distances as integers, and a distance has at least
[n] leading zero bits exactly when it is below 2^(256 - n). *)
Theorem xor_metric (a b c : Key) (n : Z) : id_ok a -> id_ok b -> id_ok c -> 0 <= n <= 256 ->
  exists dab dbc dac,
    xorDistance a b = Some dab /\ xorDistance b a = Some dab /\
    xorDistance b c = Some dbc /\ xorDistance a c = Some dac /\
    be_value dab = Z.lxor (be_value a) (be_value b) /\
    (be_value dab = 0 <-> a = b) /\
    be_value dac <= be_value dab + be_value dbc /\
    (dab = dac -> b = c) /\
    cmp dab dac = Z.sgn (be_value dab - be_value dac) /\
    (n <= leadingZeros dab <-> be_value dab < 2 ^ (256 - n)).
Proof.
  intros Ha Hb Hc Hn.
  destruct (xorDistance_spec a b Ha Hb) as (dab & Eab & Hdab & Vab).
  destruct (xorDistance_spec b a Hb Ha) as (dba & Eba & Hdba & Vba).
  destruct (xorDistance_spec b c Hb Hc) as (dbc & Ebc & Hdbc & Vbc).
  destruct (xorDistance_spec a c Ha Hc) as (dac & Eac & Hdac & Vac).
  assert (dba = dab) as ->.
  { apply be_value_inj; [done..|]. rewrite Vab, Vba. apply Z.lxor_comm. }
  exists dab, dbc, dac. split_and!; try done.
  - rewrite Vab, Z.lxor_eq_0_iff. split; [by apply be_value_inj|congruence].
  - rewrite Vac, Vab, Vbc.
    assert (E : Z.lxor (be_value a) (be_value c) =
      Z.lxor (Z.lxor (be_value a) (be_value b)) (Z.lxor (be_value b) (be_value c))).
    { rewrite Z.lxor_assoc, <- (Z.lxor_assoc (be_value b)), Z.lxor_nilpotent, Z.lxor_0_l. done. }
    rewrite E. rewrite <- Vab, <- Vbc.
    pose proof (be_value_bound dab (proj1 Hdab)). pose proof (be_value_bound dbc (proj1 Hdbc)).
    rewrite <- Z.add_lxor_2land.
    assert (0 <= Z.land (be_value dab) (be_value dbc)) by (apply Z.land_nonneg; lia). lia.
  - intros E. apply be_value_inj; [done..|].
    assert (E' : Z.lxor (be_value a) (be_value b) = Z.lxor (be_value a) (be_value c)) by congruence.
    apply (f_equal (Z.lxor (be_value a))) in E'.
    by rewrite <- !Z.lxor_assoc, !Z.lxor_nilpotent, !Z.lxor_0_l in E'.
  - apply cmp_value; [apply Hdab|apply Hdac|]. destruct Hdab, Hdac. congruence.
  - destruct Hdab as [Hd Hl]. rewrite leadingZeros_le by (done || rewrite Hl; exact Hn).
    rewrite Hl. done.
Qed.

Definition demo_id (x : Z) : Key := replicate 31 0 ++ [x].

Lemma xor_metric_witness :
  exists dab, xorDistance (demo_id 6) (demo_id 4) = Some dab /\
    (250 <= leadingZeros dab <-> be_value dab < 2 ^ (256 - 250)).
Proof.
  assert (H : forall x, byte_ok x -> id_ok (demo_id x)).
  { intros x Hx. split; [|reflexivity]. unfold demo_id. simpl.
    repeat (apply Forall_cons_2; [unfold byte_ok; lia|]).
    apply Forall_cons_2; [exact Hx|apply Forall_nil_2]. }
  destruct (xor_metric (demo_id 6) (demo_id 4) (demo_id 1) 250)
    as (dab & _ & _ & E & _ & _ & _ & _ & _ & _ & _ & _ & Hz).
  - apply H. unfold byte_ok. lia.
  - apply H. unfold byte_ok. lia.
  - apply H. unfold byte_ok. lia.
  - lia.
  - exists dab. split; [exact E|exact Hz].
Defined.
