(* ===== verification/KadRegistry.v ===== *)
(** * KadRegistry: libp2p/protocols/kademlia/peer_registry.nim

The rows of the peers a node knows and, for each peer, the tables that index it.  Hash tables
are [gmap]s. *)
From S2P Require Import Prelude Chronos KadTypes.

#[local] Open Scope Z_scope.

Module Registry.

Record Membership := mkMembership { addedAt : Moment }.

Record PeerRecord := mkPeerRecord {
  nodeId : Key;
  lastSeen : Moment;
  lastUsefulAt : option Moment;
}.

Record PeerRegistry := mkPeerRegistry {
  peers : gmap Key PeerRecord;
  tablesByPeer : gmap Key (gmap Key Membership);
}.

(** ** Operations *)

Section Operations.
Context `{Chronos}.

Definition new : PeerRegistry := mkPeerRegistry ∅ ∅.

Definition contains (registry : PeerRegistry) (k : Key) : bool :=
  bool_decide (is_Some (peers registry !! k)).

Definition get (registry : PeerRegistry) (k : Key) : option PeerRecord := peers registry !! k.

Definition len (registry : PeerRegistry) : nat := size (peers registry).

Definition membership (registry : PeerRegistry) (k tableId : Key) : option Membership :=
  match tablesByPeer registry !! k with
  | Some tables => tables !! tableId
  | None => None
  end.

Definition lastActivity (record : PeerRecord) (m : Membership) : Moment :=
  default (addedAt m) (lastUsefulAt record).

Definition record_isReplaceable (record : PeerRecord) (m : Membership)
    (gracePeriod : Duration) (now : Moment) : bool :=
  gracePeriod <? moment_sub now (lastActivity record m).

Definition upsert (registry : PeerRegistry) (k : Key) (now : Moment) :
    PeerRegistry * PeerRecord :=
  match peers registry !! k with
  | Some existing =>
      let existing := mkPeerRecord (nodeId existing) now (lastUsefulAt existing) in
      (mkPeerRegistry (<[k := existing]> (peers registry)) (tablesByPeer registry), existing)
  | None =>
      let record := mkPeerRecord k now None in
      (mkPeerRegistry (<[k := record]> (peers registry)) (tablesByPeer registry), record)
  end.

Definition markUseful (registry : PeerRegistry) (k : Key) (now : Moment) : PeerRegistry :=
  match peers registry !! k with
  | Some record =>
      mkPeerRegistry (<[k := mkPeerRecord (nodeId record) now (Some now)]> (peers registry))
        (tablesByPeer registry)
  | None => registry
  end.

Definition addMembership (registry : PeerRegistry) (k tableId : Key) (now : Moment) :
    PeerRegistry :=
  let tbp := if decide (is_Some (tablesByPeer registry !! k)) then tablesByPeer registry
             else <[k := ∅]> (tablesByPeer registry) in
  match tbp !! k with
  | Some tables =>
      if decide (is_Some (tables !! tableId)) then mkPeerRegistry (peers registry) tbp
      else mkPeerRegistry (peers registry)
             (<[k := <[tableId := mkMembership now]> tables]> tbp)
  | None => mkPeerRegistry (peers registry) tbp
  end.

Definition removeMembership (registry : PeerRegistry) (k tableId : Key) : PeerRegistry :=
  match tablesByPeer registry !! k with
  | Some tables =>
      let tables := delete tableId tables in
      if (0 <? size tables)%nat then
        mkPeerRegistry (peers registry) (<[k := tables]> (tablesByPeer registry))
      else mkPeerRegistry (delete k (peers registry)) (delete k (tablesByPeer registry))
  | None =>
      if bool_decide (is_Some (peers registry !! k)) then
        mkPeerRegistry (delete k (peers registry)) (tablesByPeer registry)
      else registry
  end.

(** The body of the last loop of [dropTable], and [dropPeer]. *)
Definition dropPeer (registry : PeerRegistry) (k : Key) : PeerRegistry :=
  mkPeerRegistry (delete k (peers registry)) (delete k (tablesByPeer registry)).

(** The loop over [mpairs] deletes [tableId] from every row; the rows it leaves empty are
collected in the order of the hash table, which the result does not depend on. *)
Definition dropTable (registry : PeerRegistry) (tableId : Key) : PeerRegistry :=
  let tbp := delete tableId <$> tablesByPeer registry in
  let emptyPeers :=
    (filter (fun p => size p.2 = 0%nat) (map_to_list tbp)).*1 in
  foldl dropPeer (mkPeerRegistry (peers registry) tbp) emptyPeers.

Definition tableIds (registry : PeerRegistry) (k : Key) : gset Key :=
  match tablesByPeer registry !! k with
  | Some tables => dom tables
  | None => ∅
  end.

Definition isReplaceable (registry : PeerRegistry) (k tableId : Key)
    (gracePeriod : Duration) (now : Moment) : bool :=
  match membership registry k tableId with
  | None => true
  | Some m =>
      match get registry k with
      | None => true
      | Some record => record_isReplaceable record m gracePeriod now
      end
  end.

End Operations.

(** ** Invariant *)

Definition member (r : PeerRegistry) (k tableId : Key) : Prop :=
  is_Some (membership r k tableId).

(** A peer has a row exactly when some table indexes it, and its row names it. *)
Record registry_ok (r : PeerRegistry) : Prop := {
  rows_iff k : is_Some (peers r !! k) <-> is_Some (tablesByPeer r !! k);
  tables_nonempty k m : tablesByPeer r !! k = Some m -> m <> ∅;
  rows_named k rec : peers r !! k = Some rec -> nodeId rec = k;
}.

(** ** Lemmas *)

Lemma member_alt r k t :
  member r k t <-> exists m, tablesByPeer r !! k = Some m /\ is_Some (m !! t).
Proof. unfold member, membership. destruct (tablesByPeer r !! k); naive_solver. Qed.

Lemma registry_ok_new : registry_ok new.
Proof.
  split; cbn; intros k; [split; intros [? E]; by rewrite lookup_empty in E|..];
    intros ? E; by rewrite lookup_empty in E.
Qed.

Lemma size_pos_iff (m : gmap Key Membership) : (0 <? size m)%nat = true <-> m <> ∅.
Proof. rewrite Nat.ltb_lt, <- (map_size_empty_iff m). lia. Qed.

(** Rows exist exactly for the members. *)
Lemma row_member r k : registry_ok r -> is_Some (peers r !! k) <-> exists t, member r k t.
Proof.
  intros Hr. rewrite (rows_iff r Hr). split.
  - intros [m E]. pose proof (tables_nonempty r Hr k m E) as Hm.
    apply map_choose in Hm as (t & x & Et). exists t. apply member_alt. eauto.
  - intros [t (m & E & _)%member_alt]. eauto.
Qed.

Lemma upsert_tables r k now : tablesByPeer (upsert r k now).1 = tablesByPeer r.
Proof. unfold upsert. by destruct (peers r !! k). Qed.

Lemma upsert_member r k now k' t : member (upsert r k now).1 k' t <-> member r k' t.
Proof. by rewrite !member_alt, upsert_tables. Qed.

Lemma upsert_lookup r k now k' :
  peers (upsert r k now).1 !! k' =
  if decide (k' = k) then
    Some (match peers r !! k with
          | Some rec => mkPeerRecord (nodeId rec) now (lastUsefulAt rec)
          | None => mkPeerRecord k now None
          end)
  else peers r !! k'.
Proof.
  unfold upsert. destruct (peers r !! k); cbn; case_decide; subst;
    by rewrite ?lookup_insert_eq, ?lookup_insert_ne by done.
Qed.

Lemma addMembership_peers r k t now : peers (addMembership r k t now) = peers r.
Proof. unfold addMembership. by repeat case_match. Qed.

Lemma addMembership_lookup r k t now k' :
  tablesByPeer (addMembership r k t now) !! k' =
  if decide (k' = k) then
    let m := default ∅ (tablesByPeer r !! k) in
    Some (if decide (is_Some (m !! t)) then m else <[t := mkMembership now]> m)
  else tablesByPeer r !! k'.
Proof.
  unfold addMembership.
  destruct (tablesByPeer r !! k) as [m|] eqn:E.
  - rewrite decide_True by eauto. rewrite E. cbn.
    destruct (decide (is_Some (m !! t))); cbn; destruct (decide (k' = k)) as [->|];
      by rewrite ?lookup_insert_eq, ?lookup_insert_ne by done.
  - rewrite (decide_False (P := is_Some None)) by (intros []; done).
    rewrite lookup_insert_eq. cbn.
    rewrite (decide_False (P := is_Some (∅ !! t))) by (rewrite lookup_empty; intros []; done).
    cbn. destruct (decide (k' = k)) as [->|];
      rewrite ?insert_insert_eq, ?lookup_insert_eq, ?lookup_insert_ne by done; [|done].
    by rewrite decide_False by (rewrite lookup_empty; intros []; done).
Qed.

Lemma addMembership_member r k t now k' t' :
  member (addMembership r k t now) k' t' <-> member r k' t' \/ (k' = k /\ t' = t).
Proof.
  rewrite !member_alt, addMembership_lookup. destruct (decide (k' = k)) as [->|]; [|naive_solver].
  cbv zeta. set (m := default ∅ (tablesByPeer r !! k)).
  assert (Hm : forall t', (exists m0, tablesByPeer r !! k = Some m0 /\ is_Some (m0 !! t')) <->
    is_Some (m !! t')).
  { intros u. subst m. destruct (tablesByPeer r !! k); cbn; [naive_solver|].
    rewrite lookup_empty. split; [naive_solver|intros []; done]. }
  rewrite Hm. case_decide.
  - naive_solver.
  - split.
    + intros (m0 & [= <-] & Hs). destruct (decide (t' = t)) as [->|]; [by right|left].
      by rewrite lookup_insert_ne in Hs.
    + intros Hs. eexists. split; [done|]. rewrite lookup_insert. case_decide; naive_solver.
Qed.

(** A row and its membership are created together. *)
Lemma registry_ok_index r k t now now' : registry_ok r ->
  registry_ok (addMembership (upsert r k now).1 k t now').
Proof.
  intros Hr. split.
  - intros k'. rewrite addMembership_peers, addMembership_lookup, upsert_tables, upsert_lookup.
    destruct (decide (k' = k)); [split; eauto|apply Hr].
  - intros k' m. rewrite addMembership_lookup, upsert_tables.
    destruct (decide (k' = k)); [|apply Hr]. cbv zeta. intros [= <-].
    case_decide as Hd; [|apply insert_non_empty].
    intros E. rewrite E, lookup_empty in Hd. by destruct Hd.
  - intros k' rec. rewrite addMembership_peers, upsert_lookup.
    destruct (decide (k' = k)) as [->|]; [|apply Hr].
    destruct (peers r !! k) eqn:E; intros [= <-]; cbn; [by apply (rows_named r Hr)|done].
Qed.

(** A peer that has a row keeps the invariant when it is seen again. *)
Lemma registry_ok_upsert r k now : registry_ok r -> is_Some (peers r !! k) ->
  registry_ok (upsert r k now).1.
Proof.
  intros Hr Hk. split.
  - intros k'. rewrite upsert_tables, upsert_lookup.
    destruct (decide (k' = k)) as [->|]; [|apply Hr].
    rewrite <- (rows_iff r Hr k). split; eauto.
  - intros k' m. rewrite upsert_tables. apply Hr.
  - intros k' rec. rewrite upsert_lookup. destruct (decide (k' = k)) as [->|]; [|apply Hr].
    destruct Hk as [x E]. rewrite E. intros [= <-]. cbn. by apply (rows_named r Hr).
Qed.

Lemma markUseful_tables r k now : tablesByPeer (markUseful r k now) = tablesByPeer r.
Proof. unfold markUseful. by destruct (peers r !! k). Qed.

Lemma markUseful_lookup r k now k' :
  peers (markUseful r k now) !! k' =
  if decide (k' = k) then
    (fun rec => mkPeerRecord (nodeId rec) now (Some now)) <$> peers r !! k
  else peers r !! k'.
Proof.
  unfold markUseful. destruct (peers r !! k) eqn:E; cbn; case_decide; subst;
    by rewrite ?lookup_insert_eq, ?lookup_insert_ne by done.
Qed.

Lemma markUseful_member r k now k' t : member (markUseful r k now) k' t <-> member r k' t.
Proof. by rewrite !member_alt, markUseful_tables. Qed.

Lemma registry_ok_markUseful r k now : registry_ok r -> registry_ok (markUseful r k now).
Proof.
  intros Hr. split.
  - intros k'. rewrite markUseful_tables, markUseful_lookup, <- (rows_iff r Hr k').
    destruct (decide (k' = k)) as [->|]; [|done]. by rewrite fmap_is_Some.
  - intros k' m. rewrite markUseful_tables. apply Hr.
  - intros k' rec. rewrite markUseful_lookup. destruct (decide (k' = k)) as [->|]; [|apply Hr].
    intros (x & E & ->)%fmap_Some. cbn. by apply (rows_named r Hr).
Qed.

Lemma removeMembership_member r k t k' t' :
  member (removeMembership r k t) k' t' <-> member r k' t' /\ ~ (k' = k /\ t' = t).
Proof.
  rewrite !member_alt. unfold removeMembership.
  destruct (tablesByPeer r !! k) as [m|] eqn:E; [destruct (0 <? size (delete t m))%nat eqn:Es|].
  - cbn. destruct (decide (k' = k)) as [->|]; [|rewrite lookup_insert_ne by done; naive_solver].
    rewrite lookup_insert_eq, E. split.
    + intros (? & [= <-] & Hs). apply lookup_delete_is_Some in Hs. naive_solver.
    + intros ((? & [= <-] & Hs) & Hn). eexists. split; [done|].
      apply lookup_delete_is_Some. naive_solver.
  - cbn. destruct (decide (k' = k)) as [->|]; [|rewrite lookup_delete_ne by done; naive_solver].
    rewrite lookup_delete_eq, E. split; [naive_solver|].
    intros ((? & [= <-] & Hs) & Hn). exfalso.
    assert (He : delete t m = ∅).
    { apply map_size_empty_inv. apply Nat.ltb_ge in Es. lia. }
    assert (Hd : is_Some (delete t m !! t')) by (apply lookup_delete_is_Some; naive_solver).
    rewrite He, lookup_empty in Hd. by destruct Hd.
  - assert (forall r', tablesByPeer r' = tablesByPeer r -> (exists m, tablesByPeer r' !! k' = Some m
      /\ is_Some (m !! t')) <-> (exists m, tablesByPeer r !! k' = Some m /\ is_Some (m !! t')) /\
      ~ (k' = k /\ t' = t)) as Hgen.
    { intros r' ->. split; [|naive_solver]. intros (m & Em & Hs). split; [eauto|].
      intros [-> ->]. congruence. }
    by case_bool_decide; apply Hgen.
Qed.

Lemma registry_ok_removeMembership r k t : registry_ok r -> registry_ok (removeMembership r k t).
Proof.
  intros Hr. unfold removeMembership.
  destruct (tablesByPeer r !! k) as [m|] eqn:E; [destruct (0 <? size (delete t m))%nat eqn:Es|].
  - apply size_pos_iff in Es. split; cbn.
    + intros k'. rewrite (rows_iff r Hr k').
      destruct (decide (k' = k)) as [->|]; [rewrite lookup_insert_eq, E|by rewrite lookup_insert_ne].
      split; eauto.
    + intros k' m'. rewrite lookup_insert. case_decide; [naive_solver|apply Hr].
    + apply Hr.
  - split; cbn.
    + intros k'. rewrite !lookup_delete_is_Some, (rows_iff r Hr k'). done.
    + intros k' m' [_ Hm]%lookup_delete_Some. by eapply tables_nonempty.
    + intros k' rec [_ Hk]%lookup_delete_Some. by eapply rows_named.
  - rewrite bool_decide_false; [done|]. rewrite (rows_iff r Hr k), E. by intros [].
Qed.

Lemma foldl_dropPeer r ks k :
  peers (foldl dropPeer r ks) !! k = (if decide (k ∈ ks) then None else peers r !! k) /\
  tablesByPeer (foldl dropPeer r ks) !! k =
    (if decide (k ∈ ks) then None else tablesByPeer r !! k).
Proof.
  revert r. induction ks as [|k0 ks IH]; intros r; cbn [foldl].
  { by rewrite !decide_False by apply not_elem_of_nil. }
  destruct (IH (dropPeer r k0)) as [-> ->]. cbn.
  destruct (decide (k ∈ ks)) as [Hin|Hni].
  { by rewrite !decide_True by (by right). }
  destruct (decide (k = k0)) as [->|].
  - by rewrite !lookup_delete_eq, !decide_True by left.
  - rewrite !lookup_delete_ne by done.
    by rewrite !decide_False by (rewrite elem_of_cons; naive_solver).
Qed.

Lemma dropTable_lookup r t k :
  tablesByPeer (dropTable r t) !! k =
    (m ← tablesByPeer r !! k; if decide (delete t m = ∅) then None else Some (delete t m)) /\
  peers (dropTable r t) !! k =
    match tablesByPeer r !! k with
    | Some m => if decide (delete t m = ∅) then None else peers r !! k
    | None => peers r !! k
    end.
Proof.
  unfold dropTable. set (tbp := delete t <$> tablesByPeer r).
  set (ks := _.*1). destruct (foldl_dropPeer (mkPeerRegistry (peers r) tbp) ks k) as [-> ->].
  cbn. assert (Hks : k ∈ ks <-> exists m, tablesByPeer r !! k = Some m /\ delete t m = ∅).
  { subst ks. rewrite list_elem_of_fmap. split.
    - intros ([k' m'] & -> & Hin). apply list_elem_of_filter in Hin as [Hs Hin].
      apply elem_of_map_to_list in Hin. subst tbp. rewrite lookup_fmap in Hin. cbn in *.
      apply fmap_Some in Hin as (m & E & ->). exists m. split; [done|].
      by apply map_size_empty_inv.
    - intros (m & E & Hd). exists (k, delete t m). split; [done|].
      apply list_elem_of_filter. split; [cbn; by rewrite Hd|].
      apply elem_of_map_to_list. subst tbp. by rewrite lookup_fmap, E. }
  subst tbp. rewrite lookup_fmap.
  destruct (tablesByPeer r !! k) as [m|] eqn:E; cbn.
  - destruct (decide (delete t m = ∅)).
    + rewrite !decide_True by (apply Hks; eauto). done.
    + rewrite !decide_False by (rewrite Hks; naive_solver). done.
  - rewrite !decide_False by (rewrite Hks; naive_solver). done.
Qed.

Lemma dropTable_member r t k' t' : member (dropTable r t) k' t' <-> member r k' t' /\ t' <> t.
Proof.
  rewrite !member_alt. destruct (dropTable_lookup r t k') as [-> _].
  destruct (tablesByPeer r !! k') as [m|]; cbn; [|naive_solver]. split.
  - intros (m' & E & Hs). case_decide; simplify_eq. apply lookup_delete_is_Some in Hs. naive_solver.
  - intros ((m' & [= <-] & Hs) & Hn).
    assert (Hd : is_Some (delete t m !! t')) by (apply lookup_delete_is_Some; naive_solver).
    rewrite decide_False by (intros E; rewrite E, lookup_empty in Hd; by destruct Hd). eauto.
Qed.

Lemma registry_ok_dropTable r t : registry_ok r -> registry_ok (dropTable r t).
Proof.
  intros Hr. split.
  - intros k. destruct (dropTable_lookup r t k) as [-> ->].
    pose proof (rows_iff r Hr k) as Hk.
    destruct (tablesByPeer r !! k) as [m|]; cbn; [|done].
    case_decide; [done|]. rewrite Hk. split; eauto.
  - intros k m. destruct (dropTable_lookup r t k) as [-> _].
    destruct (tablesByPeer r !! k) as [m0|]; cbn; [|done]. case_decide; naive_solver.
  - intros k rec. destruct (dropTable_lookup r t k) as [_ ->].
    destruct (tablesByPeer r !! k) as [m|]; [case_decide|]; [done|apply Hr..].
Qed.

End Registry.
