(* ===== verification/KadTable.v ===== *)
(** * KadTable: libp2p/protocols/kademlia/routing_table.nim

A routing table is a sequence of buckets of keys over the registry of [KadRegistry], which
other tables share; every operation takes and returns the registry.  [None] is a failed
assertion of [xorDistance].  Logging and the metrics counters have no effect on the model. *)
From S2P Require Import Prelude Endians Chronos Rng KadTypes KadRegistry.
Import Registry (PeerRegistry, member, registry_ok).

#[local] Open Scope Z_scope.

Abbreviation XorDHasher := (bytes -> bytes) (only parsing).

(** [defaultHasher]: SHA-256 of the nimcrypto package. *)
Class Sha256 : Type := { defaultHasher : XorDHasher }.

Abbreviation Bucket := (list Key) (only parsing).

Record RoutingTableConfig := mkConfig {
  replication : Z;
  hasher : option XorDHasher;
  maxBuckets : Z;
  selfIdPreHashed : bool;
  usefulnessGracePeriod : Duration;
  bucketStaleTime : Duration;
}.

Record RoutingTable := mkTable {
  selfId : Key;
  localNodeId : Key;
  buckets : list Bucket;
  config : RoutingTableConfig;
  detached : bool;
}.

Definition MaxBucketsLimit : Z := Z.of_nat IdLength * 8.

Definition MaxRefreshLeadingZeros : Z := 12.

(** ** Operations *)

Section Operations.
Context `{Sha256} `{Chronos} `{Drbg}.
Implicit Types (rtable : RoutingTable) (registry : PeerRegistry).

Definition hashFor (k : Key) (hasher : option XorDHasher) : bytes :=
  default defaultHasher hasher k.

Definition config_new (replication : Z) (hasher : option XorDHasher) (maxBuckets : Z)
    (selfIdPreHashed : bool) (grace stale : Duration) : option RoutingTableConfig :=
  doAssert ((0 <? maxBuckets) && (maxBuckets <=? MaxBucketsLimit));;
  Some (mkConfig replication hasher maxBuckets selfIdPreHashed grace stale).

Definition table_new (selfId : Key) (config : RoutingTableConfig) (localNodeId : option Key) :
    RoutingTable :=
  mkTable selfId (default selfId localNodeId) [] config false.

Definition clamp (x lo hi : Z) : Z := if x <? lo then lo else if hi <? x then hi else x.

Definition bucketCount (maxBuckets : Z) : Z := clamp maxBuckets 1 MaxBucketsLimit.

Definition selfHash rtable : Key :=
  if selfIdPreHashed (config rtable) then selfId rtable
  else hashFor (selfId rtable) (hasher (config rtable)).

Definition bucketIndexFor rtable (selfHash key : Key) : option Z :=
  d ← xorDistance selfHash (hashFor key (hasher (config rtable)));
  Some (Z.min (leadingZeros d) (bucketCount (maxBuckets (config rtable)) - 1)).

Definition bucketIndex rtable (key : Key) : option Z :=
  bucketIndexFor rtable (selfHash rtable) key.

Definition commonPrefixLen rtable (key : Key) : option Z :=
  d ← xorDistance (selfHash rtable) (hashFor key (hasher (config rtable)));
  Some (leadingZeros d).

(** [countIt(rtable.commonPrefixLen(it) == cpl)]. *)
Fixpoint countCpl rtable (cpl : Z) (bucket : Bucket) : option Z :=
  match bucket with
  | [] => Some 0
  | k :: r =>
      c ← commonPrefixLen rtable k;
      n ← countCpl rtable cpl r;
      Some ((if c =? cpl then 1 else 0) + n)
  end.

Definition nPeersForCpl rtable (cpl : Z) : option Z :=
  foldl (fun count bucket => c ← count; n ← countCpl rtable cpl bucket; Some (c + n))
    (Some 0) (buckets rtable).

Definition peerCount rtable : nat :=
  foldl (fun count (bucket : Bucket) => count + length bucket)%nat 0%nat (buckets rtable).

Definition peerIndexInBucket (bucket : Bucket) (nodeId : Key) : option nat :=
  seq_find nodeId bucket.

Definition seenAt registry (k : Key) : Moment :=
  match Registry.get registry k with
  | Some record => Registry.lastSeen record
  | None => moment_low
  end.

(** [for i, p in bucket.peers] from index [i]. *)
Fixpoint oldestPeer_loop registry (i : nat) (l : Bucket) (best : Key * nat) (oldestSeen : Moment)
    (found : bool) : Key * nat :=
  match l with
  | [] => best
  | p :: r =>
      let seen := seenAt registry p in
      if negb found || (seen <? oldestSeen) then oldestPeer_loop registry (S i) r (p, i) seen true
      else oldestPeer_loop registry (S i) r best oldestSeen found
  end.

(** [bucket.peers[0]] of an empty bucket raises. *)
Definition oldestPeer (bucket : Bucket) registry : option (Key * nat) :=
  k0 ← bucket !! 0%nat;
  Some (oldestPeer_loop registry 0 bucket (k0, 0%nat) moment_low false).

Definition bucket_at rtable (i : Z) : option Bucket :=
  if i <? 0 then None else buckets rtable !! Z.to_nat i.

Definition table_oldestPeer rtable registry (bucketIndex : Z) : option (Key * nat) :=
  b ← bucket_at rtable bucketIndex; oldestPeer b registry.

Definition isReplaceable rtable registry (nodeId : Key) (gracePeriod : Duration) (now : Moment) :
    option bool :=
  idx ← bucketIndex rtable nodeId;
  match bucket_at rtable idx with
  | None => Some false
  | Some b =>
      match peerIndexInBucket b nodeId with
      | None => Some false
      | Some _ => Some (Registry.isReplaceable registry nodeId (selfId rtable) gracePeriod now)
      end
  end.

(** [for i, nodeId in bucket.peers]; the candidate carries [oldestSeen]. *)
Fixpoint candidate_loop rtable registry (gracePeriod : Duration) (now : Moment) (i : nat)
    (l : Bucket) (cand : option (nat * Moment)) : option (nat * Moment) :=
  match l with
  | [] => cand
  | k :: r =>
      if negb (Registry.isReplaceable registry k (selfId rtable) gracePeriod now) then
        candidate_loop rtable registry gracePeriod now (S i) r cand
      else
        let seen := seenAt registry k in
        let cand := match cand with
                    | None => Some (i, seen)
                    | Some (_, oldestSeen) => if seen <? oldestSeen then Some (i, seen) else cand
                    end in
        candidate_loop rtable registry gracePeriod now (S i) r cand
  end.

Definition replaceableCandidate rtable registry (bucket : Bucket) (gracePeriod : Duration)
    (now : Moment) : option nat :=
  fst <$> candidate_loop rtable registry gracePeriod now 0 bucket None.

(** Returns whether a peer was replaced, the bucket and the registry. *)
Definition tryReplaceStalePeer rtable registry (bucket : Bucket) (newNodeId : Key)
    (now : Moment) : bool * Bucket * PeerRegistry :=
  if Z.of_nat (length bucket) <? replication (config rtable) then (false, bucket, registry)
  else
    match replaceableCandidate rtable registry bucket
            (usefulnessGracePeriod (config rtable)) now with
    | None => (false, bucket, registry)
    | Some idx =>
        match bucket !! idx with
        | None => (false, bucket, registry)
        | Some oldId =>
            (true, <[idx := newNodeId]> bucket,
             Registry.removeMembership registry oldId (selfId rtable))
        end
    end.

Definition with_buckets rtable (bs : list Bucket) : RoutingTable :=
  mkTable (selfId rtable) (localNodeId rtable) bs (config rtable) (detached rtable).

(** [setLen(idx + 1)] when the index is past the end. *)
Definition grow_buckets rtable (idx : Z) : RoutingTable :=
  if Z.of_nat (length (buckets rtable)) <=? idx then
    with_buckets rtable (set_len [] (Z.to_nat idx + 1) (buckets rtable))
  else rtable.

(** The moments [insert] samples, in the calls it makes. *)
Record InsertClock := mkClock { now_replace : Moment; now_upsert : Moment; now_member : Moment }.

Definition insert rtable registry (nodeId : Key) (clk : InsertClock) :
    option (bool * RoutingTable * PeerRegistry) :=
  if detached rtable then Some (false, rtable, registry)
  else if bool_decide (nodeId = selfId rtable) || bool_decide (nodeId = localNodeId rtable) then
    Some (false, rtable, registry)
  else
    idx ← bucketIndex rtable nodeId;
    let rtable := grow_buckets rtable idx in
    bucket ← bucket_at rtable idx;
    match peerIndexInBucket bucket nodeId with
    | Some _ =>
        Some (true, rtable, (Registry.upsert registry nodeId (now_upsert clk)).1)
    | None =>
        if Z.of_nat (length bucket) <? replication (config rtable) then
          let registry := (Registry.upsert registry nodeId (now_upsert clk)).1 in
          let bucket := bucket ++ [nodeId] in
          let registry :=
            Registry.addMembership registry nodeId (selfId rtable) (now_member clk) in
          Some (true, with_buckets rtable (<[Z.to_nat idx := bucket]> (buckets rtable)), registry)
        else
          let '(replaced, bucket, registry) :=
            tryReplaceStalePeer rtable registry bucket nodeId (now_replace clk) in
          if negb replaced then Some (false, rtable, registry)
          else
            let registry := (Registry.upsert registry nodeId (now_upsert clk)).1 in
            let registry :=
              Registry.addMembership registry nodeId (selfId rtable) (now_member clk) in
            Some (true, with_buckets rtable (<[Z.to_nat idx := bucket]> (buckets rtable)),
                  registry)
    end.

Definition removePeer rtable registry (nodeId : Key) :
    option (bool * RoutingTable * PeerRegistry) :=
  if bool_decide (nodeId = selfId rtable) || bool_decide (nodeId = localNodeId rtable) then
    Some (false, rtable, registry)
  else
    idx ← bucketIndex rtable nodeId;
    match bucket_at rtable idx with
    | None => Some (false, rtable, registry)
    | Some bucket =>
        match peerIndexInBucket bucket nodeId with
        | None => Some (false, rtable, registry)
        | Some pos =>
            Some (true,
              with_buckets rtable (<[Z.to_nat idx := seq_delete pos bucket]> (buckets rtable)),
              Registry.removeMembership registry nodeId (selfId rtable))
        end
    end.

Definition detachAll rtable registry : RoutingTable * PeerRegistry :=
  (mkTable (selfId rtable) (localNodeId rtable) [] (config rtable) true,
   Registry.dropTable registry (selfId rtable)).

Definition contains rtable (nodeId : Key) : option bool :=
  idx ← bucketIndex rtable nodeId;
  match bucket_at rtable idx with
  | None => Some false
  | Some b => Some (bool_decide (is_Some (peerIndexInBucket b nodeId)))
  end.

Definition markUseful rtable registry (nodeId : Key) (now : Moment) : PeerRegistry :=
  if detached rtable then registry else Registry.markUseful registry nodeId now.

End Operations.

(** ** Invariant of a table *)

Section Invariant.
Context `{Sha256} `{Chronos} `{Drbg}.
Implicit Types (t : RoutingTable) (r : PeerRegistry) (b : Bucket).

(** The hashes have [IdLength] bytes, which is what the assertion of [xorDistance] needs. *)
Definition table_wf t : Prop :=
  (forall k, id_ok (hashFor k (hasher (config t)))) /\
  (selfIdPreHashed (config t) = true -> id_ok (selfId t)).

Definition in_table t (k : Key) : Prop := exists i b, buckets t !! i = Some b /\ k ∈ b.

Definition bucket_ok t (i : nat) b : Prop :=
  Z.of_nat (length b) <= Z.max 0 (replication (config t)) /\ NoDup b /\
  forall k, k ∈ b ->
    bucketIndex t k = Some (Z.of_nat i) /\ k <> selfId t /\ k <> localNodeId t.

Record table_ok t : Prop := {
  table_buckets : Z.of_nat (length (buckets t)) <= bucketCount (maxBuckets (config t));
  table_bucket i b : buckets t !! i = Some b -> bucket_ok t i b;
  table_detached : detached t = true -> buckets t = [];
}.

(** [t'] has the identity and the configuration of [t]. *)
Definition same_table t t' : Prop :=
  selfId t' = selfId t /\ localNodeId t' = localNodeId t /\ config t' = config t /\
  detached t' = detached t.

Lemma bucketCount_range n : 1 <= bucketCount n <= MaxBucketsLimit.
Proof.
  unfold bucketCount, clamp. change MaxBucketsLimit with 256.
  destruct (Z.ltb_spec n 1); [lia|]. destruct (Z.ltb_spec 256 n); lia.
Qed.

Lemma selfHash_ok t : table_wf t -> id_ok (selfHash t).
Proof.
  intros [Hh Hs]. unfold selfHash. destruct (selfIdPreHashed (config t)); [by apply Hs|apply Hh].
Qed.

Lemma bucketIndexFor_total t h k : table_wf t -> id_ok h ->
  exists d, xorDistance h (hashFor k (hasher (config t))) = Some d /\ id_ok d /\
    bucketIndexFor t h k =
      Some (Z.min (leadingZeros d) (bucketCount (maxBuckets (config t)) - 1)).
Proof.
  intros [Hh _] Hs. unfold bucketIndexFor.
  destruct (xorDistance_spec h (hashFor k (hasher (config t)))) as (d & E & Hd & _); [done..|].
  exists d. by rewrite E.
Qed.

Lemma bucketIndex_total t k : table_wf t ->
  exists i, bucketIndex t k = Some (Z.of_nat i) /\
    Z.of_nat i < bucketCount (maxBuckets (config t)).
Proof.
  intros Hw. destruct (bucketIndexFor_total t (selfHash t) k) as (d & _ & [Hd _] & E);
    [done|by apply selfHash_ok|].
  pose proof (bucketCount_range (maxBuckets (config t))).
  destruct (leadingZeros_spec d Hd) as [Hz _].
  eexists (Z.to_nat _). unfold bucketIndex. rewrite Z2Nat.id; [split; [exact E|]|]; lia.
Qed.

Lemma same_table_index t t' k : same_table t t' -> bucketIndex t' k = bucketIndex t k.
Proof.
  intros (E1 & E2 & E3 & E4). unfold bucketIndex, bucketIndexFor, selfHash. by rewrite E1, E3.
Qed.

Lemma same_table_wf t t' : same_table t t' -> table_wf t -> table_wf t'.
Proof. intros (E1 & E2 & E3 & E4). unfold table_wf. by rewrite E1, E3. Qed.

Lemma same_table_bucket t t' i b : same_table t t' -> bucket_ok t i b -> bucket_ok t' i b.
Proof.
  intros Hs (Hl & Hn & Hk). pose proof Hs as (E1 & E2 & E3 & E4). unfold bucket_ok.
  rewrite E1, E2, E3. split_and!; [done..|]. intros k Hin.
  rewrite (same_table_index t t' k Hs). by apply Hk.
Qed.

Lemma with_buckets_same t bs : same_table t (with_buckets t bs).
Proof. done. Qed.

Lemma bucket_at_nat t i : bucket_at t (Z.of_nat i) = buckets t !! i.
Proof. unfold bucket_at. destruct (Z.ltb_spec (Z.of_nat i) 0); [lia|]. by rewrite Nat2Z.id. Qed.

(** A key is in the bucket of its index, if it is in the table. *)
Lemma in_table_index t k i : table_ok t -> bucketIndex t k = Some (Z.of_nat i) ->
  in_table t k <-> exists b, buckets t !! i = Some b /\ k ∈ b.
Proof.
  intros Ht Ei. split.
  - intros (j & b & Hj & Hk). destruct (table_bucket t Ht j b Hj) as (_ & _ & Hin).
    destruct (Hin k Hk) as [Ej _]. assert (i = j) as -> by (rewrite Ei in Ej; injection Ej; lia).
    eauto.
  - intros (b & Hb & Hk). by exists i, b.
Qed.

(** Lazily adding buckets changes nothing else. *)
Lemma grow_buckets_ok t i : table_ok t -> detached t = false ->
  Z.of_nat i < bucketCount (maxBuckets (config t)) ->
  let t' := grow_buckets t (Z.of_nat i) in
  table_ok t' /\ same_table t t' /\ (forall k, in_table t' k <-> in_table t k) /\
  buckets t' !! i = Some (default [] (buckets t !! i)) /\ (i < length (buckets t'))%nat.
Proof.
  intros Ht Hlive Hi. cbv zeta. unfold grow_buckets. rewrite Nat2Z.id.
  destruct (Z.leb_spec (Z.of_nat (length (buckets t))) (Z.of_nat i)) as [Hg|Hg].
  - set (bs := set_len [] (i + 1) (buckets t)).
    assert (Hl : length bs = (i + 1)%nat) by apply set_len_length.
    assert (Hlook : forall j, (j <= i)%nat -> bs !! j = Some (default [] (buckets t !! j))).
    { intros j Hj. subst bs. rewrite set_len_grow by lia.
      destruct (decide (j < length (buckets t))%nat).
      - rewrite lookup_app_l by done. by destruct (lookup_lt_is_Some_2 (buckets t) j) as [? ->].
      - rewrite lookup_app_r by lia. rewrite (lookup_ge_None_2 (buckets t)) by lia.
        apply lookup_replicate_2. lia. }
    assert (Hin : forall k j b, bs !! j = Some b -> k ∈ b -> buckets t !! j = Some b).
    { intros k j b Hj Hk. pose proof (lookup_lt_Some _ _ _ Hj).
      rewrite Hlook in Hj by lia. injection Hj as <-.
      destruct (buckets t !! j) as [b|]; [done|]. cbn in Hk. by apply not_elem_of_nil in Hk. }
    split; [|split; [done|]]; [split; cbn|].
    + lia.
    + intros j b Hj. pose proof (lookup_lt_Some _ _ _ Hj). rewrite Hlook in Hj by lia.
      injection Hj as <-. apply (same_table_bucket t); [done|].
      destruct (buckets t !! j) as [b|] eqn:Ej; [by apply Ht|].
      split; [cbn; lia|]. split; [constructor|]. by intros k ?%not_elem_of_nil.
    + congruence.
    + split; [|split; [by apply Hlook|cbn; lia]]. intros k. split.
      * intros (j & b & Hj & Hk). exists j, b. split; [by eapply Hin|done].
      * intros (j & b & Hj & Hk). exists j, b. split; [|done]. cbn.
        pose proof (lookup_lt_Some _ _ _ Hj). rewrite Hlook by lia. by rewrite Hj.
  - split; [done|]. split; [done|]. split; [done|]. split; [|lia].
    by destruct (lookup_lt_is_Some_2 (buckets t) i) as [b ->]; [lia|].
Qed.

(** Replacing the bucket of an index. *)
Lemma set_bucket_ok t i b b' : table_ok t -> detached t = false ->
  buckets t !! i = Some b -> bucket_ok t i b' ->
  let t' := with_buckets t (<[i := b']> (buckets t)) in
  table_ok t' /\ same_table t t' /\
  (forall k, in_table t' k <-> k ∈ b' \/ (in_table t k /\ k ∉ b)).
Proof.
  intros Ht Hlive Hb Hb'. cbv zeta. pose proof (lookup_lt_Some _ _ _ Hb) as Hi.
  split; [|split; [done|]].
  - split; cbn.
    + rewrite length_insert. apply Ht.
    + intros j c Hj. apply (same_table_bucket t); [done|].
      apply list_lookup_insert_Some in Hj as [(<- & <- & _)|[_ Hj]]; [done|by apply Ht].
    + congruence.
  - intros k. unfold in_table. cbn. split.
    + intros (j & c & Hj & Hk).
      apply list_lookup_insert_Some in Hj as [(<- & <- & _)|[Hne Hj]]; [by left|right].
      split; [eauto|]. intros Hkb.
      destruct (table_bucket t Ht i b Hb) as (_ & _ & Hk1).
      destruct (table_bucket t Ht j c Hj) as (_ & _ & Hk2).
      destruct (Hk1 k Hkb) as [E1 _], (Hk2 k Hk) as [E2 _]. rewrite E1 in E2. apply Hne.
      injection E2. lia.
    + intros [Hk|((j & c & Hj & Hk) & Hn)].
      * exists i, b'. split; [|done]. by apply list_lookup_insert_eq.
      * exists j, c. split; [|done]. rewrite list_lookup_insert_ne; [done|].
        intros ->. congruence.
Qed.

(** ** The peer to replace *)

Definition replaceable t r (now : Moment) (k : Key) : Prop :=
  Registry.isReplaceable r k (selfId t) (usefulnessGracePeriod (config t)) now = true.

(** [j] is the first of the replaceable peers of [b] seen the longest ago. *)
Definition candidate_at t r now b (j : nat) : Prop :=
  exists k, b !! j = Some k /\ replaceable t r now k /\
    forall j' k', b !! j' = Some k' -> replaceable t r now k' ->
      seenAt r k <= seenAt r k' /\ (seenAt r k' = seenAt r k -> (j <= j')%nat).

Lemma candidate_loop_spec t r now b0 i b cand :
  let good c (l : Bucket) := match c with
    | None => forall j k, l !! j = Some k -> ~ replaceable t r now k
    | Some (j, seen) => exists k, l !! j = Some k /\ replaceable t r now k /\ seen = seenAt r k /\
        forall j' k', l !! j' = Some k' -> replaceable t r now k' ->
          seen <= seenAt r k' /\ (seenAt r k' = seen -> (j <= j')%nat)
    end in
  length b0 = i -> good cand b0 ->
  good (candidate_loop t r (usefulnessGracePeriod (config t)) now i b cand) (b0 ++ b).
Proof.
  cbv zeta. revert b0 i cand.
  induction b as [|k b IH]; intros b0 i cand Hi Hc; cbn [candidate_loop].
  { by rewrite app_nil_r. }
  replace (b0 ++ k :: b) with ((b0 ++ [k]) ++ b) by (by rewrite <- app_assoc).
  assert (Hlast : forall j' k', (b0 ++ [k]) !! j' = Some k' ->
    (b0 !! j' = Some k') \/ (j' = i /\ k' = k)).
  { intros j' k' E. apply lookup_app_Some in E as [E|[Hge E]]; [by left|right].
    apply list_lookup_singleton_Some in E as [E1 <-]. split; [lia|done]. }
  assert (Hl : length (b0 ++ [k]) = S i) by (rewrite length_app; cbn; lia).
  destruct (Registry.isReplaceable r k _ _ now) eqn:Er; cbn [negb]; apply IH; try done.
  - destruct cand as [[j seen]|].
    + destruct Hc as (kj & Ej & Hr & -> & Hmin). pose proof (lookup_lt_Some _ _ _ Ej) as Hj.
      destruct (Z.ltb_spec (seenAt r k) (seenAt r kj)).
      * exists k. split; [by apply list_lookup_middle|]. split; [done|]. split; [done|].
        intros j' k' [E|[-> ->]]%Hlast Hr'; [|lia]. specialize (Hmin j' k' E Hr'). lia.
      * exists kj. split; [by apply lookup_app_l_Some|]. split; [done|]. split; [done|].
        intros j' k' [E|[-> ->]]%Hlast Hr'; [by apply Hmin|lia].
    + exists k. split; [by apply list_lookup_middle|]. split; [done|]. split; [done|].
      intros j' k' [E|[-> ->]]%Hlast Hr'; [|lia]. by destruct (Hc j' k' E).
  - destruct cand as [[j seen]|].
    + destruct Hc as (kj & Ej & Hr & -> & Hmin).
      exists kj. split; [by apply lookup_app_l_Some|]. split; [done|]. split; [done|].
      intros j' k' [E|[-> ->]]%Hlast Hr'; [by apply Hmin|]. unfold replaceable in Hr'. congruence.
    + intros j' k' [E|[-> ->]]%Hlast Hr'; [by apply (Hc j' k')|].
      unfold replaceable in Hr'. congruence.
Qed.

Lemma replaceableCandidate_spec t r b now :
  match replaceableCandidate t r b (usefulnessGracePeriod (config t)) now with
  | Some j => candidate_at t r now b j
  | None => forall k, k ∈ b -> ~ replaceable t r now k
  end.
Proof.
  unfold replaceableCandidate.
  pose proof (candidate_loop_spec t r now [] 0 b None) as Hs. cbv zeta in Hs.
  specialize (Hs eq_refl ltac:(intros ? ? E; by rewrite lookup_nil in E)). cbn [app] in Hs.
  destruct (candidate_loop _ _ _ _ _ _ _) as [[j seen]|]; cbn.
  - destruct Hs as (k & Ek & Hr & -> & Hmin). by exists k.
  - intros k (j & Ej)%list_elem_of_lookup. by apply (Hs j).
Qed.

End Invariant.

(** ** The outcomes of an insertion and of a removal *)

Section Outcomes.
Context `{Sha256} `{Chronos}.
Implicit Types (t : RoutingTable) (r : PeerRegistry).

Definition bucket_of t (i : nat) : Bucket := default [] (buckets t !! i).

Definition same_keys t t' : Prop := forall k, in_table t' k <-> in_table t k.

(** A row and a membership of [t] for [k]. *)
Definition indexed t r (k : Key) (clk : InsertClock) : PeerRegistry :=
  Registry.addMembership (Registry.upsert r k (now_upsert clk)).1 k (selfId t) (now_member clk).

(** The bucket of [k] is full of other peers, none of which can be replaced. *)
Definition bucket_closed t r (k : Key) (now : Moment) : Prop :=
  exists i, bucketIndex t k = Some (Z.of_nat i) /\ ~ in_table t k /\
    replication (config t) <= Z.of_nat (length (bucket_of t i)) /\
    forall o, o ∈ bucket_of t i -> ~ replaceable t r now o.

Definition has_room t (k : Key) : Prop :=
  exists i, bucketIndex t k = Some (Z.of_nat i) /\
    Z.of_nat (length (bucket_of t i)) < replication (config t).

(** [old] is the peer of the full bucket of [k] that gives way to [k]. *)
Definition gives_way t r (k old : Key) (now : Moment) : Prop :=
  exists i j, bucketIndex t k = Some (Z.of_nat i) /\ bucket_of t i !! j = Some old /\
    replication (config t) <= Z.of_nat (length (bucket_of t i)) /\
    candidate_at t r now (bucket_of t i) j.

Inductive insert_outcome t r (k : Key) (clk : InsertClock) :
    bool -> RoutingTable -> PeerRegistry -> Prop :=
| insert_forbidden :
    detached t = true \/ k = selfId t \/ k = localNodeId t ->
    insert_outcome t r k clk false t r
| insert_seen t' :
    detached t = false -> k <> selfId t -> k <> localNodeId t ->
    in_table t k -> same_keys t t' ->
    insert_outcome t r k clk true t' (Registry.upsert r k (now_upsert clk)).1
| insert_added t' :
    detached t = false -> k <> selfId t -> k <> localNodeId t ->
    ~ in_table t k -> has_room t k ->
    (forall k', in_table t' k' <-> in_table t k' \/ k' = k) ->
    insert_outcome t r k clk true t' (indexed t r k clk)
| insert_replaced t' old :
    detached t = false -> k <> selfId t -> k <> localNodeId t ->
    ~ in_table t k -> in_table t old -> gives_way t r k old (now_replace clk) ->
    (forall k', in_table t' k' <-> (in_table t k' /\ k' <> old) \/ k' = k) ->
    insert_outcome t r k clk true t'
      (indexed t (Registry.removeMembership r old (selfId t)) k clk)
| insert_closed t' :
    detached t = false -> k <> selfId t -> k <> localNodeId t ->
    bucket_closed t r k (now_replace clk) -> same_keys t t' ->
    insert_outcome t r k clk false t' r.

(** The step after the bucket is found, in a table that already has it. *)
Lemma insert_in_bucket t r k clk i b : table_ok t -> detached t = false ->
  k <> selfId t -> k <> localNodeId t -> bucketIndex t k = Some (Z.of_nat i) ->
  buckets t !! i = Some b -> ~ k ∈ b ->
  let full := negb (Z.of_nat (length b) <? replication (config t)) in
  let '(replaced, b', r') := tryReplaceStalePeer t r b k (now_replace clk) in
  (full = false ->
    bucket_ok t i (b ++ [k]) /\ has_room t k) /\
  (full = true -> replaced = false -> r' = r /\ bucket_closed t r k (now_replace clk)) /\
  (full = true -> replaced = true -> bucket_ok t i b' /\
    exists old, in_table t old /\ old <> k /\ gives_way t r k old (now_replace clk) /\
      r' = Registry.removeMembership r old (selfId t) /\
      (forall k', k' ∈ b' <-> (k' ∈ b /\ k' <> old) \/ k' = k)).
Proof.
  intros Ht Hlive Hs Hln Hi Hb Hk. cbv zeta. unfold tryReplaceStalePeer.
  assert (Eb : bucket_of t i = b) by (unfold bucket_of; by rewrite Hb).
  destruct (table_bucket t Ht i b Hb) as (Hlen & Hnd & Hin).
  destruct (Z.ltb_spec (Z.of_nat (length b)) (replication (config t))) as [Hlt|Hge]; cbn [negb].
  { split_and!; try done. intros _. split; [split_and!|exists i; by rewrite Eb].
    - rewrite length_app. cbn. lia.
    - apply NoDup_app. split; [done|]. split; [|by apply NoDup_singleton].
      intros x Hx ->%list_elem_of_singleton. done.
    - intros x [Hx| ->%list_elem_of_singleton]%elem_of_app; [by apply Hin|done]. }
  pose proof (replaceableCandidate_spec t r b (now_replace clk)) as Hc.
  destruct (replaceableCandidate _ _ _ _ _) as [j|].
  - pose proof Hc as (old & Ej & _). rewrite Ej. split_and!; try done. intros _ _.
    pose proof (lookup_lt_Some _ _ _ Ej) as Hj.
    assert (Hold : old ∈ b) by (by eapply list_elem_of_lookup_2).
    assert (Hmem : forall k', k' ∈ <[j := k]> b <-> (k' ∈ b /\ k' <> old) \/ k' = k).
    { intros k'. rewrite !list_elem_of_lookup. split.
      - intros (m & [(<- & <- & _)|[Hne Hm]]%list_lookup_insert_Some); [by right|left].
        split; [eauto|]. intros ->. by rewrite (NoDup_lookup _ _ _ _ Hnd Ej Hm) in Hne.
      - intros [[(m & Hm) Hne]| ->]; [|exists j; by apply list_lookup_insert_eq].
        exists m. rewrite list_lookup_insert_ne; [done|]. intros <-. congruence. }
    split; [split_and!|].
    + by rewrite length_insert.
    + apply NoDup_alt. intros m n x Hm Hn.
      apply list_lookup_insert_Some in Hm as [(<- & <- & _)|[Hjm Hm]];
        apply list_lookup_insert_Some in Hn as [(<- & Ex & _)|[Hjn Hn]]; [done|..].
      * destruct Hk. by eapply list_elem_of_lookup_2.
      * subst x. destruct Hk. by eapply list_elem_of_lookup_2.
      * by apply (NoDup_lookup b m n x).
    + intros x [[Hx _]| ->]%Hmem; [by apply Hin|done].
    + exists old. split; [by exists i, b|]. split; [by intros ->|].
      split; [exists i, j; by rewrite Eb|]. done.
  - split_and!; try done. intros _ _. split; [done|]. exists i. rewrite Eb. split_and!; try done.
    intros Hk'. apply (in_table_index t k i Ht Hi) in Hk' as (b0 & E & Hk0). congruence.
Qed.

Lemma insert_spec t r k clk : table_wf t -> table_ok t ->
  exists res t' r', insert t r k clk = Some (res, t', r') /\
    table_ok t' /\ same_table t t' /\ insert_outcome t r k clk res t' r'.
Proof.
  intros Hw Ht. unfold insert. destruct (detached t) eqn:Hlive.
  { exists false, t, r. split_and!; try done. apply insert_forbidden. by left. }
  destruct (bool_decide_reflect (k = selfId t)) as [E|Hs]; cbn [orb].
  { exists false, t, r. split_and!; try done. apply insert_forbidden. by right; left. }
  destruct (bool_decide_reflect (k = localNodeId t)) as [E|Hln].
  { exists false, t, r. split_and!; try done. apply insert_forbidden. by right; right. }
  destruct (bucketIndex_total t k Hw) as (i & Hi & Hib). rewrite Hi. cbn [mbind option_bind].
  destruct (grow_buckets_ok t i Ht Hlive Hib) as (Ht1 & Hsame & Hkeys & Hb & Hlen).
  set (t1 := grow_buckets t (Z.of_nat i)) in *. set (b := default [] (buckets t !! i)) in *.
  rewrite bucket_at_nat, Hb. cbn [mbind option_bind]. rewrite Nat2Z.id.
  pose proof Hsame as (E1 & E2 & E3 & E4).
  assert (Hi1 : bucketIndex t1 k = Some (Z.of_nat i)) by (by rewrite (same_table_index t t1)).
  assert (Hin : in_table t k <-> k ∈ b).
  { rewrite <- Hkeys, (in_table_index t1 k i Ht1 Hi1), Hb. naive_solver. }
  unfold peerIndexInBucket. destruct (seq_find k b) as [pos|] eqn:Ef.
  { exists true, t1. eexists. split; [done|]. split_and!; try done. apply insert_seen; try done.
    apply Hin. by eapply list_elem_of_lookup_2, seq_find_Some. }
  apply seq_find_None in Ef.
  assert (Hbk : bucket_of t1 i = b) by (unfold bucket_of; by rewrite Hb).
  assert (Hrepl : forall now o, replaceable t1 r now o <-> replaceable t r now o)
    by (intros; unfold replaceable; by rewrite E1, E3).
  pose proof (insert_in_bucket t1 r k clk i b Ht1) as Hstep. rewrite E1, E2, E3, E4 in Hstep.
  specialize (Hstep Hlive Hs Hln Hi1 Hb Ef). cbv zeta in Hstep.
  destruct (tryReplaceStalePeer t1 r b k (now_replace clk)) as [[replaced b'] r1].
  destruct Hstep as (Hroom & Hclosed & Hgives). rewrite E3.
  destruct (Z.ltb_spec (Z.of_nat (length b)) (replication (config t))) as [Hlt|Hge];
    cbn [negb] in *.
  - destruct Hroom as [Hok _]; [done|]. eexists true, _, _. split; [done|].
    destruct (set_bucket_ok t1 i b (b ++ [k])) as (Ht2 & Hs2 & Hk2); [done|congruence|done|done|].
    split; [done|]. split; [unfold same_table in *; cbn in *; by rewrite E1, E2, E3, E4|].
    rewrite E1. apply insert_added; try done; [by rewrite Hin|by exists i|].
    intros k'. rewrite Hk2, elem_of_app, list_elem_of_singleton, Hkeys.
    assert (k' ∈ b -> in_table t k') by (intros Hk'; apply Hkeys; by exists i, b).
    destruct (decide (k' ∈ b)); naive_solver.
  - destruct replaced; cbn [negb].
    + destruct Hgives as (Hok & old & Hold & Hne & Hgw & -> & Hmem); [done..|].
      eexists true, _, _. split; [done|].
      destruct (set_bucket_ok t1 i b b') as (Ht2 & Hs2 & Hk2); [done|congruence|done|done|].
      split; [done|]. split; [unfold same_table in *; cbn in *; by rewrite E1, E2, E3, E4|].
      rewrite E1. apply (insert_replaced _ _ _ _ _ old); try done.
      * by rewrite Hin.
      * by apply Hkeys.
      * destruct Hgw as (i' & j & Hi' & Hj & Hf & k0 & Hk0 & Hr0 & Hmin).
        rewrite Hi1 in Hi'. injection Hi' as Hi'. assert (i' = i) as -> by lia.
        rewrite Hbk in *. rewrite E3 in Hf. exists i, j. fold (bucket_of t i) in b.
        split; [done|]. split; [done|]. split; [done|]. exists k0. split; [done|].
        split; [by apply Hrepl|]. intros j' k' Hj' Hr'. apply (Hmin j' k' Hj'), Hrepl, Hr'.
      * intros k'. rewrite Hk2, Hmem, Hkeys.
        assert (k' ∈ b -> in_table t k') by (intros Hk'; apply Hkeys; by exists i, b).
        assert (old ∈ b).
        { destruct Hgw as (i' & j & Hi' & Hj & _). rewrite Hi1 in Hi'. injection Hi' as Hi'.
          assert (i' = i) as -> by lia. rewrite Hbk in Hj. by eapply list_elem_of_lookup_2. }
        destruct (decide (k' ∈ b)), (decide (k' = old)); naive_solver.
    + destruct (Hclosed eq_refl eq_refl) as (-> & i' & Hi' & Hnin & Hf & Hno).
      rewrite Hi1 in Hi'. injection Hi' as Hi'. assert (i' = i) as -> by lia.
      rewrite Hbk in *. rewrite E3 in Hf. eexists false, _, _. split; [done|]. split; [done|].
      split; [done|]. apply insert_closed; try done. exists i. split_and!; try done.
      * by rewrite <- Hkeys.
      * intros o Ho Hr. apply (Hno o Ho), Hrepl, Hr.
Qed.

End Outcomes.

Section Removal.
Context `{Sha256} `{Chronos}.
Implicit Types (t : RoutingTable) (r : PeerRegistry).

Lemma contains_spec t k : table_wf t -> table_ok t ->
  exists res, contains t k = Some res /\ (res = true <-> in_table t k).
Proof.
  intros Hw Ht. unfold contains. destruct (bucketIndex_total t k Hw) as (i & Hi & _).
  rewrite Hi. cbn [mbind option_bind]. rewrite bucket_at_nat. pose proof (in_table_index t k i Ht Hi) as Hin.
  destruct (buckets t !! i) as [b|]; eexists; (split; [reflexivity|]); rewrite Hin;
    [|naive_solver].
  rewrite bool_decide_eq_true. unfold peerIndexInBucket. rewrite seq_find_is_Some. naive_solver.
Qed.

Lemma removePeer_spec t r k : table_wf t -> table_ok t ->
  exists res t' r', removePeer t r k = Some (res, t', r') /\
    table_ok t' /\ same_table t t' /\
    ((res = false /\ t' = t /\ r' = r /\ ~ in_table t k) \/
     (res = true /\ in_table t k /\ r' = Registry.removeMembership r k (selfId t) /\
      forall k', in_table t' k' <-> in_table t k' /\ k' <> k)).
Proof.
  intros Hw Ht. unfold removePeer.
  assert (Hself : in_table t k -> k <> selfId t /\ k <> localNodeId t).
  { intros (i & b & Hb & Hk). destruct (table_bucket t Ht i b Hb) as (_ & _ & Hin).
    by destruct (Hin k Hk). }
  destruct (bool_decide_reflect (k = selfId t)) as [E|Hs]; cbn [orb].
  { exists false, t, r. split_and!; try done. left. naive_solver. }
  destruct (bool_decide_reflect (k = localNodeId t)) as [E|Hln].
  { exists false, t, r. split_and!; try done. left. naive_solver. }
  destruct (bucketIndex_total t k Hw) as (i & Hi & _). rewrite Hi. cbn [mbind option_bind].
  rewrite bucket_at_nat, Nat2Z.id. pose proof (in_table_index t k i Ht Hi) as Hin.
  destruct (buckets t !! i) as [b|] eqn:Hb;
    [|exists false, t, r; split_and!; try done; left; naive_solver].
  unfold peerIndexInBucket. destruct (seq_find k b) as [pos|] eqn:Ef.
  - apply seq_find_Some in Ef. assert (Hk : k ∈ b) by (by eapply list_elem_of_lookup_2).
    assert (Hlive : detached t = false).
    { destruct (detached t) eqn:Ed; [|done]. apply (table_detached t Ht) in Ed.
      by rewrite Ed, lookup_nil in Hb. }
    destruct (table_bucket t Ht i b Hb) as (Hl & Hnd & Hbk).
    pose proof (seq_delete_perm pos b k Ef) as Hp.
    assert (Hmem : forall k', k' ∈ seq_delete pos b <-> k' ∈ b /\ k' <> k).
    { intros k'. rewrite Hp in Hnd. apply NoDup_cons in Hnd as [Hnk _].
      setoid_rewrite Hp at 2. rewrite elem_of_cons. split; [|naive_solver].
      intros Hx. split; [by right|]. by intros ->. }
    destruct (set_bucket_ok t i b (seq_delete pos b)) as (Ht' & Hs' & Hk'); [done..| |].
    { split; [|split].
      - apply lookup_lt_Some in Ef. rewrite seq_delete_length by done. lia.
      - rewrite Hp in Hnd. by apply NoDup_cons in Hnd as [_ ?].
      - intros x [Hx _]%Hmem. by apply Hbk. }
    eexists true, _, _. split; [done|]. split; [done|]. split; [done|]. right.
    split; [done|]. split; [apply Hin; eauto|]. split; [done|]. intros k'. rewrite Hk', Hmem.
    assert (k' ∈ b -> in_table t k') by (intros Hx; by exists i, b).
    destruct (decide (k' ∈ b)), (decide (k' = k)); naive_solver.
  - apply seq_find_None in Ef. exists false, t, r. split_and!; try done. left. naive_solver.
Qed.

End Removal.

(** ** A node: the registry and the tables over it *)

Record Node := mkNode { registry : PeerRegistry; tables : list RoutingTable }.

Inductive Op :=
| OpNew (selfId : Key) (config : RoutingTableConfig) (localNodeId : option Key)
| OpInsert (i : nat) (k : Key) (clk : InsertClock)
| OpRemove (i : nat) (k : Key)
| OpDetach (i : nat)
| OpUseful (i : nat) (k : Key) (now : Moment).

Section Node.
Context `{Sha256} `{Chronos}.
Implicit Types (n : Node) (t : RoutingTable).

Definition set_table n (i : nat) (t : RoutingTable) (r : PeerRegistry) : Node :=
  mkNode r (<[i := t]> (tables n)).

(** One operation on the [i]-th table; [None] is a failed assertion. *)
Definition exec n (op : Op) : option Node :=
  match op with
  | OpNew s c l => Some (mkNode (registry n) (tables n ++ [table_new s c l]))
  | OpInsert i k clk =>
      match tables n !! i with
      | None => Some n
      | Some t => '(_, t', r') ← insert t (registry n) k clk; Some (set_table n i t' r')
      end
  | OpRemove i k =>
      match tables n !! i with
      | None => Some n
      | Some t => '(_, t', r') ← removePeer t (registry n) k; Some (set_table n i t' r')
      end
  | OpDetach i =>
      match tables n !! i with
      | None => Some n
      | Some t => let '(t', r') := detachAll t (registry n) in Some (set_table n i t' r')
      end
  | OpUseful i k now =>
      match tables n !! i with
      | None => Some n
      | Some t => Some (set_table n i t (markUseful t (registry n) k now))
      end
  end.

(** What the callers of the operations respect: a new table has an identity no live table
has, its hashes are well-formed, and a table is detached once. *)
Definition admissible n (op : Op) : Prop :=
  match op with
  | OpNew s c l => table_wf (table_new s c l) /\
      forall i t, tables n !! i = Some t -> detached t = false -> selfId t <> s
  | OpDetach i => forall t, tables n !! i = Some t -> detached t = false
  | _ => True
  end.

Fixpoint run n (ops : list Op) : option Node :=
  match ops with
  | [] => Some n
  | op :: ops => n ← exec n op; run n ops
  end.

Fixpoint run_admissible n (ops : list Op) : Prop :=
  match ops with
  | [] => True
  | op :: ops => admissible n op /\ forall n', exec n op = Some n' -> run_admissible n' ops
  end.

Definition indexes n (tid k : Key) : Prop :=
  exists i t, tables n !! i = Some t /\ selfId t = tid /\ in_table t k.

Record node_ok n : Prop := {
  node_registry : registry_ok (registry n);
  node_table i t : tables n !! i = Some t -> table_wf t /\ table_ok t;
  node_ids i j t u : tables n !! i = Some t -> tables n !! j = Some u ->
    detached t = false -> detached u = false -> selfId t = selfId u -> i = j;
  node_members k tid : member (registry n) k tid <-> indexes n tid k;
}.

Lemma in_table_live t k : table_ok t -> in_table t k -> detached t = false.
Proof.
  intros Ht (i & b & Hb & _). destruct (detached t) eqn:E; [|done].
  by rewrite (table_detached t Ht E), lookup_nil in Hb.
Qed.

(** The one place where the tables and the registry must agree: a live table [t] becomes [t'],
and the memberships of its identity become the keys of [t']. *)
Lemma node_ok_update n i t t' r' : node_ok n -> tables n !! i = Some t -> detached t = false ->
  selfId t' = selfId t -> table_wf t' -> table_ok t' -> registry_ok r' ->
  (forall k tid, member r' k tid <->
    (tid = selfId t /\ in_table t' k) \/ (tid <> selfId t /\ member (registry n) k tid)) ->
  node_ok (set_table n i t' r').
Proof.
  intros Hn Hi Hlive Hid Hw Ht' Hr Hm. pose proof (lookup_lt_Some _ _ _ Hi) as Hlt.
  split; cbn; [done|..].
  - intros j u [(<- & <- & _)|[_ Hj]]%list_lookup_insert_Some; [done|by eapply Hn].
  - intros j1 j2 u1 u2 [(<- & <- & _)|[Hn1 H1']]%list_lookup_insert_Some
      [(<- & <- & _)|[Hn2 H2']]%list_lookup_insert_Some L1 L2 Es; [done|..].
    + rewrite Hid in Es. by apply (node_ids n Hn i j2 t u2).
    + rewrite Hid in Es. by apply (node_ids n Hn j1 i u1 t).
    + by apply (node_ids n Hn j1 j2 u1 u2).
  - intros k tid. rewrite Hm, (node_members n Hn). unfold indexes. cbn. split.
    + intros [[-> Hk]|[Hne (j & u & Hj & Hu & Hk)]].
      * exists i, t'. by rewrite list_lookup_insert_eq.
      * exists j, u. rewrite list_lookup_insert_ne; [done|]. intros <-. congruence.
    + intros (j & u & [(<- & <- & _)|[Hne Hj]]%list_lookup_insert_Some & Hu & Hk).
      * left. split; congruence || done.
      * right. split; [|by exists j, u]. intros ->. apply Hne.
        apply (node_ids n Hn i j t u); try done.
        eapply in_table_live; [|done]. by eapply Hn.
Qed.

Lemma set_table_id n i t r : tables n !! i = Some t -> r = registry n -> set_table n i t r = n.
Proof. intros E ->. unfold set_table. rewrite list_insert_id by done. by destruct n. Qed.

Lemma member_here n i t k : node_ok n -> tables n !! i = Some t -> detached t = false ->
  member (registry n) k (selfId t) <-> in_table t k.
Proof.
  intros Hn Hi Hl. rewrite (node_members n Hn). split; [|by exists i, t].
  intros (j & u & Hj & Hu & Hk).
  assert (j = i) as ->.
  { apply (node_ids n Hn j i u t); try done. eapply in_table_live; [|done]. by eapply Hn. }
  congruence.
Qed.

Lemma insert_node_ok n i t k clk : node_ok n -> tables n !! i = Some t ->
  exists res t' r', insert t (registry n) k clk = Some (res, t', r') /\
    node_ok (set_table n i t' r').
Proof.
  intros Hn Hi. destruct (node_table n Hn i t Hi) as [Hw Ht].
  destruct (insert_spec t (registry n) k clk Hw Ht) as (res & t' & r' & E & Ht' & Hs & Ho).
  exists res, t', r'. split; [done|]. pose proof (same_table_wf _ _ Hs Hw) as Hw'.
  assert (Hid : selfId t' = selfId t) by apply Hs.
  pose proof (node_registry n Hn) as Hr.
  assert (Hupd : detached t = false -> registry_ok r' ->
    (forall k0 tid, member r' k0 tid <-> (tid = selfId t /\ in_table t' k0) \/
      (tid <> selfId t /\ member (registry n) k0 tid)) -> node_ok (set_table n i t' r')).
  { intros. by apply (node_ok_update n i t). }
  destruct Ho as [Hf|t' Hl _ _ Hk Hkeys|t' Hl _ _ Hk Hroom Hkeys
    |t' old Hl _ _ Hk Hold Hg Hkeys|t' Hl _ _ Hc Hkeys].
  - by rewrite set_table_id.
  - pose proof (fun x => member_here n i t x Hn Hi Hl) as Hm. apply Hupd; [done|..].
    + apply Registry.registry_ok_upsert; [done|]. apply Registry.row_member; [done|].
      exists (selfId t). by apply Hm.
    + intros x tid. rewrite Registry.upsert_member, (Hkeys x), <- Hm.
      destruct (decide (tid = selfId t)); naive_solver.
  - pose proof (fun x => member_here n i t x Hn Hi Hl) as Hm. unfold indexed in *. apply Hupd; [done|..].
    + by apply Registry.registry_ok_index.
    + intros x tid. rewrite Registry.addMembership_member, Registry.upsert_member, (Hkeys x), <- Hm.
      destruct (decide (tid = selfId t)); naive_solver.
  - pose proof (fun x => member_here n i t x Hn Hi Hl) as Hm. unfold indexed in *. apply Hupd; [done|..].
    + by apply Registry.registry_ok_index, Registry.registry_ok_removeMembership.
    + intros x tid. rewrite Registry.addMembership_member, Registry.upsert_member,
        Registry.removeMembership_member, Hkeys, <- Hm.
      destruct (decide (tid = selfId t)); naive_solver.
  - pose proof (fun x => member_here n i t x Hn Hi Hl) as Hm. apply Hupd; [done..|].
    intros x tid. rewrite (Hkeys x), <- Hm. destruct (decide (tid = selfId t)); naive_solver.
Qed.

Lemma removePeer_node_ok n i t k : node_ok n -> tables n !! i = Some t ->
  exists res t' r', removePeer t (registry n) k = Some (res, t', r') /\
    node_ok (set_table n i t' r').
Proof.
  intros Hn Hi. destruct (node_table n Hn i t Hi) as [Hw Ht].
  destruct (removePeer_spec t (registry n) k Hw Ht) as (res & t' & r' & E & Ht' & Hs & Ho).
  exists res, t', r'. split; [done|]. pose proof (same_table_wf _ _ Hs Hw) as Hw'.
  destruct Ho as [(-> & -> & -> & _)|(-> & Hk & -> & Hkeys)]; [by rewrite set_table_id|].
  pose proof (in_table_live t k Ht Hk) as Hl.
  pose proof (fun x => member_here n i t x Hn Hi Hl) as Hm.
  apply (node_ok_update n i t); try done.
  - apply Hs.
  - apply Registry.registry_ok_removeMembership, Hn.
  - intros x tid. rewrite Registry.removeMembership_member, Hkeys, <- Hm.
    destruct (decide (tid = selfId t)); naive_solver.
Qed.

Lemma exec_ok n op : node_ok n -> admissible n op ->
  exists n', exec n op = Some n' /\ node_ok n'.
Proof.
  intros Hn Ha. destruct op as [s c l|i k clk|i k|i|i k now]; cbn [exec].
  - destruct Ha as [Hw Hfresh]. eexists. split; [done|].
    assert (Hlook : forall j u, (tables n ++ [table_new s c l]) !! j = Some u ->
      tables n !! j = Some u \/ (j = length (tables n) /\ u = table_new s c l)).
    { intros j u [E|[Hge E]]%lookup_app_Some; [by left|right].
      apply list_lookup_singleton_Some in E as [E <-]. split; [lia|done]. }
    split; cbn; [apply Hn|..].
    + intros j u [Hj|[-> ->]]%Hlook; [by eapply Hn|]. split; [done|]. split; cbn; [|done..].
      pose proof (bucketCount_range (maxBuckets c)). lia.
    + intros j1 j2 u1 u2 [H1|[-> ->]]%Hlook [H2|[-> ->]]%Hlook L1 L2 E; [|exfalso..|done].
      * by apply (node_ids n Hn j1 j2 u1 u2).
      * by apply (Hfresh j1 u1).
      * by apply (Hfresh j2 u2).
    + intros k tid. rewrite (node_members n Hn). unfold indexes. cbn. split.
      * intros (j & u & Hj & Hu). exists j, u. split; [by apply lookup_app_l_Some|done].
      * intros (j & u & [Hj|[-> ->]]%Hlook & Hu & Hk); [by exists j, u|].
        destruct Hk as (i & b & Hb & _). cbn in Hb. by rewrite lookup_nil in Hb.
  - destruct (tables n !! i) as [t|] eqn:Hi; [|by exists n].
    destruct (insert_node_ok n i t k clk Hn Hi) as (res & t' & r' & E & Hok).
    rewrite E. cbn. eauto.
  - destruct (tables n !! i) as [t|] eqn:Hi; [|by exists n].
    destruct (removePeer_node_ok n i t k Hn Hi) as (res & t' & r' & E & Hok).
    rewrite E. cbn. eauto.
  - destruct (tables n !! i) as [t|] eqn:Hi; [|by exists n]. cbn in Ha. specialize (Ha t Hi).
    eexists. split; [done|]. destruct (node_table n Hn i t Hi) as [Hw Ht].
    apply (node_ok_update n i t); try done.
    + split; cbn; [|done..]. pose proof (bucketCount_range (maxBuckets (config t))). lia.
    + apply Registry.registry_ok_dropTable, Hn.
    + intros x tid. rewrite Registry.dropTable_member. split; [naive_solver|].
      intros [[_ (j & b & Hb & _)]|Hx]; [|naive_solver]. cbn in Hb. by rewrite lookup_nil in Hb.
  - destruct (tables n !! i) as [t|] eqn:Hi; [|by exists n]. eexists. split; [done|].
    unfold markUseful. destruct (detached t) eqn:Hl; [by rewrite set_table_id|].
    destruct (node_table n Hn i t Hi) as [Hw Ht].
    apply (node_ok_update n i t); try done.
    + apply Registry.registry_ok_markUseful, Hn.
    + intros x tid. rewrite Registry.markUseful_member, <- (member_here n i t x Hn Hi Hl).
      destruct (decide (tid = selfId t)); naive_solver.
Qed.

Lemma run_ok n ops : node_ok n -> run_admissible n ops ->
  exists n', run n ops = Some n' /\ node_ok n'.
Proof.
  revert n. induction ops as [|op ops IH]; intros n Hn Ha; [by exists n|].
  destruct Ha as [Ha Hrest]. destruct (exec_ok n op Hn Ha) as (n' & E & Hn').
  cbn. rewrite E. cbn. apply IH; [done|by apply Hrest].
Qed.

Definition empty_node : Node := mkNode Registry.new [].

Lemma empty_node_ok : node_ok empty_node.
Proof.
  split; cbn.
  - apply Registry.registry_ok_new.
  - intros i t Hi. by rewrite lookup_nil in Hi.
  - intros i j t u Hi. by rewrite lookup_nil in Hi.
  - intros k tid. rewrite Registry.member_alt. cbn. split.
    + intros (m & E & _). by rewrite lookup_empty in E.
    + intros (i & t & E & _). cbn in E. by rewrite lookup_nil in E.
Qed.

End Node.

(** Keys of different buckets differ, so the whole table has no duplicate. *)
Lemma NoDup_concat_from (f : Key -> option Z) (bs : list Bucket) (i0 : nat) :
  (forall j b, bs !! j = Some b -> NoDup b /\ forall k, k ∈ b -> f k = Some (Z.of_nat (i0 + j))) ->
  NoDup (concat bs).
Proof.
  revert i0. induction bs as [|b bs IH]; intros i0 Hb; cbn; [constructor|].
  apply NoDup_app. split; [by apply (Hb 0%nat b)|]. split.
  - intros k Hk (b' & Hin & Hk')%list_elem_of_In%in_concat.
    apply list_elem_of_In, list_elem_of_lookup in Hin as [j Hj].
    destruct (Hb 0%nat b eq_refl) as [_ H1], (Hb (S j) b' Hj) as [_ H2].
    apply list_elem_of_In in Hk'. specialize (H1 k Hk). specialize (H2 k Hk').
    rewrite H1 in H2. injection H2. lia.
  - apply (IH (S i0)). intros j b' Hj. destruct (Hb (S j) b' Hj) as [Hn Hk].
    split; [done|]. intros k Hin. rewrite (Hk k Hin). do 2 f_equal. lia.
Qed.

Lemma NoDup_concat_buckets (f : Key -> option Z) (bs : list Bucket) :
  (forall j b, bs !! j = Some b -> NoDup b /\ forall k, k ∈ b -> f k = Some (Z.of_nat j)) ->
  NoDup (concat bs).
Proof. apply (NoDup_concat_from f bs 0). Qed.

(** ** Properties *)

(** C25: after any sequence of operations on any number of tables that share one registry,
starting from nothing, no assertion has failed and in every table: there are at most
[bucketCount] buckets, a bucket holds at most [replication] keys, a key is in the bucket of
its index, at most once in the table, and is neither the table's identity nor the local
node; the registry has the membership of a table for exactly the keys that table holds, and a
row, naming the peer, for exactly the peers that some table holds. *)
Theorem tables_registry_agree `{Sha256} `{Chronos} (ops : list Op) :
  run_admissible empty_node ops ->
  exists n, run empty_node ops = Some n /\
    (forall i t, tables n !! i = Some t ->
      Z.of_nat (length (buckets t)) <= bucketCount (maxBuckets (config t)) /\
      (detached t = true -> buckets t = []) /\
      NoDup (concat (buckets t)) /\
      forall j b, buckets t !! j = Some b ->
        Z.of_nat (length b) <= Z.max 0 (replication (config t)) /\
        forall k, k ∈ b -> bucketIndex t k = Some (Z.of_nat j) /\
          k <> selfId t /\ k <> localNodeId t) /\
    (forall k tid, is_Some (Registry.membership (registry n) k tid) <->
      exists i t, tables n !! i = Some t /\ selfId t = tid /\ in_table t k) /\
    (forall k, is_Some (Registry.get (registry n) k) <->
      exists i t, tables n !! i = Some t /\ in_table t k) /\
    (forall k rec, Registry.get (registry n) k = Some rec -> Registry.nodeId rec = k).
Proof.
  intros Ha. destruct (run_ok empty_node ops empty_node_ok Ha) as (n & E & Hn).
  exists n. split; [done|]. split; [|split; [apply (node_members n Hn)|split]].
  - intros i t Hi. destruct (node_table n Hn i t Hi) as [_ Ht].
    split; [apply Ht|]. split; [apply Ht|]. split.
    + apply (NoDup_concat_buckets (bucketIndex t)). intros j b Hb. destruct (table_bucket t Ht j b Hb) as (_ & Hd & Hk).
      split; [done|]. intros k Hin. by destruct (Hk k Hin) as [Ek _].
    + intros j b Hb. destruct (table_bucket t Ht j b Hb) as (Hl & _ & Hk). done.
  - intros k. unfold Registry.get. rewrite (Registry.row_member _ k (node_registry n Hn)). split.
    + intros (tid & Hm). apply (node_members n Hn) in Hm as (i & t & Hi & _ & Hk). eauto.
    + intros (i & t & Hi & Hk). exists (selfId t). apply (node_members n Hn). by exists i, t.
  - intros k rec. apply (Registry.rows_named _ (node_registry n Hn)).
Qed.

(** the branches of [insert], on a table whose invariant holds.  A detached table, the
table's identity and the local node are refused with no effect; a peer already in the table is
only seen again; a peer of a bucket with room is added, with a row and a membership; in a full
bucket it takes the place of the replaceable peer seen the longest ago (the first of these),
which loses its membership; and it is refused, registry untouched, when no peer of the bucket
can be replaced.  The cases exclude each other, and the invariant and the table's identity
are kept. *)
Theorem insert_branches `{Sha256} `{Chronos} (t : RoutingTable) (r : PeerRegistry) (k : Key)
    (clk : InsertClock) : table_wf t -> table_ok t ->
  exists res t' r', insert t r k clk = Some (res, t', r') /\
    table_ok t' /\ same_table t t' /\ insert_outcome t r k clk res t' r' /\
    (res = true -> in_table t' k) /\
    (forall k', in_table t' k' -> in_table t k' \/ k' = k).
Proof.
  intros Hw Ht. destruct (insert_spec t r k clk Hw Ht) as (res & t' & r' & E & Ht' & Hs & Ho).
  exists res, t', r'. split_and!; try done.
  - destruct Ho as [Hf|t' _ _ _ Hk Hkeys|t' _ _ _ _ _ Hkeys|t' old _ _ _ _ _ _ Hkeys|]; try done;
      intros _; apply Hkeys; auto.
  - destruct Ho as [Hf|t' _ _ _ Hk Hkeys|t' _ _ _ _ _ Hkeys|t' old _ _ _ _ _ _ Hkeys|t' _ _ _ _ Hkeys];
      intros k' Hk'; try apply Hkeys in Hk'; naive_solver.
Qed.

(** A hasher and a configuration for the witnesses. *)
Definition pad_hasher (k : bytes) : bytes := take 32 (((fun b => b mod 256) <$> k) ++ replicate 32 0).

Definition demo_sha : Sha256 := {| defaultHasher := pad_hasher |}.

Definition demo_config : RoutingTableConfig := mkConfig 1 None 256 false 10 100.

Lemma pad_hasher_ok k : id_ok (pad_hasher k).
Proof.
  split.
  - apply Forall_take, Forall_app. split; [|apply Forall_replicate; unfold byte_ok; lia].
    apply Forall_fmap, Forall_forall. intros b _. apply Z.mod_pos_bound. lia.
  - unfold pad_hasher, IdLength. rewrite length_take, length_app, length_replicate. lia.
Qed.

Lemma demo_table_wf s l : @table_wf demo_sha (table_new s demo_config l).
Proof. split; cbn; [apply pad_hasher_ok|done]. Qed.

Definition demo_ops : list Op :=
  [OpNew [0] demo_config None; OpInsert 0 [128] (mkClock 0 0 0);
   OpInsert 0 [129] (mkClock 20 20 20); OpUseful 0 [129] 21; OpDetach 0].

Lemma tables_registry_agree_witness :
  exists n, @run demo_sha plain_chronos empty_node demo_ops = Some n /\
    forall k, is_Some (Registry.get (registry n) k) <->
      exists i t, tables n !! i = Some t /\ in_table t k.
Proof.
  destruct (@tables_registry_agree demo_sha plain_chronos demo_ops)
    as (n & E & _ & _ & H & _).
  - cbn [run_admissible demo_ops]. split.
    { split; [apply demo_table_wf|]. intros i t Hi. by destruct i. }
    intros n1 E1. split; [done|]. intros n2 E2. split; [done|]. intros n3 E3. split; [done|].
    intros n4 E4. split; [|done].
    injection E1 as <-. vm_compute in E2. injection E2 as <-. vm_compute in E3. injection E3 as <-.
    vm_compute in E4. injection E4 as <-. intros t [= <-]. reflexivity.
  - exists n. split; [exact E|exact H].
Defined.

Lemma insert_branches_witness :
  exists res t' r', @insert demo_sha plain_chronos (table_new [0] demo_config None)
      Registry.new [128] (mkClock 0 0 0) = Some (res, t', r') /\
    (res = true -> in_table t' [128]).
Proof.
  destruct (@insert_branches demo_sha plain_chronos (table_new [0] demo_config None)
    Registry.new [128] (mkClock 0 0 0)) as (res & t' & r' & E & _ & _ & _ & H & _).
  - apply demo_table_wf.
  - split; cbn; [vm_compute; congruence|intros i b Hb; by destruct i|done].
  - exists res, t', r'. split; [exact E|exact H].
Defined.
