(* ===== verification/KadLookup.v ===== *)
(** * KadLookup: libp2p/protocols/kademlia/routing_table.nim, the read-only queries

The closest peers to a target, random samples, stale buckets and the targets of a refresh. *)
From S2P Require Import Prelude Endians Chronos Rng KadTypes KadRegistry KadTable.
Import Registry (PeerRegistry).

#[local] Open Scope Z_scope.

(** ** Sorting

[std/algorithm]'s [sort] is stable; [sort_m] is the stable sort by a comparison that may fail
an assertion. *)

Fixpoint insert_m {A} (cmp : A -> A -> option Z) (x : A) (l : list A) : option (list A) :=
  match l with
  | [] => Some [x]
  | y :: r => c ← cmp x y;
              if c <=? 0 then Some (x :: y :: r) else r ← insert_m cmp x r; Some (y :: r)
  end.

Fixpoint sort_m {A} (cmp : A -> A -> option Z) (l : list A) : option (list A) :=
  match l with
  | [] => Some []
  | x :: r => r ← sort_m cmp r; insert_m cmp x r
  end.

(** ** Operations *)

Section Operations.
Context `{Sha256} `{Chronos} `{Drbg}.
Implicit Types (rtable : RoutingTable) (registry : PeerRegistry).

Definition allKeys rtable : list Key := concat (buckets rtable).

(** The slice [0 ..< min(count, len)] of a negative length raises. *)
Definition findClosest rtable (targetId : Key) (count : Z) : option (list Key) :=
  let allNodes := allKeys rtable in
  let targetHash := hashFor targetId (hasher (config rtable)) in
  allNodes ← sort_m (fun a b =>
      da ← xorDistance (hashFor a (hasher (config rtable))) targetHash;
      db ← xorDistance (hashFor b (hasher (config rtable))) targetHash;
      Some (cmp da db)) allNodes;
  let n := Z.min count (Z.of_nat (length allNodes)) in
  if n <? 0 then None else Some (take (Z.to_nat n) allNodes).

(** [for i in countdown(buckets.high, 0)]: [bs] lists the buckets from the last one. *)
Fixpoint pick_loop_buckets (fuel : nat) (bs : list Bucket) (remaining maxPerBucket : Z)
    (selected : list Key) : rand_m (list Key) :=
  match bs with
  | [] => mret selected
  | b :: bs =>
      if remaining <=? 0 then mret selected
      else
        let n := Z.min remaining (Z.min maxPerBucket (Z.of_nat (length b))) in
        picked ← pick fuel b n;
        let picked := default [] picked in
        pick_loop_buckets fuel bs (remaining - Z.of_nat (length picked)) maxPerBucket
          (selected ++ picked)
  end.

Definition pickClosestFirst (fuel : nat) (view : list Bucket) (count maxPerBucket : Z) :
    rand_m (list Key) :=
  pick_loop_buckets fuel (rev view) count maxPerBucket [].

Definition not_excluded (exclude : list Key) (b : Bucket) : Bucket :=
  filter (fun k => k ∉ exclude) b.

Definition randomPeersClosestFirst (fuel : nat) rtable (count maxPerBucket : Z)
    (exclude : list Key) : rand_m (list Key) :=
  if count <=? 0 then mret []
  else pickClosestFirst fuel (not_excluded exclude <$> buckets rtable) count maxPerBucket.

(** Adds each key to the bucket of its distance to [target]. *)
Fixpoint view_by_target rtable (target : Key) (keys : list Key) (view : list Bucket) :
    option (list Bucket) :=
  match keys with
  | [] => Some view
  | k :: r =>
      d ← xorDistance target (hashFor k (hasher (config rtable)));
      let i := Z.to_nat (Z.min (leadingZeros d) (Z.of_nat (length view) - 1)) in
      b ← view !! i;
      view_by_target rtable target r (<[i := b ++ [k]]> view)
  end.

Definition randomPeersClosestTo (fuel : nat) rtable (target : Key)
    (count maxPerBucket maxBuckets : Z) (exclude : list Key) : rand_m (list Key) :=
  if count <=? 0 then mret []
  else
    view ← lift (view_by_target rtable target (not_excluded exclude (allKeys rtable))
      (replicate (Z.to_nat (bucketCount maxBuckets)) []));
    pickClosestFirst fuel view count maxPerBucket.

(** [nows i] is the moment sampled for the [i]-th peer. *)
Fixpoint bucket_isStale_loop registry (staleTime : Duration) (nows : nat -> Moment) (i : nat)
    (b : Bucket) : bool :=
  match b with
  | [] => false
  | k :: r =>
      match Registry.get registry k with
      | None => true
      | Some record =>
          if staleTime <? moment_sub (nows i) (Registry.lastSeen record) then true
          else bucket_isStale_loop registry staleTime nows (S i) r
      end
  end.

Definition bucket_isStale registry (staleTime : Duration) (nows : nat -> Moment) (b : Bucket) :
    bool :=
  if (length b =? 0)%nat then true else bucket_isStale_loop registry staleTime nows 0 b.

Definition isStale rtable registry (nows : nat -> Moment) (bucketIndex : Z) : bool :=
  match bucket_at rtable bucketIndex with
  | None => true
  | Some b => bucket_isStale registry (bucketStaleTime (config rtable)) nows b
  end.

(** [for _ in 0 ..< maxAttempts]. *)
Fixpoint randomKey_loop rtable (selfHash : Key) (lz : Z) (attempts : nat) : rand_m (option Key) :=
  match attempts with
  | O => mret None
  | S attempts =>
      key ← generate IdLength;
      i ← lift (bucketIndexFor rtable selfHash key);
      if i =? lz then mret (Some key) else randomKey_loop rtable selfHash lz attempts
  end.

Definition randomKeyInBucket rtable (bucketIndex : Z) : rand_m (option Key) :=
  let lz := clamp bucketIndex 0 (bucketCount (maxBuckets (config rtable)) - 1) in
  if MaxRefreshLeadingZeros <? lz then mret None
  else randomKey_loop rtable (selfHash rtable) lz (Z.to_nat (Z.shiftl 32 lz)).

Definition randomKey (fuel : nat) (b : Bucket) : rand_m (option Key) := pickOne fuel b.

(** [for key in candidates.toOpenArray(1, candidates.high)]. *)
Fixpoint nearest_loop rtable (selfHash : Key) (keys : list Key) (nearest : Key)
    (nearestDist : XorDistance) : option Key :=
  match keys with
  | [] => Some nearest
  | k :: r =>
      d ← xorDistance selfHash (hashFor k (hasher (config rtable)));
      if dist_lt d nearestDist then nearest_loop rtable selfHash r k d
      else nearest_loop rtable selfHash r nearest nearestDist
  end.

Definition nearestToCenter rtable (candidates : list Key) : option (option Key) :=
  match candidates with
  | [] => Some None
  | k :: r =>
      let selfHash := selfHash rtable in
      d ← xorDistance selfHash (hashFor k (hasher (config rtable)));
      n ← nearest_loop rtable selfHash r k d;
      Some (Some n)
  end.

Definition refreshSelfTarget rtable : option (option Key) :=
  if negb (selfIdPreHashed (config rtable)) then Some (Some (selfId rtable))
  else nearestToCenter rtable (allKeys rtable).

Definition refreshTarget (fuel : nat) rtable (bucketIndex : Z) : rand_m (option Key) :=
  random ← randomKeyInBucket rtable bucketIndex;
  match random with
  | Some k => mret (Some k)
  | None =>
      match bucket_at rtable bucketIndex with
      | None => mret None
      | Some b => randomKey fuel b
      end
  end.

End Operations.

(** ** The closest keys *)

Section Sorting.
Context {A : Type} (cmp : A -> A -> option Z) (val : A -> Z).
Hypothesis cmp_val : forall x y, cmp x y = Some (Z.sgn (val x - val y)).

Lemma insert_m_spec x l : Sorted (fun a b => val a <= val b) l ->
  exists l', insert_m cmp x l = Some l' /\ l' ≡ₚ x :: l /\
    Sorted (fun a b => val a <= val b) l' /\
    (forall y, HdRel (fun a b => val a <= val b) y l -> val y <= val x ->
      HdRel (fun a b => val a <= val b) y l').
Proof using cmp_val.
  induction l as [|y l IH]; intros Hs; cbn [insert_m].
  { exists [x]. split_and!; [done..|by repeat constructor|]. intros; by constructor. }
  rewrite cmp_val. cbn [mbind option_bind].
  destruct (Z.leb_spec (Z.sgn (val x - val y)) 0).
  - exists (x :: y :: l). split_and!; [done..| |].
    + constructor; [done|]. constructor. lia.
    + intros z _ Hz. by constructor.
  - apply Sorted_inv in Hs as [Hs Hhd]. destruct (IH Hs) as (l' & -> & Hp & Hs' & Hhd').
    cbn. exists (y :: l'). split_and!; [done|..].
    + rewrite Hp. apply Permutation_swap.
    + constructor; [done|]. apply Hhd'; [done|]. lia.
    + intros z Hz _. apply HdRel_inv in Hz. by constructor.
Qed.

Lemma sort_m_spec l : exists l', sort_m cmp l = Some l' /\ l' ≡ₚ l /\
  Sorted (fun a b => val a <= val b) l'.
Proof using cmp_val.
  induction l as [|x l (l1 & E1 & Hp1 & Hs1)]; cbn [sort_m]; [by exists []|].
  rewrite E1. cbn. destruct (insert_m_spec x l1 Hs1) as (l2 & -> & Hp2 & Hs2 & _).
  exists l2. split_and!; [done| |done]. by rewrite Hp2, Hp1.
Qed.

End Sorting.

Section Lookup.
Context `{Sha256} `{Chronos} `{L : DrbgLaws}.
Implicit Types (t : RoutingTable).

(** The distance of two keys as the integer the theorems order by. *)
Definition key_distance t (a b : Key) : Z :=
  Z.lxor (be_value (hashFor a (hasher (config t)))) (be_value (hashFor b (hasher (config t)))).

Lemma findClosest_spec t target count : table_wf t -> 0 <= count ->
  exists closest farther, findClosest t target count = Some closest /\
    closest ++ farther ≡ₚ allKeys t /\
    Sorted (fun a b => key_distance t a target <= key_distance t b target) (closest ++ farther) /\
    Z.of_nat (length closest) = Z.min count (Z.of_nat (length (allKeys t))).
Proof.
  intros [Hh _] Hc. unfold findClosest. set (h := hasher (config t)) in *.
  destruct (sort_m_spec (fun a b =>
      da ← xorDistance (hashFor a h) (hashFor target h);
      db ← xorDistance (hashFor b h) (hashFor target h); Some (cmp da db))
    (fun a => key_distance t a target)) with (l := allKeys t) as (l & E & Hp & Hs).
  { intros x y.
    destruct (xorDistance_spec (hashFor x h) (hashFor target h)) as (dx & -> & [Hx Hlx] & Ex); [done..|].
    destruct (xorDistance_spec (hashFor y h) (hashFor target h)) as (dy & -> & [Hy Hly] & Ey); [done..|].
    cbn. rewrite cmp_value by (done || congruence). unfold key_distance. fold h. by rewrite Ex, Ey. }
  rewrite E. cbn [mbind option_bind]. pose proof (Permutation_length Hp) as Hl.
  destruct (Z.ltb_spec (Z.min count (Z.of_nat (length l))) 0); [lia|].
  exists (take (Z.to_nat (Z.min count (Z.of_nat (length l)))) l),
    (drop (Z.to_nat (Z.min count (Z.of_nat (length l)))) l).
  rewrite take_drop. split_and!; [done..|]. rewrite length_take, <- Hl. lia.
Qed.

(** How many peers each bucket gives, from the last one. *)
Fixpoint shares (bs : list Bucket) (remaining maxPerBucket : Z) : list Z :=
  match bs with
  | [] => []
  | b :: bs =>
      let n := Z.max 0 (Z.min remaining (Z.min maxPerBucket (Z.of_nat (length b)))) in
      n :: shares bs (remaining - n) maxPerBucket
  end.

(** [outs] takes from each bucket the share it gives. *)
Definition taken (bs : list Bucket) (ns : list Z) (outs : list (list Key)) : Prop :=
  Forall2 (fun b out => out ⊆+ b) bs outs /\ Forall2 (fun n out => Z.of_nat (length out) = n) ns outs.

Lemma taken_nil bs remaining m : remaining <= 0 ->
  taken bs (shares bs remaining m) ((fun _ => []) <$> bs).
Proof.
  revert remaining. induction bs as [|b bs IH]; intros remaining Hr; cbn [shares].
  { split; constructor. }
  replace (Z.max 0 _) with 0 by lia. rewrite Z.sub_0_r. destruct (IH remaining Hr) as [H1 H2].
  split; cbn; constructor; try done. apply submseteq_nil_l.
Qed.

Lemma concat_nils {A B} (l : list A) : concat ((fun _ => @nil B) <$> l) = [].
Proof. by induction l. Qed.

Lemma pick_loop_buckets_ok fuel bs remaining m sel s : live fuel -> 0 <= m ->
  Forall (fun b : Bucket => Z.of_nat (length b) < 2 ^ 32) bs ->
  exists outs s', pick_loop_buckets fuel bs remaining m sel s = Some (sel ++ concat outs, s') /\
    taken bs (shares bs remaining m) outs.
Proof using L.
  intros Hlive Hm Hb. revert remaining sel s.
  induction Hb as [|b bs Hb Hbs IH]; intros remaining sel s; cbn [pick_loop_buckets].
  { exists [], s. rewrite app_nil_r. split; [done|]. split; constructor. }
  destruct (Z.leb_spec remaining 0) as [Hr|Hr].
  { exists ((fun _ => []) <$> b :: bs), s. rewrite concat_nils, app_nil_r. split; [done|].
    by apply taken_nil. }
  set (n := Z.min remaining (Z.min m (Z.of_nat (length b)))).
  assert (Hp : exists p s', pick fuel b n s = Some (p, s') /\ (default [] p ⊆+ b) /\
    Z.of_nat (length (default [] p)) = n).
  { destruct (decide (b = [])) as [->|Hne].
    - exists None, s. unfold pick, assert_m. destruct (Z.leb_spec 0 n); [|subst n; cbn in *; lia].
      split; [done|]. split; [apply submseteq_nil_l|]. subst n. cbn in *. lia.
    - destruct (pick_ok fuel b n s) as (out & s' & E & Hs & Hl); [done|done|subst n; lia|done|].
      exists (Some out), s'. split; [done|]. split; [done|]. cbn. rewrite Hl. subst n. lia. }
  destruct Hp as (p & s' & E & Hsub & Hl). unfold mbind, rand_bind. rewrite E.
  destruct (IH (remaining - Z.of_nat (length (default [] p))) (sel ++ default [] p) s')
    as (outs & s'' & -> & H1 & H2).
  exists (default [] p :: outs), s''. rewrite <- app_assoc. split; [done|].
  cbn [shares]. replace (Z.max 0 _) with n by (subst n; lia). rewrite Hl in H2.
  split; constructor; done.
Qed.

Lemma taken_length bs remaining m outs : 0 <= remaining -> taken bs (shares bs remaining m) outs ->
  Z.of_nat (length (concat outs)) <= remaining.
Proof.
  intros Hr [_ H2]. revert remaining Hr outs H2.
  induction bs as [|b bs IH]; intros remaining Hr outs H2; cbn [shares] in H2.
  { apply Forall2_nil_inv_l in H2 as ->. cbn. lia. }
  apply Forall2_cons_inv_l in H2 as (out & outs' & Ho & H2 & ->).
  set (n := Z.max 0 _) in *. cbn [concat]. rewrite length_app.
  assert (0 <= n <= remaining) by lia. specialize (IH (remaining - n) ltac:(lia) outs' H2). lia.
Qed.

Lemma taken_submseteq bs ns outs : taken bs ns outs -> concat outs ⊆+ concat bs.
Proof.
  intros [H1 _]. induction H1 as [|b out bs outs Hb _ IH]; [done|]. cbn.
  by apply submseteq_app.
Qed.

Lemma concat_rev (bs : list Bucket) : concat (rev bs) ≡ₚ concat bs.
Proof.
  induction bs as [|b bs IH]; [done|]. cbn. rewrite concat_app. cbn.
  rewrite app_nil_r, IH. apply Permutation_app_comm.
Qed.

Lemma concat_not_excluded ex (bs : list Bucket) :
  concat (not_excluded ex <$> bs) = not_excluded ex (concat bs).
Proof.
  unfold not_excluded. induction bs as [|b bs IH]; [done|]. cbn. by rewrite filter_app, IH.
Qed.

(** The bucket of [k] in a view of [n] buckets around [target]. *)
Definition target_index t (target : Key) (n : nat) (k : Key) : option Z :=
  d ← xorDistance target (hashFor k (hasher (config t)));
  Some (Z.min (leadingZeros d) (Z.of_nat n - 1)).

Lemma target_index_total t target n k : table_wf t -> id_ok target -> (0 < n)%nat ->
  exists i, target_index t target n k = Some (Z.of_nat i) /\ (i < n)%nat.
Proof.
  intros [Hh _] Ht Hn. unfold target_index.
  destruct (xorDistance_spec target (hashFor k (hasher (config t)))) as (d & -> & [Hd _] & _); [done..|].
  destruct (leadingZeros_spec d Hd) as [Hz _]. cbn.
  exists (Z.to_nat (Z.min (leadingZeros d) (Z.of_nat n - 1))). split; [f_equal|]; lia.
Qed.

Lemma view_by_target_spec t target keys view : table_wf t -> id_ok target -> (0 < length view)%nat ->
  exists view', view_by_target t target keys view = Some view' /\ length view' = length view /\
    forall i, (i < length view)%nat -> view' !! i =
      (fun b => b ++ filter (fun k => target_index t target (length view) k = Some (Z.of_nat i)) keys)
        <$> view !! i.
Proof.
  intros Hw Ht. revert view. induction keys as [|k keys IH]; intros view Hl; cbn [view_by_target].
  { exists view. split_and!; [done..|]. intros i _. destruct (view !! i); cbn; by rewrite ?app_nil_r. }
  destruct (target_index_total t target (length view) k Hw Ht Hl) as (i & Hi & Hil).
  unfold target_index in Hi. destruct (xorDistance target _) as [d|] eqn:Ed; [|done].
  cbn in Hi |- *. injection Hi as Hi.
  replace (Z.to_nat (Z.min _ _)) with i by lia.
  destruct (lookup_lt_is_Some_2 view i Hil) as [b Hb]. rewrite Hb. cbn.
  destruct (IH (<[i := b ++ [k]]> view)) as (view' & -> & Hl' & Hv); [by rewrite length_insert|].
  rewrite length_insert in *. exists view'. split_and!; [done..|]. intros j Hj.
  rewrite (Hv j Hj).
  assert (Ek : target_index t target (length view) k = Some (Z.of_nat i))
    by (unfold target_index; rewrite Ed; cbn; by rewrite Hi).
  destruct (decide (j = i)) as [->|Hne].
  - rewrite list_lookup_insert_eq, Hb by done. cbn. rewrite decide_True by done.
    by rewrite <- app_assoc.
  - rewrite list_lookup_insert_ne by done. destruct (view !! j); cbn; [|done].
    rewrite decide_False; [done|]. rewrite Ek. intros [=]. lia.
Qed.

(** ** The targets of a refresh *)

Lemma randomKey_loop_ok t h lz n s : table_wf t -> id_ok h ->
  exists res s', randomKey_loop t h lz n s = Some (res, s') /\
    forall k, res = Some k -> id_ok k /\ bucketIndexFor t h k = Some lz.
Proof using L.
  intros Hw Hh. revert s. induction n as [|n IH]; intros s; cbn [randomKey_loop].
  { by exists None, s. }
  unfold mbind, rand_bind, generate.
  pose proof (generate_length IdLength s) as Hl. pose proof (generate_bytes_ok IdLength s) as Hb.
  destruct (hmacDrbgGenerate IdLength s) as [k s1]. cbn [fst] in *.
  destruct (bucketIndexFor_total t h k Hw Hh) as (d & _ & _ & Ei). unfold lift. rewrite Ei.
  cbn [mbind option_bind]. set (i := Z.min _ _) in *. clearbody i.
  destruct (Z.eqb_spec i lz) as [->|]; [|apply IH].
  exists (Some k), s1. split; [done|]. intros k' [= <-]. done.
Qed.

Lemma clamp_range x n : 1 <= n -> 0 <= clamp x 0 (n - 1) < n.
Proof. intros H1. unfold clamp. destruct (Z.ltb_spec x 0); [lia|]. destruct (Z.ltb_spec (n - 1) x); lia. Qed.

Lemma refreshTarget_spec fuel t i s : live fuel -> table_wf t -> table_ok t ->
  Forall (fun b : Bucket => Z.of_nat (length b) < 2 ^ 32) (buckets t) ->
  exists res s', refreshTarget fuel t i s = Some (res, s') /\
    (forall k, res = Some k ->
      bucketIndex t k = Some (clamp i 0 (bucketCount (maxBuckets (config t)) - 1))) /\
    (forall b, bucket_at t i = Some b -> b <> [] -> is_Some res).
Proof using L.
  intros Hlive Hw Ht Hlen. unfold refreshTarget, randomKeyInBucket.
  set (lz := clamp i 0 _). set (h := selfHash t).
  assert (Hrand : exists res s', (if MaxRefreshLeadingZeros <? lz then mret None
      else randomKey_loop t h lz (Z.to_nat (Z.shiftl 32 lz))) s = Some (res, s') /\
    forall k, res = Some k -> bucketIndex t k = Some lz).
  { destruct (MaxRefreshLeadingZeros <? lz); [by exists None, s|].
    destruct (randomKey_loop_ok t h lz (Z.to_nat (Z.shiftl 32 lz)) s Hw) as (res & s' & E & Hk);
      [by apply selfHash_ok|]. exists res, s'. split; [done|]. intros k Ek. by destruct (Hk k Ek). }
  destruct Hrand as (res & s' & E & Hk). unfold mbind, rand_bind. rewrite E.
  destruct res as [k|].
  { exists (Some k), s'. split; [done|]. split; [|eauto]. intros k' [= <-]. by apply Hk. }
  destruct (bucket_at t i) as [b|] eqn:Eb; [|by exists None, s'].
  unfold bucket_at in Eb. destruct (Z.ltb_spec i 0); [done|].
  pose proof (lookup_lt_Some _ _ _ Eb) as Hi. pose proof (table_buckets t Ht) as Hbc.
  assert (Hlz : lz = i).
  { subst lz. unfold clamp. destruct (Z.ltb_spec i 0); [lia|]. destruct (Z.ltb_spec (bucketCount (maxBuckets (config t)) - 1) i); lia. }
  unfold randomKey. destruct (decide (b = [])) as [->|Hne].
  { exists None, s'. split; [done|]. split; [done|]. intros b [= <-] Hb. done. }
  rewrite Forall_lookup in Hlen.
  destruct (pickOne_ok fuel b s' Hlive) as (v & s'' & Ep & Hv); [by eapply Hlen|done|].
  rewrite Ep. exists (Some v), s''. split; [done|]. split; [|eauto]. intros k [= <-].
  destruct (table_bucket t Ht _ b Eb) as (_ & _ & Hin). destruct (Hin v Hv) as [Ev _].
  rewrite Ev, Hlz. f_equal. lia.
Qed.

(** The distance of a key to the center of the table. *)
Definition center_distance t (k : Key) : Z :=
  Z.lxor (be_value (selfHash t)) (be_value (hashFor k (hasher (config t)))).

Lemma nearest_loop_spec t keys nearest d : table_wf t ->
  id_ok d -> be_value d = center_distance t nearest ->
  exists k, nearest_loop t (selfHash t) keys nearest d = Some k /\ k ∈ nearest :: keys /\
    forall k', k' ∈ nearest :: keys -> center_distance t k <= center_distance t k'.
Proof.
  intros Hw. revert nearest d. induction keys as [|k keys IH]; intros nearest d [Hd Hl] Ed;
    cbn [nearest_loop].
  { exists nearest. split_and!; [done|by left|]. intros k' ->%list_elem_of_singleton. lia. }
  destruct (xorDistance_spec (selfHash t) (hashFor k (hasher (config t))))
    as (dk & -> & [Hdk Hlk] & Edk); [by apply selfHash_ok|apply Hw|].
  cbn [mbind option_bind]. unfold dist_lt. rewrite cmp_value by (done || congruence).
  fold (center_distance t k) in Edk. rewrite Ed, Edk.
  destruct (Z.ltb_spec (Z.sgn (center_distance t k - center_distance t nearest)) 0).
  - destruct (IH k dk) as (k1 & -> & Hin & Hmin); [done..|]. exists k1. split; [done|].
    split; [by right|]. intros k' [->|Hk']%elem_of_cons; [|by apply Hmin].
    specialize (Hmin k ltac:(by left)). lia.
  - destruct (IH nearest d) as (k1 & -> & Hin & Hmin); [done..|]. exists k1. split; [done|].
    split; [rewrite !elem_of_cons in *; tauto|].
    intros k' [->|[->|Hk']%elem_of_cons]%elem_of_cons; [by apply Hmin; left| |by apply Hmin; right].
    specialize (Hmin nearest ltac:(by left)). lia.
Qed.

Lemma nearestToCenter_spec t keys : table_wf t ->
  match keys with
  | [] => nearestToCenter t keys = Some None
  | _ => exists k, nearestToCenter t keys = Some (Some k) /\ k ∈ keys /\
      forall k', k' ∈ keys -> center_distance t k <= center_distance t k'
  end.
Proof.
  intros Hw. destruct keys as [|k keys]; [done|]. cbn [nearestToCenter].
  destruct (xorDistance_spec (selfHash t) (hashFor k (hasher (config t))))
    as (dk & -> & Hdk & Edk); [by apply selfHash_ok|apply Hw|]. cbn [mbind option_bind].
  destruct (nearest_loop_spec t keys k dk Hw Hdk Edk) as (k1 & -> & Hin & Hmin).
  cbn. by exists k1.
Qed.

End Lookup.

(** ** Properties *)

(** C34: [findClosest] returns [min(count, peers)] of the table's peers, in the order of their
distance to the target, and every peer it leaves out is at least as far; a negative count
raises. *)
Theorem findClosest_correct `{Sha256} (t : RoutingTable) (target : Key) (count : Z) : table_wf t ->
  (count < 0 -> findClosest t target count = None) /\
  (0 <= count -> exists closest,
    findClosest t target count = Some closest /\ (closest ⊆+ allKeys t) /\
    Z.of_nat (length closest) = Z.min count (Z.of_nat (length (allKeys t))) /\
    StronglySorted (fun a b => key_distance t a target <= key_distance t b target) closest /\
    forall near far, near ∈ closest -> far ∈ allKeys t -> far ∉ closest ->
      key_distance t near target <= key_distance t far target).
Proof.
  intros Hw. split; [|intros Hc].
  - intros Hc. destruct (findClosest_spec t target 0 Hw) as (c & f & E & _); [lia|].
    unfold findClosest in *. destruct (sort_m _ _) as [l|]; [|done]. cbn in *.
    destruct (Z.ltb_spec (Z.min count (Z.of_nat (length l))) 0); [done|lia].
  - destruct (findClosest_spec t target count Hw Hc) as (c & f & E & Hp & Hs & Hl).
    assert (Htr : Relations_1.Transitive
      (fun a b => key_distance t a target <= key_distance t b target)) by (intros x y z; lia).
    apply Sorted_StronglySorted in Hs; [|exact Htr].
    exists c. split; [done|]. split; [rewrite <- Hp; by apply submseteq_inserts_r|].
    split; [done|]. split; [by eapply StronglySorted_app_1_l|].
    intros near far Hn Hf Hnf. rewrite <- Hp, elem_of_app in Hf. destruct Hf as [?|Hf]; [done|].
    by apply (StronglySorted_app_1_elem_of
      (fun a b => key_distance t a target <= key_distance t b target) c f).
Qed.

(** the samples are drawn from the last bucket to the first: each bucket of the view gives
[min(remaining, maxPerBucket, its size)] of its peers, at distinct positions, so that the
result has at most [count] peers, all of the table, none of them excluded and none twice if the
table has no duplicate.  With a target, the view files each peer under the length of the
prefix it shares with the target. *)
Theorem sampling_closest_first `{Sha256} `{L : DrbgLaws} (fuel : nat) (t : RoutingTable)
    (target : Key) (count maxPerBucket maxBuckets : Z) (exclude : list Key) (s : drbg) :
  live fuel -> table_wf t -> id_ok target -> 0 < count -> 0 <= maxPerBucket ->
  Z.of_nat (length (allKeys t)) < 2 ^ 32 ->
  let n := Z.to_nat (bucketCount maxBuckets) in
  let view1 := not_excluded exclude <$> buckets t in
  let view2 := (fun i => filter (fun k => target_index t target n k = Some (Z.of_nat i))
                                (not_excluded exclude (allKeys t))) <$> seq 0 n in
  let sampled (view : list Bucket) (out : list Key) :=
    (exists outs, out = concat outs /\ taken (rev view) (shares (rev view) count maxPerBucket) outs) /\
    Z.of_nat (length out) <= count /\ (out ⊆+ concat view) in
  (exists out s', randomPeersClosestFirst fuel t count maxPerBucket exclude s = Some (out, s') /\
    sampled view1 out /\ (out ⊆+ not_excluded exclude (allKeys t))) /\
  (exists out s', randomPeersClosestTo fuel t target count maxPerBucket maxBuckets exclude s =
      Some (out, s') /\ sampled view2 out).
Proof.
  intros Hlive Hw Hid Hc Hm Hsz. cbv zeta. set (n := Z.to_nat _).
  assert (Hpick : forall view : list Bucket,
    Forall (fun b : Bucket => Z.of_nat (length b) < 2 ^ 32) view ->
    exists out s', pickClosestFirst fuel view count maxPerBucket s = Some (out, s') /\
      (exists outs, out = concat outs /\
        taken (rev view) (shares (rev view) count maxPerBucket) outs) /\
      Z.of_nat (length out) <= count /\ (out ⊆+ concat view)).
  { intros view Hb. unfold pickClosestFirst.
    destruct (pick_loop_buckets_ok fuel (rev view) count maxPerBucket [] s)
      as (outs & s' & E & Ht); [done..|by apply Forall_rev|].
    exists (concat outs), s'. split; [done|]. split; [eauto|]. split.
    - eapply taken_length; [lia|done].
    - etrans; [by eapply taken_submseteq|]. apply Permutation_submseteq, concat_rev. }
  unfold randomPeersClosestFirst, randomPeersClosestTo. destruct (Z.leb_spec count 0); [lia|].
  assert (Hsub : (length (not_excluded exclude (allKeys t)) <= length (allKeys t))%nat)
    by apply length_filter.
  split.
  - destruct (Hpick (not_excluded exclude <$> buckets t)) as (out & s' & E & Ho).
    + apply Forall_fmap, Forall_forall. intros b Hb. cbn.
      assert ((length b <= length (allKeys t))%nat).
      { unfold allKeys. apply list_elem_of_split in Hb as (l1 & l2 & ->).
        rewrite concat_app, length_app. cbn. rewrite length_app. lia. }
      pose proof (length_filter (fun k => k ∉ exclude) b). unfold not_excluded. lia.
    + exists out, s'. split; [done|]. split; [done|]. unfold allKeys.
      rewrite <- concat_not_excluded. apply Ho.
  - set (keys := not_excluded exclude (allKeys t)) in *.
    destruct (view_by_target_spec t target keys (replicate n [])) as (view & E & Hl & Hv);
      [done..|rewrite length_replicate; subst n; pose proof (bucketCount_range maxBuckets); lia|].
    rewrite length_replicate in Hl, Hv.
    set (view2 := _ <$> seq 0 n).
    assert (view = view2) as ->.
    { subst view2. apply list_eq_same_length with (n := n); [by rewrite length_fmap, length_seq|done|].
      intros i x y Hi Hx Hy. rewrite (Hv i Hi), lookup_replicate_2 in Hx by done.
      rewrite list_lookup_fmap, lookup_seq_lt in Hy by done. cbn in *. congruence. }
    unfold mbind, rand_bind, lift. fold n. fold keys. rewrite E. cbn [mbind option_bind].
    apply (Hpick view2). subst view2. apply Forall_fmap, Forall_forall. intros i _. cbn.
    pose proof (length_filter (fun k => target_index t target n k = Some (Z.of_nat i)) keys). lia.
Qed.

(** a key returned to refresh a bucket falls in that bucket (in the last one for an index
past the table's buckets) and there is one whenever the bucket has a peer; the key to refresh
the table's own center is its identity, or, when that is already a hash, the peer of the table
closest to it, if any. *)
Theorem refresh_targets `{Sha256} `{L : DrbgLaws} (fuel : nat) (t : RoutingTable) (i : Z)
    (s : drbg) : live fuel -> table_wf t -> table_ok t ->
  Forall (fun b : Bucket => Z.of_nat (length b) < 2 ^ 32) (buckets t) ->
  (exists res s', refreshTarget fuel t i s = Some (res, s') /\
    (forall k, res = Some k ->
      bucketIndex t k = Some (clamp i 0 (bucketCount (maxBuckets (config t)) - 1))) /\
    (forall b, bucket_at t i = Some b -> b <> [] -> is_Some res)) /\
  (selfIdPreHashed (config t) = false -> refreshSelfTarget t = Some (Some (selfId t))) /\
  (selfIdPreHashed (config t) = true ->
    (allKeys t = [] /\ refreshSelfTarget t = Some None) \/
    exists k, refreshSelfTarget t = Some (Some k) /\ k ∈ allKeys t /\
      forall k', k' ∈ allKeys t -> center_distance t k <= center_distance t k').
Proof.
  intros Hlive Hw Ht Hlen. split; [by apply refreshTarget_spec|]. unfold refreshSelfTarget.
  split; intros ->; [done|]. cbn [negb].
  pose proof (nearestToCenter_spec t (allKeys t) Hw) as Hn. destruct (allKeys t); [by left|by right].
Qed.

Definition demo_table : RoutingTable :=
  mkTable [0] [0] [[[128]]; [[65]; [66]]] (mkConfig 2 None 256 false 10 100) false.

Lemma demo_table_lookup_wf : @table_wf demo_sha demo_table.
Proof. split; cbn; [apply pad_hasher_ok|done]. Qed.

Lemma demo_table_ok : @table_ok demo_sha demo_table.
Proof.
  split; [vm_compute; congruence| |done].
  intros i b Hb. destruct i as [|[|i]]; [| |by destruct i]; injection Hb as <-.
  - split; [vm_compute; congruence|]. split; [repeat constructor; by apply not_elem_of_nil|].
    intros k ->%list_elem_of_singleton. by vm_compute.
  - split; [vm_compute; congruence|]. split.
    { constructor; [rewrite list_elem_of_singleton; done|]. constructor; [apply not_elem_of_nil|].
      constructor. }
    intros k [->| ->%list_elem_of_singleton]%elem_of_cons; by vm_compute.
Qed.

Lemma findClosest_correct_witness :
  exists closest, @findClosest demo_sha demo_table [64] 2 = Some closest /\
    Z.of_nat (length closest) = 2.
Proof.
  destruct (@findClosest_correct demo_sha demo_table [64] 2 demo_table_lookup_wf) as [_ H].
  destruct H as (c & E & _ & Hl & _); [lia|]. exists c. split; [exact E|]. rewrite Hl. reflexivity.
Defined.

Lemma sampling_closest_first_witness :
  exists out s', @randomPeersClosestFirst counter_drbg 1 demo_table 2 1 [[66]] 5 =
    Some (out, s') /\ (out ⊆+ not_excluded [[66]] (allKeys demo_table)).
Proof.
  destruct (@sampling_closest_first demo_sha counter_drbg counter_laws 1 demo_table (demo_id 3)
    2 1 256 [[66]] 5 counter_live demo_table_lookup_wf) as [(out & s' & E & _ & H) _].
  - split; [|reflexivity]. vm_compute. repeat constructor; vm_compute; congruence.
  - lia.
  - lia.
  - vm_compute. reflexivity.
  - exists out, s'. split; [exact E|exact H].
Defined.

Lemma refresh_targets_witness :
  exists res s', @refreshTarget demo_sha counter_drbg 1 demo_table 1 5 = Some (res, s') /\
    forall b, bucket_at demo_table 1 = Some b -> b <> [] -> is_Some res.
Proof.
  destruct (@refresh_targets demo_sha counter_drbg counter_laws 1 demo_table 1 5 counter_live
    demo_table_lookup_wf demo_table_ok) as [(res & s' & E & _ & H) _].
  - repeat constructor; vm_compute; reflexivity.
  - exists res, s'. split; [exact E|exact H].
Defined.
