(* ===== verification/IpTree.v ===== *)
(** * IpTree: libp2p/utils/iptree.nim

A multiset of IP addresses as two binary trees with a counter at each node, one for each family,
and the score that says how much an address is alike those of the tree.  Nodes are references but
each has one parent, so they are values here, [Nil] being [nil].  The scores are fractions: below
2^53 addresses every number the code computes (a counter, a counter by a power of two, a score out
of 32 or 128) is one that [float64] has. *)
From S2P Require Import Prelude.
From Stdlib Require Import QArith.

#[local] Open Scope Z_scope.

Inductive IpTreeNode := Nil | Node (counter : Z) (left right : IpTreeNode).

Record IpTree := mkIpTree { root : IpTreeNode; root6 : IpTreeNode }.

(** [IpAddress] of std/net. *)
Inductive IpAddress := IPv4 (address_v4 : bytes) | IPv6 (address_v6 : bytes).

#[export] Instance IpAddress_eq_dec : EqDecision IpAddress.
Proof. solve_decision. Defined.

Definition new : IpTree := mkIpTree (Node 0 Nil Nil) (Node 0 Nil Nil).

Definition ipBytes (ip : IpAddress) : bytes :=
  match ip with IPv4 address_v4 => address_v4 | IPv6 address_v6 => address_v6 end.

(** The bits in the order of the two loops [for b in bytes], [for bit in countdown(7, 0)]. *)
Definition byte_bits (b : Z) : list bool :=
  (fun bit => negb (Z.land b (Z.shiftl 1 bit) =? 0)) <$> [7; 6; 5; 4; 3; 2; 1; 0].

Definition ipBits (ip : IpAddress) : list bool := b ← ipBytes ip; byte_bits b.

Definition treeRoot (t : IpTree) (ip : IpAddress) : IpTreeNode :=
  match ip with IPv4 _ => root t | IPv6 _ => root6 t end.

Definition set_treeRoot (t : IpTree) (ip : IpAddress) (v : IpTreeNode) : IpTree :=
  match ip with IPv4 _ => mkIpTree v (root6 t) | IPv6 _ => mkIpTree (root t) v end.

Definition counter (v : IpTreeNode) : Z := match v with Nil => 0 | Node c _ _ => c end.

Definition child (v : IpTreeNode) (goRight : bool) : IpTreeNode :=
  match v with Nil => Nil | Node _ l r => if goRight then r else l end.

Definition set_child (v : IpTreeNode) (goRight : bool) (n : IpTreeNode) : IpTreeNode :=
  match v with
  | Nil => Nil
  | Node c l r => if goRight then Node c l n else Node c n r
  end.

Definition add_counter (d : Z) (v : IpTreeNode) : IpTreeNode :=
  match v with Nil => Nil | Node c l r => Node (c + d) l r end.

Definition isNil (v : IpTreeNode) : bool := match v with Nil => true | _ => false end.

(** The child, and [v] with the child that is created. *)
Definition step (v : IpTreeNode) (goRight create : bool) : IpTreeNode * IpTreeNode :=
  let nxt := child v goRight in
  if isNil nxt && create then (Node 0 Nil Nil, set_child v goRight (Node 0 Nil Nil)) else (nxt, v).

(** The loop of [insertIp], below a node whose counter is incremented. *)
Fixpoint insert_loop (bits : list bool) (v : IpTreeNode) : IpTreeNode :=
  match bits with
  | [] => v
  | goRight :: bits =>
      let '(nxt, v) := step v goRight true in
      set_child v goRight (insert_loop bits (add_counter 1 nxt))
  end.

Definition insertIp (t : IpTree) (ip : IpAddress) : IpTree :=
  set_treeRoot t ip (insert_loop (ipBits ip) (add_counter 1 (treeRoot t ip))).

Definition insertIps (t : IpTree) (ips : list IpAddress) : IpTree := foldl insertIp t ips.

(** The first loop of [removeIp]: whether [path] is filled without a return. *)
Fixpoint find_path (bits : list bool) (v : IpTreeNode) : bool :=
  match bits with
  | [] => true
  | goRight :: bits =>
      let '(v, _) := step v goRight false in
      if isNil v || (counter v =? 0) then false else find_path bits v
  end.

(** [dec path[j].counter] along the path. *)
Fixpoint dec_path (bits : list bool) (v : IpTreeNode) : IpTreeNode :=
  match bits with
  | [] => add_counter (-1) v
  | goRight :: bits => set_child (add_counter (-1) v) goRight (dec_path bits (child v goRight))
  end.

(** The last loop, from the leaf up: the node, and whether the loop has not met its [break]. *)
Fixpoint prune_path (bits : list bool) (v : IpTreeNode) : IpTreeNode * bool :=
  match bits with
  | [] => (v, true)
  | goRight :: bits =>
      let '(n, running) := prune_path bits (child v goRight) in
      if running then
        if (0 <? counter n) || negb (isNil (child n false)) || negb (isNil (child n true))
        then (set_child v goRight n, false)
        else (set_child v goRight Nil, true)
      else (set_child v goRight n, false)
  end.

Definition removeIp (t : IpTree) (ip : IpAddress) : IpTree :=
  let root := treeRoot t ip in
  if counter root =? 0 then t
  else if find_path (ipBits ip) root
  then set_treeRoot t ip (prune_path (ipBits ip) (dec_path (ipBits ip) root)).1
  else t.

Definition removeIps (t : IpTree) (ips : list IpAddress) : IpTree := foldl removeIp t ips.

Definition ipsLen (t : IpTree) : Z := counter (root t) + counter (root6 t).

Fixpoint score_loop (bits : list bool) (v : IpTreeNode) (threshold : Q) (score : Z) : Z :=
  match bits with
  | [] => score
  | goRight :: bits =>
      let '(v, _) := step v goRight false in
      if isNil v then score
      else
        let score := if Qle_bool (inject_Z (counter v)) threshold then score else score + 1 in
        score_loop bits v (threshold * (1 # 2))%Q score
  end.

Definition ipScore (t : IpTree) (ip : IpAddress) : Q :=
  let root := treeRoot t ip in
  if counter root =? 0 then 0%Q
  else
    let nBits := Z.of_nat (length (ipBytes ip)) * 8 in
    (inject_Z (score_loop (ipBits ip) root (inject_Z (counter root) * (1 # 2))%Q 0) / inject_Z nBits)%Q.

Definition ipsMaxScore (t : IpTree) (ips : list IpAddress) : Q :=
  if (length ips <? 1)%nat then 1%Q
  else foldl (fun maxScore ip =>
    let score := ipScore t ip in if Qle_bool score maxScore then maxScore else score) 0%Q ips.

(** ** The tree of a multiset

[trie n l] is the tree of the words [l] of [n] bits: a node counts the words that go through it
and there is no node without a word, the root excepted. *)

Definition below (b : bool) (l : list (list bool)) : list (list bool) :=
  omap (fun x => match x with c :: r => if eqb c b then Some r else None | [] => None end) l.

Fixpoint trie (n : nat) (l : list (list bool)) : IpTreeNode :=
  match n with
  | O => Node (Z.of_nat (length l)) Nil Nil
  | S n =>
      let kid b := match below b l with [] => Nil | _ => trie n (below b l) end in
      Node (Z.of_nat (length l)) (kid false) (kid true)
  end.

Definition kid (n : nat) (l : list (list bool)) : IpTreeNode :=
  match l with [] => Nil | _ => trie n l end.

Definition words (n : nat) (l : list (list bool)) : Prop := Forall (fun x => length x = n) l.

(** How many words start with [p]. *)
Definition shared (p : list bool) (l : list (list bool)) : nat :=
  length (filter (fun x => take (length p) x = p) l).

(** The lengths in [1..n] of the prefixes of [x] that more than their share of [l] has, where the
share of a prefix of [k] bits is [total / 2^(d + k)]. *)
Definition crowded (d : nat) (total : Z) (n : nat) (x : list bool) (l : list (list bool)) : nat :=
  length (filter (fun k => total < 2 ^ (Z.of_nat d + Z.of_nat k) * Z.of_nat (shared (take k x) l)) (seq 1 n)).

Fixpoint remove_one {A} `{EqDecision A} (x : A) (m : list A) : list A :=
  match m with [] => [] | y :: m => if decide (x = y) then m else y :: remove_one x m end.

Lemma remove_one_perm {A} `{EqDecision A} (x : A) m : x ∈ m -> m ≡ₚ x :: remove_one x m.
Proof.
  induction m as [|y m IH]; [by intros ?%elem_of_nil|]. cbn. case_decide as E; [by subst|].
  intros [->|H]%elem_of_cons; [done|]. rewrite Permutation_swap. by constructor; apply IH.
Qed.

Lemma remove_one_absent {A} `{EqDecision A} (x : A) m : x ∉ m -> remove_one x m = m.
Proof.
  induction m as [|y m IH]; [done|]. rewrite not_elem_of_cons. intros [H ?]. cbn.
  rewrite decide_False by done. f_equal. by apply IH.
Qed.

Lemma remove_one_subset {A} `{EqDecision A} (x : A) m y : y ∈ remove_one x m -> y ∈ m.
Proof.
  induction m as [|z m IH]; [done|]. cbn. case_decide; rewrite !elem_of_cons; tauto.
Qed.

#[export] Instance below_perm b : Proper ((≡ₚ) ==> (≡ₚ)) (below b).
Proof. unfold below. by intros ?? E; rewrite E. Qed.

Lemma below_cons b c x l : below b ((c :: x) :: l) = if eqb c b then x :: below b l else below b l.
Proof. cbn. by destruct (eqb c b). Qed.

Lemma below_words n b l : words (S n) l -> words n (below b l).
Proof.
  induction 1 as [|[|c x] l H Hl IH]; [constructor|done|]. rewrite below_cons.
  destruct (eqb c b); [constructor; [by simplify_eq/=|]|]; done.
Qed.

Lemma elem_of_below b x l : x ∈ below b l <-> b :: x ∈ l.
Proof.
  unfold below. rewrite list_elem_of_omap. split.
  - intros [[|c r] [H E]]; [done|]. destruct (eqb c b) eqn:Ec; [|done]. apply eqb_prop in Ec. by simplify_eq.
  - intros H. exists (b :: x). by rewrite eqb_reflx.
Qed.

Lemma below_nil_elem b x l : below b l = [] -> b :: x ∉ l.
Proof. intros E H%elem_of_below. rewrite E in H. by apply elem_of_nil in H. Qed.

Lemma trie_S n l :
  trie (S n) l = Node (Z.of_nat (length l)) (kid n (below false l)) (kid n (below true l)).
Proof. unfold kid. cbn [trie]. f_equal; by destruct (below _ l). Qed.

Lemma trie_node n l : exists a b, trie n l = Node (Z.of_nat (length l)) a b.
Proof. destruct n; [by eexists _, _|]. rewrite trie_S. by eexists _, _. Qed.

Lemma trie_counter n l : counter (trie n l) = Z.of_nat (length l).
Proof. by destruct (trie_node n l) as (? & ? & ->). Qed.

Lemma trie_nil n : trie n [] = Node 0 Nil Nil.
Proof. by destruct n. Qed.

Lemma kid_nil n l : l <> [] -> kid n l = trie n l.
Proof. by destruct l. Qed.

Lemma trie_perm n l l' : l ≡ₚ l' -> trie n l = trie n l'.
Proof.
  revert l l'. induction n as [|n IH]; intros l l' E; [by cbn; rewrite (Permutation_length E)|].
  rewrite !trie_S, (Permutation_length E).
  assert (K : forall b, kid n (below b l) = kid n (below b l')); [|by rewrite !K].
  intros b. pose proof (below_perm b l l' E) as Eb. destruct (below b l) as [|x r].
  - apply Permutation_nil in Eb. by rewrite Eb.
  - assert (N : below b l' <> []) by (intros N; rewrite N in Eb; symmetry in Eb; by apply Permutation_nil in Eb).
    rewrite !kid_nil by done. by apply IH.
Qed.

Lemma step_kid c n l0 l1 b : let v := Node c (kid n l0) (kid n l1) in let l := (if b : bool then l1 else l0) in
  step v b true = (trie n l, set_child v b (trie n l)).
Proof.
  intros v l. subst v l. unfold step.
  destruct b; cbn [child]; [destruct l1 as [|y r]|destruct l0 as [|y r]]; cbn [kid]; rewrite ?trie_nil; try done;
    by destruct (trie_node n (y :: r)) as (? & ? & ->).
Qed.

(** Incrementing the counters along [x]. *)
Lemma insert_trie n l x : length x = n ->
  insert_loop x (add_counter 1 (trie n l)) = trie n (x :: l).
Proof.
  revert l x. induction n as [|n IH]; intros l [|b x] H; try done; [cbn; f_equal; lia|]. injection H as H.
  rewrite !trie_S, !below_cons. cbn [insert_loop add_counter]. rewrite step_kid. cbn [set_child].
  destruct b; cbn [set_child eqb length]; rewrite IH by done; f_equal; lia.
Qed.

Lemma find_path_trie n l x : length x = n -> words n l -> l <> [] ->
  find_path x (trie n l) = bool_decide (x ∈ l).
Proof.
  revert l x. induction n as [|n IH]; intros l [|b x] H Hw Hn; try done.
  - cbn. symmetry. apply bool_decide_eq_true. destruct l as [|y l]; [done|].
    apply Forall_cons_1 in Hw as [Hy _]. destruct y; [constructor|done].
  - rewrite trie_S. cbn [find_path]. unfold step. cbn [child]. rewrite andb_false_r.
    replace (if b then kid n (below true l) else kid n (below false l)) with (kid n (below b l)) by by destruct b.
    rewrite (bool_decide_ext (b :: x ∈ l) (x ∈ below b l)) by (symmetry; apply elem_of_below).
    destruct (below b l) as [|y r] eqn:E; [by cbn|]. rewrite <- E, kid_nil by (by rewrite E).
    destruct (trie_node n (below b l)) as (? & ? & Et). rewrite <- IH; [|by simplify_eq/=|by apply below_words|by rewrite E].
    rewrite Et. cbn [isNil counter orb]. rewrite (proj2 (Z.eqb_neq _ _)); [done|]. rewrite E. cbn. lia.
Qed.

Definition occupied (n : nat) (l : list (list bool)) : bool :=
  (0 <? counter (trie n l)) || negb (isNil (child (trie n l) false)) || negb (isNil (child (trie n l) true)).

Lemma occupied_spec n l : words n l -> occupied n l = negb (bool_decide (l = [])).
Proof.
  intros Hw. unfold occupied. rewrite trie_counter. destruct l; [by rewrite trie_nil|].
  rewrite (proj2 (Z.ltb_lt _ _)) by (cbn; lia). done.
Qed.

(** What is left of the tree of [x :: l] once [x] is taken out. *)
Lemma prune_trie n l x : length x = n -> words n l ->
  (prune_path x (dec_path x (trie n (x :: l)))).1 = trie n l /\
  (l = [] -> (prune_path x (dec_path x (trie n (x :: l)))).2 = true).
Proof.
  revert l x. induction n as [|n IH]; intros l [|b x] H Hw; try done.
  - split; [|done]. cbn. f_equal. lia.
  - injection H as H. pose proof (below_words n b l Hw) as Hb.
    cbn [dec_path prune_path].
    set (d := dec_path x _). assert (Ed : d = dec_path x (trie n (x :: below b l))).
    { subst d. rewrite trie_S, !below_cons. by destruct b. }
    rewrite Ed. clear d Ed.
    replace (child (set_child (add_counter (-1) (trie (S n) ((b :: x) :: l))) b
      (dec_path x (trie n (x :: below b l)))) b) with (dec_path x (trie n (x :: below b l)))
      by (rewrite trie_S; by destruct b).
    destruct (IH (below b l) x H Hb) as [E1 E2]. destruct (prune_path _ _) as [k running]. cbn [fst snd] in *. subst k.
    assert (Es : forall k, k = kid n (below b l) -> set_child (set_child (add_counter (-1) (trie (S n) ((b :: x) :: l))) b
      (dec_path x (trie n (x :: below b l)))) b k = trie (S n) l).
    { intros k ->. rewrite !trie_S, !below_cons. destruct b; cbn; f_equal; lia. }
    change (_ || _) with (occupied n (below b l)). rewrite occupied_spec by done.
    case_bool_decide as En; [rewrite E2 by done|]; cbn [negb]; [split; [|done]; apply Es; by rewrite En|].
    assert (Hl : l <> []) by (by intros ->). destruct running; (split; [|done]); apply Es; by rewrite kid_nil.
Qed.

(** ** The score of a word *)

Lemma shared_cons b p l : shared (b :: p) l = shared p (below b l).
Proof.
  unfold shared. induction l as [|[|c x] l IH]; [done|by rewrite filter_cons_False by done|].
  rewrite below_cons, filter_cons. cbn [length take].
  destruct (eqb c b) eqn:E; [apply eqb_prop in E as ->|apply eqb_false_iff in E].
  - rewrite filter_cons. repeat case_decide; simplify_eq/=; congruence.
  - rewrite decide_False by congruence. done.
Qed.

Lemma shared_nil l : shared [] l = length l.
Proof. unfold shared. rewrite filter_id; [done|]. apply Forall_forall. by intros []. Qed.

Lemma length_filter_fmap {A B} (f : A -> B) (P : B -> Prop) `{forall x, Decision (P x)} (l : list A) :
  length (filter P (f <$> l)) = length (filter (fun x => P (f x)) l).
Proof.
  induction l as [|x l IH]; [done|]. rewrite fmap_cons, !filter_cons. case_decide; cbn [length]; by rewrite IH.
Qed.

Lemma crowded_none d T n x : 0 <= T -> crowded d T n x [] = 0%nat.
Proof.
  intros H. unfold crowded.
  induction (seq 1 n) as [|k ks IH]; [done|]. rewrite filter_cons_False; [done|]. cbn. lia.
Qed.

Lemma crowded_S d T n b x l : crowded d T (S n) (b :: x) l =
  ((if (T <? 2 ^ (Z.of_nat d + 1) * Z.of_nat (length (below b l)))%Z then 1 else 0) +
   crowded (S d) T n x (below b l))%nat.
Proof.
  unfold crowded. cbn [seq]. rewrite <- (fmap_S_seq 1 n), filter_cons.
  cbn [take]. rewrite shared_cons, shared_nil.
  assert (E : length (filter (fun k => T < 2 ^ (Z.of_nat d + Z.of_nat k) * Z.of_nat (shared (take k (b :: x)) l))
      (S <$> seq 1 n)) =
    length (filter (fun k => T < 2 ^ (Z.of_nat (S d) + Z.of_nat k) * Z.of_nat (shared (take k x) (below b l))) (seq 1 n))).
  { rewrite length_filter_fmap. f_equal. apply list_filter_iff. intros k. cbn [take]. rewrite shared_cons.
    by replace (Z.of_nat (S d) + Z.of_nat k) with (Z.of_nat d + Z.of_nat (S k)) by lia. }
  cbn [length] in *. case_decide; zbool; cbn [length]; lia.
Qed.

Lemma Qle_bool_scaled c t s T : 0 < s -> (t * inject_Z s == inject_Z T)%Q ->
  Qle_bool (inject_Z c) t = negb (T <? s * c).
Proof.
  intros Hs Ht. apply eq_true_iff_eq. rewrite Qle_bool_iff, negb_true_iff, Z.ltb_ge.
  rewrite <- (Qmult_le_r _ _ (inject_Z s)) by (change 0%Q with (inject_Z 0); by rewrite <- Zlt_Qlt).
  rewrite Ht, <- inject_Z_mult, <- Zle_Qle. lia.
Qed.

(** The loop of [ipScore] counts the prefixes that are crowded. *)
Lemma score_trie n l x d T t s : length x = n -> words n l -> 0 <= T ->
  (t * inject_Z (2 ^ (Z.of_nat d + 1)) == inject_Z T)%Q ->
  score_loop x (trie n l) t s = s + Z.of_nat (crowded d T n x l).
Proof.
  revert l x d t s. induction n as [|n IH]; intros l [|b x] d t s H Hw HT Ht; try done; [cbn; lia|].
  injection H as H. rewrite crowded_S, trie_S. cbn [score_loop]. unfold step. cbn [child]. rewrite andb_false_r.
  replace (if b then kid n (below true l) else kid n (below false l)) with (kid n (below b l)) by by destruct b.
  pose proof (below_words n b l Hw) as Hb. destruct (below b l) as [|y r] eqn:E.
  - cbn [kid isNil length]. rewrite crowded_none by done. rewrite (proj2 (Z.ltb_ge _ _)); lia.
  - rewrite kid_nil, <- E by done. destruct (trie_node n (below b l)) as (? & ? & Et).
    rewrite Et at 1. cbn [isNil]. rewrite trie_counter.
    rewrite (Qle_bool_scaled _ t (2 ^ (Z.of_nat d + 1)) T) by (done || lia).
    rewrite (IH _ _ (S d)); [destruct (T <? _); cbn [negb]; lia|done|by rewrite E|done|].
    rewrite <- Ht. replace (Z.of_nat (S d) + 1) with (1 + (Z.of_nat d + 1)) by lia.
    rewrite Z.pow_add_r, inject_Z_mult by lia. change (inject_Z (2 ^ 1)) with 2%Q. ring.
Qed.

(** ** Addresses *)

Definition is_v6 (ip : IpAddress) : bool := match ip with IPv4 _ => false | IPv6 _ => true end.

Definition width (v6 : bool) : nat := if v6 then 128 else 32.

Definition valid (ip : IpAddress) : Prop :=
  bytes_ok (ipBytes ip) /\ length (ipBytes ip) = (if is_v6 ip then 16 else 4)%nat.

(** The words of the addresses of a family. *)
Definition family (v6 : bool) (m : list IpAddress) : list (list bool) :=
  omap (fun ip => if eqb (is_v6 ip) v6 then Some (ipBits ip) else None) m.

(** The tree that holds the multiset [m]. *)
Definition tree_of (m : list IpAddress) : IpTree :=
  mkIpTree (trie 32 (family false m)) (trie 128 (family true m)).

(** The share of the prefixes of an address that have more than their part of the addresses of its
family: more than a half for the first bit, more than a quarter for the first two, and so on. *)
Definition similarity (m : list IpAddress) (ip : IpAddress) : Q :=
  let l := family (is_v6 ip) m in let n := width (is_v6 ip) in
  (inject_Z (Z.of_nat (crowded 0 (Z.of_nat (length l)) n (ipBits ip) l)) / inject_Z (Z.of_nat n))%Q.

Inductive op := Insert (ip : IpAddress) | Remove (ip : IpAddress).

Definition op_ip (o : op) : IpAddress := match o with Insert ip | Remove ip => ip end.

Definition run_op (t : IpTree) (o : op) : IpTree :=
  match o with Insert ip => insertIp t ip | Remove ip => removeIp t ip end.

(** The same operation on a multiset. *)
Definition spec_op (m : list IpAddress) (o : op) : list IpAddress :=
  match o with Insert ip => ip :: m | Remove ip => remove_one ip m end.

Definition byte_value (bits : list bool) : Z := foldl (fun v b => 2 * v + Z.b2z b) 0 bits.

Lemma byte_value_bits b : byte_ok b -> byte_value (byte_bits b) = b.
Proof.
  intros H. apply Z.eqb_eq. by apply (byte_forall (fun b => byte_value (byte_bits b) =? b) b ltac:(by vm_compute)).
Qed.

Lemma byte_bits_length b : length (byte_bits b) = 8%nat.
Proof. done. Qed.

Lemma bits_inj (l k : bytes) : bytes_ok l -> bytes_ok k -> l ≫= byte_bits = k ≫= byte_bits -> l = k.
Proof.
  intros Hl. revert k. induction Hl as [|a l Ha Hl IH]; intros k Hk; destruct Hk as [|b k Hb Hk]; try done.
  cbn [mbind list_bind]. intros E. apply app_inj_1 in E as [E1 E2]; [|done].
  f_equal; [|by apply IH]. by rewrite <- (byte_value_bits a), <- (byte_value_bits b), E1.
Qed.

Lemma bits_length (l : bytes) : length (l ≫= byte_bits) = (8 * length l)%nat.
Proof. induction l; [done|]. cbn [mbind list_bind]. rewrite length_app, byte_bits_length. cbn [length]. fold (l ≫= byte_bits). lia. Qed.

Lemma ipBits_length ip : valid ip -> length (ipBits ip) = width (is_v6 ip).
Proof. intros [_ H]. unfold ipBits. rewrite bits_length, H. by destruct ip. Qed.

Lemma ipBits_inj a b : valid a -> valid b -> is_v6 a = is_v6 b -> ipBits a = ipBits b -> a = b.
Proof.
  intros [Ha _] [Hb _] Hv E. apply bits_inj in E; [|done..]. destruct a, b; cbn in *; by subst.
Qed.

Lemma family_cons v6 ip m :
  family v6 (ip :: m) = if eqb (is_v6 ip) v6 then ipBits ip :: family v6 m else family v6 m.
Proof. cbn. by destruct (eqb _ _). Qed.

Lemma family_words v6 m : Forall valid m -> words (width v6) (family v6 m).
Proof.
  induction 1 as [|ip m Hv Hm IH]; [constructor|]. rewrite family_cons.
  destruct (eqb _ v6) eqn:E; [|done]. apply eqb_prop in E as <-. constructor; [by apply ipBits_length|done].
Qed.

Lemma elem_of_family m ip : Forall valid m -> valid ip -> ipBits ip ∈ family (is_v6 ip) m <-> ip ∈ m.
Proof.
  rewrite Forall_forall. intros Hm Hv. unfold family. rewrite list_elem_of_omap. split.
  - intros (x & Hx & E). destruct (eqb _ _) eqn:Ef; [|done]. apply eqb_prop in Ef. simplify_eq.
    by rewrite <- (ipBits_inj x ip) by (done || by apply Hm).
  - intros H. exists ip. by rewrite eqb_reflx.
Qed.

#[export] Instance family_perm v6 : Proper ((≡ₚ) ==> (≡ₚ)) (family v6).
Proof. unfold family. by intros ?? E; rewrite E. Qed.

Lemma tree_of_perm m m' : m ≡ₚ m' -> tree_of m = tree_of m'.
Proof. intros E. unfold tree_of. f_equal; apply trie_perm; by rewrite E. Qed.

Lemma treeRoot_of m ip : treeRoot (tree_of m) ip = trie (width (is_v6 ip)) (family (is_v6 ip) m).
Proof. by destruct ip. Qed.

Lemma set_treeRoot_of m m' ip :
  (forall v6, v6 <> is_v6 ip -> family v6 m' = family v6 m) ->
  set_treeRoot (tree_of m) ip (trie (width (is_v6 ip)) (family (is_v6 ip) m')) = tree_of m'.
Proof.
  intros H. unfold tree_of.
  destruct ip; cbn [set_treeRoot root root6 is_v6] in *; [rewrite <- (H true)|rewrite <- (H false)]; done.
Qed.

Lemma insertIp_tree m ip : valid ip -> insertIp (tree_of m) ip = tree_of (ip :: m).
Proof.
  intros H. unfold insertIp. rewrite treeRoot_of, insert_trie by (by apply ipBits_length).
  rewrite <- (set_treeRoot_of m (ip :: m) ip); rewrite ?family_cons, ?eqb_reflx; [done|].
  intros v6 Hv. rewrite family_cons. destruct (eqb _ v6) eqn:E; [|done]. by apply eqb_prop in E.
Qed.

Lemma removeIp_present m ip : Forall valid (ip :: m) -> removeIp (tree_of (ip :: m)) ip = tree_of m.
Proof.
  intros Hm. pose proof (Forall_cons_1 _ _ _ Hm) as [Hv Hm'].
  pose proof (family_words (is_v6 ip) _ Hm) as Hw.
  unfold removeIp. rewrite treeRoot_of, trie_counter.
  rewrite find_path_trie; [|by apply ipBits_length|done|by rewrite family_cons, eqb_reflx].
  rewrite bool_decide_true by (apply elem_of_family; [done..|constructor]).
  rewrite family_cons, eqb_reflx. rewrite (proj2 (Z.eqb_neq _ _)) by (cbn; lia).
  rewrite (proj1 (prune_trie _ _ _ (ipBits_length _ Hv) (family_words _ _ Hm'))).
  apply set_treeRoot_of. intros v6 Hn. rewrite family_cons.
  destruct (eqb _ v6) eqn:E; [|done]. by apply eqb_prop in E.
Qed.

Lemma removeIp_absent m ip : Forall valid m -> valid ip -> ip ∉ m -> removeIp (tree_of m) ip = tree_of m.
Proof.
  intros Hm Hv Hn. unfold removeIp. rewrite treeRoot_of, trie_counter.
  case_eq (Z.of_nat (length (family (is_v6 ip) m)) =? 0); intros E; [done|].
  rewrite find_path_trie; [|by apply ipBits_length|by apply family_words|by intros N; rewrite N in E].
  rewrite bool_decide_false; [done|]. by rewrite elem_of_family.
Qed.

Lemma spec_op_valid m o : Forall valid m -> valid (op_ip o) -> Forall valid (spec_op m o).
Proof.
  intros Hm Hv. destruct o as [ip|ip]; cbn in *; [by constructor|]. apply Forall_forall.
  intros x Hx%remove_one_subset. by rewrite Forall_forall in Hm; apply Hm.
Qed.

Lemma run_op_tree m o : Forall valid m -> valid (op_ip o) -> run_op (tree_of m) o = tree_of (spec_op m o).
Proof.
  intros Hm Hv. destruct o as [ip|ip]; cbn in *; [by apply insertIp_tree|].
  destruct (decide (ip ∈ m)) as [Hi|Hi].
  - pose proof (remove_one_perm ip m Hi) as E. rewrite (tree_of_perm _ _ E).
    apply removeIp_present. by rewrite <- E.
  - rewrite remove_one_absent by done. by apply removeIp_absent.
Qed.

Lemma run_tree l m : Forall valid m -> Forall (fun o => valid (op_ip o)) l ->
  foldl run_op (tree_of m) l = tree_of (foldl spec_op m l) /\ Forall valid (foldl spec_op m l).
Proof.
  intros Hm Hl. revert m Hm. induction Hl as [|o l Ho Hl IH]; intros m Hm; [done|].
  cbn [foldl]. rewrite run_op_tree by done. apply IH. by apply spec_op_valid.
Qed.

Lemma tree_of_nil : tree_of [] = new.
Proof. unfold tree_of. by rewrite !trie_nil. Qed.

Lemma family_length m : (length (family false m) + length (family true m))%nat = length m.
Proof.
  induction m as [|ip m IH]; [done|]. rewrite !family_cons. destruct ip; cbn [is_v6 eqb length]; lia.
Qed.

Lemma ipsLen_tree m : ipsLen (tree_of m) = Z.of_nat (length m).
Proof. unfold ipsLen, tree_of. cbn [root root6]. rewrite !trie_counter, <- family_length. lia. Qed.

Lemma ipScore_tree m ip : Forall valid m -> valid ip -> (ipScore (tree_of m) ip == similarity m ip)%Q.
Proof.
  intros Hm Hv. unfold ipScore, similarity. rewrite treeRoot_of, trie_counter.
  set (l := family _ m). case_eq (Z.of_nat (length l) =? 0); intros E.
  - apply Z.eqb_eq in E. destruct l; [|done]. by rewrite crowded_none.
  - assert (Hn : Z.of_nat (length (ipBytes ip)) * 8 = Z.of_nat (width (is_v6 ip)))
      by (destruct Hv as [_ ->]; by destruct (is_v6 ip)).
    rewrite Hn, (score_trie _ _ _ 0 (Z.of_nat (length l)));
      [done|by apply ipBits_length|by apply family_words|lia|].
    change (inject_Z (2 ^ (Z.of_nat 0 + 1))) with 2%Q. field.
Qed.

(** The [for] loop of [ipsMaxScore]. *)
Lemma max_loop f (ips : list IpAddress) q :
  let r := foldl (fun maxScore ip => let score := f ip in
    if Qle_bool score maxScore then maxScore else score) q ips in
  (q <= r)%Q /\ Forall (fun ip => (f ip <= r)%Q) ips /\ (r = q \/ exists ip, ip ∈ ips /\ r = f ip).
Proof.
  revert q. induction ips as [|ip ips IH]; intros q; cbn [foldl].
  { split_and!; [apply Qle_refl|constructor|by left]. }
  set (q' := if Qle_bool _ _ then _ else _). destruct (IH q') as (H1 & H2 & H3). cbn zeta in *.
  set (r := foldl _ _ _) in *.
  assert (Hq : (q <= q')%Q /\ (f ip <= q')%Q /\ (q' = q \/ q' = f ip)).
  { subst q'. destruct (Qle_bool (f ip) q) eqn:E.
    - apply Qle_bool_iff in E. split_and!; [apply Qle_refl|done|by left].
    - split_and!; [|apply Qle_refl|by right]. apply Qlt_le_weak, Qnot_le_lt. intros H.
      apply Qle_bool_iff in H. congruence. }
  destruct Hq as (Hq1 & Hq2 & Hq3). split_and!; [by eapply Qle_trans|constructor; [by eapply Qle_trans|done]|].
  destruct H3 as [->|(x & Hx & ->)]; [|right; exists x; split; [by constructor|done]].
  destruct Hq3 as [->| ->]; [by left|right]. exists ip. split; [constructor|done].
Qed.


Lemma insertIps_tree ips m : Forall valid ips -> insertIps (tree_of m) ips = tree_of (ips ++ m).
Proof.
  intros H. revert m. induction H as [|ip ips Hv H IH]; intros m; [done|].
  unfold insertIps in *. cbn [foldl]. rewrite insertIp_tree, IH by done.
  apply tree_of_perm. by rewrite <- Permutation_middle.
Qed.

Lemma removeIps_tree ips m : Forall valid (ips ++ m) -> removeIps (tree_of (ips ++ m)) ips = tree_of m.
Proof.
  induction ips as [|ip ips IH]; intros H; [done|]. unfold removeIps in *. cbn [foldl app] in *.
  rewrite removeIp_present by done. apply IH. by apply Forall_cons_1 in H as [_ H].
Qed.

(** ** Properties *)

(** C37: whatever addresses are inserted and removed, in any order, the tree is that of the
multiset that the same operations give, where removing an absent address does nothing: it has a
node for each prefix of an address of the multiset, counts the addresses below it, and has no
other node.  [ipsLen] is the size of the multiset, [ipScore] of any address the share of its
prefixes that have more than their part of the addresses of the family, [ipsMaxScore] the best of
these scores, and a tree that is emptied is a new one. *)
Theorem iptree_refines (ops : list op) : Forall (fun o => valid (op_ip o)) ops ->
  let t := foldl run_op new ops in
  let m := foldl spec_op [] ops in
  t = tree_of m /\
  ipsLen t = Z.of_nat (length m) /\
  (forall ip, valid ip -> (ipScore t ip == similarity m ip)%Q) /\
  (forall ips, Forall valid ips -> ips <> [] ->
    (forall ip, ip ∈ ips -> (similarity m ip <= ipsMaxScore t ips)%Q) /\
    (ipsMaxScore t ips = 0%Q \/ exists ip, ip ∈ ips /\ (ipsMaxScore t ips == similarity m ip)%Q)) /\
  (m = [] -> t = new).
Proof.
  intros Ho t m. destruct (run_tree ops [] (Forall_nil_2 _) Ho) as [E Hm].
  rewrite tree_of_nil in E. fold t m in E, Hm. rewrite E.
  assert (Hs : forall ip, valid ip -> (ipScore (tree_of m) ip == similarity m ip)%Q)
    by (intros; by apply ipScore_tree).
  split_and!; [done|apply ipsLen_tree|done| |intros ->; apply tree_of_nil].
  intros ips Hi Hn. unfold ipsMaxScore. rewrite Forall_forall in Hi.
  destruct (Nat.ltb_spec (length ips) 1); [destruct ips; cbn in *; [done|lia]|].
  pose proof (max_loop (ipScore (tree_of m)) ips 0) as H0. cbn zeta in *.
  destruct H0 as (_ & H2 & H3). rewrite Forall_forall in H2. split.
  - intros ip Hip. rewrite <- Hs by auto. by apply H2.
  - destruct H3 as [H3|(ip & Hip & H3)]; [by left|right]. exists ip. split; [done|]. rewrite <- Hs by auto. by rewrite H3.
Qed.

(** Two of three addresses share 24 bits, and one of them is removed. *)
Definition demo_ops : list op :=
  [Insert (IPv4 [10; 0; 0; 1]); Insert (IPv4 [10; 0; 0; 2]); Insert (IPv4 [192; 168; 0; 1]);
   Remove (IPv4 [10; 0; 0; 1]); Remove (IPv4 [9; 9; 9; 9]); Insert (IPv6 (replicate 16 0xFF))].

Definition demo_ip : IpAddress := IPv4 [10; 0; 0; 7].

Lemma iptree_refines_witness :
  Forall (fun o => valid (op_ip o)) demo_ops /\
  ipsLen (foldl run_op new demo_ops) = 3 /\
  (ipScore (foldl run_op new demo_ops) demo_ip == 28 # 32)%Q /\
  (similarity (foldl spec_op [] demo_ops) demo_ip == 28 # 32)%Q.
Proof.
  assert (H : Forall (fun o => valid (op_ip o)) demo_ops).
  { repeat constructor; cbn; lia. }
  assert (Hv : valid demo_ip) by (repeat constructor; cbn; lia).
  pose proof (iptree_refines demo_ops H) as (_ & H2 & H3 & _). specialize (H3 _ Hv).
  split_and!; [done|exact H2| |]; [|rewrite <- H3]; by vm_compute.
Defined.
