(* ===== verification/DnsMessage.v ===== *)
(** * DnsMessage: libp2p/nameresolving/dnsmessage.nim

The codec of DNS messages.  Strings are their characters.  The readers are a state and error
monad over [DnsReader]: an error is a [ValueError], of which [DnsError] has one constructor for
each message, and [None] is a [Defect] or a loop cut short.  [readName_loop] has 300 turns: each
turn uses up a byte of the 255 that a name may have or one of the 16 pointers; [readTxt_loop] has one
more than there are bytes.  The writers return the buffer they have extended, or the error.  The
text of IP addresses, of std/net, is the class [IpText]. *)
From S2P Require Import Prelude Endians IpTree.

#[local] Open Scope Z_scope.

Abbreviation text := bytes (only parsing).

(** [parseIpAddress], whose [None] is its [ValueError], and [$]. *)
Class IpText := {
  parseIpAddress : text -> option IpAddress;
  ip_text : IpAddress -> text;
  parse_ip_text ip : valid ip -> parseIpAddress (ip_text ip) = Some ip;
  parse_valid t ip : parseIpAddress t = Some ip -> valid ip;
}.

Definition MaxLabelLength : Z := 63.
Definition MaxNameLength : Z := 255.
Definition MaxPacketSize : nat := 512.
Definition MaxNameJumps : Z := 16.
Definition HeaderSize : nat := 12.
Definition CompressionMask : Z := 0xC0.
Definition QrMask : Z := 0x8000.
Definition ResponseFlags : Z := 0x8400.
Definition ClassIn : Z := 0x0001.
Definition ClassAny : Z := 0x00FF.
Definition ClassTopBit : Z := 0x8000.
Definition ClassMask : Z := 0x7FFF.

Inductive DnsError :=
| TruncatedMessage | TruncatedName | PointerOutOfRange | CompressionLoop | ReservedLabelType | NameTooLong
| TruncatedTxt | InvalidTxt | InvalidAddress | BadIpLength | TruncatedRecord | InvalidSrv | LengthMismatch
| NoLabel | EmptyLabel | LabelTooLong (label : text) | EncodedNameTooLong | BadIpText | WrongFamily (t : text)
| StringTooLong | RdataTooLong | TooMany (section : string) | ShortHeader | PacketTooLong | WrongId
| NotResponse | NoQuestion.

Inductive DnsRecordKind := A | PTR | TXT | AAAA | SRV.

#[export] Instance DnsRecordKind_eq_dec : EqDecision DnsRecordKind.
Proof. solve_decision. Defined.

Definition kind_code (kind : DnsRecordKind) : Z :=
  match kind with A => 1 | PTR => 12 | TXT => 16 | AAAA => 28 | SRV => 33 end.

Abbreviation DnsName := (list bytes) (only parsing).

Record DnsAnswer := mkDnsAnswer { da_kind : DnsRecordKind; da_value : text }.

Record DnsQuestion := mkDnsQuestion { q_name : DnsName; q_kind : DnsRecordKind; unicastResponse : bool }.

Record DnsRecord := mkDnsRecord {
  r_name : DnsName;
  r_kind : DnsRecordKind;
  ttl : Z;
  cacheFlush : bool;
  address : text;
  target : DnsName;
  priority : Z;
  weight : Z;
  port : Z;
  strings : list bytes;
}.

Record DnsMessage := mkDnsMessage {
  m_id : Z;
  response : bool;
  questions : list DnsQuestion;
  answers : list DnsRecord;
  additionals : list DnsRecord;
}.

Record DnsHeader := mkDnsHeader {
  h_id : Z; flags : Z; qdcount : Z; ancount : Z; nscount : Z; arcount : Z;
}.

Record DnsReader := mkDnsReader { data : bytes; pos : nat }.

Definition isResponse (h : DnsHeader) : bool := negb (Z.land (flags h) QrMask =? 0).

(** ** Readers *)

Definition parser (A : Type) : Type := DnsReader -> option (result DnsError (A * DnsReader)).

#[export] Instance parser_ret : MRet parser := fun A a r => Some (Ok (a, r)).

#[export] Instance parser_bind : MBind parser := fun A B f m r =>
  match m r with
  | Some (Ok (a, r)) => f a r
  | Some (Err e) => Some (Err e)
  | None => None
  end.

Definition raiseErr {A} (e : DnsError) : parser A := fun _ => Some (Err e).

Definition self : parser DnsReader := fun r => Some (Ok (r, r)).

Definition seek (p : nat) : parser unit := fun r => Some (Ok (tt, mkDnsReader (data r) p)).

(** [data[pos ..< pos + n]], whose bounds the language checks. *)
Definition slice (data : bytes) (pos n : nat) : option bytes :=
  if (pos + n <=? length data)%nat then Some (take n (drop pos data)) else None.

(** The value a read of the data gives; out of range it is a defect. *)
Definition checked {A} (o : option A) : parser A := fun r => a ← o; Some (Ok (a, r)).

(** The next [n] bytes. *)
Definition next (n : nat) : parser bytes :=
  r ← self; b ← checked (slice (data r) (pos r) n); _ ← seek (pos r + n); mret b.

Fixpoint stringAt (data : bytes) (pos len : nat) : option text :=
  match len with
  | O => Some []
  | S len => c ← data !! pos; t ← stringAt data (S pos) len; Some (c :: t)
  end.

Section Codec.
Context `{Endians} `{IpText}.

Definition readByte : parser Z :=
  r ← self;
  if (length (data r) <=? pos r)%nat then raiseErr TruncatedMessage
  else
    match data r !! pos r with
    | Some value => _ ← seek (pos r + 1); mret value
    | None => fun _ => None
    end.

(** [readShort] and [readLong]. *)
Definition readUint (n : nat) : parser Z :=
  r ← self;
  if (length (data r) <? pos r + n)%nat then raiseErr TruncatedMessage
  else b ← next n; mret (fromBytesBE n b).

Definition readShort : parser Z := readUint 2.

Definition readLong : parser Z := readUint 4.

(** In [readBytes] and [readString] [n] is a length that is not negative. *)
Definition readBytes (n : nat) : parser bytes :=
  r ← self;
  if (length (data r) <? pos r + n)%nat then raiseErr TruncatedMessage else next n.

Definition readString (n : nat) : parser text :=
  r ← self;
  if (length (data r) <? pos r + n)%nat then raiseErr TruncatedMessage
  else t ← checked (stringAt (data r) (pos r) n); _ ← seek (pos r + n); mret t.

Definition labelAt (data : bytes) (pos len : nat) : option (result DnsError text) :=
  if (length data <? pos + len)%nat then Some (Err TruncatedName)
  else t ← stringAt data pos len; Some (Ok t).

Definition pointerAt (data : bytes) (pos : nat) (first : Z) : option (result DnsError nat) :=
  if (length data <=? pos)%nat then Some (Err TruncatedName)
  else
    b ← data !! pos;
    let offset := Z.to_nat (Z.lor (Z.shiftl (Z.land first 0x3F) 8) b) in
    if (length data <=? offset)%nat then Some (Err PointerOutOfRange) else Some (Ok offset).

(** [resume] is [None] while it is -1. *)
Fixpoint readName_loop (fuel : nat) (data : bytes) (labels : DnsName) (pos : nat) (resume : option nat)
    (jumps consumed : Z) : option (result DnsError (DnsName * nat)) :=
  match fuel with
  | O => None
  | S fuel =>
      if (length data <=? pos)%nat then Some (Err TruncatedName)
      else
        first ← data !! pos;
        let pos := S pos in
        if first =? 0 then Some (Ok (labels, default pos resume))
        else if Z.land first CompressionMask =? CompressionMask then
          match pointerAt data pos first with
          | Some (Ok offset) =>
              let resume := match resume with None => Some (S pos) | Some p => Some p end in
              if MaxNameJumps <? jumps + 1 then Some (Err CompressionLoop)
              else readName_loop fuel data labels offset resume (jumps + 1) consumed
          | Some (Err e) => Some (Err e)
          | None => None
          end
        else if negb (Z.land first CompressionMask =? 0) then Some (Err ReservedLabelType)
        else if MaxNameLength <? consumed + (first + 1) then Some (Err NameTooLong)
        else
          match labelAt data pos (Z.to_nat first) with
          | Some (Ok label) =>
              readName_loop fuel data (labels ++ [label]) (pos + Z.to_nat first) resume jumps (consumed + (first + 1))
          | Some (Err e) => Some (Err e)
          | None => None
          end
  end.

Definition readName : parser DnsName := fun r =>
  match readName_loop 300 (data r) [] (pos r) None 0 1 with
  | Some (Ok (labels, p)) => Some (Ok (labels, mkDnsReader (data r) p))
  | Some (Err e) => Some (Err e)
  | None => None
  end.

Fixpoint readTxt_loop (fuel : nat) (stop : nat) (strings : list bytes) : parser (list bytes) :=
  match fuel with
  | O => fun _ => None
  | S fuel =>
      r ← self;
      if (pos r <? stop)%nat then
        len ← readByte;
        r ← self;
        if (stop <? pos r + Z.to_nat len)%nat then raiseErr InvalidTxt
        else s ← readString (Z.to_nat len); readTxt_loop fuel stop (strings ++ [s])
      else mret strings
  end.

Definition readTxt (rdlength : nat) : parser (list bytes) :=
  r ← self;
  let stop := (pos r + rdlength)%nat in
  if (length (data r) <? stop)%nat then raiseErr TruncatedTxt else readTxt_loop (rdlength + 1) stop [].

Definition readAddress (rdlength size : nat) : parser bytes :=
  rdata ← readBytes rdlength;
  if negb (length rdata =? size)%nat then raiseErr InvalidAddress else mret rdata.

Definition readHeader : parser DnsHeader :=
  id ← readShort; flags ← readShort; qdcount ← readShort; ancount ← readShort;
  nscount ← readShort; arcount ← readShort;
  mret (mkDnsHeader id flags qdcount ancount nscount arcount).

Definition toRecordKind (rrType : Z) : option DnsRecordKind :=
  if rrType =? kind_code A then Some A
  else if rrType =? kind_code PTR then Some PTR
  else if rrType =? kind_code TXT then Some TXT
  else if rrType =? kind_code AAAA then Some AAAA
  else if rrType =? kind_code SRV then Some SRV
  else None.

(** [ipv4ToString] and [ipv6ToString] of utils/conversion. *)
Definition ipv4ToString (b : bytes) : parser text :=
  if negb (length b =? 4)%nat then raiseErr BadIpLength else mret (ip_text (IPv4 b)).

Definition ipv6ToString (b : bytes) : parser text :=
  if negb (length b =? 16)%nat then raiseErr BadIpLength else mret (ip_text (IPv6 b)).

(** A record with the fields of no kind. *)
Definition bare (name : DnsName) (kind : DnsRecordKind) (ttl : Z) (cacheFlush : bool) : DnsRecord :=
  mkDnsRecord name kind ttl cacheFlush [] [] 0 0 0 [].

(** The [case kind of]. *)
Definition readRdata (record : DnsRecord) (rdlength : nat) : parser DnsRecord :=
  let '(mkDnsRecord name kind ttl flush _ _ _ _ _ _) := record in
  match kind with
  | A =>
      b ← readAddress rdlength 4; address ← ipv4ToString b;
      mret (mkDnsRecord name kind ttl flush address [] 0 0 0 [])
  | AAAA =>
      b ← readAddress rdlength 16; address ← ipv6ToString b;
      mret (mkDnsRecord name kind ttl flush address [] 0 0 0 [])
  | PTR => target ← readName; mret (mkDnsRecord name kind ttl flush [] target 0 0 0 [])
  | TXT => strings ← readTxt rdlength; mret (mkDnsRecord name kind ttl flush [] [] 0 0 0 strings)
  | SRV =>
      if (rdlength <? 7)%nat then raiseErr InvalidSrv
      else
        priority ← readShort; weight ← readShort; port ← readShort; target ← readName;
        mret (mkDnsRecord name kind ttl flush [] target priority weight port [])
  end.

Definition readRecord : parser (option DnsRecord) :=
  name ← readName; rrType ← readShort; class ← readShort; ttl ← readLong; rdlength ← readShort;
  r ← self;
  let rdataEnd := (pos r + Z.to_nat rdlength)%nat in
  if (length (data r) <? rdataEnd)%nat then raiseErr TruncatedRecord
  else if negb (Z.land class ClassMask =? ClassIn) then _ ← seek rdataEnd; mret None
  else
    match toRecordKind rrType with
    | None => _ ← seek rdataEnd; mret None
    | Some kind =>
        record ← readRdata (bare name kind ttl (negb (Z.land class ClassTopBit =? 0))) (Z.to_nat rdlength);
        r ← self;
        if negb (pos r =? rdataEnd)%nat then raiseErr LengthMismatch else mret (Some record)
    end.

Definition readQuestion : parser (option DnsQuestion) :=
  name ← readName; rrType ← readShort; class ← readShort;
  let qclass := Z.land class ClassMask in
  if negb (qclass =? ClassIn) && negb (qclass =? ClassAny) then mret None
  else
    match toRecordKind rrType with
    | None => mret None
    | Some kind => mret (Some (mkDnsQuestion name kind (negb (Z.land class ClassTopBit =? 0))))
    end.

(** [for _ in 0 ..< n: read().ifValue(x): l.add(x)]. *)
Fixpoint read_section {B} (read : parser (option B)) (n : nat) (l : list B) : parser (list B) :=
  match n with
  | O => mret l
  | S n => x ← read; read_section read n (l ++ match x with Some x => [x] | None => [] end)
  end.

(** A reader at the start of a message, run to its value. *)
Definition run_parser {B} (p : parser B) (data : bytes) : option (result DnsError B) :=
  match p (mkDnsReader data 0) with
  | Some (Ok (b, _)) => Some (Ok b)
  | Some (Err e) => Some (Err e)
  | None => None
  end.

Definition parseMessage (data : bytes) : option (result DnsError DnsMessage) :=
  if (length data <? HeaderSize)%nat then Some (Err ShortHeader)
  else run_parser (
    header ← readHeader;
    questions ← read_section readQuestion (Z.to_nat (qdcount header)) [];
    answers ← read_section readRecord (Z.to_nat (ancount header)) [];
    _ ← read_section readRecord (Z.to_nat (nscount header)) [];
    additionals ← read_section readRecord (Z.to_nat (arcount header)) [];
    mret (mkDnsMessage (h_id header) (isResponse header) questions answers additionals)) data.

(** The body of the last loop of [parseAnswers]. *)
Definition to_answer (record : DnsRecord) : option DnsAnswer :=
  match r_kind record with
  | A | AAAA => Some (mkDnsAnswer (r_kind record) (address record))
  | TXT => Some (mkDnsAnswer TXT (mjoin (strings record)))
  | _ => None
  end.

Definition parseAnswers (data : bytes) (expectedId : Z) : option (result DnsError (list DnsAnswer)) :=
  if (length data <? HeaderSize)%nat then Some (Err ShortHeader)
  else if (MaxPacketSize <? length data)%nat then Some (Err PacketTooLong)
  else run_parser (
    header ← readHeader;
    if negb (h_id header =? expectedId) then raiseErr WrongId
    else if negb (isResponse header) then raiseErr NotResponse
    else if qdcount header =? 0 then raiseErr NoQuestion
    else
      _ ← read_section readQuestion (Z.to_nat (qdcount header)) [];
      read_section (record ← readRecord; mret (record ≫= to_answer)) (Z.to_nat (ancount header)) []) data.

(** ** Writers *)

(** [name.split('.')]. *)
Fixpoint split_dots (label : text) (name : text) : DnsName :=
  match name with
  | [] => [label]
  | c :: name => if c =? 46 then label :: split_dots [] name else split_dots (label ++ [c]) name
  end.

Definition toDnsName (name : text) : DnsName := split_dots [] name.

Fixpoint writeName_loop (buf : bytes) (name : DnsName) (encoded : Z) : result DnsError bytes :=
  match name with
  | [] => Ok buf
  | label :: name =>
      let len := Z.of_nat (length label) in
      if len <? 1 then Err EmptyLabel
      else if MaxLabelLength <? len then Err (LabelTooLong label)
      else if MaxNameLength <? encoded + (len + 1) then Err EncodedNameTooLong
      else writeName_loop (buf ++ len :: label) name (encoded + (len + 1))
  end.

Definition writeName (buf : bytes) (name : DnsName) : result DnsError bytes :=
  if (length name <? 1)%nat then Err NoLabel
  else buf ← writeName_loop buf name 1; mret (buf ++ [0x00]).

Definition questionClass (q : DnsQuestion) : Z :=
  if unicastResponse q then Z.lor ClassIn ClassTopBit else ClassIn.

Definition recordClass (rec : DnsRecord) : Z :=
  if cacheFlush rec then Z.lor ClassIn ClassTopBit else ClassIn.

Definition writeQuestion (buf : bytes) (q : DnsQuestion) : result DnsError bytes :=
  buf ← writeName buf (q_name q);
  mret (buf ++ toBytesBE 2 (kind_code (q_kind q)) ++ toBytesBE 2 (questionClass q)).

Definition writeIp (buf : bytes) (t : text) (v6 : bool) : result DnsError bytes :=
  match parseIpAddress t with
  | None => Err BadIpText
  | Some ip => if negb (eqb (is_v6 ip) v6) then Err (WrongFamily t) else Ok (buf ++ ipBytes ip)
  end.

Fixpoint writeCharStrings (buf : bytes) (strings : list bytes) : result DnsError bytes :=
  match strings with
  | [] => Ok buf
  | t :: strings =>
      let len := Z.of_nat (length t) in
      if 255 <? len then Err StringTooLong else writeCharStrings (buf ++ len :: t) strings
  end.

Definition writeRdata (buf : bytes) (rec : DnsRecord) : result DnsError bytes :=
  match r_kind rec with
  | A => writeIp buf (address rec) false
  | AAAA => writeIp buf (address rec) true
  | PTR => writeName buf (target rec)
  | TXT => writeCharStrings buf (strings rec)
  | SRV =>
      writeName (buf ++ toBytesBE 2 (priority rec) ++ toBytesBE 2 (weight rec) ++ toBytesBE 2 (port rec)) (target rec)
  end.

Definition writeRecord (buf : bytes) (rec : DnsRecord) : result DnsError bytes :=
  buf ← writeName buf (r_name rec);
  let buf := buf ++ toBytesBE 2 (kind_code (r_kind rec)) ++ toBytesBE 2 (recordClass rec) ++ toBytesBE 4 (ttl rec) in
  let lengthPos := length buf in
  buf ← writeRdata (buf ++ toBytesBE 2 0) rec;
  let rdlength := Z.of_nat (length buf) - Z.of_nat lengthPos - 2 in
  if 2 ^ 16 - 1 <? rdlength then Err RdataTooLong else mret (blit lengthPos (toBytesBE 2 rdlength) buf).

Definition encodeQuery (id : Z) (name : text) (kind : DnsRecordKind) : result DnsError bytes :=
  writeQuestion (toBytesBE 2 id ++ [0x01; 0x00] ++ [0x00; 0x01] ++ [0x00; 0x00] ++ [0x00; 0x00] ++ [0x00; 0x00])
    (mkDnsQuestion (toDnsName name) kind false).

Definition sectionCount (n : nat) (section : string) : result DnsError Z :=
  if 2 ^ 16 - 1 <? Z.of_nat n then Err (TooMany section) else Ok (Z.of_nat n).

(** [for x in l: buf.write(x)]. *)
Definition write_all {B} (write : bytes -> B -> result DnsError bytes) (buf : bytes) (l : list B) : result DnsError bytes :=
  foldl (fun buf x => buf ← buf; write buf x) (Ok buf) l.

Definition encodeMessage (msg : DnsMessage) : result DnsError bytes :=
  let buf := toBytesBE 2 (m_id msg) ++ toBytesBE 2 (if response msg then ResponseFlags else 0x0000) in
  qd ← sectionCount (length (questions msg)) "questions";
  an ← sectionCount (length (answers msg)) "answers";
  ar ← sectionCount (length (additionals msg)) "additional records";
  let buf := buf ++ toBytesBE 2 qd ++ toBytesBE 2 an ++ toBytesBE 2 0x0000 ++ toBytesBE 2 ar in
  buf ← write_all writeQuestion buf (questions msg);
  buf ← write_all writeRecord buf (answers msg);
  write_all writeRecord buf (additionals msg).

(** ** Well-formed values *)

Definition label_ok (t : text) : Prop := bytes_ok t /\ 1 <= Z.of_nat (length t) <= MaxLabelLength.

(** The length of the encoding. *)
Fixpoint name_size (name : DnsName) : Z :=
  match name with [] => 1 | t :: name => Z.of_nat (length t) + 1 + name_size name end.

Definition name_ok (name : DnsName) : Prop := Forall label_ok name /\ name_size name <= MaxNameLength.

Definition string_ok (t : text) : Prop := bytes_ok t /\ Z.of_nat (length t) <= 255.

Definition no_address (rec : DnsRecord) : Prop := address rec = [].
Definition no_target (rec : DnsRecord) : Prop := target rec = [].
Definition no_service (rec : DnsRecord) : Prop := priority rec = 0 /\ weight rec = 0 /\ port rec = 0.
Definition no_strings (rec : DnsRecord) : Prop := strings rec = [].

(** The fields of the kind are in range and the others have their default. *)
Definition rdata_ok (rec : DnsRecord) : Prop :=
  match r_kind rec with
  | A | AAAA => (exists ip, valid ip /\ is_v6 ip = bool_decide (r_kind rec = AAAA) /\ address rec = ip_text ip) /\
      no_target rec /\ no_service rec /\ no_strings rec
  | PTR => name_ok (target rec) /\ no_address rec /\ no_service rec /\ no_strings rec
  | TXT => Forall string_ok (strings rec) /\ no_address rec /\ no_target rec /\ no_service rec
  | SRV => (name_ok (target rec) /\ uint_ok 16 (priority rec) /\ uint_ok 16 (weight rec) /\ uint_ok 16 (port rec)) /\
      no_address rec /\ no_strings rec
  end.

Definition record_ok (rec : DnsRecord) : Prop :=
  name_ok (r_name rec) /\ uint_ok 32 (ttl rec) /\ rdata_ok rec.

Definition question_ok (q : DnsQuestion) : Prop := name_ok (q_name q).

(** What a message can hold on the wire, root names included. *)
Definition canonical (msg : DnsMessage) : Prop :=
  uint_ok 16 (m_id msg) /\ Forall question_ok (questions msg) /\
  Forall record_ok (answers msg) /\ Forall record_ok (additionals msg).

(** The values of the types: numbers and characters are in range. *)
Definition typed_record (rec : DnsRecord) : Prop :=
  Forall bytes_ok (r_name rec) /\ uint_ok 32 (ttl rec) /\ bytes_ok (address rec) /\
  Forall bytes_ok (target rec) /\ uint_ok 16 (priority rec) /\ uint_ok 16 (weight rec) /\
  uint_ok 16 (port rec) /\ Forall bytes_ok (strings rec).

Definition typed (msg : DnsMessage) : Prop :=
  uint_ok 16 (m_id msg) /\ Forall (fun q => Forall bytes_ok (q_name q)) (questions msg) /\
  Forall typed_record (answers msg) /\ Forall typed_record (additionals msg).

(** The record that the wire carries: the other kinds' fields have their default, an address is
the text of what it denotes. *)
Definition normal_record (rec : DnsRecord) : DnsRecord :=
  let '(mkDnsRecord name kind ttl flush address target priority weight port strings) := rec in
  match kind with
  | A | AAAA =>
      mkDnsRecord name kind ttl flush
        match parseIpAddress address with Some ip => ip_text ip | None => address end [] 0 0 0 []
  | PTR => mkDnsRecord name kind ttl flush [] target 0 0 0 []
  | TXT => mkDnsRecord name kind ttl flush [] [] 0 0 0 strings
  | SRV => mkDnsRecord name kind ttl flush [] target priority weight port []
  end.

Definition normal (msg : DnsMessage) : DnsMessage :=
  mkDnsMessage (m_id msg) (response msg) (questions msg) (normal_record <$> answers msg)
    (normal_record <$> additionals msg).

Lemma name_size_snoc l t : name_size (l ++ [t]) = name_size l + (Z.of_nat (length t) + 1).
Proof. induction l as [|x l IH]; cbn [app name_size]; lia. Qed.

(** ** The readers end, without a defect *)

Definition total {B} (p : parser B) (Q : B -> Prop) : Prop := forall r, bytes_ok (data r) ->
  match p r with
  | Some (Ok (v, r')) => data r' = data r /\ Q v
  | Some (Err _) => True
  | None => False
  end.

Lemma total_ret {B} (b : B) (Q : B -> Prop) : Q b -> total (mret b) Q.
Proof. by intros HQ r _. Qed.

Lemma total_raise {B} e (Q : B -> Prop) : total (raiseErr e) Q.
Proof. by intros r _. Qed.

Lemma total_bind {B C} (p : parser B) (f : B -> parser C) Q R :
  total p Q -> (forall b, Q b -> total (f b) R) -> total (p ≫= f) R.
Proof.
  intros Hp Hf r Hr. unfold mbind, parser_bind. specialize (Hp r Hr).
  destruct (p r) as [[[b r']|e]|]; [|done|done]. destruct Hp as [E HQ]. specialize (Hf b HQ r'). rewrite E in Hf.
  by apply Hf.
Qed.

Lemma total_weaken {B} (p : parser B) (Q R : B -> Prop) : (forall b, Q b -> R b) -> total p Q -> total p R.
Proof.
  intros HQ Hp r Hr. specialize (Hp r Hr). destruct (p r) as [[[b r']|e]|]; [|done|done].
  destruct Hp. by split; [|apply HQ].
Qed.

Lemma total_self : total self (fun _ => True).
Proof. by intros r _. Qed.

Lemma total_seek p : total (seek p) (fun _ => True).
Proof. by intros r _. Qed.

Lemma stringAt_ok d n : forall p, (p + n <= length d)%nat -> stringAt d p n = Some (take n (drop p d)).
Proof.
  induction n as [|n IH]; intros p Hp; cbn [stringAt]; [done|].
  destruct (lookup_lt_is_Some_2 d p ltac:(lia)) as [c Hc]. rewrite Hc. cbn [mbind option_bind].
  rewrite IH by lia. cbn [mbind option_bind]. by rewrite (drop_S d c p Hc).
Qed.

Lemma slice_ok d p n : (p + n <= length d)%nat -> slice d p n = Some (take n (drop p d)).
Proof. intros Hp. unfold slice. by rewrite (proj2 (Nat.leb_le _ _)). Qed.

(** Inside the data both ways of reading [n] bytes give them. *)
Lemma readBytes_eq n r : readBytes n r =
  if (length (data r) <? pos r + n)%nat then Some (Err TruncatedMessage)
  else Some (Ok (take n (drop (pos r) (data r)), mkDnsReader (data r) (pos r + n))).
Proof.
  unfold readBytes, next, checked, mbind, parser_bind. cbn [self].
  destruct (Nat.ltb_spec (length (data r)) (pos r + n)); [done|]. by rewrite slice_ok by lia.
Qed.

Lemma readString_eq n r : readString n r = readBytes n r.
Proof.
  rewrite readBytes_eq. unfold readString, checked, mbind, parser_bind. cbn [self].
  destruct (Nat.ltb_spec (length (data r)) (pos r + n)); [done|]. by rewrite stringAt_ok by lia.
Qed.

Lemma labelAt_eq d p n : labelAt d p n =
  Some (if (length d <? p + n)%nat then Err TruncatedName else Ok (take n (drop p d))).
Proof.
  unfold labelAt. destruct (Nat.ltb_spec (length d) (p + n)); [done|]. by rewrite stringAt_ok by lia.
Qed.

Lemma total_readBytes n : total (readBytes n) (fun b => bytes_ok b /\ length b = n).
Proof.
  intros r Hr. rewrite readBytes_eq.
  destruct (Nat.ltb_spec (length (data r)) (pos r + n)); [done|]. cbn. split; [done|].
  split; [by apply Forall_take, Forall_drop|]. rewrite length_take, length_drop. lia.
Qed.

Lemma readUint_eq n r : readUint n r =
  match readBytes n r with
  | Some (Ok (b, r)) => Some (Ok (fromBytesBE n b, r))
  | Some (Err e) => Some (Err e)
  | None => None
  end.
Proof.
  unfold readUint, readBytes, mbind, parser_bind. cbn [self]. by destruct (_ <? _)%nat.
Qed.

Lemma total_readUint n : total (readUint n) (fun v => uint_ok (8 * Z.of_nat n) v).
Proof.
  intros r Hr. pose proof (total_readBytes n r Hr) as HB. rewrite readUint_eq.
  destruct (readBytes n r) as [[[b r']|e]|]; [|done..].
  destruct HB as (E & Hb & Hl). split; [done|]. rewrite fromBytesBE_value by lia.
  rewrite take_ge by lia. pose proof (be_value_bound _ Hb) as HB. by rewrite Hl in HB.
Qed.

Lemma total_readShort : total readShort (uint_ok 16).
Proof. apply (total_readUint 2). Qed.

Lemma total_readLong : total readLong (uint_ok 32).
Proof. apply (total_readUint 4). Qed.

Lemma total_readByte : total readByte byte_ok.
Proof.
  intros r Hr. unfold readByte. unfold mbind, parser_bind. cbn [self].
  destruct (Nat.leb_spec (length (data r)) (pos r)) as [|Hlt]; [done|].
  destruct (lookup_lt_is_Some_2 (data r) (pos r) Hlt) as [b Hb]. rewrite Hb. cbn. split; [done|].
  by apply (Forall_lookup_1 _ _ _ _ Hr Hb).
Qed.

Lemma plain_label b : byte_ok b -> b <> 0 -> Z.land b CompressionMask = 0 -> 1 <= b <= 63.
Proof.
  intros Hb Hz HM. pose proof (byte_forall (fun b => negb (Z.land b CompressionMask =? 0) || (b <=? 63)) b
    ltac:(by vm_compute) Hb) as HF.
  cbv beta in HF. rewrite HM in HF. cbn [negb orb Z.eqb] in HF. apply Z.leb_le in HF. unfold byte_ok in Hb. lia.
Qed.

(** Each turn uses up a jump or two bytes of the length. *)
Lemma readName_loop_total d fuel : forall labels p resume jumps consumed,
  bytes_ok d -> Forall label_ok labels -> name_size labels = consumed -> consumed <= MaxNameLength ->
  jumps <= MaxNameJumps ->
  (MaxNameJumps + 1 - jumps) + (MaxNameLength + 1 - consumed) <= Z.of_nat fuel ->
  match readName_loop fuel d labels p resume jumps consumed with
  | Some (Ok (l, _)) => name_ok l
  | Some (Err _) => True
  | None => False
  end.
Proof.
  unfold MaxNameJumps, MaxNameLength.
  induction fuel as [|fuel IH]; intros labels p resume jumps consumed Hd Hl Hs Hc Hj Hf; [lia|].
  cbn [readName_loop]. destruct (Nat.leb_spec (length d) p) as [|Hlt]; [done|].
  destruct (lookup_lt_is_Some_2 d p Hlt) as [first Hfirst]. rewrite Hfirst. cbn [mbind option_bind].
  pose proof (Forall_lookup_1 _ _ _ _ Hd Hfirst) as Hb.
  destruct (Z.eqb_spec first 0) as [|Hz]; [split; [done|unfold MaxNameLength; lia]|].
  destruct (Z.eqb_spec (Z.land first CompressionMask) CompressionMask) as [HP|HP].
  - unfold pointerAt. destruct (Nat.leb_spec (length d) (S p)) as [|Hlt2]; [done|].
    destruct (lookup_lt_is_Some_2 d (S p) Hlt2) as [b2 Hb2]. rewrite Hb2. cbn [mbind option_bind].
    destruct (_ <=? _)%nat; [done|]. unfold MaxNameJumps. destruct (Z.ltb_spec 16 (jumps + 1)); [done|].
    apply IH; try done; lia.
  - destruct (Z.eqb_spec (Z.land first CompressionMask) 0) as [HM|HM]; cbn [negb]; [|done].
    pose proof (plain_label first Hb Hz HM) as Hr. unfold MaxNameLength.
    destruct (Z.ltb_spec 255 (consumed + (first + 1))); [done|].
    rewrite labelAt_eq. destruct (Nat.ltb_spec (length d) (S p + Z.to_nat first)) as [|Hlen]; [done|].
    assert (Ht : length (take (Z.to_nat first) (drop (S p) d)) = Z.to_nat first)
      by (rewrite length_take, length_drop; lia).
    apply IH; try done; try lia.
    + apply Forall_app. split; [done|]. constructor; [|constructor]. split; [by apply Forall_take, Forall_drop|].
      rewrite Ht. unfold MaxLabelLength. lia.
    + rewrite name_size_snoc, Ht. lia.
Qed.

Lemma total_readName : total readName name_ok.
Proof.
  intros r Hr. unfold readName.
  pose proof (readName_loop_total (data r) 300 [] (pos r) None 0 1 Hr (Forall_nil_2 _) eq_refl) as HL.
  unfold MaxNameLength, MaxNameJumps in HL. specialize (HL ltac:(lia) ltac:(lia) ltac:(lia)).
  by destruct (readName_loop _ _ _ _ _ _ _) as [[[l p]|e]|].
Qed.

(** Each turn reads the byte of a length. *)
Lemma readTxt_loop_total fuel stop : forall l r, bytes_ok (data r) -> Forall string_ok l -> (stop - pos r < fuel)%nat ->
  match readTxt_loop fuel stop l r with
  | Some (Ok (v, r')) => data r' = data r /\ Forall string_ok v
  | Some (Err _) => True
  | None => False
  end.
Proof.
  induction fuel as [|fuel IH]; intros l r Hr Hl Hf; [lia|].
  cbn [readTxt_loop]. unfold mbind, parser_bind. cbn [self].
  destruct (Nat.ltb_spec (pos r) stop) as [Hlt|]; [|by split].
  pose proof (total_readByte r Hr) as HB.
  assert (HP : forall b r', readByte r = Some (Ok (b, r')) -> pos r' = (pos r + 1)%nat).
  { intros b r'. unfold readByte, mbind, parser_bind. cbn [self].
    destruct (length (data r) <=? pos r)%nat; [done|]. destruct (data r !! pos r); [|done]. cbn. by intros [= <- <-]. }
  destruct (readByte r) as [[[b r1]|e]|]; [|done|done]. destruct HB as [E Hb]. specialize (HP b r1 eq_refl).
  unfold byte_ok in Hb. rewrite HP. destruct (Nat.ltb_spec stop (pos r + 1 + Z.to_nat b)) as [|Hle]; [done|].
  pose proof (total_readBytes (Z.to_nat b) r1 ltac:(by rewrite E)) as HS. rewrite readString_eq.
  assert (HP2 : forall s r', readBytes (Z.to_nat b) r1 = Some (Ok (s, r')) -> pos r' = (pos r1 + Z.to_nat b)%nat).
  { intros s r'. rewrite readBytes_eq. destruct (_ <? _)%nat; [done|]. by intros [= <- <-]. }
  destruct (readBytes (Z.to_nat b) r1) as [[[s r2]|e]|]; [|done|done]. destruct HS as (E2 & Hs & Hl2).
  specialize (HP2 s r2 eq_refl).
  assert (Hacc : Forall string_ok (l ++ [s])).
  { apply Forall_app. split; [done|]. constructor; [|constructor]. split; [done|lia]. }
  specialize (IH (l ++ [s]) r2 ltac:(by rewrite E2, E) Hacc ltac:(lia)).
  destruct (readTxt_loop fuel stop (l ++ [s]) r2) as [[[v r3]|e]|]; [|done|done].
  destruct IH as [E3 Hv]. split; [congruence|done].
Qed.

Lemma total_readTxt n : total (readTxt n) (Forall string_ok).
Proof.
  intros r Hr. unfold readTxt, mbind, parser_bind. cbn [self].
  destruct (_ <? _)%nat; [done|]. apply readTxt_loop_total; [done|constructor|lia].
Qed.

Lemma total_readAddress n size : total (readAddress n size) (fun b => bytes_ok b /\ length b = size).
Proof.
  eapply total_bind; [apply total_readBytes|]. intros b [Hb _].
  destruct (Nat.eqb_spec (length b) size); cbn [negb]; [by apply total_ret|apply total_raise].
Qed.

Lemma total_readHeader : total readHeader (fun h => uint_ok 16 (h_id h)).
Proof.
  unfold readHeader. eapply total_bind; [apply total_readShort|]. intros id Hid.
  repeat (eapply total_bind; [apply total_readShort|intros ? _]). by apply total_ret.
Qed.

Lemma total_readRdata name kind ttl flush n : name_ok name -> uint_ok 32 ttl ->
  total (readRdata (bare name kind ttl flush) n) record_ok.
Proof.
  intros Hn Ht. unfold bare, readRdata.
  assert (HA : forall v6 size b, length b = size -> bytes_ok b -> size = (if v6 : bool then 16 else 4)%nat ->
    valid (if v6 then IPv6 b else IPv4 b)) by (intros [] size b Hl Hb E; subst size; split; [done|done|done|done]).
  destruct kind.
  - eapply total_bind; [apply total_readAddress|]. intros b [Hb Hl]. unfold ipv4ToString. rewrite Hl. cbn [Nat.eqb negb].
    eapply total_bind; [by apply (total_ret _ (fun t => t = ip_text (IPv4 b)))|]. intros t ->. apply total_ret.
    split; [done|]. split; [done|]. split; [|done]. exists (IPv4 b). split; [by apply (HA false 4%nat)|done].
  - eapply total_bind; [apply total_readName|]. intros t Htn. apply total_ret. split; [done|]. by split.
  - eapply total_bind; [apply total_readTxt|]. intros t Htn. apply total_ret. split; [done|]. by split.
  - eapply total_bind; [apply total_readAddress|]. intros b [Hb Hl]. unfold ipv6ToString. rewrite Hl. cbn [Nat.eqb negb].
    eapply total_bind; [by apply (total_ret _ (fun t => t = ip_text (IPv6 b)))|]. intros t ->. apply total_ret.
    split; [done|]. split; [done|]. split; [|done]. exists (IPv6 b). split; [by apply (HA true 16%nat)|done].
  - destruct (n <? 7)%nat; [apply total_raise|].
    eapply total_bind; [apply total_readShort|]. intros p Hp.
    eapply total_bind; [apply total_readShort|]. intros w Hw.
    eapply total_bind; [apply total_readShort|]. intros o Ho.
    eapply total_bind; [apply total_readName|]. intros t Htn. apply total_ret. split; [done|]. by split.
Qed.

Definition opt_ok {B} (P : B -> Prop) (o : option B) : Prop := match o with Some b => P b | None => True end.

Lemma total_readRecord : total readRecord (opt_ok record_ok).
Proof.
  unfold readRecord. eapply total_bind; [apply total_readName|]. intros name Hn.
  do 2 (eapply total_bind; [apply total_readShort|intros ? _]).
  eapply total_bind; [apply total_readLong|]. intros ttl Ht.
  eapply total_bind; [apply total_readShort|]. intros n _.
  eapply total_bind; [apply total_self|]. intros r _. cbv zeta.
  destruct (_ <? _)%nat; [apply total_raise|].
  destruct (negb _); [eapply total_bind; [apply total_seek|]; intros; by apply total_ret|].
  destruct (toRecordKind _) as [kind|]; [|eapply total_bind; [apply total_seek|]; intros; by apply total_ret].
  eapply total_bind; [by apply total_readRdata|]. intros rec Hrec.
  eapply total_bind; [apply total_self|]. intros r2 _. destruct (negb _); [apply total_raise|by apply total_ret].
Qed.

Lemma total_readQuestion : total readQuestion (opt_ok question_ok).
Proof.
  unfold readQuestion. eapply total_bind; [apply total_readName|]. intros name Hn.
  do 2 (eapply total_bind; [apply total_readShort|intros ? _]). cbv zeta.
  destruct (_ && _); [by apply total_ret|]. destruct (toRecordKind _); by apply total_ret.
Qed.

Lemma total_section {B} (p : parser (option B)) P n : total p (opt_ok P) -> forall l, Forall P l ->
  total (read_section p n l) (fun k => Forall P k /\ (length k <= length l + n)%nat).
Proof.
  intros Hp. induction n as [|n IH]; intros l Hl; cbn [read_section]; [apply total_ret; split; [done|lia]|].
  eapply total_bind; [apply Hp|]. intros o Ho. eapply total_weaken; [|apply IH].
  - intros k [Hk Hlen]. split; [done|]. rewrite length_app in Hlen. destruct o; cbn in Hlen; lia.
  - apply Forall_app. split; [done|]. destruct o; [by constructor|constructor].
Qed.

Lemma total_run {B} (p : parser B) Q d : total p Q -> bytes_ok d ->
  match run_parser p d with Some (Ok b) => Q b | Some (Err _) => True | None => False end.
Proof.
  intros Hp Hd. specialize (Hp (mkDnsReader d 0) Hd). unfold run_parser.
  destruct (p _) as [[[b r]|e]|]; [|done|done]. apply Hp.
Qed.

(** ** Encodings *)

Fixpoint enc_labels (name : DnsName) : bytes :=
  match name with [] => [] | t :: name => Z.of_nat (length t) :: t ++ enc_labels name end.

Definition enc_name (name : DnsName) : bytes := enc_labels name ++ [0].

Definition enc_rdata (rec : DnsRecord) : bytes :=
  match r_kind rec with
  | A | AAAA => match parseIpAddress (address rec) with Some ip => ipBytes ip | None => [] end
  | PTR => enc_name (target rec)
  | TXT => enc_labels (strings rec)
  | SRV =>
      toBytesBE 2 (priority rec) ++ toBytesBE 2 (weight rec) ++ toBytesBE 2 (port rec) ++ enc_name (target rec)
  end.

Definition enc_record (rec : DnsRecord) : bytes :=
  enc_name (r_name rec) ++ toBytesBE 2 (kind_code (r_kind rec)) ++ toBytesBE 2 (recordClass rec) ++
  toBytesBE 4 (ttl rec) ++ toBytesBE 2 (Z.of_nat (length (enc_rdata rec))) ++ enc_rdata rec.

Definition enc_question (q : DnsQuestion) : bytes :=
  enc_name (q_name q) ++ toBytesBE 2 (kind_code (q_kind q)) ++ toBytesBE 2 (questionClass q).

(** Reading [e], wherever it is in a message, gives [v] and takes [e]. *)
Definition reads {B} (p : parser B) (e : bytes) (v : B) : Prop := forall pre post,
  p (mkDnsReader (pre ++ e ++ post) (length pre)) =
  Some (Ok (v, mkDnsReader (pre ++ e ++ post) (length pre + length e))).

Lemma reads_ret {B} (v : B) : reads (mret v) [] v.
Proof. intros pre post. cbn. by rewrite Nat.add_0_r. Qed.

Lemma reads_bind {B C} (p : parser B) (f : B -> parser C) e1 e2 v w :
  reads p e1 v -> reads (f v) e2 w -> reads (p ≫= f) (e1 ++ e2) w.
Proof.
  intros Hp Hf pre post. unfold mbind, parser_bind. rewrite <- (app_assoc e1), Hp.
  specialize (Hf (pre ++ e1) post). rewrite <- app_assoc, length_app in Hf. rewrite Hf.
  by rewrite length_app, Nat.add_assoc.
Qed.

(** The same when nothing follows. *)
Lemma reads_bind_ret {B C} (p : parser B) (f : B -> parser C) e v w :
  reads p e v -> reads (f v) [] w -> reads (p ≫= f) e w.
Proof. intros Hp Hf. rewrite <- (app_nil_r e). by eapply reads_bind. Qed.

Lemma reads_bytes b : reads (readBytes (length b)) b b.
Proof.
  intros pre post. rewrite readBytes_eq. cbn [data pos].
  rewrite (proj2 (Nat.ltb_ge _ _)) by (rewrite !length_app; lia).
  by rewrite drop_app_length, take_app_length.
Qed.

Lemma reads_uint n x : uint_ok (8 * Z.of_nat n) x -> reads (readUint n) (toBytesBE n x) x.
Proof.
  intros Hx pre post. rewrite readUint_eq, readBytes_eq. cbn [data pos].
  rewrite (proj2 (Nat.ltb_ge _ _)) by (rewrite !length_app, toBytesBE_length; lia).
  rewrite drop_app_length, take_app_length' by (by rewrite toBytesBE_length).
  rewrite fromBytesBE_value, take_ge, toBytesBE_value, toBytesBE_length by (rewrite ?toBytesBE_length; done || lia).
  done.
Qed.

Lemma reads_short x : uint_ok 16 x -> reads readShort (toBytesBE 2 x) x.
Proof. apply (reads_uint 2). Qed.

Lemma reads_long x : uint_ok 32 x -> reads readLong (toBytesBE 4 x) x.
Proof. apply (reads_uint 4). Qed.

Lemma reads_byte b : reads readByte [b] b.
Proof.
  intros pre post. unfold readByte, mbind, parser_bind. cbn [self data pos].
  rewrite (proj2 (Nat.leb_gt _ _)) by (rewrite !length_app; cbn; lia).
  cbn [app]. by rewrite list_lookup_middle.
Qed.

(** ** Names *)

Lemma label_byte n : 1 <= n <= 63 ->
  n <> 0 /\ Z.land n CompressionMask <> CompressionMask /\ Z.land n CompressionMask = 0.
Proof.
  intros Hn. assert (Hb : byte_ok n) by (unfold byte_ok; lia).
  pose proof (byte_forall (fun n => (63 <? n) || (Z.land n CompressionMask =? 0)) n ltac:(by vm_compute) Hb) as HF.
  cbv beta in HF. rewrite (proj2 (Z.ltb_ge _ _)) in HF by lia. apply Z.eqb_eq in HF. rewrite HF. split_and!; [lia|done|done].
Qed.

Lemma name_size_ge l : 1 + 2 * Z.of_nat (length l) <= name_size l \/ ~ Forall label_ok l.
Proof.
  induction l as [|t l [IH|IH]]; cbn [length name_size]; [left; lia| |right; by intros [_ ?]%Forall_cons_1].
  destruct (decide (1 <= Z.of_nat (length t))); [left; lia|right]. intros [[_ [? _]] _]%Forall_cons_1. lia.
Qed.

Lemma readName_loop_reads l : forall fuel pre post labels jumps consumed,
  Forall label_ok l -> consumed - 1 + name_size l <= MaxNameLength -> (length l < fuel)%nat ->
  readName_loop fuel (pre ++ enc_name l ++ post) labels (length pre) None jumps consumed =
  Some (Ok (labels ++ l, length pre + length (enc_name l))%nat).
Proof.
  unfold MaxNameLength. induction l as [|t l IH]; intros [|fuel] pre post labels jumps consumed Hl Hs Hf;
    cbn [length] in Hf; try lia; cbn [readName_loop].
  - rewrite (proj2 (Nat.leb_gt _ _)) by (rewrite !length_app; cbn; lia).
    unfold enc_name. cbn [enc_labels app]. rewrite list_lookup_middle by done. cbn. by rewrite app_nil_r, Nat.add_1_r.
  - apply Forall_cons_1 in Hl as [[Hb Ht] Hl]. unfold MaxLabelLength in Ht.
    assert (Hn : 0 < name_size l) by (clear; induction l; cbn; lia). cbn [name_size] in Hs.
    destruct (label_byte _ Ht) as (L1 & L2 & L3).
    set (n := Z.of_nat (length t)) in *.
    assert (Ee : enc_name (t :: l) = [n] ++ t ++ enc_name l) by (unfold enc_name; cbn; by rewrite app_assoc).
    rewrite (proj2 (Nat.leb_gt _ _)) by (rewrite Ee, !length_app; cbn; lia).
    rewrite Ee. cbn [app]. rewrite list_lookup_middle by done. cbn [mbind option_bind].
    rewrite (proj2 (Z.eqb_neq _ _) L1), (proj2 (Z.eqb_neq _ _) L2), L3. cbn [Z.eqb negb].
    unfold MaxNameLength. rewrite (proj2 (Z.ltb_ge _ _)) by lia.
    assert (En : Z.to_nat n = length t) by (unfold n; lia).
    assert (Ed : forall X, pre ++ n :: t ++ X = (pre ++ n :: t) ++ X) by (intros; by rewrite <- app_assoc).
    rewrite labelAt_eq, (proj2 (Nat.ltb_ge _ _)) by (rewrite !length_app; cbn [length]; rewrite !length_app; lia).
    assert (Et : take (Z.to_nat n) (drop (S (length pre)) (pre ++ n :: (t ++ enc_name l) ++ post)) = t).
    { replace (S (length pre)) with (length (pre ++ [n])) by (rewrite length_app; cbn; lia).
      replace (pre ++ n :: (t ++ enc_name l) ++ post) with ((pre ++ [n]) ++ t ++ enc_name l ++ post)
        by (by rewrite <- !app_assoc). by rewrite drop_app_length, En, take_app_length. }
    rewrite Et. rewrite <- (app_assoc t), Ed.
    replace (S (length pre) + Z.to_nat n)%nat with (length (pre ++ n :: t)) by (rewrite length_app; cbn; lia).
    rewrite IH; [|done|lia|lia]. rewrite <- app_assoc. cbn [app]. do 3 f_equal.
    rewrite !length_app. cbn [length]. rewrite length_app. lia.
Qed.

Lemma reads_name name : name_ok name -> reads readName (enc_name name) name.
Proof.
  intros [Hl Hs] pre post. unfold readName. cbn [data pos]. rewrite readName_loop_reads; [done|done|lia|].
  destruct (name_size_ge name); [|done]. unfold MaxNameLength in Hs. lia.
Qed.

(** ** Records *)

Lemma readTxt_loop_reads l : forall fuel pre post acc,
  Forall string_ok l -> (length (enc_labels l) < fuel)%nat ->
  readTxt_loop fuel (length pre + length (enc_labels l)) acc (mkDnsReader (pre ++ enc_labels l ++ post) (length pre)) =
  Some (Ok (acc ++ l, mkDnsReader (pre ++ enc_labels l ++ post) (length pre + length (enc_labels l)))).
Proof.
  induction l as [|t l IH]; intros [|fuel] pre post acc Hl Hf; try lia; cbn [readTxt_loop]; unfold mbind, parser_bind; cbn [self pos].
  - rewrite (proj2 (Nat.ltb_ge _ _)) by (cbn; lia). cbn. by rewrite app_nil_r, Nat.add_0_r.
  - apply Forall_cons_1 in Hl as [[Hb Ht] Hl]. set (n := Z.of_nat (length t)) in *.
    cbn [enc_labels length] in *. fold n. rewrite (proj2 (Nat.ltb_lt _ _)) by lia.
    set (e := t ++ enc_labels l) in *.
    change (pre ++ (n :: e) ++ post) with (pre ++ [n] ++ e ++ post).
    rewrite (reads_byte n pre (e ++ post)). cbn [pos length].
    assert (En : Z.to_nat n = length t) by (unfold n; lia). rewrite En.
    assert (Le : length e = (length t + length (enc_labels l))%nat) by (unfold e; apply length_app).
    rewrite (proj2 (Nat.ltb_ge _ _)) by lia. rewrite readString_eq.
    assert (Es : pre ++ [n] ++ e ++ post = (pre ++ [n]) ++ t ++ enc_labels l ++ post)
      by (unfold e; by rewrite <- !app_assoc).
    replace (length pre + 1)%nat with (length (pre ++ [n])) by (by rewrite length_app).
    rewrite Es, reads_bytes. rewrite (app_assoc (pre ++ [n])).
    replace (length (pre ++ [n]) + length t)%nat with (length ((pre ++ [n]) ++ t)) by (by rewrite length_app).
    replace (length pre + S (length e))%nat with (length ((pre ++ [n]) ++ t) + length (enc_labels l))%nat
      by (rewrite !length_app; cbn; lia).
    rewrite IH by (done || lia). by rewrite <- app_assoc.
Qed.

Lemma reads_txt l : Forall string_ok l -> reads (readTxt (length (enc_labels l))) (enc_labels l) l.
Proof.
  intros Hl pre post. unfold readTxt, mbind, parser_bind. cbn [self data pos].
  rewrite (proj2 (Nat.ltb_ge _ _)) by (rewrite !length_app; lia). by apply readTxt_loop_reads; [|lia].
Qed.

Lemma reads_address b size : length b = size -> reads (readAddress (length b) size) b b.
Proof.
  intros <-. eapply reads_bind_ret; [apply reads_bytes|]. rewrite Nat.eqb_refl. apply reads_ret.
Qed.

Lemma enc_name_length name : (1 <= length (enc_name name))%nat.
Proof. unfold enc_name. rewrite length_app. cbn. lia. Qed.

Lemma reads_rdata rec : rdata_ok rec ->
  reads (readRdata (bare (r_name rec) (r_kind rec) (ttl rec) (cacheFlush rec)) (length (enc_rdata rec))) (enc_rdata rec) rec.
Proof.
  destruct rec as [name kind tl flush addr tgt prio wt pt strs].
  unfold rdata_ok, enc_rdata, bare, readRdata, no_address, no_target, no_service, no_strings.
  cbn [address r_name r_kind ttl cacheFlush target priority weight port strings].
  destruct kind.
  - intros ((ip & Hv & E6 & ->) & -> & (-> & -> & ->) & ->). rewrite parse_ip_text by done.
    destruct ip as [b|b]; [|done]. destruct Hv as [Hb Hl]. cbn [ipBytes] in *.
    eapply reads_bind_ret; [by apply reads_address|]. unfold ipv4ToString. rewrite Hl. apply reads_bind_ret with (ip_text (IPv4 b)); apply reads_ret.
  - intros (Hn & -> & (-> & -> & ->) & ->). eapply reads_bind_ret; [by apply reads_name|]. apply reads_ret.
  - intros (Hn & -> & -> & (-> & -> & ->)). eapply reads_bind_ret; [by apply reads_txt|]. apply reads_ret.
  - intros ((ip & Hv & E6 & ->) & -> & (-> & -> & ->) & ->). rewrite parse_ip_text by done.
    destruct ip as [b|b]; [done|]. destruct Hv as [Hb Hl]. cbn [ipBytes] in *.
    eapply reads_bind_ret; [by apply reads_address|]. unfold ipv6ToString. rewrite Hl. apply reads_bind_ret with (ip_text (IPv6 b)); apply reads_ret.
  - intros ((Hn & Hp & Hw & Ho) & -> & ->).
    rewrite (proj2 (Nat.ltb_ge _ _)).
    2: { rewrite !length_app, !toBytesBE_length. pose proof (enc_name_length tgt). lia. }
    eapply reads_bind; [by apply reads_short|]. eapply reads_bind; [by apply reads_short|].
    eapply reads_bind; [by apply reads_short|]. eapply reads_bind_ret; [by apply reads_name|]. apply reads_ret.
Qed.

Lemma kind_code_ok k : toRecordKind (kind_code k) = Some k /\ uint_ok 16 (kind_code k).
Proof. by destruct k. Qed.

Lemma class_ok (top : bool) : let c := if top then Z.lor ClassIn ClassTopBit else ClassIn in
  uint_ok 16 c /\ Z.land c ClassMask = ClassIn /\ negb (Z.land c ClassTopBit =? 0) = top.
Proof. by destruct top. Qed.

Lemma reads_record rec : record_ok rec -> Z.of_nat (length (enc_rdata rec)) < 2 ^ 16 ->
  reads readRecord (enc_record rec) (Some rec).
Proof.
  intros (Hn & Ht & Hr) Hlen. unfold enc_record, readRecord.
  destruct (kind_code_ok (r_kind rec)) as [K1 K2]. destruct (class_ok (cacheFlush rec)) as (C1 & C2 & C3).
  cbv zeta in *. fold (recordClass rec) in C1, C2, C3.
  eapply reads_bind; [by apply reads_name|]. eapply reads_bind; [by apply reads_short|].
  eapply reads_bind; [by apply reads_short|]. eapply reads_bind; [by apply reads_long|].
  eapply reads_bind; [apply reads_short; unfold uint_ok; lia|].
  pose proof (reads_rdata rec Hr) as HR. intros pre post. unfold mbind, parser_bind. cbn [self data pos].
  rewrite Nat2Z.id, (proj2 (Nat.ltb_ge _ _)) by (rewrite !length_app; lia).
  rewrite C2, Z.eqb_refl, K1, C3. cbn [negb].
  rewrite HR. cbn [pos]. by rewrite Nat.eqb_refl.
Qed.

Lemma reads_question q : question_ok q -> reads readQuestion (enc_question q) (Some q).
Proof.
  intros Hn. destruct q as [name kind uni]. unfold enc_question, readQuestion, questionClass, question_ok in *.
  cbn [q_name q_kind unicastResponse] in *.
  destruct (kind_code_ok kind) as [K1 K2]. destruct (class_ok uni) as (C1 & C2 & C3). cbv zeta in *.
  eapply reads_bind; [by apply reads_name|]. eapply reads_bind; [by apply reads_short|].
  eapply reads_bind_ret; [by apply reads_short|]. cbv zeta. rewrite C2, Z.eqb_refl, K1, C3. apply reads_ret.
Qed.

Lemma reads_section {B} (p : parser (option B)) (enc : B -> bytes) l : Forall (fun x => reads p (enc x) (Some x)) l ->
  forall acc, reads (read_section p (length l) acc) (l ≫= enc) (acc ++ l).
Proof.
  induction 1 as [|x l Hx Hl IH]; intros acc; cbn [length read_section mbind list_bind].
  - rewrite app_nil_r. apply reads_ret.
  - eapply reads_bind; [exact Hx|]. specialize (IH (acc ++ [x])). by rewrite <- app_assoc in IH.
Qed.

(** ** The writers *)

Definition named (name : DnsName) : Prop := name_ok name /\ name <> [].

(** What the writers accept: no root name, an address of the family of the record, strings and
data that fit. *)
Definition rdata_writable (rec : DnsRecord) : Prop :=
  match r_kind rec with
  | A | AAAA => exists ip, parseIpAddress (address rec) = Some ip /\ is_v6 ip = bool_decide (r_kind rec = AAAA)
  | PTR | SRV => named (target rec)
  | TXT => Forall string_ok (strings rec)
  end.

Definition writable (rec : DnsRecord) : Prop :=
  named (r_name rec) /\ rdata_writable rec /\ Z.of_nat (length (enc_rdata rec)) < 2 ^ 16.

Lemma writeName_loop_iff l : forall buf n b, Forall bytes_ok l ->
  writeName_loop buf l n = Ok b <->
  (Forall label_ok l /\ (l <> [] -> n - 1 + name_size l <= MaxNameLength)) /\ b = buf ++ enc_labels l.
Proof.
  unfold MaxNameLength. induction l as [|t l IH]; intros buf n b Hl; cbn [writeName_loop enc_labels].
  { rewrite app_nil_r. split; [intros; simplify_eq; split; [split; [constructor|done]|done]|by intros [_ ->]]. }
  apply Forall_cons_1 in Hl as [Ht Hl]. set (k := Z.of_nat (length t)).
  assert (Hn : 1 <= name_size l) by (clear; induction l; cbn; lia).
  assert (HF : forall P Q, Forall label_ok (t :: l) /\ P <-> Q -> (label_ok t /\ Forall label_ok l) /\ P <-> Q)
    by (intros; rewrite <- Forall_cons; done).
  cbn [name_size]. fold k. unfold MaxNameLength, MaxLabelLength.
  destruct (Z.ltb_spec k 1).
  { split; [done|]. intros [[[[_ [? _]] _]%Forall_cons_1 _] _]. unfold k in *. lia. }
  destruct (Z.ltb_spec 63 k).
  { split; [done|]. intros [[[[_ [_ H3]] _]%Forall_cons_1 _] _]. unfold k, MaxLabelLength in *. lia. }
  destruct (Z.ltb_spec 255 (n + (k + 1))) as [Hbig|Hfit].
  { split; [done|]. intros [[_ H3] _]. specialize (H3 ltac:(done)). lia. }
  rewrite IH by done. rewrite <- app_assoc. cbn [app]. split.
  - intros [[Hf Hs] ->]. split; [split|done].
    + constructor; [|done]. split; [done|]. unfold k, MaxLabelLength in *. lia.
    + intros _. destruct l; [cbn in *; lia|]. specialize (Hs ltac:(done)). lia.
  - intros [[[_ Hf]%Forall_cons_1 Hs] ->]. specialize (Hs ltac:(done)). split; [split; [done|]|done]. intros _. lia.
Qed.

Lemma writeName_iff buf name b : Forall bytes_ok name ->
  writeName buf name = Ok b <-> named name /\ b = buf ++ enc_name name.
Proof.
  intros Hb. unfold writeName, named, name_ok, enc_name. destruct name as [|t l]; [by split; [|intros [[_ ?] _]]|].
  cbn [length]. rewrite (proj2 (Nat.ltb_ge _ _)) by lia.
  pose proof (fun c => writeName_loop_iff (t :: l) buf 1 c Hb) as HI. rewrite app_assoc.
  destruct (writeName_loop buf (t :: l) 1) as [c|e]; cbn [mbind result_bind mret result_ret].
  - destruct (proj1 (HI c) eq_refl) as [[Hf Hs] ->]. specialize (Hs ltac:(done)). split.
    + intros [= <-]. split; [|done]. split; [|done]. split; [done|lia].
    + by intros [_ ->].
  - split; [done|]. intros [[[Hf Hs] _] ->].
    assert (E : Err e = Ok (buf ++ enc_labels (t :: l))); [|done].
    apply HI. split; [|done]. split; [done|]. intros _. lia.
Qed.

Lemma writeCharStrings_iff l : forall buf b, Forall bytes_ok l ->
  writeCharStrings buf l = Ok b <-> Forall string_ok l /\ b = buf ++ enc_labels l.
Proof.
  induction l as [|t l IH]; intros buf b Hl; cbn [writeCharStrings enc_labels].
  { rewrite app_nil_r. split; [by intros [= <-]|by intros [_ ->]]. }
  apply Forall_cons_1 in Hl as [Ht Hl]. destruct (Z.ltb_spec 255 (Z.of_nat (length t))).
  { split; [done|]. intros [[[_ ?] _]%Forall_cons_1 _]. lia. }
  rewrite IH by done. rewrite <- app_assoc, Forall_cons. unfold string_ok at 2. tauto.
Qed.

Lemma writeIp_iff buf t v6 b : writeIp buf t v6 = Ok b <->
  (exists ip, parseIpAddress t = Some ip /\ is_v6 ip = v6) /\
  b = buf ++ match parseIpAddress t with Some ip => ipBytes ip | None => [] end.
Proof.
  unfold writeIp. destruct (parseIpAddress t) as [ip|]; [|split; [done|by intros [[? [? _]] _]]].
  destruct (eqb_spec (is_v6 ip) v6) as [E|E]; cbn [negb].
  - split; [intros [= <-]; by eauto|by intros [_ ->]].
  - split; [done|]. intros [(ip' & [= <-] & ?) _]. done.
Qed.

Lemma writeRdata_iff buf rec b : typed_record rec ->
  writeRdata buf rec = Ok b <-> rdata_writable rec /\ b = buf ++ enc_rdata rec.
Proof.
  intros (_ & _ & _ & Ht & _ & _ & _ & Hs). unfold rdata_writable, writeRdata, enc_rdata.
  destruct (r_kind rec).
  - apply writeIp_iff.
  - by apply writeName_iff.
  - by apply writeCharStrings_iff.
  - apply writeIp_iff.
  - rewrite writeName_iff, <- !app_assoc by done. tauto.
Qed.

Lemma blit_middle {B} (a k c r : list B) : length k = length c -> blit (length a) k (a ++ c ++ r) = a ++ k ++ r.
Proof.
  intros Hl. unfold blit. rewrite take_app_length, Hl, <- length_app. do 2 f_equal. rewrite app_assoc. apply drop_app_length.
Qed.

Lemma writeRecord_iff buf rec b : typed_record rec ->
  writeRecord buf rec = Ok b <-> writable rec /\ b = buf ++ enc_record rec.
Proof.
  intros Hrec. pose proof Hrec as (Hn & _). unfold writeRecord, writable, enc_record.
  pose proof (fun c => writeName_iff buf (r_name rec) c Hn) as HN.
  destruct (writeName buf (r_name rec)) as [b1|e]; cbn [mbind result_bind].
  2: { split; [done|]. intros [[Hn' _] _]. by pose proof (proj2 (HN _) (conj Hn' eq_refl)). }
  destruct (proj1 (HN b1) eq_refl) as [Hn' ->].
  set (head := (buf ++ enc_name (r_name rec)) ++ _).
  pose proof (fun c => writeRdata_iff (head ++ toBytesBE 2 0) rec c Hrec) as HR.
  destruct (writeRdata (head ++ toBytesBE 2 0) rec) as [b2|e]; cbn [mbind result_bind].
  2: { split; [done|]. intros [(_ & Hr' & _) _]. by pose proof (proj2 (HR _) (conj Hr' eq_refl)). }
  destruct (proj1 (HR b2) eq_refl) as [Hr' ->].
  assert (El : Z.of_nat (length ((head ++ toBytesBE 2 0) ++ enc_rdata rec)) - Z.of_nat (length head) - 2 =
    Z.of_nat (length (enc_rdata rec))) by (rewrite !length_app, toBytesBE_length; lia).
  rewrite El. destruct (Z.ltb_spec (2 ^ 16 - 1) (Z.of_nat (length (enc_rdata rec)))).
  { split; [done|]. intros [(_ & _ & ?) _]. lia. }
  rewrite <- app_assoc, blit_middle by (by rewrite !toBytesBE_length). unfold head. rewrite <- !app_assoc.
  cbn [mret result_ret]. split; [|by intros [_ ->]]. intros [= <-]. split; [split_and!; [done..|lia]|done].
Qed.

Lemma writeQuestion_iff buf q b : Forall bytes_ok (q_name q) ->
  writeQuestion buf q = Ok b <-> named (q_name q) /\ b = buf ++ enc_question q.
Proof.
  intros Hn. unfold writeQuestion, enc_question. pose proof (fun c => writeName_iff buf (q_name q) c Hn) as HN.
  destruct (writeName buf (q_name q)) as [b1|e]; cbn [mbind result_bind mret result_ret].
  - destruct (proj1 (HN b1) eq_refl) as [Hn' ->]. rewrite <- app_assoc. split; [by intros [= <-]|by intros [_ ->]].
  - split; [done|]. intros [Hn' _]. by pose proof (proj2 (HN _) (conj Hn' eq_refl)).
Qed.

Lemma write_all_err {B} (write : bytes -> B -> result DnsError bytes) l e :
  foldl (fun buf x => buf ← buf; write buf x) (Err e) l = Err e.
Proof. by induction l. Qed.

Lemma write_all_iff {B} (write : bytes -> B -> result DnsError bytes) (P Q : B -> Prop) enc l :
  (forall buf x b, P x -> write buf x = Ok b <-> Q x /\ b = buf ++ enc x) -> Forall P l ->
  forall buf b, write_all write buf l = Ok b <-> Forall Q l /\ b = buf ++ (l ≫= enc).
Proof.
  intros Hw. unfold write_all. induction 1 as [|x l Hx Hl IH]; intros buf b; cbn [foldl mbind list_bind].
  { rewrite app_nil_r. split; [by intros [= <-]|by intros [_ ->]]. }
  cbn [result_bind]. pose proof (fun c => Hw buf x c Hx) as HW. destruct (write buf x) as [c|e].
  - destruct (proj1 (HW c) eq_refl) as [Hq ->]. rewrite IH, Forall_cons, <- app_assoc. tauto.
  - rewrite write_all_err. split; [done|]. intros [[Hq _]%Forall_cons_1 _]. by pose proof (proj2 (HW _) (conj Hq eq_refl)).
Qed.

(** What [encodeMessage] accepts. *)
Definition encodable (msg : DnsMessage) : Prop :=
  Forall (fun q => named (q_name q)) (questions msg) /\
  Forall writable (answers msg) /\ Forall writable (additionals msg) /\
  Z.of_nat (length (questions msg)) < 2 ^ 16 /\ Z.of_nat (length (answers msg)) < 2 ^ 16 /\
  Z.of_nat (length (additionals msg)) < 2 ^ 16.

Definition enc_header (msg : DnsMessage) : bytes :=
  toBytesBE 2 (m_id msg) ++ toBytesBE 2 (if response msg then ResponseFlags else 0) ++
  toBytesBE 2 (Z.of_nat (length (questions msg))) ++ toBytesBE 2 (Z.of_nat (length (answers msg))) ++
  toBytesBE 2 0 ++ toBytesBE 2 (Z.of_nat (length (additionals msg))).

Definition enc_message (msg : DnsMessage) : bytes :=
  enc_header msg ++ (questions msg ≫= enc_question) ++ (answers msg ≫= enc_record) ++ (additionals msg ≫= enc_record).

Lemma sectionCount_spec n s : sectionCount n s = (if 2 ^ 16 - 1 <? Z.of_nat n then Err (TooMany s) else Ok (Z.of_nat n)).
Proof. done. Qed.

Lemma encodeMessage_iff msg b : typed msg -> encodeMessage msg = Ok b <-> encodable msg /\ b = enc_message msg.
Proof.
  intros (Hid & Hq & Ha & Hr). unfold encodeMessage, encodable, enc_message, enc_header. rewrite !sectionCount_spec.
  destruct (Z.ltb_spec (2 ^ 16 - 1) (Z.of_nat (length (questions msg)))).
  { split; [done|]. intros [(? & ? & ? & ? & ? & ?) _]. lia. }
  cbn [mbind result_bind]. destruct (Z.ltb_spec (2 ^ 16 - 1) (Z.of_nat (length (answers msg)))).
  { split; [done|]. intros [(? & ? & ? & ? & ? & ?) _]. lia. }
  cbn [mbind result_bind]. destruct (Z.ltb_spec (2 ^ 16 - 1) (Z.of_nat (length (additionals msg)))).
  { split; [done|]. intros [(? & ? & ? & ? & ? & ?) _]. lia. }
  cbn [mbind result_bind]. set (head := (_ ++ _) ++ _).
  pose proof (write_all_iff writeQuestion _ _ enc_question _ writeQuestion_iff Hq head) as HQ.
  destruct (write_all writeQuestion head (questions msg)) as [b1|e]; cbn [mbind result_bind].
  2: { split; [done|]. intros [(Hq' & _) _]. by pose proof (proj2 (HQ _) (conj Hq' eq_refl)). }
  destruct (proj1 (HQ b1) eq_refl) as [Hq' ->].
  pose proof (write_all_iff writeRecord _ _ enc_record _ writeRecord_iff Ha (head ++ (questions msg ≫= enc_question))) as HA.
  destruct (write_all writeRecord (head ++ _) (answers msg)) as [b2|e]; cbn [mbind result_bind].
  2: { split; [done|]. intros [(_ & Ha' & _) _]. by pose proof (proj2 (HA _) (conj Ha' eq_refl)). }
  destruct (proj1 (HA b2) eq_refl) as [Ha' ->].
  rewrite (write_all_iff writeRecord _ _ enc_record _ writeRecord_iff Hr). unfold head. rewrite <- !app_assoc.
  assert (forall n, n <= 2 ^ 16 - 1 -> n < 2 ^ 16) by lia. intuition (auto; lia).
Qed.

Lemma named_ok name : named name -> name_ok name.
Proof. by intros []. Qed.

(** What is written is the normal record. *)
Lemma normal_record_ok rec : typed_record rec -> writable rec ->
  record_ok (normal_record rec) /\ enc_record (normal_record rec) = enc_record rec /\
  Z.of_nat (length (enc_rdata (normal_record rec))) < 2 ^ 16.
Proof.
  intros (_ & Ht & _ & _ & Hp & Hw & Ho & _) (Hn & Hr & Hl).
  assert (E : enc_rdata (normal_record rec) = enc_rdata rec /\ rdata_ok (normal_record rec) /\
    r_name (normal_record rec) = r_name rec /\ r_kind (normal_record rec) = r_kind rec /\
    ttl (normal_record rec) = ttl rec /\ cacheFlush (normal_record rec) = cacheFlush rec).
  { destruct rec as [name kind tl flush addr tgt prio wt pt strs].
    unfold rdata_writable, rdata_ok, enc_rdata, normal_record, no_address, no_target, no_service, no_strings in *.
    cbn [address r_name r_kind ttl cacheFlush target priority weight port strings] in *. destruct kind.
    1, 4: destruct Hr as (ip & E & E6); rewrite E; pose proof (parse_valid addr ip E) as Hv;
      cbn [address r_name r_kind ttl cacheFlush target priority weight port strings];
      rewrite parse_ip_text by done; split_and!; try done; by exists ip.
    all: cbn [address r_name r_kind ttl cacheFlush target priority weight port strings];
      split_and!; try done; by apply named_ok. }
  destruct E as (E1 & E2 & E3 & E4 & E5 & E6). unfold record_ok, enc_record, recordClass.
  rewrite E1, E3, E4, E5, E6. split_and!; try done. by apply named_ok.
Qed.

Lemma normal_record_canonical rec : record_ok rec -> normal_record rec = rec.
Proof.
  intros (_ & _ & Hr). destruct rec as [name kind tl flush addr tgt prio wt pt strs].
  unfold rdata_ok, normal_record, no_address, no_target, no_service, no_strings in *.
  cbn [address r_name r_kind ttl cacheFlush target priority weight port strings] in *.
  destruct kind; [destruct Hr as ((ip & Hv & _ & ->) & Hr); rewrite parse_ip_text by done| | |
    destruct Hr as ((ip & Hv & _ & ->) & Hr); rewrite parse_ip_text by done|]; naive_solver.
Qed.

Lemma normal_canonical msg : canonical msg -> normal msg = msg.
Proof.
  assert (E : forall l, Forall record_ok l -> normal_record <$> l = l).
  { induction 1 as [|rec l Hrec Hl IH]; [done|]. cbn. by rewrite normal_record_canonical, IH. }
  intros (_ & _ & Ha & Hr). unfold normal. rewrite !E by done. by destruct msg.
Qed.

(** ** Reading a message that was written *)

Lemma reads_run {B} (p : parser B) e v : reads p e v -> run_parser p e = Some (Ok v).
Proof. intros Hp. unfold run_parser. specialize (Hp [] []). cbn [app length] in Hp. rewrite app_nil_r in Hp. by rewrite Hp. Qed.

Lemma reads_header id fl qd an ns ar :
  uint_ok 16 id -> uint_ok 16 fl -> uint_ok 16 qd -> uint_ok 16 an -> uint_ok 16 ns -> uint_ok 16 ar ->
  reads readHeader (toBytesBE 2 id ++ toBytesBE 2 fl ++ toBytesBE 2 qd ++ toBytesBE 2 an ++ toBytesBE 2 ns ++ toBytesBE 2 ar)
    (mkDnsHeader id fl qd an ns ar).
Proof.
  intros. unfold readHeader. do 5 (eapply reads_bind; [by apply reads_short|]).
  eapply reads_bind_ret; [by apply reads_short|]. apply reads_ret.
Qed.

Lemma parse_header {B} (head body : bytes) h (f : DnsHeader -> parser B) v :
  length head = 12%nat -> reads readHeader head h -> reads (f h) body v ->
  (length (head ++ body) <? HeaderSize)%nat = false /\ run_parser (h ← readHeader; f h) (head ++ body) = Some (Ok v).
Proof.
  intros Hl Hh Hf. split; [apply Nat.ltb_ge; rewrite length_app, Hl; unfold HeaderSize; lia|].
  apply reads_run. by eapply reads_bind.
Qed.

Lemma response_flags r : uint_ok 16 (if r : bool then ResponseFlags else 0) /\
  negb (Z.land (if r then ResponseFlags else 0) QrMask =? 0) = r.
Proof. by destruct r. Qed.

Lemma normal_section l acc : Forall typed_record l -> Forall writable l ->
  reads (read_section readRecord (length l) acc) (l ≫= enc_record) (acc ++ (normal_record <$> l)).
Proof.
  intros Ht Hw. rewrite <- (length_fmap normal_record).
  assert (E : l ≫= enc_record = (normal_record <$> l) ≫= enc_record).
  { clear acc. induction l as [|rec l IH]; [done|]. apply Forall_cons_1 in Ht as [Ht Hts], Hw as [Hw Hws].
    destruct (normal_record_ok rec Ht Hw) as (_ & E & _). cbn. by rewrite E, <- IH. }
  rewrite E. apply reads_section. apply Forall_fmap.
  apply Forall_forall. intros rec Hrec.
  destruct (normal_record_ok rec) as (? & _ & ?); [by eapply Forall_forall in Ht|by eapply Forall_forall in Hw|].
  by apply reads_record.
Qed.

Lemma parse_enc_message msg : typed msg -> encodable msg ->
  parseMessage (enc_message msg) = Some (Ok (normal msg)).
Proof.
  intros (Hid & _ & Ta & Tr) (Hq & Ha & Hr & Lq & La & Lr). unfold parseMessage, enc_message.
  destruct (response_flags (response msg)) as [F1 F2].
  set (f := fun header : DnsHeader => _).
  set (h := mkDnsHeader (m_id msg) (if response msg then ResponseFlags else 0) (Z.of_nat (length (questions msg)))
    (Z.of_nat (length (answers msg))) 0 (Z.of_nat (length (additionals msg)))).
  destruct (parse_header (enc_header msg) ((questions msg ≫= enc_question) ++ (answers msg ≫= enc_record) ++
    (additionals msg ≫= enc_record)) h f (normal msg)) as [E1 E2].
  - unfold enc_header. by rewrite !length_app, !toBytesBE_length.
  - apply reads_header; try done; unfold uint_ok in *; lia.
  - unfold f, h. cbn [qdcount ancount nscount arcount h_id]. rewrite !Nat2Z.id.
    eapply reads_bind; [apply reads_section|].
    { eapply Forall_impl; [exact Hq|]. intros q Hn. by apply reads_question, named_ok. }
    eapply reads_bind; [by apply normal_section|].
    rewrite <- (app_nil_l (additionals msg ≫= _)). eapply reads_bind; [apply (reads_ret [])|].
    eapply reads_bind_ret; [by apply normal_section|].
    unfold isResponse. cbn [flags app]. rewrite F2. apply reads_ret.
  - rewrite E1. exact E2.
Qed.

Lemma split_dots_bytes name : forall label, bytes_ok label -> bytes_ok name -> Forall bytes_ok (split_dots label name).
Proof.
  induction name as [|c name IH]; intros label Hl Hn; cbn [split_dots]; [by constructor|].
  apply Forall_cons_1 in Hn as [Hc Hn]. destruct (c =? 46); [constructor; [done|]|]; apply IH; try done; [constructor|].
  apply Forall_app. split; [done|]. by constructor.
Qed.

Lemma uint16_nat n k : uint_ok 16 n -> (k <= 0 + Z.to_nat n)%nat -> Z.of_nat k < 2 ^ 16.
Proof. unfold uint_ok. lia. Qed.

Lemma total_header_counts : total readHeader (fun h =>
  uint_ok 16 (h_id h) /\ uint_ok 16 (qdcount h) /\ uint_ok 16 (ancount h) /\ uint_ok 16 (arcount h)).
Proof.
  unfold readHeader. do 6 (eapply total_bind; [apply total_readShort|intros ? ?]). by apply total_ret.
Qed.

Lemma parseMessage_total d : bytes_ok d ->
  match parseMessage d with
  | Some (Ok msg) => canonical msg /\ (HeaderSize <= length d)%nat /\
      Z.of_nat (length (questions msg)) < 2 ^ 16 /\ Z.of_nat (length (answers msg)) < 2 ^ 16 /\
      Z.of_nat (length (additionals msg)) < 2 ^ 16
  | Some (Err _) => True
  | None => False
  end.
Proof.
  intros Hd. unfold parseMessage. destruct (Nat.ltb_spec (length d) HeaderSize) as [|Hlen]; [done|].
  apply (total_run _ _ d); [|done].
  eapply total_bind; [apply total_header_counts|]. intros h (Hid & Hqd & Han & Har).
  eapply total_bind; [apply (total_section _ question_ok), Forall_nil_2; apply total_readQuestion|]. intros qs [Hq Lq].
  eapply total_bind; [apply (total_section _ record_ok), Forall_nil_2; apply total_readRecord|]. intros ans [Ha La].
  eapply total_bind; [apply (total_section _ record_ok), Forall_nil_2; apply total_readRecord|]. intros _ _.
  eapply total_bind; [apply (total_section _ record_ok), Forall_nil_2; apply total_readRecord|]. intros ads [Hr Lr].
  apply total_ret. split; [split; [done|by split_and!]|]. split; [done|]. cbn [questions answers additionals length] in *.
  split_and!; [apply (uint16_nat (qdcount h))|apply (uint16_nat (ancount h))|apply (uint16_nat (arcount h))]; done.
Qed.

Lemma parseAnswers_total d expectedId : bytes_ok d ->
  match parseAnswers d expectedId with
  | Some (Ok l) => (HeaderSize <= length d <= MaxPacketSize)%nat /\
      Forall (fun a => exists rec, record_ok rec /\ to_answer rec = Some a) l
  | Some (Err _) => True
  | None => False
  end.
Proof.
  intros Hd. unfold parseAnswers. destruct (Nat.ltb_spec (length d) HeaderSize) as [|Hlen]; [done|].
  destruct (Nat.ltb_spec MaxPacketSize (length d)) as [|Hmax]; [done|].
  apply (total_run _ _ d); [|done].
  eapply total_bind; [apply total_readHeader|]. intros h _.
  destruct (negb (h_id h =? expectedId)); [apply total_raise|].
  destruct (negb (isResponse h)); [apply total_raise|]. destruct (qdcount h =? 0); [apply total_raise|].
  eapply total_bind; [apply (total_section _ question_ok), Forall_nil_2; apply total_readQuestion|]. intros _ _.
  eapply total_weaken; [|apply (total_section _ (fun a => exists rec, record_ok rec /\ to_answer rec = Some a)), Forall_nil_2].
  - intros l [Hl _]. by split.
  - eapply total_bind; [apply total_readRecord|]. intros o Ho. apply total_ret.
    destruct o as [rec|]; cbn; [|done]. destruct (to_answer rec) eqn:E; [|done]. by exists rec.
Qed.

Lemma parse_encodeQuery id name kind b : uint_ok 16 id -> bytes_ok name -> encodeQuery id name kind = Ok b ->
  parseMessage b = Some (Ok (mkDnsMessage id false [mkDnsQuestion (toDnsName name) kind false] [] [])).
Proof.
  intros Hid Hn. unfold encodeQuery. set (head := _ ++ _ ++ _). set (q := mkDnsQuestion _ _ _).
  rewrite writeQuestion_iff by (by apply split_dots_bytes; [constructor|]). intros [Hq ->].
  assert (E : forall x, uint_ok 16 x -> toBytesBE 2 x = [x / 256; x mod 256]).
  { intros x Hx. pose proof (toBytesBE_length 2 x) as Hl. pose proof (toBytesBE_bytes 2 x) as Hb.
    pose proof (toBytesBE_value 2 x Hx) as Hv. destruct (toBytesBE 2 x) as [|u [|v [|]]]; try done.
    apply Forall_cons_1 in Hb as [Hu [Hv' _]%Forall_cons_1]. unfold be_value, byte_ok in *. cbn in Hv.
    assert (x = u * 256 + v) as -> by lia. rewrite Z.div_add_l, Z.div_small, Z.add_0_r by lia.
    by rewrite Z.add_comm, Z_mod_plus_full, Z.mod_small. }
  set (h := mkDnsHeader id 0x0100 1 0 0 0). unfold parseMessage. set (f := fun header : DnsHeader => _).
  destruct (parse_header head (enc_question q) h f (mkDnsMessage id false [q] [] [])) as [E1 E2].
  - unfold head. by rewrite !length_app, toBytesBE_length.
  - pose proof (reads_header id 0x0100 1 0 0 0 Hid ltac:(done) ltac:(done) ltac:(done) ltac:(done) ltac:(done)) as HR.
    rewrite (E 0x0100), (E 1), (E 0) in HR by done. exact HR.
  - unfold f, h. cbn [qdcount ancount nscount arcount h_id].
    eapply reads_bind_ret; [apply (reads_bind_ret _ _ _ (Some q)); [by apply reads_question, named_ok|apply reads_ret]|].
    do 3 (eapply reads_bind_ret; [apply reads_ret|]). apply reads_ret.
  - rewrite E1. exact E2.
Qed.

(** ** Properties *)

(** C16: on any bytes [parseMessage] and [parseAnswers] return, with a message or a [ValueError]:
the compression pointers cannot make them loop and no index is out of range.  A message read has
labels of 1 to 63 bytes and names of at most 255, character-strings of at most 255 bytes, numbers
in range, and only the fields of each record's kind; the addresses are texts of addresses.  An
answer comes from a packet of at most 512 bytes and is an address or the strings of a TXT record. *)
Theorem dns_readers_total (data : bytes) (expectedId : Z) : bytes_ok data ->
  match parseMessage data with
  | Some (Ok msg) => canonical msg /\ (HeaderSize <= length data)%nat /\
      Z.of_nat (length (questions msg)) < 2 ^ 16 /\ Z.of_nat (length (answers msg)) < 2 ^ 16 /\
      Z.of_nat (length (additionals msg)) < 2 ^ 16
  | Some (Err _) => True
  | None => False
  end /\
  match parseAnswers data expectedId with
  | Some (Ok l) => (HeaderSize <= length data <= MaxPacketSize)%nat /\
      Forall (fun a => exists rec, record_ok rec /\ to_answer rec = Some a) l
  | Some (Err _) => True
  | None => False
  end.
Proof.
  intros Hd. split; [by apply parseMessage_total|by apply parseAnswers_total].
Qed.

(** C17: [encodeMessage] succeeds on a message exactly when every name has at least one label and
fits, every A and AAAA address parses to an address of its family, every string and the data of
every record fit and no section has more than 65535 entries; what it writes is then read back by
[parseMessage] as the message without the fields of other kinds and with the addresses as [$]
writes them, which is the message itself when it is one that the wire can carry, as every message
read is (C16).  A query that [encodeQuery] writes is read back as the one question, with the
labels of its name. *)
Theorem dns_roundtrip (msg : DnsMessage) : typed msg ->
  ((exists b, encodeMessage msg = Ok b) <-> encodable msg) /\
  (forall b, encodeMessage msg = Ok b -> parseMessage b = Some (Ok (normal msg))) /\
  (canonical msg -> normal msg = msg) /\
  (forall id name kind b, uint_ok 16 id -> bytes_ok name -> encodeQuery id name kind = Ok b ->
    parseMessage b = Some (Ok (mkDnsMessage id false [mkDnsQuestion (toDnsName name) kind false] [] []))).
Proof.
  intros Ht. pose proof (encodeMessage_iff msg) as HE. split_and!.
  - split; [intros [b Hb]; by apply (HE b Ht) in Hb as [? _]|]. intros He. eexists. by apply HE.
  - intros b [He ->]%(HE b Ht). by apply parse_enc_message.
  - apply normal_canonical.
  - intros id name kind b. apply parse_encodeQuery.
Qed.

End Codec.

(** Texts that are the bytes of the address after a character for the family. *)
Definition raw_parse (t : text) : option IpAddress :=
  match t with
  | [] => None
  | c :: b =>
      if negb (forallb (fun x => (0 <=? x) && (x <? 256)) b) then None
      else if (c =? 52) && (length b =? 4)%nat then Some (IPv4 b)
      else if (c =? 54) && (length b =? 16)%nat then Some (IPv6 b)
      else None
  end.

Definition raw_ip_text (ip : IpAddress) : text := match ip with IPv4 b => 52 :: b | IPv6 b => 54 :: b end.

Lemma forallb_bytes b : forallb (fun x => (0 <=? x) && (x <? 256)) b = true <-> bytes_ok b.
Proof.
  rewrite forallb_forall. unfold bytes_ok, byte_ok. rewrite Forall_forall.
  split; intros H x Hx; specialize (H x); rewrite list_elem_of_In in *; specialize (H Hx); lia.
Qed.

Lemma raw_parse_text ip : valid ip -> raw_parse (raw_ip_text ip) = Some ip.
Proof.
  intros [Hb Hl]. destruct ip as [b|b]; cbn in *; rewrite (proj2 (forallb_bytes b) Hb), Hl; done.
Qed.

Lemma raw_parse_valid t ip : raw_parse t = Some ip -> valid ip.
Proof.
  destruct t as [|c b]; [done|]. cbn. destruct (forallb _ b) eqn:Hb; [|done]. apply forallb_bytes in Hb. cbn [negb].
  destruct (Z.eqb_spec c 52), (Nat.eqb_spec (length b) 4); cbn [andb]; try (by intros [= <-]);
    destruct (Z.eqb_spec c 54), (Nat.eqb_spec (length b) 16); cbn [andb]; try done; by intros [= <-].
Qed.

Definition raw_text : IpText := {|
  parseIpAddress := raw_parse; ip_text := raw_ip_text;
  parse_ip_text := raw_parse_text; parse_valid := raw_parse_valid;
|}.

(** "_http" and "a". *)
Definition demo_name : DnsName := [[95; 104; 116; 116; 112]; [97]].

Definition demo_message : DnsMessage :=
  mkDnsMessage 7 true [mkDnsQuestion demo_name SRV true]
    [mkDnsRecord demo_name SRV 120 true [] [[98]] 1 2 8080 []; mkDnsRecord [[97]] A 60 false [52; 10; 0; 0; 1] [] 0 0 0 []]
    [mkDnsRecord demo_name TXT 120 false [] [] 0 0 0 [[107; 61; 118]; []]].

(** A response whose answer's name is a pointer to itself, then the same with a pointer to the question. *)
Definition pointer_packet (offset : Z) : bytes :=
  [0; 7; 0x84; 0; 0; 1; 0; 1; 0; 0; 0; 0; 1; 97; 0; 0; 1; 0; 1; 0xC0; offset; 0; 1; 0; 1; 0; 0; 0; 60; 0; 4; 10; 0; 0; 1].

Lemma dns_readers_total_witness :
  bytes_ok (pointer_packet 12) /\
  @parseAnswers endians_ref raw_text (pointer_packet 12) 7 = Some (Ok [mkDnsAnswer A [52; 10; 0; 0; 1]]) /\
  @parseAnswers endians_ref raw_text (pointer_packet 19) 7 = Some (Err CompressionLoop) /\
  match @parseMessage endians_ref raw_text (pointer_packet 12) with
  | Some (Ok msg) => @canonical raw_text msg
  | _ => False
  end.
Proof.
  assert (Hd : bytes_ok (pointer_packet 12)) by (repeat constructor; cbn; lia).
  destruct (@dns_readers_total endians_ref raw_text (pointer_packet 12) 7 Hd) as [H _].
  split_and!; [exact Hd|by vm_compute|by vm_compute|].
  destruct (@parseMessage endians_ref raw_text (pointer_packet 12)) as [[msg|e]|] eqn:E; [apply H| |exact H].
  by vm_compute in E.
Defined.

(** The same with an address of the wrong family. *)
Definition wrong_message : DnsMessage :=
  mkDnsMessage 7 true [] [mkDnsRecord [[97]] AAAA 60 false [52; 10; 0; 0; 1] [] 0 0 0 []] [].

Lemma dns_roundtrip_witness :
  typed demo_message /\ (exists b, @encodeMessage endians_ref raw_text demo_message = Ok b /\
    @parseMessage endians_ref raw_text b = Some (Ok (@normal raw_text demo_message))) /\
  typed wrong_message /\ ~ @encodable endians_ref raw_text wrong_message.
Proof.
  assert (Ht : typed demo_message) by (repeat (split || constructor); cbn; try lia; done).
  assert (Hw : typed wrong_message) by (repeat (split || constructor); cbn; try lia; done).
  destruct (@dns_roundtrip endians_ref raw_text demo_message Ht) as (_ & H & _).
  destruct (@dns_roundtrip endians_ref raw_text wrong_message Hw) as (H' & _).
  split; [exact Ht|]. split; [eexists; split; [by vm_compute|apply H; by vm_compute]|]. split; [exact Hw|].
  intros He. apply H' in He as [b Hb]. by vm_compute in Hb.
Defined.
