(* ===== verification/AdvertisementCache.v ===== *)
(** * AdvertisementCache: libp2p/protocols/service_discovery/advertisement_cache.nim

The registrar's cache of advertisements: for each service a table of the ads by advertiser, never
empty, with at most [capacity] ads in all, and the tree of the addresses of the advertisers
(IpTree).  The tables are iterated in an order that depends on hashes and on the past of a table:
it is an argument of each operation, see [lawful].  [onServiceRemoved] does not touch the cache
(it drops a routing table): its calls are a list that the operations return. *)
From S2P Require Import Prelude Chronos IpTree.

#[local] Open Scope Z_scope.

(** [Key]. *)
Abbreviation ServiceId := bytes (only parsing).

(** [PeerId.data]. *)
Abbreviation PeerId := bytes (only parsing).

(** What the cache reads of a signed peer record, and its encoding. *)
Record Advertisement := mkAdvertisement { ad_peerId : PeerId; ad_seqNo : Z; ad_envelope : bytes }.

Record CachedAd := mkCachedAd {
  ad : Advertisement;
  advertiser : PeerId;
  ips : list IpAddress;
  timestamp : Moment;
}.

Abbreviation Peers := (gmap PeerId CachedAd).

Record AdvertisementCache := mkAdvertisementCache {
  byService : gmap ServiceId Peers;
  ipTree : IpTree;
  capacity : Z;
  count : Z;
  (** Whether the callback is set. *)
  onServiceRemoved : bool;
}.

(** The orders in which tables are iterated. *)
Record Order := mkOrder {
  pairs_of : Peers -> list (PeerId * CachedAd);
  services_of : gmap ServiceId Peers -> list (ServiceId * Peers);
}.

Definition lawful (o : Order) : Prop :=
  (forall peers, pairs_of o peers ≡ₚ map_to_list peers) /\
  (forall t, services_of o t ≡ₚ map_to_list t).

(** [AdvertisementCache.new], with [doAssert]. *)
Definition new (capacity : Z) : option AdvertisementCache :=
  if 0 <? capacity then Some (mkAdvertisementCache ∅ IpTree.new capacity 0 false) else None.

Definition len (c : AdvertisementCache) : Z := count c.

Definition serviceLen (c : AdvertisementCache) : nat := size (byService c).

Definition serviceCacheAdsLen (c : AdvertisementCache) (serviceId : ServiceId) : nat :=
  match byService c !! serviceId with Some peers => size peers | None => 0 end.

Definition contains_service (c : AdvertisementCache) (serviceId : ServiceId) : bool :=
  bool_decide (is_Some (byService c !! serviceId)).

Definition contains (c : AdvertisementCache) (serviceId : ServiceId) (advertiser : PeerId) : bool :=
  match byService c !! serviceId with
  | Some peers => bool_decide (is_Some (peers !! advertiser))
  | None => false
  end.

(** The loop with its [break]. *)
Fixpoint collect (limit : Z) (ads : list CachedAd) (peers : list (PeerId * CachedAd)) : list CachedAd :=
  match peers with
  | [] => ads
  | (_, cachedAd) :: peers =>
      if limit <=? Z.of_nat (length ads) then ads else collect limit (ads ++ [cachedAd]) peers
  end.

Definition getServiceCachedAds (o : Order) (c : AdvertisementCache) (serviceId : ServiceId) (limit : Z) : list CachedAd :=
  if limit <=? 0 then []
  else match byService c !! serviceId with
       | Some peers => collect limit [] (pairs_of o peers)
       | None => []
       end.

Definition getCachedAd (c : AdvertisementCache) (serviceId : ServiceId) (advertiser : PeerId) : option CachedAd :=
  peers ← byService c !! serviceId; peers !! advertiser.

Definition remove (c : AdvertisementCache) (serviceId : ServiceId) (advertiser : PeerId) : AdvertisementCache * list ServiceId :=
  match byService c !! serviceId with
  | None => (c, [])
  | Some peers =>
      let '(c, peers) :=
        match peers !! advertiser with
        | Some cachedAd =>
            let peers := delete advertiser peers in
            (mkAdvertisementCache (<[serviceId := peers]> (byService c)) (removeIps (ipTree c) (ips cachedAd))
               (capacity c) (count c - 1) (onServiceRemoved c), peers)
        | None => (c, peers)
        end in
      if (0 <? size peers)%nat then (c, [])
      else
        (mkAdvertisementCache (delete serviceId (byService c)) (ipTree c) (capacity c) (count c) (onServiceRemoved c),
         if onServiceRemoved c then [serviceId] else [])
  end.

(** Calls of [remove] in a row. *)
Definition remove_all (c : AdvertisementCache) (l : list (ServiceId * PeerId)) : AdvertisementCache * list ServiceId :=
  foldl (fun '(c, removed) '(serviceId, advertiser) =>
    let '(c, r) := remove c serviceId advertiser in (c, removed ++ r)) (c, []) l.

(** Every ad of the cache with its keys, in the order of the two loops. *)
Definition entries (o : Order) (c : AdvertisementCache) : list (ServiceId * PeerId * CachedAd) :=
  '(serviceId, peers) ← services_of o (byService c);
  (fun '(advertiser, cachedAd) => (serviceId, advertiser, cachedAd)) <$> pairs_of o peers.

Section Operations.
Context `{Chronos}.

Definition findOldest (o : Order) (c : AdvertisementCache) : option (ServiceId * PeerId) :=
  (foldl (fun '(oldest, oldestTime) '(key, cachedAd) =>
    if timestamp cachedAd <=? oldestTime then (Some key, timestamp cachedAd) else (oldest, oldestTime))
    (None, moment_high) (entries o c)).1.

Definition evictOldest (o : Order) (c : AdvertisementCache) : AdvertisementCache * list ServiceId :=
  match findOldest o c with
  | Some (serviceId, advertiser) => remove c serviceId advertiser
  | None => (c, [])
  end.

Definition hasNewer (o : Order) (c : AdvertisementCache) (serviceId : ServiceId) (ad' : Advertisement) : bool :=
  match byService c !! serviceId with
  | Some peers =>
      existsb (fun '(_, cachedAd) => bool_decide (ad_peerId (ad cachedAd) = ad_peerId ad') &&
        (ad_seqNo ad' <? ad_seqNo (ad cachedAd))) (pairs_of o peers)
  | None => false
  end.

Definition superseded (o : Order) (c : AdvertisementCache) (serviceId : ServiceId) (ad' : Advertisement) : list PeerId :=
  match byService c !! serviceId with
  | Some peers =>
      omap (fun '(advertiser, cachedAd) =>
        if bool_decide (ad_peerId (ad cachedAd) = ad_peerId ad') && (ad_seqNo (ad cachedAd) <? ad_seqNo ad')
        then Some advertiser else None) (pairs_of o peers)
  | None => []
  end.

Definition removeSuperseded (o : Order) (c : AdvertisementCache) (serviceId : ServiceId) (ad' : Advertisement) : AdvertisementCache * list ServiceId :=
  remove_all c ((fun advertiser => (serviceId, advertiser)) <$> superseded o c serviceId ad').

Definition set_ad (c : AdvertisementCache) (serviceId : ServiceId) (cachedAd : CachedAd) : gmap ServiceId Peers :=
  <[serviceId := <[advertiser cachedAd := cachedAd]> (default ∅ (byService c !! serviceId))]> (byService c).

(** The two ends of [put]: the ad takes the place of [old], or is a new one. *)
Definition replace (c : AdvertisementCache) (serviceId : ServiceId) (old cachedAd : CachedAd) : AdvertisementCache :=
  mkAdvertisementCache (set_ad c serviceId cachedAd)
    (insertIps (removeIps (ipTree c) (ips old)) (ips cachedAd)) (capacity c) (count c) (onServiceRemoved c).

Definition add (c : AdvertisementCache) (serviceId : ServiceId) (cachedAd : CachedAd) : AdvertisementCache :=
  mkAdvertisementCache (set_ad c serviceId cachedAd)
    (insertIps (ipTree c) (ips cachedAd)) (capacity c) (count c + 1) (onServiceRemoved c).

Definition put (o : Order) (c : AdvertisementCache) (serviceId : ServiceId) (advertiser : PeerId)
    (ad' : Advertisement) (ips' : list IpAddress) (now : Moment) : AdvertisementCache * list ServiceId :=
  if hasNewer o c serviceId ad' then (c, [])
  else
    let '(c, removed) := removeSuperseded o c serviceId ad' in
    let cachedAd := mkCachedAd ad' advertiser ips' now in
    match getCachedAd c serviceId advertiser with
    | Some old => (replace c serviceId old cachedAd, removed)
    | None =>
        let '(c, evicted) := if capacity c <=? count c then evictOldest o c else (c, []) in
        (add c serviceId cachedAd, removed ++ evicted)
    end.

Definition pruneExpired (o : Order) (c : AdvertisementCache) (now : Moment) (expiry : Duration) : Z * AdvertisementCache * list ServiceId :=
  let cutoff := moment_back now expiry in
  let toRemove := (filter (fun e => timestamp e.2 < cutoff) (entries o c)).*1 in
  let '(c, removed) := remove_all c toRemove in (Z.of_nat (length toRemove), c, removed).

Definition clear (o : Order) (c : AdvertisementCache) : AdvertisementCache * list ServiceId :=
  let removed := (services_of o (byService c)).*1 in
  (mkAdvertisementCache ∅ IpTree.new (capacity c) 0 (onServiceRemoved c),
   if onServiceRemoved c then removed else []).

End Operations.

(** ** Two-level tables *)

Definition lookup2 (m : gmap ServiceId Peers) (s : ServiceId) (a : PeerId) : option CachedAd :=
  t ← m !! s; t !! a.

Definition vals (t : Peers) : list CachedAd := (map_to_list t).*2.

(** The ads of all services. *)
Definition all_of (m : gmap ServiceId Peers) : list CachedAd :=
  p ← map_to_list m; vals p.2.

Definition ips_of (l : list CachedAd) : list IpAddress := l ≫= ips.

Definition no_empty_table (m : gmap ServiceId Peers) : Prop := forall s t, m !! s = Some t -> t <> ∅.

Lemma vals_delete (t : Peers) a x : t !! a = Some x -> vals t ≡ₚ x :: vals (delete a t).
Proof. intros H. unfold vals. by rewrite <- (map_to_list_delete t a x H). Qed.

Lemma vals_insert (t : Peers) a x : vals (<[a := x]> t) ≡ₚ x :: vals (delete a t).
Proof.
  rewrite (vals_delete (<[a := x]> t) a x) by apply lookup_insert_eq. by rewrite delete_insert_eq.
Qed.

Lemma all_insert m s t : all_of (<[s := t]> m) ≡ₚ vals t ++ all_of (delete s m).
Proof.
  unfold all_of. rewrite <- insert_delete_eq, map_to_list_insert by apply lookup_delete_eq. done.
Qed.

Lemma all_split m s : all_of m ≡ₚ vals (default ∅ (m !! s)) ++ all_of (delete s m).
Proof.
  destruct (m !! s) as [t|] eqn:E; cbn [default].
  - rewrite <- (insert_id m s t E) at 1. apply all_insert.
  - by rewrite delete_id.
Qed.

Lemma lookup2_delete m s a s' a' : lookup2 (<[s := delete a (default ∅ (m !! s))]> m) s' a' =
  if decide ((s', a') = (s, a)) then None else lookup2 m s' a'.
Proof.
  unfold lookup2. destruct (decide (s' = s)) as [->|Hs].
  - rewrite lookup_insert_eq. cbn [mbind option_bind]. destruct (decide (a' = a)) as [->|Ha].
    + by rewrite lookup_delete_eq, decide_True.
    + rewrite lookup_delete_ne, decide_False by congruence. destruct (m !! s); [done|]. cbn. apply lookup_empty.
  - rewrite lookup_insert_ne, decide_False by congruence. done.
Qed.

Lemma lookup2_set c s x s' a' : lookup2 (set_ad c s x) s' a' =
  if decide ((s', a') = (s, advertiser x)) then Some x else getCachedAd c s' a'.
Proof.
  unfold lookup2, set_ad, getCachedAd. destruct (decide (s' = s)) as [->|Hs].
  - rewrite lookup_insert_eq. cbn [mbind option_bind]. destruct (decide (a' = advertiser x)) as [->|Ha].
    + by rewrite lookup_insert_eq, decide_True.
    + rewrite lookup_insert_ne, decide_False by congruence.
      destruct (byService c !! s); [done|]. cbn. apply lookup_empty.
  - rewrite lookup_insert_ne, decide_False by congruence. done.
Qed.

(** Taking a table out that has become empty changes no lookup. *)
Lemma lookup2_drop m s s' a' : m !! s = Some ∅ -> lookup2 (delete s m) s' a' = lookup2 m s' a'.
Proof.
  intros E. unfold lookup2. destruct (decide (s' = s)) as [->|Hs].
  - rewrite lookup_delete_eq, E. cbn. by rewrite lookup_empty.
  - by rewrite lookup_delete_ne.
Qed.

Lemma all_drop m s : m !! s = Some ∅ -> all_of m ≡ₚ all_of (delete s m).
Proof. intros E. rewrite (all_split m s), E. done. Qed.

Lemma lookup2_Some m s : no_empty_table m -> is_Some (m !! s) <-> exists a x, lookup2 m s a = Some x.
Proof.
  intros Hm. unfold lookup2. split.
  - intros [t E]. destruct (map_choose t (Hm _ _ E)) as (b & x & Hx). exists b, x. by rewrite E.
  - intros (b & x & E). destruct (m !! s); [by eexists|done].
Qed.

(** ** Removing an ad *)

Lemma remove_present c s a x : getCachedAd c s a = Some x -> no_empty_table (byService c) ->
  exists m, remove c s a = (mkAdvertisementCache m (removeIps (ipTree c) (ips x)) (capacity c) (count c - 1)
      (onServiceRemoved c), if onServiceRemoved c && negb (bool_decide (is_Some (m !! s))) then [s] else []) /\
    all_of (byService c) ≡ₚ x :: all_of m /\ no_empty_table m /\
    (forall s' a', lookup2 m s' a' = if decide ((s', a') = (s, a)) then None else getCachedAd c s' a') /\
    (forall s', s' <> s -> m !! s' = byService c !! s').
Proof.
  intros Hx Hne. unfold getCachedAd in Hx. apply bind_Some in Hx as (t & Ht & Hx).
  unfold remove. rewrite Ht, Hx. set (t' := delete a t). set (m1 := <[s := t']> (byService c)).
  assert (E1 : all_of (byService c) ≡ₚ x :: all_of m1).
  { unfold m1. rewrite all_insert, (all_split _ s), Ht. cbn [default]. by rewrite (vals_delete t a x Hx). }
  assert (E2 : forall s' a', lookup2 m1 s' a' = if decide ((s', a') = (s, a)) then None else getCachedAd c s' a').
  { intros s' a'. unfold m1, t'. rewrite <- (lookup2_delete (byService c) s a). by rewrite Ht. }
  assert (E3 : forall s', s' <> s -> m1 !! s' = byService c !! s').
  { intros s' Hs. unfold m1. by rewrite lookup_insert_ne. }
  assert (E4 : m1 !! s = Some t') by apply lookup_insert_eq.
  cbn [byService onServiceRemoved ipTree capacity count].
  destruct (Nat.ltb_spec 0 (size t')) as [Hp|Hp].
  - exists m1. rewrite bool_decide_true by (by rewrite E4). rewrite andb_false_r. split_and!; try done.
    intros s' u Hu. destruct (decide (s' = s)) as [->|Hs].
    + rewrite E4 in Hu. simplify_eq. intros E. rewrite E, map_size_empty in Hp. lia.
    + rewrite E3 in Hu by done. by eapply Hne.
  - assert (E : t' = ∅) by (apply map_size_empty_inv; lia). rewrite E in E4.
    assert (E5 : delete s m1 = delete s (byService c)) by apply delete_insert_eq.
    exists (delete s m1). rewrite bool_decide_false by (rewrite lookup_delete_eq; by intros []). cbn [negb].
    rewrite andb_true_r. split_and!; [done|by rewrite <- all_drop| | |].
    + intros s' u Hu. rewrite E5 in Hu. apply lookup_delete_Some in Hu as [_ Hu]. by eapply Hne.
    + intros s' a'. by rewrite lookup2_drop.
    + intros s' Hs. rewrite lookup_delete_ne by done. by apply E3.
Qed.

Lemma remove_absent c s a : getCachedAd c s a = None -> no_empty_table (byService c) -> remove c s a = (c, []).
Proof.
  unfold getCachedAd, remove. intros Hx Hne. destruct (byService c !! s) as [t|] eqn:Ht; [|done].
  cbn in Hx. rewrite Hx. rewrite (proj2 (Nat.ltb_lt _ _)); [done|].
  destruct (size t) eqn:E; [|lia]. apply map_size_empty_inv in E. by destruct (Hne _ _ Ht).
Qed.

(** ** The invariant of the cache *)

(** [ad'] makes [x], an ad of the same service, out of date. *)
Definition outdated_by (ad' : Advertisement) (x : CachedAd) : Prop :=
  ad_peerId (ad x) = ad_peerId ad' /\ ad_seqNo (ad x) < ad_seqNo ad'.

Definition newer_than (ad' : Advertisement) (x : CachedAd) : Prop :=
  ad_peerId (ad x) = ad_peerId ad' /\ ad_seqNo ad' < ad_seqNo (ad x).

Section Invariant.
Context `{Chronos}.

Record consistent (c : AdvertisementCache) : Prop := {
  ok_tables : no_empty_table (byService c);
  (** An ad is under its advertiser, and is dated. *)
  ok_ads s a x : getCachedAd c s a = Some x -> advertiser x = a /\ Forall valid (ips x) /\ timestamp x <= moment_high;
  (** The ads of a service that one peer has signed are of one age, the last. *)
  ok_seq s a b x y : getCachedAd c s a = Some x -> getCachedAd c s b = Some y ->
    ad_peerId (ad x) = ad_peerId (ad y) -> ad_seqNo (ad x) = ad_seqNo (ad y);
  ok_count : count c = Z.of_nat (length (all_of (byService c)));
  ok_capacity : 0 < capacity c /\ count c <= capacity c;
  (** The tree holds the addresses of the ads. *)
  ok_tree : ipTree c = tree_of (ips_of (all_of (byService c)));
}.

Definition has_service (c : AdvertisementCache) (s : ServiceId) : Prop := contains_service c s = true.

#[export] Instance ips_of_perm : Proper ((≡ₚ) ==> (≡ₚ)) ips_of.
Proof. unfold ips_of. by intros ?? E; rewrite E. Qed.

Lemma elem_all m x : x ∈ all_of m <-> exists s a, lookup2 m s a = Some x.
Proof.
  unfold all_of, vals, lookup2. rewrite list_elem_of_bind. split.
  - intros ([s t] & Hx & Ht). apply elem_of_map_to_list in Ht. cbn in Hx.
    apply list_elem_of_fmap in Hx as ([a y] & -> & Hy). apply elem_of_map_to_list in Hy.
    exists s, a. by rewrite Ht.
  - intros (s & a & Hx). apply bind_Some in Hx as (t & Ht & Hx). exists (s, t). split.
    + apply list_elem_of_fmap. exists (a, x). split; [done|]. by apply elem_of_map_to_list.
    + by apply elem_of_map_to_list.
Qed.

Lemma all_valid c : consistent c -> Forall valid (ips_of (all_of (byService c))).
Proof.
  intros Hc. apply Forall_forall. intros ip Hip. unfold ips_of in Hip.
  apply list_elem_of_bind in Hip as (x & Hip & Hx). apply elem_all in Hx as (s & a & Hx).
  destruct (ok_ads c Hc s a x Hx) as (_ & Hv & _). rewrite Forall_forall in Hv. by apply Hv.
Qed.

(** Taking the addresses of an ad out of the tree. *)
Lemma drop_ips c x l : consistent c -> all_of (byService c) ≡ₚ x :: l ->
  removeIps (ipTree c) (ips x) = tree_of (ips_of l).
Proof.
  intros Hc E. pose proof (all_valid c Hc) as Hv. rewrite (ok_tree c Hc).
  assert (E' : ips_of (all_of (byService c)) ≡ₚ ips x ++ ips_of l) by (by rewrite E).
  rewrite E' in Hv. rewrite (tree_of_perm _ _ E'). by apply removeIps_tree.
Qed.

Lemma remove_consistent c s a : consistent c -> consistent (remove c s a).1.
Proof.
  intros Hc. pose proof (ok_tables c Hc) as Hne. destruct (getCachedAd c s a) as [x|] eqn:Hx.
  2: by rewrite remove_absent.
  destruct (remove_present c s a x Hx Hne) as (m & -> & Ep & Hm & Hl & Ho). cbn [fst].
  pose proof (ok_capacity c Hc) as Hcap. pose proof (ok_count c Hc) as Hcnt.
  assert (Hsub : forall s' a' y, lookup2 m s' a' = Some y -> getCachedAd c s' a' = Some y).
  { intros s' a' y. rewrite Hl. by case_decide. }
  split; cbn [byService ipTree capacity count]; try done.
  - intros s' a' y Hy%Hsub. by apply (ok_ads c Hc s').
  - intros s' a' b' y z Hy%Hsub Hz%Hsub. by apply (ok_seq c Hc s' a' b').
  - rewrite Hcnt, (Permutation_length Ep). cbn [length]. lia.
  - lia.
  - by apply drop_ips.
Qed.

(** What a removal of several ads leaves, and which services it takes out. *)
Definition removes (c c' : AdvertisementCache) (ev : list ServiceId) (gone : ServiceId -> PeerId -> Prop) : Prop :=
  consistent c' /\ capacity c' = capacity c /\ onServiceRemoved c' = onServiceRemoved c /\
  (forall s a x, getCachedAd c' s a = Some x <-> getCachedAd c s a = Some x /\ ~ gone s a) /\
  (forall s, s ∈ ev <-> onServiceRemoved c = true /\ has_service c s /\ ~ has_service c' s).

Lemma has_service_ads c s : no_empty_table (byService c) -> has_service c s <-> exists a x, getCachedAd c s a = Some x.
Proof.
  intros Hne. unfold has_service, contains_service. rewrite bool_decide_eq_true. by apply lookup2_Some.
Qed.

Lemma removes_refl c : consistent c -> removes c c [] (fun _ _ => False).
Proof.
  intros Hc. split_and!; try done; [tauto|]. intros s. rewrite elem_of_nil. tauto.
Qed.

Lemma has_service_dec c s : has_service c s \/ ~ has_service c s.
Proof. unfold has_service. destruct (contains_service c s); [by left|by right]. Qed.

Lemma removes_shrinks c c' ev g s : consistent c -> removes c c' ev g -> has_service c' s -> has_service c s.
Proof.
  intros Hc (Hc' & _ & _ & Hl & _). rewrite !has_service_ads by (by apply ok_tables).
  intros (a & x & Hx). exists a, x. by apply Hl.
Qed.

Lemma removes_trans c c1 c2 ev1 ev2 g1 g2 : consistent c -> removes c c1 ev1 g1 -> removes c1 c2 ev2 g2 ->
  removes c c2 (ev1 ++ ev2) (fun s a => g1 s a \/ g2 s a).
Proof.
  intros Hc H1 H2. pose proof H1 as (Hc1 & E1 & F1 & L1 & V1). pose proof H2 as (Hc2 & E2 & F2 & L2 & V2).
  split_and!; [done|congruence|congruence| |].
  - intros s a x. rewrite L2, L1. tauto.
  - intros s. rewrite elem_of_app, V1, V2, F1.
    pose proof (removes_shrinks _ _ _ _ s Hc H1). pose proof (removes_shrinks _ _ _ _ s Hc1 H2).
    destruct (has_service_dec c1 s); tauto.
Qed.

Lemma remove_removes c s a : consistent c ->
  removes c (remove c s a).1 (remove c s a).2 (fun s' a' => (s', a') = (s, a)).
Proof.
  intros Hc. pose proof (ok_tables c Hc) as Hne. pose proof (remove_consistent c s a Hc) as Hc'.
  destruct (getCachedAd c s a) as [x|] eqn:Hx.
  2: { rewrite remove_absent in * by done. destruct (removes_refl c Hc) as (? & ? & ? & L & V).
    split_and!; try done. intros s' a' y. cbn [fst]. split; [|tauto]. intros Hy. split; [done|]. congruence. }
  destruct (remove_present c s a x Hx Hne) as (m & E & Ep & Hm & Hl & Ho). rewrite E in *. cbn [fst snd] in *.
  split_and!; try done.
  - intros s' a' y. transitivity (lookup2 m s' a' = Some y); [done|]. rewrite Hl. case_decide; naive_solver.
  - intros s'. unfold has_service, contains_service. cbn [byService]. rewrite !bool_decide_eq_true.
    assert (Hs : is_Some (byService c !! s)).
    { apply (lookup2_Some _ s Hne). by exists a, x. }
    destruct (onServiceRemoved c); cbn [andb]; [|rewrite elem_of_nil; naive_solver].
    case_bool_decide as Hm'; cbn [negb].
    + rewrite elem_of_nil. split; [done|]. intros (_ & H1 & H2). apply H2. destruct (decide (s' = s)) as [->|Hn]; [done|].
      by rewrite Ho.
    + rewrite list_elem_of_singleton. split; [by intros ->|]. intros (_ & H1 & H2).
      destruct (decide (s' = s)) as [->|Hn]; [done|]. by rewrite Ho in H2.
Qed.

Lemma remove_all_acc l : forall c ev, foldl (fun '(c, removed) '(serviceId, advertiser) =>
    let '(c, r) := remove c serviceId advertiser in (c, removed ++ r)) (c, ev) l =
  ((remove_all c l).1, ev ++ (remove_all c l).2).
Proof.
  unfold remove_all. induction l as [|[s a] l IH]; intros c ev; [cbn; by rewrite app_nil_r|].
  cbn [foldl]. destruct (remove c s a) as [c1 r]. rewrite (IH c1 (ev ++ r)), (IH c1 ([] ++ r)). cbn [fst snd].
  by rewrite app_assoc.
Qed.

Lemma remove_all_removes l : forall c, consistent c ->
  removes c (remove_all c l).1 (remove_all c l).2 (fun s a => (s, a) ∈ l).
Proof.
  induction l as [|[s a] l IH]; intros c Hc.
  - destruct (removes_refl c Hc) as (? & ? & ? & L & V). split_and!; try done.
    intros s' a' x. rewrite L. rewrite elem_of_nil. tauto.
  - unfold remove_all. cbn [foldl]. pose proof (remove_removes c s a Hc) as H1.
    destruct (remove c s a) as [c1 r]. cbn [fst snd] in *. rewrite remove_all_acc. cbn [fst snd app].
    pose proof (IH c1 (proj1 H1)) as H2. destruct (removes_trans _ _ _ _ _ _ _ Hc H1 H2) as (? & ? & ? & L & V).
    split_and!; try done. intros s' a' x. rewrite L, elem_of_cons. tauto.
Qed.


(** ** Iteration *)

Lemma elem_entries o c s a x : lawful o -> (s, a, x) ∈ entries o c <-> getCachedAd c s a = Some x.
Proof.
  intros [Hp Hs]. unfold entries, getCachedAd. rewrite list_elem_of_bind. split.
  - intros ([s' t] & Hx & Ht). rewrite Hs in Ht. apply elem_of_map_to_list in Ht.
    apply list_elem_of_fmap in Hx as ([a' y] & E & Hy). rewrite Hp in Hy. apply elem_of_map_to_list in Hy.
    simplify_eq. by rewrite Ht.
  - intros Hx. apply bind_Some in Hx as (t & Ht & Hx). exists (s, t). split.
    + apply list_elem_of_fmap. exists (a, x). split; [done|]. rewrite Hp. by apply elem_of_map_to_list.
    + rewrite Hs. by apply elem_of_map_to_list.
Qed.

Lemma entries_NoDup o c : lawful o -> NoDup (entries o c).*1.
Proof.
  intros Ho. apply NoDup_fmap_2_strong.
  { intros [[s a] x] [[s' a'] y] Hx Hy E. cbn in E. simplify_eq.
    apply elem_entries in Hx, Hy; [|done..]. congruence. }
  destruct Ho as [Hp Hs]. unfold entries. apply NoDup_bind.
  - intros [s1 t1] [s2 t2] y H1 H2 (p & -> & _)%list_elem_of_fmap (q & E & _)%list_elem_of_fmap.
    rewrite Hs in H1, H2. apply elem_of_map_to_list in H1, H2. destruct p, q. simplify_eq. congruence.
  - intros [s t] _. apply NoDup_fmap_2; [by intros [] []; intros; simplify_eq|]. rewrite Hp. apply NoDup_map_to_list.
  - rewrite Hs. apply NoDup_map_to_list.
Qed.

Lemma elem_pairs o c s t a x : lawful o -> byService c !! s = Some t ->
  (a, x) ∈ pairs_of o t <-> getCachedAd c s a = Some x.
Proof. intros [Hp _] Ht. rewrite Hp, elem_of_map_to_list. unfold getCachedAd. by rewrite Ht. Qed.

Lemma hasNewer_spec o c s ad' : lawful o ->
  hasNewer o c s ad' = true <-> exists a x, getCachedAd c s a = Some x /\ newer_than ad' x.
Proof.
  intros Ho. unfold hasNewer, newer_than. destruct (byService c !! s) as [t|] eqn:Ht.
  2: { split; [done|]. intros (a & x & Hx & _). unfold getCachedAd in Hx. by rewrite Ht in Hx. }
  rewrite existsb_exists. split.
  - intros ([a x] & Hx & [E L]%andb_true_iff). apply bool_decide_eq_true in E. apply Z.ltb_lt in L.
    exists a, x. split; [|done]. apply (elem_pairs o c s t a x Ho Ht). by apply list_elem_of_In.
  - intros (a & x & Hx & E & L). exists (a, x). split.
    + apply list_elem_of_In. by apply (elem_pairs o c s t a x Ho Ht).
    + apply andb_true_iff. split; [by apply bool_decide_eq_true|by apply Z.ltb_lt].
Qed.

Lemma superseded_spec o c s ad' a : lawful o ->
  a ∈ superseded o c s ad' <-> exists x, getCachedAd c s a = Some x /\ outdated_by ad' x.
Proof.
  intros Ho. unfold superseded, outdated_by. destruct (byService c !! s) as [t|] eqn:Ht.
  2: { rewrite elem_of_nil. split; [done|]. intros (x & Hx & _). unfold getCachedAd in Hx. by rewrite Ht in Hx. }
  rewrite list_elem_of_omap. split.
  - intros ([b x] & Hx & E). destruct (_ && _) eqn:Eb; [|done]. simplify_eq.
    apply andb_true_iff in Eb as [E L]. apply bool_decide_eq_true in E. apply Z.ltb_lt in L.
    exists x. split; [|done]. by apply (elem_pairs o c s t a x Ho Ht).
  - intros (x & Hx & E & L). exists (a, x). split; [by apply (elem_pairs o c s t a x Ho Ht)|].
    rewrite bool_decide_true by done. by rewrite (proj2 (Z.ltb_lt _ _)).
Qed.

Lemma removeSuperseded_removes o c s ad' : lawful o -> consistent c ->
  removes c (removeSuperseded o c s ad').1 (removeSuperseded o c s ad').2
    (fun s' a => s' = s /\ exists x, getCachedAd c s a = Some x /\ outdated_by ad' x).
Proof.
  intros Ho Hc. unfold removeSuperseded.
  set (l := _ <$> superseded o c s ad').
  destruct (remove_all_removes l c Hc) as (? & ? & ? & L & V). split_and!; try done.
  intros s' a x. rewrite L. unfold l. rewrite list_elem_of_fmap. split; intros [Hx Hn]; (split; [done|]); intros G; apply Hn.
  - destruct G as [-> G]. exists a. split; [done|]. by apply superseded_spec.
  - destruct G as (b & E & G). simplify_eq. split; [done|]. by apply superseded_spec in G.
Qed.

(** The loop of [findOldest]. *)
Lemma oldest_loop (l : list (ServiceId * PeerId * CachedAd)) k t :
  let r := foldl (fun '(oldest, oldestTime) '(key, cachedAd) =>
    if timestamp cachedAd <=? oldestTime then (Some key, timestamp cachedAd) else (oldest, oldestTime)) (k, t) l in
  r.2 <= t /\ Forall (fun e => r.2 <= timestamp e.2) l /\
  ((r.1 = k /\ r.2 = t /\ Forall (fun e => t < timestamp e.2) l) \/ exists e, e ∈ l /\ r.1 = Some e.1 /\ r.2 = timestamp e.2).
Proof.
  revert k t. induction l as [|[key x] l IH]; intros k t; cbn [foldl]; [split_and!; [done|constructor|left; by split_and!]|].
  destruct (Z.leb_spec (timestamp x) t) as [Hle|Hlt].
  - destruct (IH (Some key) (timestamp x)) as (H1 & H2 & H3). cbn zeta in *. set (r := foldl _ _ _) in *.
    split_and!; [lia|constructor; [done|done]|right].
    destruct H3 as [(E1 & E2 & _)|(e & He & E)]; [exists (key, x)|exists e]; (split; [by constructor|done]).
  - destruct (IH k t) as (H1 & H2 & H3). cbn zeta in *. set (r := foldl _ _ _) in *.
    split_and!; [done|constructor; cbn; [lia|done]|].
    destruct H3 as [(E1 & E2 & E3)|(e & He & E)]; [left; split_and!; [done|done|by constructor]|right].
    exists e. split; [by constructor|done].
Qed.

Lemma findOldest_spec o c : lawful o -> consistent c ->
  match findOldest o c with
  | Some (s, a) => exists x, getCachedAd c s a = Some x /\
      forall s' a' y, getCachedAd c s' a' = Some y -> timestamp x <= timestamp y
  | None => forall s a, getCachedAd c s a = None
  end.
Proof.
  intros Ho Hc. unfold findOldest. pose proof (oldest_loop (entries o c) None moment_high) as HL.
  cbn zeta in HL. destruct (foldl _ _ (entries o c)) as [k t]. cbn [fst snd] in *. destruct HL as (_ & H2 & H3).
  rewrite Forall_forall in H2. destruct H3 as [(-> & _ & H3)|([[s a] x] & He & -> & ->)].
  - intros s a. destruct (getCachedAd c s a) as [x|] eqn:Hx; [|done].
    rewrite Forall_forall in H3. specialize (H3 (s, a, x)). cbn in H3.
    rewrite (elem_entries o c s a x Ho) in H3. specialize (H3 Hx).
    destruct (ok_ads c Hc s a x Hx) as (_ & _ & H4). lia.
  - cbn. apply (elem_entries o c s a x Ho) in He. exists x. split; [done|]. intros s' a' y Hy.
    apply (elem_entries o c s' a' y Ho) in Hy. by apply (H2 (s', a', y)).
Qed.

Lemma remove_count c s a x : consistent c -> getCachedAd c s a = Some x -> count (remove c s a).1 = count c - 1.
Proof.
  intros Hc Hx. by destruct (remove_present c s a x Hx (ok_tables c Hc)) as (m & -> & _).
Qed.

Lemma remove_all_count l : forall c, consistent c -> NoDup l ->
  Forall (fun k => is_Some (getCachedAd c k.1 k.2)) l ->
  count (remove_all c l).1 = count c - Z.of_nat (length l).
Proof.
  induction l as [|[s a] l IH]; intros c Hc Hn Hl; [cbn; lia|].
  apply NoDup_cons in Hn as [Hn1 Hn2]. apply Forall_cons_1 in Hl as [[x Hx] Hl]. cbn [fst snd] in Hx.
  unfold remove_all. cbn [foldl]. pose proof (remove_removes c s a Hc) as (H1 & _ & _ & L & _).
  pose proof (remove_count c s a x Hc Hx) as H2.
  destruct (remove c s a) as [c1 r]. cbn [fst snd] in *. rewrite remove_all_acc. cbn [fst snd].
  rewrite IH; [cbn [length]; lia|done|done|].
  apply Forall_forall. intros [s' a'] Hk. rewrite Forall_forall in Hl. destruct (Hl _ Hk) as [y Hy].
  exists y. apply L. split; [done|]. intros E. by simplify_eq.
Qed.

(** ** The end of [put] *)

Lemma set_ad_all c s x : exists l, all_of (set_ad c s x) ≡ₚ x :: l /\
  match getCachedAd c s (advertiser x) with
  | Some old => all_of (byService c) ≡ₚ old :: l
  | None => all_of (byService c) ≡ₚ l
  end.
Proof.
  set (t := default ∅ (byService c !! s)).
  exists (vals (delete (advertiser x) t) ++ all_of (delete s (byService c))). split.
  - unfold set_ad. fold t. by rewrite all_insert, vals_insert.
  - assert (E : getCachedAd c s (advertiser x) = t !! advertiser x).
    { unfold getCachedAd, t. destruct (byService c !! s); [done|]. cbn. by rewrite lookup_empty. }
    rewrite E. pose proof (all_split (byService c) s) as Es. fold t in Es.
    destruct (t !! advertiser x) as [old|] eqn:Ht; rewrite Es.
    + by rewrite (vals_delete t _ old Ht).
    + by rewrite (delete_id t).
Qed.

Lemma set_ad_tables c s x : no_empty_table (byService c) -> no_empty_table (set_ad c s x).
Proof.
  intros Hne s' t. unfold set_ad. rewrite lookup_insert_Some. intros [[_ <-]|[_ Ht]]; [apply insert_non_empty|by eapply Hne].
Qed.

Definition storable (c : AdvertisementCache) (s : ServiceId) (x : CachedAd) : Prop :=
  Forall valid (ips x) /\ timestamp x <= moment_high /\
  (forall b y, getCachedAd c s b = Some y -> ad_peerId (ad y) = ad_peerId (ad x) -> ad_seqNo (ad y) = ad_seqNo (ad x)).

(** The invariant of a cache that differs by one ad. *)
Lemma set_consistent c s x tree n : consistent c -> storable c s x ->
  n <= capacity c -> n = Z.of_nat (length (all_of (set_ad c s x))) -> tree = tree_of (ips_of (all_of (set_ad c s x))) ->
  consistent (mkAdvertisementCache (set_ad c s x) tree (capacity c) n (onServiceRemoved c)).
Proof.
  intros Hc (Hv & Ht & Hs) Hn Hl Htree. destruct (ok_capacity c Hc) as [Hcap _].
  assert (L : forall s' a', getCachedAd (mkAdvertisementCache (set_ad c s x) tree (capacity c) n (onServiceRemoved c)) s' a' =
    if decide ((s', a') = (s, advertiser x)) then Some x else getCachedAd c s' a') by apply lookup2_set.
  split; cbn [byService ipTree capacity count]; try done.
  - apply set_ad_tables, (ok_tables c Hc).
  - intros s' a' y. rewrite L. case_decide as E; [by intros; simplify_eq|]. by apply (ok_ads c Hc).
  - intros s' a' b' y z. rewrite !L. repeat case_decide; intros Hy Hz E; simplify_eq; [done| | |].
    + symmetry. by apply (Hs b' z).
    + by apply (Hs a' y).
    + by apply (ok_seq c Hc s' a' b').
Qed.

Lemma add_consistent c s x : consistent c -> storable c s x -> getCachedAd c s (advertiser x) = None ->
  count c < capacity c -> consistent (add c s x).
Proof.
  intros Hc Hx Hn Hcap. pose proof Hx as (Hv & _). destruct (set_ad_all c s x) as (l & E & E').
  rewrite Hn in E'. apply set_consistent; try done; [lia| |].
  - rewrite (ok_count c Hc), (Permutation_length E), (Permutation_length E'). cbn [length]. lia.
  - rewrite (ok_tree c Hc), insertIps_tree by done. apply tree_of_perm. by rewrite E, E'.
Qed.

Lemma replace_consistent c s x old : consistent c -> storable c s x ->
  getCachedAd c s (advertiser x) = Some old -> consistent (replace c s old x).
Proof.
  intros Hc Hx Hn. pose proof Hx as (Hv & _). destruct (set_ad_all c s x) as (l & E & E').
  rewrite Hn in E'. destruct (ok_capacity c Hc) as [_ Hcap]. apply set_consistent; try done.
  - rewrite (ok_count c Hc), (Permutation_length E), (Permutation_length E'). done.
  - rewrite (drop_ips c old l Hc E'), insertIps_tree by done. apply tree_of_perm. by rewrite E.
Qed.

(** Room is made for a new ad. *)
Definition make_room (o : Order) (c : AdvertisementCache) : AdvertisementCache * list ServiceId :=
  if capacity c <=? count c then evictOldest o c else (c, []).

Lemma make_room_spec o c : lawful o -> consistent c ->
  let '(c', ev) := make_room o c in
  exists victim, removes c c' ev (fun s a => victim = Some (s, a)) /\ count c' < capacity c' /\
    match victim with
    | Some (s, a) => count c = capacity c /\ exists x, getCachedAd c s a = Some x /\
        forall s' a' y, getCachedAd c s' a' = Some y -> timestamp x <= timestamp y
    | None => count c < capacity c
    end.
Proof.
  intros Ho Hc. unfold make_room. destruct (ok_capacity c Hc) as [Hp Hcap].
  destruct (Z.leb_spec (capacity c) (count c)) as [Hle|Hlt].
  - pose proof (findOldest_spec o c Ho Hc) as HF. unfold evictOldest.
    destruct (findOldest o c) as [[s a]|].
    + destruct HF as (x & Hx & Hmin). pose proof (remove_removes c s a Hc) as HR.
      pose proof (remove_count c s a x Hc Hx) as HC. destruct (remove c s a) as [c' ev]. cbn [fst snd] in *.
      exists (Some (s, a)). destruct HR as (? & Ecap & ? & L & V). split; [|split_and!; [lia|lia|by exists x]].
      split_and!; try done. intros s' a' y. rewrite L. naive_solver.
    + exfalso. pose proof (ok_count c Hc) as E. destruct (all_of (byService c)) as [|x l] eqn:Ea; [cbn in E; lia|].
      assert (Hx : x ∈ all_of (byService c)) by (rewrite Ea; constructor).
      apply elem_all in Hx as (s & a & Hx). unfold getCachedAd, lookup2 in *. specialize (HF s a). congruence.
  - exists None. split; [|done]. destruct (removes_refl c Hc) as (? & ? & ? & L & V).
    split_and!; try done. intros s a x. rewrite L. naive_solver.
Qed.

(** ** What the operations do *)

Definition put_effect (o : Order) (c : AdvertisementCache) (s : ServiceId) (a : PeerId) (ad' : Advertisement)
    (ips' : list IpAddress) (now : Moment) (c' : AdvertisementCache) (ev : list ServiceId) : Prop :=
  ((exists b x, getCachedAd c s b = Some x /\ newer_than ad' x) -> c' = c /\ ev = []) /\
  (~ (exists b x, getCachedAd c s b = Some x /\ newer_than ad' x) ->
    let c1 := (removeSuperseded o c s ad').1 in
    exists victim,
      getCachedAd c' s a = Some (mkCachedAd ad' a ips' now) /\
      (forall s' b x, (s', b) <> (s, a) -> getCachedAd c' s' b = Some x <->
        getCachedAd c s' b = Some x /\ ~ (s' = s /\ outdated_by ad' x) /\ victim <> Some (s', b)) /\
      match victim with
      | Some (sv, av) => getCachedAd c1 s a = None /\ count c1 = capacity c /\
          exists x, getCachedAd c1 sv av = Some x /\
            forall s' b y, getCachedAd c1 s' b = Some y -> timestamp x <= timestamp y
      | None => is_Some (getCachedAd c1 s a) \/ count c1 < capacity c
      end) /\
  (forall s', s' <> s -> s' ∈ ev <-> onServiceRemoved c = true /\ has_service c s' /\ ~ has_service c' s').

Definition prune_effect (c : AdvertisementCache) (now : Moment) (expiry : Duration)
    (n : Z) (c' : AdvertisementCache) (ev : list ServiceId) : Prop :=
  n = count c - count c' /\
  (forall s a x, getCachedAd c' s a = Some x <->
    getCachedAd c s a = Some x /\ moment_back now expiry <= timestamp x) /\
  (forall s, s ∈ ev <-> onServiceRemoved c = true /\ has_service c s /\ ~ has_service c' s).

Lemma has_service_set c s x tree k n b s' :
  has_service (mkAdvertisementCache (set_ad c s x) tree k n b) s' <-> s' = s \/ has_service c s'.
Proof.
  unfold has_service, contains_service, set_ad. cbn [byService]. rewrite !bool_decide_eq_true.
  destruct (decide (s' = s)) as [->|Hn]; [rewrite lookup_insert_eq|rewrite lookup_insert_ne by done].
  - split; [by left|by eexists].
  - split; [by right|]. by intros [].
Qed.

(** The ad is stored in [c2], which lacks the ads [g] of [c]. *)
Lemma set_effect c c2 ev g s x tree k n b : removes c c2 ev g ->
  let c' := mkAdvertisementCache (set_ad c2 s x) tree k n b in
  getCachedAd c' s (advertiser x) = Some x /\
  (forall s' a y, (s', a) <> (s, advertiser x) ->
    getCachedAd c' s' a = Some y <-> getCachedAd c s' a = Some y /\ ~ g s' a) /\
  (forall s', s' <> s -> s' ∈ ev <-> onServiceRemoved c = true /\ has_service c s' /\ ~ has_service c' s').
Proof.
  intros (_ & _ & _ & L & V) c'.
  assert (S : forall s' a, getCachedAd c' s' a = if decide ((s', a) = (s, advertiser x)) then Some x else getCachedAd c2 s' a)
    by apply lookup2_set.
  split_and!.
  - rewrite S. by rewrite decide_True.
  - intros s' a y Hn. rewrite S, decide_False by done. apply L.
  - intros s' Hn. rewrite V. unfold c'. rewrite has_service_set. tauto.
Qed.

(** Once the outdated ads are gone, the ads that [ad']'s signer has in the service are as old as it. *)
Lemma storable_after o c s a ad' ips' now : lawful o -> consistent c -> Forall valid ips' -> now <= moment_high ->
  ~ (exists b x, getCachedAd c s b = Some x /\ newer_than ad' x) ->
  forall c2 ev g, removes (removeSuperseded o c s ad').1 c2 ev g -> storable c2 s (mkCachedAd ad' a ips' now).
Proof.
  intros Ho Hc Hv Ht Hn c2 ev g (_ & _ & _ & L & _). split_and!; [done|done|]. cbn [ad].
  intros b y Hy E. apply L in Hy as [Hy _].
  destruct (removeSuperseded_removes o c s ad' Ho Hc) as (_ & _ & _ & L1 & _). apply L1 in Hy as [Hy Hg].
  destruct (Z.lt_trichotomy (ad_seqNo (ad y)) (ad_seqNo ad')) as [Hlt|[|Hlt]]; [|done|].
  - destruct Hg. split; [done|]. by exists y.
  - destruct Hn. by exists b, y.
Qed.

Lemma put_spec o c s a ad' ips' now : lawful o -> consistent c -> Forall valid ips' -> now <= moment_high ->
  let '(c', ev) := put o c s a ad' ips' now in
  consistent c' /\ capacity c' = capacity c /\ put_effect o c s a ad' ips' now c' ev.
Proof.
  intros Ho Hc Hv Ht. unfold put. pose proof (hasNewer_spec o c s ad' Ho) as HN.
  destruct (hasNewer o c s ad').
  { split; [done|]. split; [done|]. unfold put_effect. split_and!; [done| |].
    - intros Hn. destruct Hn. by apply HN.
    - intros s' _. rewrite elem_of_nil. tauto. }
  assert (Hn : ~ exists b x, getCachedAd c s b = Some x /\ newer_than ad' x) by (intros E%HN; done).
  pose proof (removeSuperseded_removes o c s ad' Ho Hc) as H1.
  pose proof (storable_after o c s a ad' ips' now Ho Hc Hv Ht Hn) as HS. unfold put_effect.
  destruct (removeSuperseded o c s ad') as [c1 ev1]. cbn [fst snd] in *.
  pose proof H1 as (Hc1 & E1 & F1 & L1 & V1).
  set (x := mkCachedAd ad' a ips' now) in *.
  destruct (getCachedAd c1 s a) as [old|] eqn:Hold.
  - destruct (set_effect c c1 ev1 _ s x (insertIps (removeIps (ipTree c1) (ips old)) (ips x)) (capacity c1) (count c1)
      (onServiceRemoved c1) H1) as (G1 & G2 & G3).
    split_and!; [|done|done| |done].
    + apply replace_consistent; [done|by eapply HS, removes_refl|done].
    + intros _. exists None. split_and!; [done| |by left]. intros s' b y Hne. rewrite G2 by done. split.
      * intros [Hy Hg]. split_and!; [done| |done]. intros [-> Ho']. apply Hg. split; [done|]. by exists y.
      * intros (Hy & Hg & _). split; [done|]. intros (-> & z & Hz & Ho'). apply Hg. split; [done|]. by simplify_eq.
  - pose proof (make_room_spec o c1 Ho Hc1) as HR. unfold make_room in HR.
    destruct (if capacity c1 <=? count c1 then _ else _) as [c2 ev2].
    destruct HR as (victim & H2 & Hroom & Hvic). pose proof H2 as (Hc2 & E2 & F2 & L2 & V2).
    pose proof (removes_trans _ _ _ _ _ _ _ Hc H1 H2) as H12.
    destruct (set_effect c c2 _ _ s x (insertIps (ipTree c2) (ips x)) (capacity c2) (count c2 + 1)
      (onServiceRemoved c2) H12) as (G1 & G2 & G3).
    assert (Hnone : getCachedAd c2 s a = None).
    { destruct (getCachedAd c2 s a) eqn:E; [|done]. apply L2 in E as [E _]. congruence. }
    split_and!; [|cbn; congruence|done| |done].
    + apply add_consistent; [done|by eapply HS|done|done].
    + intros _. exists victim. split_and!; [done| |].
      * intros s' b y Hne. rewrite G2 by done. split.
        -- intros [Hy Hg]. split_and!; [done| |tauto]. intros [-> Ho']. apply Hg. left. split; [done|]. by exists y.
        -- intros (Hy & Hg & Hvn). split; [done|]. intros [(-> & z & Hz & Ho')|]; [|done]. apply Hg. split; [done|]. by simplify_eq.
      * destruct victim as [[sv av]|]; [|right; congruence].
        destruct Hvic as (Hcnt & Hmin). split_and!; [done|congruence|done].
Qed.

Lemma prune_spec o c now expiry : lawful o -> consistent c ->
  let '(n, c', ev) := pruneExpired o c now expiry in
  consistent c' /\ capacity c' = capacity c /\ prune_effect c now expiry n c' ev.
Proof.
  intros Ho Hc. unfold pruneExpired.
  set (l := (filter _ _).*1). pose proof (remove_all_removes l c Hc) as (Hc' & E & F & L & V).
  assert (Hl : forall s a, (s, a) ∈ l <-> exists x, getCachedAd c s a = Some x /\ timestamp x < moment_back now expiry).
  { intros s a. unfold l. rewrite list_elem_of_fmap. split.
    - intros ([k x] & E' & [Hlt Hx]%list_elem_of_filter). cbn in *. subst k. exists x.
      by rewrite elem_entries in Hx.
    - intros (x & Hx & Hlt). exists (s, a, x). split; [done|]. apply list_elem_of_filter. by rewrite elem_entries. }
  assert (Hcnt : count (remove_all c l).1 = count c - Z.of_nat (length l)).
  { apply remove_all_count; [done| |].
    - unfold l. eapply sublist_NoDup; [apply (entries_NoDup o c Ho)|]. apply fmap_sublist, sublist_filter.
    - apply Forall_forall. intros [s a] (x & Hx & _)%Hl. by exists x. }
  destruct (remove_all c l) as [c' ev]. cbn [fst snd] in *. unfold prune_effect. split_and!; [done|done|lia| |done].
  intros s a x. rewrite L, Hl. split.
  - intros [Hx Hn]. split; [done|]. apply Z.nlt_ge. intros Hlt. apply Hn. by exists x.
  - intros [Hx Hle]. split; [done|]. intros (y & Hy & Hlt). simplify_eq. lia.
Qed.

Lemma clear_consistent o c : consistent c -> consistent (clear o c).1.
Proof.
  intros Hc. destruct (ok_capacity c Hc) as [Hp _]. unfold clear.
  split; cbn [fst byService ipTree capacity count]; try done; lia.
Qed.

Lemma new_consistent n c : new n = Some c -> consistent c /\ capacity c = n.
Proof.
  unfold new. destruct (Z.ltb_spec 0 n); [|done]. intros; simplify_eq. split; [|done].
  split; cbn [byService ipTree capacity count]; try done; lia.
Qed.

(** ** Reading *)

Lemma collect_spec limit l : forall acc,
  collect limit acc l = acc ++ take (Z.to_nat limit - length acc) l.*2.
Proof.
  induction l as [|[a x] l IH]; intros acc; [cbn; by rewrite take_nil, app_nil_r|]. cbn [collect fmap list_fmap snd].
  destruct (Z.leb_spec limit (Z.of_nat (length acc))) as [Hle|Hlt].
  - replace (Z.to_nat limit - length acc)%nat with O by lia. by rewrite app_nil_r.
  - rewrite IH, length_app. cbn [length]. rewrite <- app_assoc.
    replace (Z.to_nat limit - length acc)%nat with (S (Z.to_nat limit - (length acc + 1))) by lia. done.
Qed.

Lemma getServiceCachedAds_spec o c s limit : lawful o -> consistent c ->
  let l := getServiceCachedAds o c s limit in
  length l = Nat.min (Z.to_nat limit) (serviceCacheAdsLen c s) /\ NoDup l /\
  forall x, x ∈ l -> getCachedAd c s (advertiser x) = Some x.
Proof.
  intros Ho Hc. unfold getServiceCachedAds, serviceCacheAdsLen. destruct (Z.leb_spec limit 0) as [Hle|Hlt].
  { replace (Z.to_nat limit) with O by lia. split_and!; [done|constructor|]. by intros x ?%elem_of_nil. }
  destruct (byService c !! s) as [t|] eqn:Ht.
  2: { rewrite Nat.min_0_r. split_and!; [done|constructor|]. by intros x ?%elem_of_nil. }
  rewrite collect_spec. cbn [length app]. rewrite Nat.sub_0_r.
  assert (Hp : forall a x, (a, x) ∈ pairs_of o t -> getCachedAd c s (advertiser x) = Some x).
  { intros a x Hx. apply (elem_pairs o c s t a x Ho Ht) in Hx. by destruct (ok_ads c Hc s a x Hx) as (-> & _). }
  destruct Ho as [Hperm _].
  split_and!.
  - rewrite length_take, length_fmap, (Permutation_length (Hperm t)). by rewrite length_map_to_list.
  - eapply sublist_NoDup; [|apply sublist_take]. apply NoDup_fmap_2_strong.
    + intros [a x] [b y] Hx Hy E. cbn in E. subst y.
      rewrite Hperm, elem_of_map_to_list in Hx, Hy.
      assert (Ha : forall a, t !! a = Some x -> advertiser x = a).
      { intros a' Ha. apply (ok_ads c Hc s a' x). unfold getCachedAd. by rewrite Ht. }
      by rewrite <- (Ha a), <- (Ha b).
    + rewrite Hperm. apply NoDup_map_to_list.
  - intros x Hx. eapply (elem_of_submseteq _ (pairs_of o t).*2) in Hx; [|apply sublist_submseteq, sublist_take].
    apply list_elem_of_fmap in Hx as ([a y] & -> & Hy). by eapply Hp.
Qed.

(** ** Runs *)

Inductive op :=
| Put (o : Order) (s : ServiceId) (a : PeerId) (ad' : Advertisement) (ips' : list IpAddress) (now : Moment)
| Prune (o : Order) (now : Moment) (expiry : Duration)
| Clear (o : Order)
| SetCallback.

Definition op_ok (p : op) : Prop :=
  match p with
  | Put o _ _ _ ips' now => lawful o /\ Forall valid ips' /\ now <= moment_high
  | Prune o _ _ | Clear o => lawful o
  | SetCallback => True
  end.

Definition run_op (c : AdvertisementCache) (p : op) : AdvertisementCache :=
  match p with
  | Put o s a ad' ips' now => (put o c s a ad' ips' now).1
  | Prune o now expiry => (pruneExpired o c now expiry).1.2
  | Clear o => (clear o c).1
  | SetCallback => mkAdvertisementCache (byService c) (ipTree c) (capacity c) (count c) true
  end.

Lemma run_op_consistent c p : consistent c -> op_ok p -> consistent (run_op c p) /\ capacity (run_op c p) = capacity c.
Proof.
  intros Hc Hp. destruct p as [o s a ad' ips' now|o now expiry|o|]; cbn [run_op op_ok] in *.
  - destruct Hp as (Ho & Hv & Ht). pose proof (put_spec o c s a ad' ips' now Ho Hc Hv Ht) as HP.
    destruct (put o c s a ad' ips' now). by destruct HP as (? & ? & _).
  - pose proof (prune_spec o c now expiry Hp Hc) as HP. destruct (pruneExpired o c now expiry) as [[n c'] ev].
    by destruct HP as (? & ? & _).
  - split; [by apply clear_consistent|done].
  - destruct Hc. split; [|done]. by split.
Qed.

Lemma run_consistent l : forall c, consistent c -> Forall op_ok l ->
  consistent (foldl run_op c l) /\ capacity (foldl run_op c l) = capacity c.
Proof.
  induction l as [|p l IH]; intros c Hc Hl; [done|]. apply Forall_cons_1 in Hl as [Hp Hl].
  destruct (run_op_consistent c p Hc Hp) as [H1 H2]. cbn [foldl]. rewrite <- H2. by apply IH.
Qed.

(** ** Properties *)

(** C35: whatever is put, pruned and cleared, in any order and whatever the order of the tables:
the cache has at most [capacity] ads, as many as it counts, no service without an ad, each ad
under its advertiser, for each service and signer only ads of the last sequence number, and its
tree is exactly that of the addresses of its ads.  A query for a service gives distinct ads of it,
as many as there are up to the limit. *)
Theorem cache_consistent (n : Z) (ops : list op) : 0 < n -> Forall op_ok ops ->
  exists c, new n = Some c /\
    let c' := foldl run_op c ops in
    consistent c' /\ capacity c' = n /\
    ipsLen (ipTree c') = Z.of_nat (length (ips_of (all_of (byService c')))) /\
    forall o s limit, lawful o ->
      let l := getServiceCachedAds o c' s limit in
      length l = Nat.min (Z.to_nat limit) (serviceCacheAdsLen c' s) /\ NoDup l /\
      forall x, x ∈ l -> getCachedAd c' s (advertiser x) = Some x.
Proof.
  intros Hn Hops. destruct (new n) as [c|] eqn:E.
  2: { unfold new in E. destruct (Z.ltb_spec 0 n); [done|lia]. }
  destruct (new_consistent n c E) as [Hc Hcap]. destruct (run_consistent ops c Hc Hops) as [Hc' Hcap'].
  exists c. split; [done|]. cbn zeta. split_and!; [done|congruence| |].
  - rewrite (ok_tree _ Hc'). apply ipsLen_tree.
  - intros o s limit Ho. by apply getServiceCachedAds_spec.
Qed.

(** C36: [put] does nothing when the service has a newer ad of the same signer; otherwise the new
ad is there, the older ads of its signer in the service are gone, and no other ad is, except, when
a place is needed and none is free, one whose date is the earliest.  [pruneExpired] removes exactly the ads
dated before the cutoff and returns their number.  Both report exactly the services that have
lost their last ad (but the one that [put] writes to, which may be reported and still be there). *)
Theorem cache_effects (o : Order) (c : AdvertisementCache) : lawful o -> consistent c ->
  (forall s a ad' ips' now, Forall valid ips' -> now <= moment_high ->
    let '(c', ev) := put o c s a ad' ips' now in put_effect o c s a ad' ips' now c' ev) /\
  (forall now expiry, let '(n, c', ev) := pruneExpired o c now expiry in prune_effect c now expiry n c' ev).
Proof.
  intros Ho Hc. split.
  - intros s a ad' ips' now Hv Ht. pose proof (put_spec o c s a ad' ips' now Ho Hc Hv Ht) as HP.
    destruct (put o c s a ad' ips' now). apply HP.
  - intros now expiry. pose proof (prune_spec o c now expiry Ho Hc) as HP.
    destruct (pruneExpired o c now expiry) as [[n c'] ev]. apply HP.
Qed.

End Invariant.

Definition demo_order : Order := mkOrder map_to_list map_to_list.

Lemma demo_order_lawful : lawful demo_order.
Proof. by split. Qed.

(** A cache of two ads: the third evicts the first, and the fourth supersedes the second. *)
Definition demo_ops : list op :=
  [SetCallback;
   Put demo_order [1] [10] (mkAdvertisement [10] 1 []) [IPv4 [10; 0; 0; 1]] 5;
   Put demo_order [2] [20] (mkAdvertisement [20] 1 []) [IPv4 [10; 0; 0; 2]] 6;
   Put demo_order [3] [30] (mkAdvertisement [30] 1 []) [IPv4 [10; 0; 0; 3]] 7;
   Put demo_order [2] [40] (mkAdvertisement [20] 2 []) [IPv4 [10; 0; 0; 4]] 8].

Lemma cache_consistent_witness :
  0 < 2 /\ Forall (@op_ok plain_chronos) demo_ops /\
  exists c, new 2 = Some c /\ let c' := foldl (@run_op plain_chronos) c demo_ops in
    count c' = 2 /\ @consistent plain_chronos c' /\ ipsLen (ipTree c') = 2 /\
    contains c' [1] [10] = false /\ contains c' [2] [20] = false /\ contains c' [2] [40] = true.
Proof.
  assert (Ho : Forall (@op_ok plain_chronos) demo_ops).
  { pose proof demo_order_lawful. repeat (apply Forall_cons_2; [cbn [op_ok];
      first [done|split_and!; [done|repeat constructor; cbn; lia|by vm_compute]]|]). constructor. }
  destruct (@cache_consistent plain_chronos 2 demo_ops ltac:(lia) Ho) as (c & E & Hc & _).
  split_and!; [lia|done|]. exists c. injection E as <-. split; [done|]. cbn zeta.
  split_and!; [by vm_compute|exact Hc|by vm_compute..].
Defined.

(** The cache is full: a put evicts its ad, and reports the service that loses it. *)
Definition demo_cache : option AdvertisementCache :=
  c ← new 1; Some (foldl (@run_op plain_chronos) c
    [SetCallback; Put demo_order [1] [10] (mkAdvertisement [10] 1 []) [] 5]).

Lemma cache_effects_witness :
  lawful demo_order /\ exists c, demo_cache = Some c /\ @consistent plain_chronos c /\
  let c1 := @put plain_chronos demo_order c [2] [20] (mkAdvertisement [20] 1 []) [] 6 in
  put_effect demo_order c [2] [20] (mkAdvertisement [20] 1 []) [] 6 c1.1 c1.2 /\
  contains c1.1 [1] [10] = false /\ contains c1.1 [2] [20] = true /\ c1.2 = [[1]].
Proof.
  split; [exact demo_order_lawful|]. eexists. split; [reflexivity|].
  destruct (@new_consistent plain_chronos 1 _ eq_refl) as [Hn _].
  match goal with |- @consistent _ (foldl _ _ ?l) /\ _ =>
    destruct (@run_consistent plain_chronos l _ Hn) as [Hc _] end.
  { repeat (apply Forall_cons_2; [by cbn|]). constructor. }
  split; [exact Hc|].
  destruct (@cache_effects plain_chronos demo_order _ demo_order_lawful Hc) as [H _].
  specialize (H [2] [20] (mkAdvertisement [20] 1 []) [] 6 (Forall_nil_2 _) ltac:(by vm_compute)).
  cbn zeta. split; [|split_and!; by vm_compute]. destruct (put _ _ _ _ _ _ _). exact H.
Defined.
