(* ===== verification/TimedCache.v ===== *)
(** * TimedCache: the cache of recently seen ids (src/libp2p/protocols/pubsub/timedcache.nim)

The entries are Nim [ref] objects, shared between a doubly linked list in the order of their
expiry and a hash set: the model keeps them in a store of nodes and the list and the set
hold references (indices of the store).  Dereferencing [nil] or running forever would be
[None]; the theorems show that neither happens while the clock does not go back. *)
From S2P Require Import Prelude Chronos.

#[local] Open Scope Z_scope.

(** A Nim reference to an entry: [None] is [nil]. *)
Abbreviation ref := (option nat) (only parsing).

Record TimedEntry (K : Type) := mkEntry {
  te_key : K;
  te_addedAt : Moment;
  te_expiresAt : Moment;
  te_next : ref;
  te_prev : ref;
}.
Arguments mkEntry {K}.
Arguments te_key {K}.
Arguments te_addedAt {K}.
Arguments te_expiresAt {K}.
Arguments te_next {K}.
Arguments te_prev {K}.

(** [nodes] is the part of the heap that holds the entries ever allocated; [entries] is the
hash set, whose hash and equality look at the key only. *)
Record TimedCache (K : Type) `{Countable K} := mkCache {
  nodes : list (TimedEntry K);
  head : ref;
  tail : ref;
  entries : gmap K nat;
  timeout : Duration;
  maxSize : Z;
  refreshOnPut : bool;
}.
Arguments mkCache {K _ _}.
Arguments nodes {K _ _}.
Arguments head {K _ _}.
Arguments tail {K _ _}.
Arguments entries {K _ _}.
Arguments timeout {K _ _}.
Arguments maxSize {K _ _}.
Arguments refreshOnPut {K _ _}.

Section Model.
Context {K : Type} `{Countable K} `{Chronos}.
Implicit Types (t cache : TimedCache K) (e : TimedEntry K) (k key : K) (l : nat) (now : Moment).

Definition set_next (n : ref) e : TimedEntry K :=
  mkEntry (te_key e) (te_addedAt e) (te_expiresAt e) n (te_prev e).

Definition set_prev (p : ref) e : TimedEntry K :=
  mkEntry (te_key e) (te_addedAt e) (te_expiresAt e) (te_next e) p.

Definition set_nodes t ns : TimedCache K :=
  mkCache ns (head t) (tail t) (entries t) (timeout t) (maxSize t) (refreshOnPut t).

Definition set_head t h : TimedCache K :=
  mkCache (nodes t) h (tail t) (entries t) (timeout t) (maxSize t) (refreshOnPut t).

Definition set_tail t h : TimedCache K :=
  mkCache (nodes t) (head t) h (entries t) (timeout t) (maxSize t) (refreshOnPut t).

Definition set_entries t m : TimedCache K :=
  mkCache (nodes t) (head t) (tail t) m (timeout t) (maxSize t) (refreshOnPut t).

(** Dereferencing a reference; [nil] is a crash. *)
Definition deref t (r : ref) : option (TimedEntry K) := l ← r; nodes t !! l.

(** An assignment to a field of the entry [r] refers to. *)
Definition update t (r : ref) (f : TimedEntry K -> TimedEntry K) : option (TimedCache K) :=
  l ← r; e ← nodes t !! l; Some (set_nodes t (<[l := f e]> (nodes t))).

(** The [==] of entries, which compares keys. *)
Definition entry_eq t (a b : ref) : bool :=
  match a, b with
  | None, None => true
  | Some _, Some _ => bool_decide (te_key <$> deref t a = te_key <$> deref t b)
  | _, _ => false
  end.

Definition contains t k : bool := bool_decide (is_Some (entries t !! k)).

Definition len t : Z := Z.of_nat (size (entries t)).

Definition addedAt t k : Moment :=
  match deref t (entries t !! k) with Some e => te_addedAt e | None => 0 end.

(** One turn of the loop of [expire], for the entry [e] at the head. *)
Definition expire_head t e : option (TimedCache K) :=
  let t := set_entries t (delete (te_key e) (entries t)) in
  t ← update t (head t) (set_prev None);
  h ← deref t (head t);
  let t := set_head t (te_next h) in
  Some (match head t with None => set_tail t None | Some _ => t end).

Fixpoint expire_loop (fuel : nat) t now : option (TimedCache K) :=
  match head t with
  | None => Some t
  | Some _ =>
      e ← deref t (head t);
      if te_expiresAt e <? now then
        match fuel with
        | O => None
        | S fuel => t ← expire_head t e; expire_loop fuel t now
        end
      else Some t
  end.

Definition expire t now : option (TimedCache K) := expire_loop (length (nodes t)) t now.

Definition del t k : option (TimedCache K * ref) :=
  match entries t !! k with
  | Some l =>
      item ← nodes t !! l;
      let t := set_entries t (delete (te_key item) (entries t)) in
      let t := if entry_eq t (head t) (Some l) then set_head t (te_next item) else t in
      let t := if entry_eq t (tail t) (Some l) then set_tail t (te_prev item) else t in
      t ← match te_next item with
          | Some _ => update t (te_next item) (set_prev (te_prev item))
          | None => Some t
          end;
      item ← nodes t !! l;
      t ← match te_prev item with
          | Some _ => update t (te_prev item) (set_next (te_next item))
          | None => Some t
          end;
      Some (t, Some l)
  | None => Some (t, None)
  end.

Definition ensureSizeBound t key : option (TimedCache K) :=
  if (0 <? maxSize t) && (maxSize t <=? len t) && negb (contains t key) then
    match head t with
    | Some _ =>
        h ← deref t (head t);
        let t := set_entries t (delete (te_key h) (entries t)) in
        let t := set_head t (te_next h) in
        match head t with
        | Some _ => update t (head t) (set_prev None)
        | None => Some (set_tail t None)
        end
    | None => Some t
    end
  else Some t.

(** [while cur != nil and node.expiresAt < cur.expiresAt: cur = cur.prev] *)
Fixpoint search_back (fuel : nat) t (expiresAt : Moment) (cur : ref) : option ref :=
  match cur with
  | None => Some None
  | Some _ =>
      c ← deref t cur;
      if expiresAt <? te_expiresAt c then
        match fuel with
        | O => None
        | S fuel => search_back fuel t expiresAt (te_prev c)
        end
      else Some cur
  end.

(** The end of [put]: the new node is linked at its place. *)
Definition link_node cache (node : nat) (expiresAt : Moment) : option (TimedCache K) :=
  match head cache with
  | None => Some (set_head (set_tail cache (Some node)) (Some node))
  | Some _ =>
      cur ← search_back (length (nodes cache)) cache expiresAt (tail cache);
      match cur with
      | None =>
          cache ← update cache (Some node) (set_next (head cache));
          cache ← update cache (head cache) (set_prev (Some node));
          Some (set_head cache (Some node))
      | Some _ =>
          cache ← update cache (Some node) (set_prev cur);
          c ← deref cache cur;
          cache ← update cache (Some node) (set_next (te_next c));
          cache ← update cache cur (set_next (Some node));
          Some (if entry_eq cache cur (tail cache) then set_tail cache (Some node) else cache)
      end
  end.

Definition put cache key now : option (TimedCache K * bool) :=
  cache ← expire cache now;
  cache ← ensureSizeBound cache key;
  if negb (refreshOnPut cache) && contains cache key then Some (cache, true)
  else
    '(cache, previous) ← del cache key;
    addedAt ← match previous with
              | Some _ => te_addedAt <$> deref cache previous
              | None => Some now
              end;
    let expiresAt := moment_add now (timeout cache) in
    let node := length (nodes cache) in
    let cache := set_nodes cache (nodes cache ++ [mkEntry key addedAt expiresAt None None]) in
    cache ← link_node cache node expiresAt;
    let cache := set_entries cache (match entries cache !! key with
                                    | Some _ => entries cache
                                    | None => <[key := node]> (entries cache)
                                    end) in
    Some (cache, bool_decide (is_Some previous)).

Definition init (timeout : Duration) (maxSize : Z) (refreshOnPut : bool) : TimedCache K :=
  mkCache [] None None ∅ timeout maxSize refreshOnPut.

(** ** Sequences of operations *)

Inductive Op : Type :=
| OpPut (k : K) (now : Moment)
| OpDel (k : K)
| OpExpire (now : Moment).

(** What an operation returns: whether the key was there, for [put] and [del]. *)
Definition exec t (o : Op) : option (TimedCache K * option bool) :=
  match o with
  | OpPut k now => '(t, b) ← put t k now; Some (t, Some b)
  | OpDel k => '(t, r) ← del t k; Some (t, Some (bool_decide (is_Some r)))
  | OpExpire now => t ← expire t now; Some (t, None)
  end.

Fixpoint run t (ops : list Op) : option (TimedCache K * list (option bool)) :=
  match ops with
  | [] => Some (t, [])
  | o :: ops => '(t, b) ← exec t o; '(t, bs) ← run t ops; Some (t, b :: bs)
  end.

(** ** The specification: a list of dated keys in the order of their expiry *)

Record Item : Type := mkItem { i_key : K; i_added : Moment; i_expires : Moment }.

(** The parameters of a cache, which no operation changes. *)
Record Params : Type := mkParams { p_timeout : Duration; p_maxSize : Z; p_refresh : bool }.

Implicit Types (xs : list Item) (p : Params).

Definition keys xs : list K := i_key <$> xs.

Definition find_item k xs : option Item := List.find (fun x => bool_decide (i_key x = k)) xs.

Definition spec_expire xs now : list Item := filter (fun x => now <= i_expires x) xs.

Definition spec_del xs k : list Item := filter (fun x => i_key x <> k) xs.

Definition by_expiry (x y : Item) : Prop := i_expires x <= i_expires y.

(** The oldest entry makes room for a key that is new to a full cache. *)
Definition spec_bound p xs k : list Item :=
  if decide (0 < p_maxSize p <= Z.of_nat (length xs) /\ k ∉ keys xs) then list.tail xs else xs.

Definition spec_put p xs k now : list Item * bool :=
  let xs := spec_bound p (spec_expire xs now) k in
  if negb (p_refresh p) && bool_decide (k ∈ keys xs) then (xs, true)
  else
    let added := match find_item k xs with Some x => i_added x | None => now end in
    (spec_del xs k ++ [mkItem k added (moment_add now (p_timeout p))], bool_decide (k ∈ keys xs)).

Definition spec_exec p xs (o : Op) : list Item * option bool :=
  match o with
  | OpPut k now => let '(xs, b) := spec_put p xs k now in (xs, Some b)
  | OpDel k => (spec_del xs k, Some (bool_decide (k ∈ keys xs)))
  | OpExpire now => (spec_expire xs now, None)
  end.

(** The moments at which keys are put. *)
Definition put_times (ops : list Op) : list Moment :=
  omap (fun o => match o with OpPut _ now => Some now | _ => None end) ops.

Fixpoint spec_run p xs (ops : list Op) : list Item * list (option bool) :=
  match ops with
  | [] => (xs, [])
  | o :: ops =>
      let '(xs, b) := spec_exec p xs o in let '(xs, bs) := spec_run p xs ops in (xs, b :: bs)
  end.

End Model.

(** ** Doubly linked segments

[dseg ns pv p xs q pl]: following [next] from [p] one meets the entries [xs] and then [q];
each entry's [prev] is the one before it, [pv] for the first; [pl] is the last one. *)
Section Segments.
Context {K : Type} `{Countable K}.
Implicit Types (ns : list (TimedEntry K)) (e : TimedEntry K) (l : nat) (p q pv pl : ref).

Definition item_of e : Item := mkItem (te_key e) (te_addedAt e) (te_expiresAt e).

Fixpoint dseg ns pv p (xs : list (nat * Item)) q pl : Prop :=
  match xs with
  | [] => p = q /\ pv = pl
  | (l, x) :: xs => p = Some l /\ exists e, ns !! l = Some e /\ item_of e = x /\ te_prev e = pv /\
      dseg ns (Some l) (te_next e) xs q pl
  end.

Lemma dseg_app ns pv p xs ys q pl :
  dseg ns pv p (xs ++ ys) q pl <-> exists m pm, dseg ns pv p xs m pm /\ dseg ns pm m ys q pl.
Proof.
  revert pv p. induction xs as [|[l x] xs IH]; intros pv p; simpl.
  - split; [by intros; exists p, pv|]. by intros (m & pm & [-> ->] & ?).
  - setoid_rewrite IH. split.
    + intros (-> & e & ? & ? & ? & m & pm & ? & ?). exists m, pm. eauto 10.
    + intros (m & pm & (-> & e & ? & ? & ? & ?) & ?). eauto 12.
Qed.

Lemma dseg_snoc ns pv p xs l x q pl :
  dseg ns pv p (xs ++ [(l, x)]) q pl <->
  exists pm e, dseg ns pv p xs (Some l) pm /\ ns !! l = Some e /\ item_of e = x /\
    te_prev e = pm /\ te_next e = q /\ pl = Some l.
Proof.
  rewrite dseg_app; simpl. split.
  - intros (m & pm & ? & -> & e & ? & ? & ? & ? & ?). by exists pm, e.
  - intros (pm & e & ? & ? & ? & ? & ? & ->). exists (Some l), pm. split; [done|].
    split; [done|]. by exists e.
Qed.

(** Only the nodes of the segment matter. *)
Lemma dseg_ext ns ns' pv p xs q pl :
  (forall l, l ∈ xs.*1 -> ns' !! l = ns !! l) -> dseg ns pv p xs q pl -> dseg ns' pv p xs q pl.
Proof.
  revert pv p. induction xs as [|[l x] xs IH]; intros pv p Hf; simpl; [done|].
  intros (-> & e & ? & ? & ? & ?). split; [done|]. exists e.
  rewrite Hf by (cbn; left). split_and!; try done. apply IH; [|done].
  intros l' ?. apply Hf. cbn. by right.
Qed.

Lemma dseg_frame ns pv p xs q pl l e :
  l ∉ xs.*1 -> dseg ns pv p xs q pl -> dseg (<[l := e]> ns) pv p xs q pl.
Proof. intros Hl. apply dseg_ext. intros l' ?. apply list_lookup_insert_ne. by intros ->. Qed.

Lemma dseg_alloc ns k pv p xs q pl : dseg ns pv p xs q pl -> dseg (ns ++ k) pv p xs q pl.
Proof.
  revert pv p. induction xs as [|[l' x] xs IH]; intros pv p; simpl; [done|].
  intros (-> & e' & ? & ? & ? & ?). split; [done|]. exists e'.
  split; [by apply lookup_app_l_Some|]. eauto.
Qed.

Lemma dseg_locs ns pv p xs q pl l : dseg ns pv p xs q pl -> l ∈ xs.*1 -> (l < length ns)%nat.
Proof.
  revert pv p. induction xs as [|[l' x] xs IH]; intros pv p; simpl; [by intros _ ?%elem_of_nil|].
  intros (_ & e & He & _ & _ & Hx) [->|?]%elem_of_cons; [by apply lookup_lt_Some in He|eauto].
Qed.

Lemma dseg_lookup ns pv p xs q pl l x : dseg ns pv p xs q pl -> (l, x) ∈ xs ->
  exists e, ns !! l = Some e /\ item_of e = x.
Proof.
  revert pv p. induction xs as [|[l' y] xs IH]; intros pv p; simpl; [by intros _ ?%elem_of_nil|].
  intros (_ & e & He & ? & _ & Hx) [?|?]%elem_of_cons; [simplify_eq; eauto|eauto].
Qed.

(** The [prev] of the first entry and the [next] of the last can be reassigned. *)
Lemma dseg_set_first ns pv p l x xs q pl pv' :
  l ∉ xs.*1 -> dseg ns pv p ((l, x) :: xs) q pl ->
  exists e, ns !! l = Some e /\ dseg (<[l := set_prev pv' e]> ns) pv' p ((l, x) :: xs) q pl.
Proof.
  simpl. intros Hl (-> & e & He & ? & ? & Hx). exists e. split; [done|]. split; [done|].
  exists (set_prev pv' e).
  rewrite list_lookup_insert_eq by (by apply lookup_lt_Some in He). split_and!; try done.
  by apply dseg_frame.
Qed.

Lemma dseg_set_last ns pv p l x xs q pl q' :
  l ∉ xs.*1 -> dseg ns pv p (xs ++ [(l, x)]) q pl ->
  exists e, ns !! l = Some e /\
    dseg (<[l := set_next q' e]> ns) pv p (xs ++ [(l, x)]) q' pl.
Proof.
  rewrite dseg_snoc. intros Hl (pm & e & Hx & He & ? & ? & ? & ->). exists e. split; [done|].
  apply dseg_snoc. exists pm, (set_next q' e).
  rewrite list_lookup_insert_eq by (by apply lookup_lt_Some in He). split_and!; try done.
  by apply dseg_frame.
Qed.

Lemma dseg_last ns pv p xs l x q pl : dseg ns pv p (xs ++ [(l, x)]) q pl -> pl = Some l.
Proof. rewrite dseg_snoc. by intros (? & ? & ? & ? & ? & ? & ? & ->). Qed.

(** The assignment to a field through a reference that may be [nil]. *)
Definition upd ns (r : ref) (f : TimedEntry K -> TimedEntry K) : option (list (TimedEntry K)) :=
  match r with Some n => e ← ns !! n; Some (<[n := f e]> ns) | None => Some ns end.

(** Unlinking the node before the segment, and the node after it. *)
Lemma link_next ns pv p xs pl pv' : NoDup xs.*1 -> dseg ns pv p xs None pl ->
  exists ns', upd ns p (set_prev pv') = Some ns' /\ length ns' = length ns /\
    (forall l, l ∉ xs.*1 -> ns' !! l = ns !! l) /\
    dseg ns' pv' p xs None (match xs with [] => pv' | _ => pl end).
Proof.
  intros N D. destruct xs as [|[l x] xs].
  - destruct D as [-> <-]. by exists ns.
  - destruct (dseg_set_first ns pv p l x xs None pl pv') as (e & He & D2);
      [by apply NoDup_cons in N as [? ?]|done|].
    destruct D as [-> _]. exists (<[l := set_prev pv' e]> ns). cbn. rewrite He; cbn.
    split; [done|]. split; [by rewrite length_insert|]. split; [|done].
    intros l' [? ?]%not_elem_of_cons. by apply list_lookup_insert_ne.
Qed.

Lemma link_prev ns pv p xs q pl q' : NoDup xs.*1 -> dseg ns pv p xs q pl ->
  (forall s, pv = Some s -> (s < length ns)%nat /\ s ∉ xs.*1) ->
  exists ns', upd ns pl (set_next q') = Some ns' /\ length ns' = length ns /\
    (forall l, l ∉ xs.*1 -> pv <> Some l -> ns' !! l = ns !! l) /\
    dseg ns' pv (match xs with [] => q' | _ => p end) xs q' pl.
Proof.
  intros N D Hpv. destruct xs as [|[l x] xs _] using rev_ind.
  - destruct D as [-> <-]. destruct pv as [s|]; cbn; [|by exists ns].
    destruct (lookup_lt_is_Some_2 ns s) as [e He]; [by apply Hpv|]. rewrite He; cbn.
    eexists. split_and!; [done|by rewrite length_insert| |done..].
    intros l _ ?. apply list_lookup_insert_ne. by intros ->.
  - destruct (dseg_set_last ns pv p l x xs q pl q') as (e & He & D2); [|done|].
    { rewrite fmap_app in N. apply NoDup_app in N as (_ & N & _). intros Hl. apply (N l Hl). left. }
    rewrite (dseg_last _ _ _ _ _ _ _ _ D) in *; cbn. rewrite He; cbn.
    eexists. split_and!; [done|by rewrite length_insert| |by destruct xs].
    intros l' Hl _. apply list_lookup_insert_ne. intros ->. apply Hl. rewrite fmap_app. set_solver.
Qed.

(** Taking a node out of the middle of a list, as [del] does. *)
Lemma dseg_unlink ns pv p a l x b pl : NoDup (a ++ (l, x) :: b).*1 ->
  dseg ns pv p (a ++ (l, x) :: b) None pl ->
  (forall s, pv = Some s -> (s < length ns)%nat /\ s ∉ (a ++ (l, x) :: b).*1) ->
  exists item ns1 ns2, ns !! l = Some item /\ item_of item = x /\
    upd ns (te_next item) (set_prev (te_prev item)) = Some ns1 /\ ns1 !! l = Some item /\
    upd ns1 (te_prev item) (set_next (te_next item)) = Some ns2 /\ ns2 !! l = Some item /\
    length ns2 = length ns /\
    dseg ns2 pv (match a with [] => te_next item | _ => p end) (a ++ b) None
      (match b with [] => te_prev item | _ => pl end).
Proof.
  rewrite dseg_app, !fmap_app, fmap_cons. intros N (m & pm & Da & -> & item & He & Hx & Hp & Db) Hs.
  cbn in N, Hs. rewrite <- Permutation_middle in N. apply NoDup_cons in N as [Hl N].
  rewrite elem_of_app in Hl. apply NoDup_app in N as (Na & Nab & Nb). subst pm.
  destruct (link_next ns (Some l) (te_next item) b pl (te_prev item) Nb Db) as (ns1 & E1 & L1 & F1 & D1).
  assert (Hl1 : ns1 !! l = Some item) by (rewrite F1 by tauto; done).
  destruct (link_prev ns1 pv p a (Some l) (te_prev item) (te_next item) Na) as (ns2 & E2 & L2 & F2 & D2).
  { revert Da. apply dseg_ext. intros l' ?. apply F1. by apply Nab. }
  { intros s Hv. destruct (Hs s Hv). rewrite L1. split; [done|]. set_solver. }
  exists item, ns1, ns2. split_and!; try done; try congruence.
  - rewrite F2; [done|tauto|]. intros ->. destruct (Hs l eq_refl). set_solver.
  - apply dseg_app. exists (te_next item), (te_prev item). split; [done|].
    revert D1. apply dseg_ext. intros l' Hb. apply F2; [by intros ?%Nab|].
    intros ->. destruct (Hs l' eq_refl). set_solver.
Qed.

End Segments.

(** ** The cache represents a list of items *)
Section Refinement.
Context {K : Type} `{Countable K}.
Implicit Types (t cache : TimedCache K) (e : TimedEntry K) (k key : K) (l : nat) (now : Moment).
Implicit Types (p : Params) (xs : list (nat * Item (K:=K))).

Definition params_of t : Params := mkParams (timeout t) (maxSize t) (refreshOnPut t).

(** [xs] are the entries of the cache with the node of each; the [prev] of the first entry is
[nil] or a node that left the cache. *)
Record rep p t xs : Prop := {
  rep_params : params_of t = p;
  rep_nodup : NoDup xs.*1;
  rep_keys : NoDup (keys xs.*2);
  rep_entries k l : entries t !! k = Some l <-> exists x, (l, x) ∈ xs /\ i_key x = k;
  rep_list : exists pv pl, dseg (nodes t) pv (head t) xs None pl /\
    (xs <> [] -> tail t = pl) /\ (forall s, pv = Some s -> (s < length (nodes t))%nat /\ s ∉ xs.*1);
}.

Lemma elem_of_keys xs k : k ∈ keys xs.*2 <-> exists l x, (l, x) ∈ xs /\ i_key x = k.
Proof.
  unfold keys. rewrite list_elem_of_fmap. setoid_rewrite list_elem_of_fmap. split.
  - intros (x & -> & [l y] & -> & ?). eauto.
  - intros (l & x & ? & <-). eexists. split; [done|]. by exists (l, x).
Qed.

Lemma rep_dom p t xs k : rep p t xs -> is_Some (entries t !! k) <-> k ∈ keys xs.*2.
Proof.
  intros R. rewrite elem_of_keys. split.
  - intros [l (x & ? & ?)%(rep_entries _ _ _ R)]. eauto.
  - intros (l & x & ? & ?). exists l. apply (rep_entries _ _ _ R). eauto.
Qed.

Lemma rep_contains p t xs k : rep p t xs -> contains t k = bool_decide (k ∈ keys xs.*2).
Proof. intros R. apply bool_decide_ext, (rep_dom p t xs k R). Qed.

Lemma rep_len p t xs : rep p t xs -> len t = Z.of_nat (length xs).
Proof.
  intros R. unfold len. f_equal. rewrite <- size_dom.
  replace (dom (entries t)) with (list_to_set (keys xs.*2) : gset K).
  - rewrite size_list_to_set by apply R. unfold keys. by rewrite !length_fmap.
  - apply set_eq. intros k. rewrite elem_of_list_to_set, elem_of_dom.
    symmetry. apply (rep_dom p t xs k R).
Qed.

Lemma rep_bound p t xs : rep p t xs -> (length xs <= length (nodes t))%nat.
Proof.
  intros R. destruct (rep_list _ _ _ R) as (pv & pl & D & _).
  rewrite <- (length_fmap fst xs).
  transitivity (length (seq 0 (length (nodes t)))); [|by rewrite length_seq].
  apply submseteq_length, NoDup_submseteq; [apply R|].
  intros l Hl. apply elem_of_seq. pose proof (dseg_locs _ _ _ _ _ _ l D Hl). lia.
Qed.

Lemma rep_init tmo mx rf : rep (mkParams tmo mx rf) (init tmo mx rf : TimedCache K) [].
Proof.
  split; cbn; [done|apply NoDup_nil_2..|intros k l|by exists None, None].
  rewrite lookup_empty. split; [done|]. by intros (x & ?%elem_of_nil & _).
Qed.

(** The item of a node and the node of a key are determined. *)
Lemma rep_key_unique p t xs a b l x l' x' :
  rep p t xs -> xs = a ++ (l, x) :: b -> (l', x') ∈ xs -> i_key x' = i_key x -> l' = l /\ x' = x.
Proof.
  intros R E Hx Hk.
  assert (E2 : entries t !! i_key x = Some l).
  { apply (rep_entries _ _ _ R). exists x. rewrite E. set_solver. }
  assert (E3 : entries t !! i_key x = Some l') by (apply (rep_entries _ _ _ R); eauto).
  rewrite E2 in E3. simplify_eq. split; [done|].
  apply list_elem_of_lookup in Hx as [i Hi].
  pose proof (rep_nodup _ _ _ R) as N. rewrite NoDup_alt in N.
  assert (Hj : (a ++ (l', x) :: b) !! length a = Some (l', x)) by (by rewrite list_lookup_middle).
  assert (i = length a) as ->.
  { apply (N i (length a) l'); rewrite list_lookup_fmap; [by rewrite Hi|by rewrite Hj]. }
  congruence.
Qed.

(** The entries once one item is taken out. *)
Lemma rep_entries_delete p t a b l x : rep p t (a ++ (l, x) :: b) ->
  forall k l', delete (i_key x) (entries t) !! k = Some l' <-> exists y, (l', y) ∈ a ++ b /\ i_key y = k.
Proof.
  intros R k l'. rewrite lookup_delete_Some, (rep_entries _ _ _ R).
  pose proof (rep_keys _ _ _ R) as N. unfold keys in N.
  rewrite !fmap_app, !fmap_cons in N; cbn in N.
  split.
  - intros [Hk (y & [?|[?|?]%elem_of_cons]%elem_of_app & <-)]; [|simplify_eq|];
      exists y; set_solver.
  - intros (y & Hy & <-). split; [|exists y; set_solver].
    intros Hk. apply NoDup_app in N as (_ & N1 & [N2 _]%NoDup_cons).
    apply elem_of_app in Hy as [Hy|Hy].
    + apply (N1 (i_key x)); [|left]. rewrite Hk. apply list_elem_of_fmap_2, (list_elem_of_fmap_2 snd _ (l', y)), Hy.
    + apply N2. rewrite Hk. apply list_elem_of_fmap_2, (list_elem_of_fmap_2 snd _ (l', y)), Hy.
Qed.

Lemma nodup_remove p t a b l x : rep p t (a ++ (l, x) :: b) ->
  NoDup ((a ++ b).*1) /\ NoDup (keys (a ++ b).*2) /\ (l ∉ a.*1) /\ (l ∉ b.*1) /\
  (forall s, s ∈ a.*1 -> s ∉ b.*1).
Proof.
  intros R. pose proof (rep_nodup _ _ _ R) as N. pose proof (rep_keys _ _ _ R) as M. unfold keys in *.
  rewrite !fmap_app, !fmap_cons in *; cbn in *.
  rewrite <- Permutation_middle in N, M.
  apply NoDup_cons in N as [N1 N2], M as [_ M]. rewrite elem_of_app in N1.
  apply NoDup_app in N2 as N3. naive_solver.
Qed.

(** *** Taking the oldest entry out *)

Lemma rep_head p t l x xs : rep p t ((l, x) :: xs) ->
  head t = Some l /\ exists e, nodes t !! l = Some e /\ item_of e = x.
Proof. intros R. destruct (rep_list _ _ _ R) as (pv & pl & (? & e & ? & ? & _) & _). eauto. Qed.

Lemma expire_head_rep p t l x xs e : rep p t ((l, x) :: xs) -> nodes t !! l = Some e ->
  exists t', expire_head t e = Some t' /\ rep p t' xs.
Proof.
  intros R He. destruct (rep_list _ _ _ R) as (pv & pl & D & Ht & Hs).
  pose proof (dseg_locs _ _ _ _ _ _ l D ltac:(left)) as Hl. destruct D as (Hh & e' & ? & Hx & ? & D).
  destruct (nodup_remove p t [] xs l x R) as (N & M & _ & Hn & _). simplify_eq.
  unfold expire_head, update, deref, set_entries, set_nodes, set_head, set_tail; cbn.
  rewrite Hh; cbn. rewrite He; cbn. rewrite list_lookup_insert_eq by done; cbn.
  eexists; split; [done|].
  split; [by destruct (te_next e); apply R|done..| |].
  - intros k l'. pose proof (rep_entries_delete p t [] xs l (item_of e) R k l') as E.
    by destruct (te_next e).
  - exists (Some l), pl. split_and!.
    + destruct (te_next e); cbn; by apply dseg_frame.
    + intros Hne. destruct xs as [|[l2 x2] xs]; [done|]. cbn in D.
      destruct D as (-> & _). apply Ht. done.
    + intros s [= <-]. destruct (te_next e); cbn; by rewrite length_insert.
Qed.

Lemma ensureSizeBound_rep p t xs k : rep p t xs ->
  exists t' ys, ensureSizeBound t k = Some t' /\ rep p t' ys /\ ys.*2 = spec_bound p xs.*2 k.
Proof.
  intros R. unfold ensureSizeBound, spec_bound.
  rewrite (rep_contains p t xs k R), (rep_len p t xs R), length_fmap.
  pose proof (rep_params _ _ _ R) as Hp. replace (maxSize t) with (p_maxSize p) by by rewrite <- Hp.
  case_decide as Hd; cycle 1.
  { exists t, xs. split; [|done]. rewrite <- negb_if.
    destruct (0 <? p_maxSize p) eqn:?, (p_maxSize p <=? Z.of_nat (length xs)) eqn:?; try done; cbn.
    case_bool_decide; [done|]. exfalso. apply Hd. split; [lia|done]. }
  destruct Hd as [Hm Hk]. rewrite (bool_decide_eq_false_2 _ Hk).
  replace (0 <? p_maxSize p) with true by lia.
  replace (p_maxSize p <=? Z.of_nat (length xs)) with true by lia. cbn.
  destruct xs as [|[l x] xs]; [cbn in Hm; lia|].
  destruct (rep_list _ _ _ R) as (pv & pl & D & Ht & Hs). destruct D as (Hh & e & He & Hx & ? & D).
  destruct (nodup_remove p t [] xs l x R) as (N & M & _ & Hn & _).
  unfold update, deref, set_entries, set_nodes, set_head, set_tail. rewrite Hh; cbn. rewrite He; cbn.
  assert (Hd : forall k l', delete (te_key e) (entries t) !! k = Some l' <->
    exists y, (l', y) ∈ xs /\ i_key y = k).
  { intros k' l'. rewrite <- (rep_entries_delete p t [] xs l x R k' l'). by rewrite <- Hx. }
  destruct xs as [|[l2 x2] xs].
  - destruct D as [-> <-]. eexists _, []. split; [done|]. split; [|done].
    split; try done. exists None, None. done.
  - destruct (dseg_set_first (nodes t) (Some l) (te_next e) l2 x2 xs None pl None) as (e2 & He2 & D2).
    { by apply NoDup_cons in N as [? ?]. }
    { exact D. }
    destruct D as (Hne & _). rewrite Hne in *; cbn. rewrite He2; cbn.
    eexists _, ((l2, x2) :: xs). split; [done|]. split; [|done].
    split; try done. exists None, pl. split_and!; [done| |done]. intros _. by apply Ht.
Qed.

Lemma expire_loop_rep p t xs now fuel : rep p t xs -> StronglySorted by_expiry xs.*2 ->
  (length xs <= fuel)%nat ->
  exists t' ys, expire_loop fuel t now = Some t' /\ rep p t' ys /\ ys.*2 = spec_expire xs.*2 now.
Proof.
  revert t fuel. induction xs as [|[l x] xs IH]; intros t fuel R S Hf.
  - destruct (rep_list _ _ _ R) as (pv & pl & [Hh _] & _). exists t, []. split; [|done].
    destruct fuel; cbn; by rewrite Hh.
  - destruct (rep_head _ _ _ _ _ R) as [Hh (e & He & Hx)]. destruct fuel as [|fuel]; [cbn in Hf; lia|].
    cbn [expire_loop]. unfold deref at 1. rewrite Hh; cbn [mbind option_bind].
    rewrite He; cbn [mbind option_bind]. cbn in S. apply StronglySorted_inv in S as [S Hle].
    unfold spec_expire. change (((l, x) :: xs).*2) with (x :: xs.*2). rewrite filter_cons.
    replace (te_expiresAt e) with (i_expires x) by by rewrite <- Hx.
    destruct (Z.ltb_spec (i_expires x) now) as [Hlt|Hge].
    + rewrite decide_False by lia. destruct (expire_head_rep _ _ _ _ _ _ R He) as (t' & -> & R').
      cbn. apply IH; [done..|cbn in Hf; lia].
    + rewrite decide_True by done. exists t, ((l, x) :: xs). split; [done|]. split; [done|]. cbn. f_equal.
      symmetry. apply filter_id. eapply Forall_impl; [done|]. unfold by_expiry; cbn. lia.
Qed.

Lemma expire_rep p t xs now : rep p t xs -> StronglySorted by_expiry xs.*2 ->
  exists t' ys, expire t now = Some t' /\ rep p t' ys /\ ys.*2 = spec_expire xs.*2 now.
Proof. intros R S. apply expire_loop_rep; [done..|by apply (rep_bound p)]. Qed.

(** *** Taking any entry out *)

Lemma update_upd t r f :
  match r with Some _ => update t r f | None => Some t end = set_nodes t <$> upd (nodes t) r f.
Proof.
  destruct t, r as [l|]; unfold update, upd; cbn; [|done]. by destruct (_ !! l).
Qed.

Lemma rep_lookup p t xs l x : rep p t xs -> (l, x) ∈ xs -> exists e, nodes t !! l = Some e /\ item_of e = x.
Proof. intros R Hx. destruct (rep_list _ _ _ R) as (pv & pl & D & _). by eapply dseg_lookup. Qed.

(** Comparing keys is comparing references, between entries of the cache. *)
Lemma entry_eq_rep p t t' xs l1 x1 l2 x2 : rep p t xs -> nodes t' = nodes t ->
  (l1, x1) ∈ xs -> (l2, x2) ∈ xs -> entry_eq t' (Some l1) (Some l2) = bool_decide (l1 = l2).
Proof.
  intros R Hn H1 H2. unfold entry_eq, deref; cbn. rewrite Hn.
  destruct (rep_lookup _ _ _ _ _ R H1) as (e1 & E1 & <-), (rep_lookup _ _ _ _ _ R H2) as (e2 & E2 & <-).
  rewrite E1, E2; cbn. apply bool_decide_ext. split; [|by intros ->; simplify_eq].
  intros [= Hk]. apply list_elem_of_split in H2 as (a & b & H2).
  by destruct (rep_key_unique _ _ _ a b _ _ l1 (item_of e1) R H2 H1 Hk).
Qed.

Lemma head_is_first p t a l x b t' : rep p t (a ++ (l, x) :: b) -> nodes t' = nodes t ->
  entry_eq t' (head t) (Some l) = match a with [] => true | _ => false end.
Proof.
  intros R Hn. destruct (nodup_remove _ _ _ _ _ _ R) as (_ & _ & Hl & _).
  destruct a as [|[l0 x0] a].
  - destruct (rep_head _ _ _ _ _ R) as [-> _]. rewrite (entry_eq_rep _ _ _ _ l x l x R) by (done || left).
    by apply bool_decide_eq_true_2.
  - destruct (rep_head _ _ _ _ _ R) as [-> _].
    rewrite (entry_eq_rep _ _ _ _ l0 x0 l x R) by (done || set_solver).
    apply bool_decide_eq_false_2. intros ->. apply Hl. left.
Qed.

Lemma tail_is_last p t a l x b t' : rep p t (a ++ (l, x) :: b) -> nodes t' = nodes t ->
  entry_eq t' (tail t) (Some l) = match b with [] => true | _ => false end.
Proof.
  intros R Hn. destruct (nodup_remove _ _ _ _ _ _ R) as (_ & _ & _ & Hl & _).
  destruct (rep_list _ _ _ R) as (pv & pl & D & Ht & _).
  rewrite Ht by (by destruct a). destruct b as [|[l0 x0] b _] using rev_ind.
  - rewrite (dseg_last _ _ _ _ _ _ _ _ D), (entry_eq_rep _ _ _ _ l x l x R) by (done || set_solver).
    by apply bool_decide_eq_true_2.
  - rewrite app_comm_cons, app_assoc in D.
    rewrite (dseg_last _ _ _ _ _ _ _ _ D), (entry_eq_rep _ _ _ _ l0 x0 l x R) by (done || set_solver).
    rewrite bool_decide_eq_false_2; [by destruct b|]. intros ->. apply Hl. rewrite fmap_app. set_solver.
Qed.

Lemma del_absent p t xs k : rep p t xs -> k ∉ keys xs.*2 -> del t k = Some (t, None).
Proof.
  intros R Hk. rewrite <- (rep_dom _ _ _ _ R), <- eq_None_not_Some in Hk. unfold del. by rewrite Hk.
Qed.

Lemma del_rep p t a l x b : rep p t (a ++ (l, x) :: b) ->
  exists t', del t (i_key x) = Some (t', Some l) /\ rep p t' (a ++ b) /\
    (te_addedAt <$> deref t' (Some l)) = Some (i_added x).
Proof.
  intros R. pose proof R as [Hp N M He (pv & pl & D & Ht & Hs)].
  destruct (dseg_unlink _ _ _ _ _ _ _ _ N D Hs)
    as (item & ns1 & ns2 & Hi & Hx & E1 & Hi1 & E2 & Hi2 & L & D2).
  destruct (nodup_remove _ _ _ _ _ _ R) as (N' & M' & Hl & Hl' & _).
  unfold del. rewrite (proj2 (He (i_key x) l)) by (exists x; set_solver).
  rewrite Hi; cbn [mbind option_bind]. replace (te_key item) with (i_key x) by by rewrite <- Hx.
  set (t1 := set_entries t _).
  change (head t1) with (head t). rewrite (head_is_first _ _ _ _ _ _ t1 R) by done.
  set (t2 := if match a with [] => true | _ => false end then _ else _).
  assert (H2 : nodes t2 = nodes t /\ tail t2 = tail t /\ entries t2 = delete (i_key x) (entries t) /\
    params_of t2 = p /\ head t2 = match a with [] => te_next item | _ => head t end) by (by destruct a).
  destruct H2 as (Hn2 & Ht2 & He2 & Hp2 & Hh2). clearbody t2.
  rewrite Ht2, (tail_is_last _ _ _ _ _ _ t2 R) by done.
  set (t3 := if match b with [] => true | _ => false end then _ else _).
  assert (H3 : nodes t3 = nodes t /\ head t3 = head t2 /\ entries t3 = entries t2 /\ params_of t3 = p /\
    tail t3 = match b with [] => te_prev item | _ => tail t end) by (by destruct b).
  destruct H3 as (Hn3 & Hh3 & He3 & Hp3 & Ht3). clearbody t3.
  rewrite update_upd, Hn3, E1; cbn. rewrite Hi1; cbn. rewrite update_upd; cbn. rewrite E2; cbn.
  eexists. split; [done|]. split; [|unfold deref; cbn; by rewrite Hi2; cbn; rewrite <- Hx].
  split; cbn; [done..| |].
  - intros k l'. rewrite He3, He2. by apply (rep_entries_delete p t a b l x R).
  - exists pv, (match b with [] => te_prev item | _ => pl end). rewrite Hh3, Hh2. split_and!; [done| |].
    + intros Hab. rewrite Ht3. destruct b; [done|]. apply Ht. by destruct a.
    + intros s Hv. destruct (Hs s Hv) as [? Hn]. rewrite L. split; [done|].
      rewrite fmap_app, fmap_cons in Hn. rewrite fmap_app. set_solver.
Qed.

Lemma rep_entries_insert p t xs k node x : rep p t xs -> k ∉ keys xs.*2 -> i_key x = k ->
  forall k' l, <[k := node]> (entries t) !! k' = Some l <->
    exists y, (l, y) ∈ xs ++ [(node, x)] /\ i_key y = k'.
Proof.
  intros R Hk Hx k' l. rewrite lookup_insert_Some, (rep_entries _ _ _ R).
  setoid_rewrite elem_of_app. setoid_rewrite list_elem_of_singleton. split.
  - intros [[<- <-]|[? (y & ? & ?)]]; eauto.
  - intros (y & [Hy| [= -> ->]] & <-); [right|by left]. split; [|by eauto].
    intros E. apply Hk, elem_of_keys. rewrite E. eauto.
Qed.

(** Linking at the tail, when the last entry expires no later than the new one. *)
Lemma link_node_tail t ll c k added expiresAt : is_Some (head t) -> tail t = Some ll ->
  nodes t !! ll = Some c -> te_next c = None -> te_expiresAt c <= expiresAt ->
  let node := length (nodes t) in
  let new := mkEntry k added expiresAt None None in
  link_node (set_nodes t (nodes t ++ [new])) node expiresAt =
  Some (mkCache (<[ll := set_next (Some node) c]>
                   (<[node := set_next None (set_prev (Some ll) new)]> (nodes t ++ [new])))
          (head t) (Some node) (entries t) (timeout t) (maxSize t) (refreshOnPut t)).
Proof.
  intros [h Hh] Ht Hc Hnext Hle node new. set (ns := nodes t ++ [new]).
  assert (Hnode : ns !! node = Some new) by (by apply list_lookup_middle).
  assert (Hc' : ns !! ll = Some c) by (by apply lookup_app_l_Some).
  assert (Hne : node <> ll) by (intros E; apply lookup_lt_Some in Hc; unfold node in E; lia).
  assert (Hsearch : search_back (length ns) (set_nodes t ns) expiresAt (tail t) = Some (Some ll)).
  { rewrite Ht. destruct (length ns); cbn; unfold deref; cbn; rewrite Hc'; cbn;
      by rewrite (proj2 (Z.ltb_ge _ _) Hle). }
  unfold link_node; cbn. rewrite Hh. rewrite Hsearch; cbn.
  unfold update, deref; cbn. rewrite Hnode; cbn.
  rewrite (list_lookup_insert_ne _ node ll) by done. rewrite Hc'; cbn.
  rewrite list_lookup_insert_eq by (by apply lookup_lt_Some in Hnode); cbn.
  rewrite list_insert_insert_eq, (list_lookup_insert_ne _ node ll) by done. rewrite Hc'; cbn.
  unfold entry_eq; cbn. rewrite Ht. rewrite bool_decide_eq_true_2 by done.
  by rewrite Hnext, <- Hh.
Qed.

Lemma link_node_rep p t xs k added expiresAt : rep p t xs -> k ∉ keys xs.*2 ->
  Forall (fun x => i_expires x <= expiresAt) xs.*2 ->
  let node := length (nodes t) in
  exists t', link_node (set_nodes t (nodes t ++ [mkEntry k added expiresAt None None])) node expiresAt
      = Some t' /\ entries t' = entries t /\
    rep p (set_entries t' (<[k := node]> (entries t))) (xs ++ [(node, mkItem k added expiresAt)]).
Proof.
  intros R Hk Hle node. pose proof R as [Hp N M He (pv & pl & D & Ht & Hs)].
  set (new := mkEntry k added expiresAt None None). set (ns := nodes t ++ [new]).
  assert (Hnode : ns !! node = Some new) by (by apply list_lookup_middle).
  assert (Hfresh : node ∉ xs.*1) by (intros Hn; pose proof (dseg_locs _ _ _ _ _ _ _ D Hn); lia).
  set (x := mkItem k added expiresAt).
  assert (HN : NoDup ((xs ++ [(node, x)]).*1)).
  { rewrite fmap_app, Permutation_app_comm. by constructor. }
  assert (HM : NoDup (keys ((xs ++ [(node, x)]).*2))).
  { unfold keys in *. rewrite !fmap_app, Permutation_app_comm. by constructor. }
  pose proof (rep_entries_insert p t xs k node x R Hk eq_refl) as HE.
  destruct xs as [|[ll xl] a _] using rev_ind.
  - destruct D as [Hh _]. unfold link_node; cbn. rewrite Hh; cbn. eexists. split; [done|]. split; [done|].
    split; cbn; [exact Hp|exact HN|exact HM|exact HE|]. exists None, (Some node). split; [|done].
    cbn. split; [done|]. by exists new.
  - pose proof (dseg_last _ _ _ _ _ _ _ _ D) as ->. specialize (Ht ltac:(by destruct a)).
    assert (Hh : is_Some (head t)) by (destruct a as [|[? ?] ?]; destruct D as [-> _]; eauto).
    pose proof D as (pm & c & _ & Hc & Hxl & _ & Hnext & _)%dseg_snoc.
    assert (Hne : ll <> node) by (intros E; apply lookup_lt_Some in Hc; unfold node in E; lia).
    set (ns' := <[node := set_next None (set_prev (Some ll) new)]> ns).
    destruct (dseg_set_last ns' pv (head t) ll xl a None (Some ll) (Some node)) as (c' & Ec & D').
    { rewrite fmap_app in N. apply NoDup_app in N as (_ & N & _). intros Hl. apply (N ll Hl). left. }
    { apply dseg_frame; [done|]. by apply dseg_alloc. }
    unfold ns' in Ec. rewrite list_lookup_insert_ne in Ec by done. unfold ns in Ec.
    rewrite (lookup_app_l_Some _ _ _ _ Hc) in Ec. injection Ec as <-.
    assert (Hexp : te_expiresAt c <= expiresAt).
    { rewrite fmap_app, Forall_app in Hle. destruct Hle as [_ Hle%Forall_inv].
      rewrite <- Hxl in Hle. exact Hle. }
    eexists. split; [by apply link_node_tail|]. split; [done|].
    split; cbn; [exact Hp|exact HN|exact HM|exact HE|]. exists pv, (Some node). split; [|split; [done|]].
    + apply dseg_snoc. exists (Some ll), (set_next None (set_prev (Some ll) new)). split; [exact D'|].
      rewrite list_lookup_insert_ne, list_lookup_insert_eq by (done || by apply lookup_lt_Some in Hnode).
      done.
    + intros s Hv. destruct (Hs s Hv) as [? Hn]. rewrite !length_insert, length_app; cbn. split; [lia|].
      rewrite fmap_app. apply not_elem_of_app. split; [done|].
      apply not_elem_of_cons. split; [unfold node; cbn; lia|apply not_elem_of_nil].
Qed.

End Refinement.

Section Runs.
Context {K : Type} `{Countable K} `{L : ChronosLaws}.
Implicit Types (t : TimedCache K) (k : K) (now clock : Moment) (p : Params).
Implicit Types (xs ys : list (Item (K:=K))) (zs : list (nat * Item (K:=K))).

(** *** The specification keeps its items in the order of their expiry *)

Definition spec_ok p clock xs : Prop :=
  StronglySorted by_expiry xs /\
  Forall (fun x => i_expires x <= moment_add clock (p_timeout p)) xs.

Lemma spec_ok_nil p clock : spec_ok p clock [].
Proof. split; constructor. Qed.

Lemma spec_ok_filter p clock xs (P : Item -> Prop) `{forall x, Decision (P x)} :
  spec_ok p clock xs -> spec_ok p clock (filter P xs).
Proof.
  intros [S B]. split.
  - induction S as [|x xs S IH Hx]; [constructor|]. apply Forall_cons in B as [_ B].
    rewrite filter_cons. case_decide; [|by apply IH]. constructor; [by apply IH|].
    apply Forall_filter_2, Hx.
  - apply Forall_filter_2, B.
Qed.

Lemma spec_ok_bound p clock xs k : spec_ok p clock xs -> spec_ok p clock (spec_bound p xs k).
Proof.
  intros [S B]. unfold spec_bound. case_decide; [|done]. destruct xs; [done|].
  apply StronglySorted_inv in S as [S _]. by apply Forall_cons in B as [_ B].
Qed.

Lemma spec_ok_later p clock now xs : clock <= now -> spec_ok p clock xs -> spec_ok p now xs.
Proof using L.
  intros Hc [S B]. split; [done|]. eapply Forall_impl; [exact B|]. cbn.
  intros x Hx. pose proof (moment_add_mono clock now (p_timeout p) Hc). lia.
Qed.

Lemma spec_ok_snoc p clock xs x : i_expires x = moment_add clock (p_timeout p) ->
  spec_ok p clock xs -> spec_ok p clock (xs ++ [x]).
Proof.
  intros Hx [S B]. split.
  - apply StronglySorted_app_2; [|done|repeat constructor].
    intros y z Hy Hz%list_elem_of_singleton. subst z. rewrite Forall_forall in B.
    unfold by_expiry. rewrite Hx. by apply B.
  - apply Forall_app. split; [done|]. constructor; [lia|constructor].
Qed.

Lemma spec_ok_put p clock now xs k : clock <= now -> spec_ok p clock xs ->
  spec_ok p now (spec_put p xs k now).1.
Proof using L.
  intros Hc Hs%(spec_ok_later _ _ _ _ Hc). unfold spec_put.
  assert (Hs' : spec_ok p now (spec_bound p (spec_expire xs now) k))
    by (by apply spec_ok_bound, spec_ok_filter).
  destruct (_ && _); cbn; [done|]. apply spec_ok_snoc; [done|]. by apply spec_ok_filter.
Qed.

(** *** Each operation implements the specification *)

Lemma find_item_Some xs x : NoDup (keys xs) -> x ∈ xs -> find_item (i_key x) xs = Some x.
Proof.
  unfold find_item, keys. induction xs as [|y xs IH]; [by intros _ ?%elem_of_nil|].
  cbn. intros [Hy N]%NoDup_cons [->|Hx]%elem_of_cons; [by rewrite bool_decide_eq_true_2|].
  rewrite bool_decide_eq_false_2; [by apply IH|]. intros E. apply Hy. rewrite E.
  by apply list_elem_of_fmap_2.
Qed.

Lemma find_item_None xs k : k ∉ keys xs -> find_item k xs = None.
Proof.
  unfold find_item, keys. induction xs as [|y xs IH]; [done|].
  cbn. intros [Hy ?]%not_elem_of_cons. rewrite bool_decide_eq_false_2 by done. by apply IH.
Qed.

Lemma spec_del_id xs k : k ∉ keys xs -> spec_del xs k = xs.
Proof.
  intros Hk. apply filter_id, Forall_forall. intros x Hx <-. by apply Hk, list_elem_of_fmap_2.
Qed.

Lemma spec_del_middle xs ys x : NoDup (keys (xs ++ x :: ys)) ->
  spec_del (xs ++ x :: ys) (i_key x) = xs ++ ys.
Proof.
  unfold spec_del, keys. rewrite fmap_app, fmap_cons, <- Permutation_middle.
  intros [Hx _]%NoDup_cons. rewrite elem_of_app in Hx.
  rewrite filter_app, filter_cons, decide_False by tauto.
  f_equal; apply spec_del_id; unfold keys; tauto.
Qed.

Lemma rep_split p t zs k : rep p t zs -> k ∈ keys zs.*2 ->
  exists a l x b, zs = a ++ (l, x) :: b /\ i_key x = k.
Proof.
  intros R (l & x & (a & b & ->)%list_elem_of_split & Hk)%elem_of_keys.
  by exists a, l, x, b.
Qed.

Lemma del_refines p t zs k : rep p t zs ->
  exists t' zs' r, del t k = Some (t', r) /\ rep p t' zs' /\ zs'.*2 = spec_del zs.*2 k /\
    bool_decide (is_Some r) = bool_decide (k ∈ keys zs.*2) /\
    forall now, match r with Some _ => te_addedAt <$> deref t' r | None => Some now end =
      Some (match find_item k zs.*2 with Some x => i_added x | None => now end).
Proof.
  intros R. destruct (decide (k ∈ keys zs.*2)) as [Hk|Hk].
  - destruct (rep_split _ _ _ _ R Hk) as (a & l & x & b & -> & <-).
    destruct (del_rep _ _ _ _ _ _ R) as (t' & Hd & R' & Ha). exists t', (a ++ b), (Some l).
    pose proof (rep_keys _ _ _ R) as N. rewrite !fmap_app, fmap_cons in *; cbn [snd] in *.
    split_and!; [done|done|by rewrite spec_del_middle| |].
    + by rewrite !bool_decide_eq_true_2.
    + intros now. rewrite Ha, find_item_Some; [done|done|]. apply elem_of_app. right. left.
  - exists t, zs, None. rewrite (del_absent p t zs k R Hk), spec_del_id, find_item_None by done.
    split_and!; try done. by rewrite !bool_decide_eq_false_2.
Qed.

Lemma put_refines p t zs k clock now : rep p t zs -> spec_ok p clock zs.*2 -> clock <= now ->
  exists t' zs' b, put t k now = Some (t', b) /\ rep p t' zs' /\ spec_put p zs.*2 k now = (zs'.*2, b).
Proof using L.
  intros R S Hc. pose proof (spec_ok_later _ _ _ _ Hc S) as [S1 B1].
  destruct (expire_rep p t zs now R S1) as (t1 & z1 & E1 & R1 & Q1).
  destruct (ensureSizeBound_rep p t1 z1 k R1) as (t2 & z2 & E2 & R2 & Q2).
  unfold put, spec_put. rewrite E1; cbn [mbind option_bind]. rewrite E2; cbn [mbind option_bind].
  rewrite <- Q1, <- Q2, (rep_contains _ _ _ _ R2).
  replace (refreshOnPut t2) with (p_refresh p) by by rewrite <- (rep_params _ _ _ R2).
  destruct (_ && _); [by exists t2, z2, true|].
  destruct (del_refines p t2 z2 k R2) as (t3 & z3 & r & -> & R3 & Q3 & Hb & Ha).
  cbn [mbind option_bind]. rewrite Hb.
  rewrite (Ha now); cbn [mbind option_bind].
  set (added := match find_item k z2.*2 with Some x => i_added x | None => now end).
  replace (timeout t3) with (p_timeout p) by by rewrite <- (rep_params _ _ _ R3).
  destruct (link_node_rep p t3 z3 k added (moment_add now (p_timeout p)) R3) as (t4 & E4 & H4 & R4).
  { rewrite Q3. unfold spec_del, keys. intros (x & -> & [? _]%list_elem_of_filter)%list_elem_of_fmap. done. }
  { rewrite Q3, Q2, Q1. apply (spec_ok_filter p now), spec_ok_bound, spec_ok_filter. done. }
  rewrite E4; cbn [mbind option_bind]. rewrite H4.
  assert (Hn : entries t3 !! k = None).
  { apply eq_None_not_Some. rewrite (rep_dom _ _ _ _ R3), Q3. unfold spec_del, keys.
    intros (x & -> & [? _]%list_elem_of_filter)%list_elem_of_fmap. done. }
  rewrite Hn. eexists _, _, _. split; [done|]. split; [exact R4|]. rewrite fmap_app, Q3. done.
Qed.

Lemma exec_refines p t zs o clock : rep p t zs -> spec_ok p clock zs.*2 ->
  Forall (Z.le clock) (put_times [o]) ->
  exists t' zs' b, exec t o = Some (t', b) /\ rep p t' zs' /\ spec_exec p zs.*2 o = (zs'.*2, b).
Proof using L.
  intros R S Hc. destruct o as [k now|k|now]; cbn.
  - apply Forall_inv in Hc. destruct (put_refines p t zs k clock now R S Hc)
      as (t' & zs' & b & -> & R' & ->). by exists t', zs', (Some b).
  - destruct (del_refines p t zs k R) as (t' & zs' & r & -> & R' & <- & <- & _). by eexists _, _, _.
  - destruct S as [S _]. destruct (expire_rep p t zs now R S) as (t' & zs' & -> & R' & <-).
    by eexists _, _, _.
Qed.

Lemma spec_ok_exec p clock xs o : spec_ok p clock xs -> Forall (Z.le clock) (put_times [o]) ->
  spec_ok p (match o with OpPut _ now => now | _ => clock end) (spec_exec p xs o).1.
Proof using L.
  intros S Hc. destruct o as [k now|k|now]; cbn; [|by apply spec_ok_filter..].
  apply Forall_inv in Hc. pose proof (spec_ok_put p clock now xs k Hc S) as Hp.
  by destruct (spec_put p xs k now).
Qed.

Lemma run_refines p t zs ops clock : rep p t zs -> spec_ok p clock zs.*2 ->
  Forall (Z.le clock) (put_times ops) -> StronglySorted Z.le (put_times ops) ->
  exists t' zs' bs, run t ops = Some (t', bs) /\ rep p t' zs' /\ spec_run p zs.*2 ops = (zs'.*2, bs).
Proof using L.
  revert t zs clock. induction ops as [|o ops IH]; intros t zs clock R S Hc Hs.
  { by exists t, zs, []. }
  assert (Hc1 : Forall (Z.le clock) (put_times [o])).
  { destruct o; cbn in *; [|constructor..]. apply Forall_cons in Hc as [? _]. by constructor. }
  destruct (exec_refines p t zs o clock R S Hc1) as (t1 & z1 & b & E1 & R1 & Q1).
  pose proof (spec_ok_exec p clock zs.*2 o S Hc1) as S1. rewrite Q1 in S1.
  edestruct (IH t1 z1) as (t2 & z2 & bs & E2 & R2 & Q2); [done|exact S1| | |].
  - destruct o; cbn in *; [by apply StronglySorted_inv in Hs as [_ ?]|done..].
  - destruct o; cbn in *; [by apply StronglySorted_inv in Hs as [? _]|done..].
  - exists t2, z2, (b :: bs). cbn. rewrite E1; cbn. rewrite E2, Q1, Q2. done.
Qed.

Lemma sorted_clock (l : list Z) : StronglySorted Z.le l -> exists c, Forall (Z.le c) l.
Proof.
  destruct 1 as [|a l S Ha]; [by exists 0; constructor|]. exists a. constructor; [lia|done].
Qed.

Lemma rep_addedAt p t zs k : rep p t zs ->
  addedAt t k = match find_item k zs.*2 with Some x => i_added x | None => 0 end.
Proof.
  intros R. unfold addedAt. destruct (decide (k ∈ keys zs.*2)) as [Hk|Hk].
  - destruct (rep_split _ _ _ _ R Hk) as (a & l & x & b & E & <-).
    assert (Hx : (l, x) ∈ zs) by (rewrite E; apply elem_of_app; right; left).
    rewrite find_item_Some; [|apply R|apply (list_elem_of_fmap_2 snd _ _ Hx)].
    rewrite (proj2 (rep_entries _ _ _ R (i_key x) l)) by eauto.
    destruct (rep_lookup _ _ _ _ _ R Hx) as (e & He & <-). unfold deref; cbn. by rewrite He.
  - rewrite find_item_None by done. rewrite <- (rep_dom _ _ _ _ R), <- eq_None_not_Some in Hk.
    by rewrite Hk.
Qed.

(** *** The size bound and the window of the seen ids, on the specification *)

Lemma spec_del_length xs k : k ∈ keys xs -> (length (spec_del xs k) < length xs)%nat.
Proof.
  intros (x & -> & Hx)%list_elem_of_fmap. apply (length_filter_lt _ _ x); [done|tauto].
Qed.

Lemma spec_put_length p xs k now : 0 < p_maxSize p -> Z.of_nat (length xs) <= p_maxSize p ->
  Z.of_nat (length (spec_put p xs k now).1) <= p_maxSize p.
Proof.
  intros Hm Hl. unfold spec_put. set (xs1 := spec_expire xs now).
  assert (H1 : Z.of_nat (length xs1) <= p_maxSize p).
  { pose proof (length_filter (fun x => now <= i_expires x) xs). unfold xs1, spec_expire. lia. }
  set (xs2 := spec_bound p xs1 k).
  assert (H2 : Z.of_nat (length xs2) <= p_maxSize p /\
    (k ∉ keys xs2 -> Z.of_nat (length xs2) < p_maxSize p)).
  { unfold xs2, spec_bound. case_decide as Hd; [destruct xs1; cbn in *; lia|].
    split; [done|]. intros Hk. destruct (decide (Z.of_nat (length xs1) = p_maxSize p)); [|lia].
    exfalso. apply Hd. split; [lia|done]. }
  destruct (_ && _); cbn; [lia|]. rewrite length_app; cbn.
  destruct (decide (k ∈ keys xs2)) as [Hk|Hk].
  - pose proof (spec_del_length xs2 k Hk). lia.
  - rewrite spec_del_id by done. pose proof (proj2 H2 Hk). lia.
Qed.

Lemma spec_run_length p xs ops : 0 < p_maxSize p -> Z.of_nat (length xs) <= p_maxSize p ->
  Z.of_nat (length (spec_run p xs ops).1) <= p_maxSize p.
Proof.
  intros Hm. revert xs. induction ops as [|o ops IH]; intros xs Hl; cbn; [done|].
  assert (H1 : Z.of_nat (length (spec_exec p xs o).1) <= p_maxSize p).
  { destruct o as [k now|k|now]; cbn.
    - pose proof (spec_put_length p xs k now Hm Hl). by destruct (spec_put p xs k now).
    - pose proof (length_filter (fun x => i_key x <> k) xs). unfold spec_del. lia.
    - pose proof (length_filter (fun x => now <= i_expires x) xs). unfold spec_expire. lia. }
  destruct (spec_exec p xs o) as [xs1 b]. cbn in H1. specialize (IH xs1 H1).
  by destruct (spec_run p xs1 ops).
Qed.

Lemma spec_run_snoc p xs ops o :
  spec_run p xs (ops ++ [o]) =
  let '(ys, bs) := spec_run p xs ops in let '(zs, b) := spec_exec p ys o in (zs, bs ++ [b]).
Proof.
  revert xs. induction ops as [|o' ops IH]; intros xs; cbn; [by destruct (spec_exec p xs o)|].
  destruct (spec_exec p xs o') as [xs1 b']. rewrite IH.
  destruct (spec_run p xs1 ops) as [ys bs]. by destruct (spec_exec p ys o).
Qed.

Definition puts (ms : list (K * Moment)) : list Op := (fun '(k, now) => OpPut k now) <$> ms.

Lemma put_times_puts ms : put_times (puts ms) = ms.*2.
Proof. unfold puts, put_times. induction ms as [|[k now] ms IH]; cbn; [done|]. by rewrite IH. Qed.

(** The items are puts that have not expired, and with no size bound all of those. *)
Definition window_ok p (ms : list (K * Moment)) clock xs : Prop :=
  (forall x, x ∈ xs -> exists s0, (i_key x, s0) ∈ ms /\ i_expires x = moment_add s0 (p_timeout p)) /\
  (p_maxSize p <= 0 -> forall k s0, (k, s0) ∈ ms -> clock <= moment_add s0 (p_timeout p) ->
    exists x, x ∈ xs /\ i_key x = k /\ moment_add s0 (p_timeout p) <= i_expires x).

Lemma elem_of_keys_iff xs k : k ∈ keys xs <-> exists x, x ∈ xs /\ i_key x = k.
Proof. unfold keys. rewrite list_elem_of_fmap. naive_solver. Qed.

Lemma spec_bound_subset p xs k x : x ∈ spec_bound p xs k -> x ∈ xs.
Proof. unfold spec_bound. case_decide; [|done]. destruct xs; [done|]. by right. Qed.

(** What [spec_put] looks at: the items that are left of the window. *)
Lemma spec_put_seen p ms xs k clock now : p_refresh p = true -> clock <= now ->
  window_ok p ms clock xs ->
  ((spec_put p xs k now).2 = true -> exists s0, (k, s0) ∈ ms /\ now <= moment_add s0 (p_timeout p)) /\
  (p_maxSize p <= 0 -> (exists s0, (k, s0) ∈ ms /\ now <= moment_add s0 (p_timeout p)) ->
    (spec_put p xs k now).2 = true).
Proof.
  intros Hr Hc [W1 W2]. unfold spec_put. rewrite Hr; cbn. split.
  - intros (x & Hx & <-)%bool_decide_eq_true%elem_of_keys_iff.
    apply spec_bound_subset, list_elem_of_filter in Hx as [Hn Hx].
    destruct (W1 x Hx) as (s0 & ? & Ht). exists s0. by rewrite <- Ht.
  - intros Hm (s0 & Hin & Hs0). apply bool_decide_eq_true, elem_of_keys_iff.
    destruct (W2 Hm k s0 Hin ltac:(lia)) as (x & Hx & Hk & Ht). exists x. split; [|done].
    unfold spec_bound. rewrite decide_False by lia. apply list_elem_of_filter. split; [lia|done].
Qed.

Lemma window_ok_put p ms xs k clock now : p_refresh p = true -> clock <= now ->
  spec_ok p clock xs -> window_ok p ms clock xs ->
  window_ok p (ms ++ [(k, now)]) now (spec_put p xs k now).1.
Proof using L.
  intros Hr Hc S [W1 W2]. unfold spec_put. rewrite Hr; cbn. split.
  - intros x [Hx|Hx%list_elem_of_singleton]%elem_of_app.
    + apply list_elem_of_filter in Hx as [_ Hx].
      apply spec_bound_subset, list_elem_of_filter in Hx as [_ Hx].
      destruct (W1 x Hx) as (s0 & ? & ?). exists s0. split; [|done]. apply elem_of_app. by left.
    + subst x; cbn. exists now. split; [|done]. apply elem_of_app. right. left.
  - intros Hm k' s0 Hin Hs0. destruct (decide (k' = k)) as [->|Hk].
    + eexists. split; [apply elem_of_app; right; left|]. split; [done|]; cbn.
      apply elem_of_app in Hin as [Hin|Hin%list_elem_of_singleton]; [|by simplify_eq].
      destruct (W2 Hm k s0 Hin ltac:(lia)) as (x & Hx & _ & Ht).
      destruct S as [_ B]. rewrite Forall_forall in B. specialize (B x Hx).
      pose proof (moment_add_mono clock now (p_timeout p) Hc). lia.
    + apply elem_of_app in Hin as [Hin|Hin%list_elem_of_singleton]; [|by simplify_eq].
      destruct (W2 Hm k' s0 Hin ltac:(lia)) as (x & Hx & Hk' & Ht). exists x. split; [|done].
      apply elem_of_app. left. apply list_elem_of_filter. split; [by rewrite Hk'|].
      unfold spec_bound. rewrite decide_False by lia. apply list_elem_of_filter. split; [lia|done].
Qed.

Lemma window_ok_run p ms : p_refresh p = true -> StronglySorted Z.le ms.*2 ->
  exists clock, window_ok p ms clock (spec_run p [] (puts ms)).1 /\
    spec_ok p clock (spec_run p [] (puts ms)).1 /\ (clock ∈ ms.*2 \/ ms = []).
Proof using L.
  intros Hr. induction ms as [|[k now] ms IH] using rev_ind; intros Hs.
  - exists 0. cbn. split; [|split; [apply spec_ok_nil|by right]].
    split; [by intros x ?%elem_of_nil|by intros _ k s0 ?%elem_of_nil].
  - rewrite fmap_app in Hs. destruct (proj1 (StronglySorted_app _ _ _) Hs) as (Hs1 & Hs2 & _).
    destruct (IH Hs2) as (clock & W & S & Hclock). unfold puts. rewrite fmap_app; cbn.
    rewrite spec_run_snoc. destruct (spec_run p [] ((fun '(k, now) => OpPut k now) <$> ms)) as [xs bs] eqn:E.
    unfold puts in W, S. rewrite E in W, S. cbn in *.
    assert (Hc : exists c, c <= now /\ window_ok p ms c xs /\ spec_ok p c xs).
    { destruct Hclock as [Hin| ->].
      - exists clock. split; [|done]. apply Hs1; [done|left].
      - cbn in E. simplify_eq. exists now. split; [lia|]. split; [|apply spec_ok_nil].
        split; [by intros x ?%elem_of_nil|by intros _ k' s0 ?%elem_of_nil]. }
    destruct Hc as (c & Hc & W' & S'). exists now.
    pose proof (window_ok_put p ms xs k c now Hr Hc S' W') as W2.
    pose proof (spec_ok_put p c now xs k Hc S') as S2.
    destruct (spec_put p xs k now); cbn in *. split; [done|]. split; [done|]. left.
    rewrite fmap_app. apply elem_of_app. right. left.
Qed.
End Runs.

(** ** The cache implements its specification *)

(** C38: While the moments at which keys are put do not go back, every sequence of operations on
a new cache runs to its end without a [nil] dereference, returns what the specification (a
list of dated keys in the order of their expiry) returns, and leaves a cache that contains
the keys of the specification, with their dates and number, which a positive [maxSize]
bounds. *)
Theorem timedcache_refines {K} `{Countable K} `{ChronosLaws}
    (tmo : Duration) (mx : Z) (rf : bool) (ops : list (Op (K:=K))) :
  Sorted Z.le (put_times ops) ->
  exists t bs, run (init tmo mx rf) ops = Some (t, bs) /\
    let spec := spec_run (mkParams tmo mx rf) [] ops in
    bs = spec.2 /\
    (forall k, contains t k = bool_decide (k ∈ keys spec.1)) /\
    (forall k, addedAt t k = match find_item k spec.1 with Some x => i_added x | None => 0 end) /\
    len t = Z.of_nat (length spec.1) /\
    (0 < mx -> len t <= mx).
Proof.
  intros Hs%Sorted_StronglySorted; [|intros x y z; lia].
  destruct (sorted_clock _ Hs) as [clock Hc]. set (p := mkParams tmo mx rf).
  destruct (run_refines p (init tmo mx rf) [] ops clock) as (t & zs & bs & E & R & Q);
    [exact (rep_init tmo mx rf)|exact (spec_ok_nil p clock)|done|done|].
  exists t, bs. split; [done|]. cbn [fmap list_fmap] in Q. rewrite Q; cbn.
  split; [done|]. split; [intros k; by apply (rep_contains p)|].
  split; [intros k; by apply (rep_addedAt p)|]. rewrite (rep_len p t zs R), length_fmap.
  split; [done|]. intros Hm. pose proof (spec_run_length p [] ops Hm ltac:(cbn; lia)) as Hl.
  rewrite Q in Hl; cbn in Hl. by rewrite length_fmap in Hl.
Qed.

(** In a cache that refreshes, [put] says that a key was there only if it was put no more
than [timeout] before; without a size bound it says so whenever it was. *)
Theorem seen_window {K} `{Countable K} `{ChronosLaws}
    (tmo : Duration) (mx : Z) (ms : list (K * Moment)) (k : K) (now : Moment) :
  Sorted Z.le (ms ++ [(k, now)]).*2 ->
  let seen := exists s, (k, s) ∈ ms /\ now <= moment_add s tmo in
  exists t bs b, run (init tmo mx true) (puts (ms ++ [(k, now)])) = Some (t, bs ++ [Some b]) /\
    (b = true -> seen) /\ (mx <= 0 -> seen -> b = true).
Proof.
  intros Hs seen. set (p := mkParams tmo mx true).
  pose proof (put_times_puts (ms ++ [(k, now)])) as Hp.
  pose proof (Sorted_StronglySorted _ _ Hs) as Hs'.
  destruct (sorted_clock _ Hs') as [c0 Hc0].
  destruct (run_refines p (init tmo mx true) [] (puts (ms ++ [(k, now)])) c0)
    as (t & zs & bs & E & _ & Q); [exact (rep_init tmo mx true)|exact (spec_ok_nil p c0)|by rewrite Hp..|].
  rewrite fmap_app, StronglySorted_app in Hs'. destruct Hs' as (Hle & Hms & _).
  destruct (window_ok_run p ms eq_refl Hms) as (c & W & _ & Hc).
  assert (Hc' : c <= now \/ ms = []).
  { destruct Hc as [Hc|Hc]; [left|by right]. apply Hle; [done|left]. }
  unfold puts in Q. rewrite fmap_app in Q; cbn [fmap list_fmap] in Q. rewrite spec_run_snoc in Q.
  destruct (spec_run p [] _) as [xs bs0] eqn:E0 in Q. cbn [spec_exec] in Q.
  destruct (spec_put p xs k now) as [ys b] eqn:Ep. simplify_eq.
  exists t, bs0, b. split; [done|].
  assert (W' : exists c', c' <= now /\ window_ok p ms c' xs).
  { destruct Hc' as [Hc'| ->]; [exists c; split; [done|]|exists now; split; [lia|]].
    - unfold puts in W. by rewrite E0 in W.
    - cbn in E0. simplify_eq. split; [by intros x ?%elem_of_nil|by intros _ k' s ?%elem_of_nil]. }
  destruct W' as (c' & Hle' & W').
  pose proof (spec_put_seen p ms xs k c' now eq_refl Hle' W') as [P1 P2]. rewrite Ep in P1, P2.
  split; [exact P1|exact P2].
Qed.

(** With a clock that goes back, an entry put between two others is lost to the list once the
later one is deleted: it stays in the set for ever (here at a moment far after its expiry). *)
Theorem timedcache_clock_back_leak :
  exists t bs, @run positive _ _ plain_chronos (init 100 0 true)
      [OpPut 1%positive 0; OpPut 3%positive 10; OpPut 2%positive 5; OpDel 3%positive;
       OpExpire 1000000] = Some (t, bs) /\
    head t = None /\ contains t 2%positive = true /\ contains t 1%positive = false.
Proof. vm_compute. by eexists _, _. Qed.

Definition demo_ops : list (Op (K:=positive)) :=
  [OpPut 1%positive 0; OpPut 2%positive 1; OpPut 3%positive 2; OpPut 1%positive 3;
   OpPut 4%positive 3; OpDel 3%positive; OpExpire 9; OpPut 5%positive 100].

Lemma timedcache_refines_witness :
  exists t bs, @run positive _ _ plain_chronos (init 5 3 true) demo_ops = Some (t, bs) /\
    bs = [Some false; Some false; Some false; Some true; Some false; Some true; None; Some false] /\
    contains t 5%positive = true /\ len t = 1.
Proof.
  destruct (@timedcache_refines positive _ _ plain_chronos plain_chronos_laws 5 3 true demo_ops)
    as (t & bs & E & Hb & Hc & _ & Hl & _).
  { vm_compute. repeat constructor; discriminate. }
  exists t, bs. split; [exact E|]. rewrite Hb, Hc, Hl. split_and!; vm_compute; reflexivity.
Defined.

Lemma seen_window_witness :
  exists t bs b, @run positive _ _ plain_chronos (init 5 0 true)
      (puts ([(1%positive, 0); (2%positive, 3)] ++ [(1%positive, 4)])) = Some (t, bs ++ [Some b]) /\
    b = true.
Proof.
  destruct (@seen_window positive _ _ plain_chronos plain_chronos_laws 5 0
    [(1%positive, 0); (2%positive, 3)] 1%positive 4) as (t & bs & b & E & _ & Hb).
  { cbn. repeat constructor; discriminate. }
  exists t, bs, b. split; [exact E|]. apply Hb; [lia|]. exists 0. split; [left|vm_compute; discriminate].
Defined.
