(* ===== verification/MCache.v ===== *)
(** * MCache: the message cache of gossipsub (src/libp2p/protocols/pubsub/mcache.nim)

A table of messages and a circular buffer of the ids put since each of the last heartbeats.
It is shown to implement a list of rounds, the most recent first, that forgets its last
round at each [shift]. *)
From S2P Require Import Prelude.

#[local] Open Scope Z_scope.

Abbreviation MessageId := bytes (only parsing).

(** The fields of [rpc/messages.nim]'s [Message]. *)
Record Message := mkMessage {
  fromPeer : bytes;
  data : bytes;
  seqno : bytes;
  topic : string;
  signature : bytes;
  key : bytes;
}.

Record CacheEntry := mkCacheEntry { ce_msgId : MessageId; ce_topic : string }.

Record MCache := mkMCache {
  msgs : gmap MessageId Message;
  history : list (list CacheEntry);
  pos : nat;
  windowSize : Z;
}.

Implicit Types (c : MCache) (msgId : MessageId) (msg : Message) (tp : string).

Definition get c msgId : option Message := msgs c !! msgId.

Definition contains c msgId : bool := bool_decide (is_Some (msgs c !! msgId)).

(** An index out of the history is a defect. *)
Definition put c msgId msg : option MCache :=
  match msgs c !! msgId with
  | Some _ => Some c
  | None =>
      slot ← history c !! pos c;
      Some (mkMCache (<[msgId := msg]> (msgs c))
              (<[pos c := slot ++ [mkCacheEntry msgId (topic msg)]]> (history c))
              (pos c) (windowSize c))
  end.

(** The ids of one slot that have the topic. *)
Definition window_slot tp (ids : gset MessageId) (slot : list CacheEntry) : gset MessageId :=
  foldl (fun ids e => if decide (ce_topic e = tp) then {[ce_msgId e]} ∪ ids else ids) ids slot.

Fixpoint window_loop c tp (is_ : list nat) (ids : gset MessageId) : option (gset MessageId) :=
  match is_ with
  | [] => Some ids
  | i :: is_ =>
      slot ← history c !! ((pos c + length (history c) - i) mod length (history c))%nat;
      window_loop c tp is_ (window_slot tp ids slot)
  end.

Definition window c tp : option (gset MessageId) :=
  let len := Z.min (windowSize c) (Z.of_nat (length (history c))) in
  window_loop c tp (seq 0 (Z.to_nat len)) ∅.

(** The modulo by an empty history is a defect. *)
Definition shift c : option MCache :=
  match length (history c) with
  | O => None
  | n =>
      let pos := ((pos c + 1) mod n)%nat in
      slot ← history c !! pos;
      let msgs := foldl (fun m e => delete (ce_msgId e) m) (msgs c) slot in
      Some (mkMCache msgs (<[pos := []]> (history c)) pos (windowSize c))
  end.

Definition init (window history : Z) : option MCache :=
  _ ← doAssert (0 <? history);
  _ ← doAssert (0 <=? window);
  Some (mkMCache ∅ (replicate (Z.to_nat history) []) 0 window).

Inductive Op : Type :=
| OpPut (msgId : MessageId) (msg : Message)
| OpShift.

Definition exec c (o : Op) : option MCache :=
  match o with OpPut i m => put c i m | OpShift => shift c end.

Fixpoint run c (ops : list Op) : option MCache :=
  match ops with [] => Some c | o :: ops => c ← exec c o; run c ops end.

(** ** The specification: the rounds, the most recent first *)

Abbreviation round := (list (bytes * Message)).

Implicit Types (r : round) (rs : list round).

Definition spec_get rs msgId : option Message :=
  snd <$> List.find (fun x => bool_decide (x.1 = msgId)) (concat rs).

(** The ids of the last [w] rounds with the topic. *)
Definition spec_window (w : Z) rs tp : gset MessageId :=
  list_to_set (fst <$> filter (fun x => topic x.2 = tp) (concat (take (Z.to_nat w) rs))).

Definition spec_put rs msgId msg : list round :=
  match rs with
  | [] => []
  | r :: rs' => if decide (msgId ∈ fst <$> concat rs) then rs else (r ++ [(msgId, msg)]) :: rs'
  end.

Definition spec_shift rs : list round := [] :: take (length rs - 1) rs.

Definition spec_exec rs (o : Op) : list round :=
  match o with OpPut i m => spec_put rs i m | OpShift => spec_shift rs end.

Definition spec_run rs (ops : list Op) : list round := foldl spec_exec rs ops.

(** ** The circular buffer *)

Definition entry_of (x : bytes * Message) : CacheEntry := mkCacheEntry x.1 (topic x.2).

(** The slot of the [i]-th most recent round. *)
Definition slot_of c (i : nat) : nat := ((pos c + length (history c) - i) mod length (history c))%nat.

Record rep (w : Z) c rs : Prop := {
  rep_window : windowSize c = w;
  rep_length : length (history c) = length rs;
  rep_pos : (pos c < length rs)%nat;
  rep_nodup : NoDup (concat rs).*1;
  rep_msgs i m : msgs c !! i = Some m <-> (i, m) ∈ concat rs;
  rep_slots i r : rs !! i = Some r -> history c !! slot_of c i = Some (entry_of <$> r);
}.

Lemma mcache_rep_init w n : 0 < n -> 0 <= w ->
  exists c, init w n = Some c /\ rep w c (replicate (Z.to_nat n) []).
Proof.
  intros Hn Hw. unfold init. replace (0 <? n) with true by lia. replace (0 <=? w) with true by lia.
  eexists. split; [done|].
  assert (E : concat (replicate (Z.to_nat n) ([] : round)) = []).
  { induction (Z.to_nat n); [done|]. by cbn. }
  split; cbn.
  - done.
  - by rewrite !length_replicate.
  - rewrite length_replicate. lia.
  - rewrite E. constructor.
  - intros i m. rewrite E, lookup_empty. split; [done|]. by intros ?%elem_of_nil.
  - intros i r (-> & Hi)%lookup_replicate. unfold slot_of; cbn. rewrite length_replicate.
    apply lookup_replicate. split; [done|]. apply Nat.mod_upper_bound. lia.
Qed.

(** Going back in a circular buffer of [n] slots. *)
Lemma back_0 n q : (q < n)%nat -> ((q + n - 0) mod n)%nat = q.
Proof.
  intros Hq. rewrite Nat.sub_0_r. rewrite <- (Nat.mul_1_l n) at 1.
  rewrite Nat.Div0.mod_add. by apply Nat.mod_small.
Qed.

Lemma back_ne n q i : (q < n)%nat -> (0 < i < n)%nat -> ((q + n - i) mod n)%nat <> q.
Proof.
  intros Hq Hi. destruct (decide (i <= q)%nat).
  - replace (q + n - i)%nat with (q - i + 1 * n)%nat by lia.
    rewrite Nat.Div0.mod_add, Nat.mod_small by lia. lia.
  - rewrite Nat.mod_small by lia. lia.
Qed.

Lemma back_next n q i : (i < n)%nat ->
  (((q + 1) mod n + n - S i) mod n = (q + n - i) mod n)%nat.
Proof.
  intros Hi. replace ((q + 1) mod n + n - S i)%nat with ((q + 1) mod n + (n - S i))%nat by lia.
  rewrite Nat.Div0.add_mod_idemp_l. f_equal. lia.
Qed.

Lemma slot_of_0 w c rs : rep w c rs -> slot_of c 0 = pos c.
Proof. intros R. unfold slot_of. rewrite (rep_length _ _ _ R). apply back_0, R. Qed.

(** Another round has another slot. *)
Lemma slot_of_ne w c rs i : rep w c rs -> (0 < i < length rs)%nat -> slot_of c i <> pos c.
Proof. intros R Hi. unfold slot_of. rewrite (rep_length _ _ _ R). by apply back_ne; [apply R|]. Qed.

Lemma rep_put w c rs i m : rep w c rs ->
  exists c', put c i m = Some c' /\ rep w c' (spec_put rs i m).
Proof.
  intros R. pose proof (rep_pos _ _ _ R) as Hp. destruct rs as [|r rs]; [cbn in Hp; lia|].
  unfold put, spec_put. destruct (msgs c !! i) as [m'|] eqn:E.
  - exists c. split; [done|]. rewrite decide_True; [done|].
    apply (rep_msgs _ _ _ R) in E. apply (list_elem_of_fmap_2 fst _ _ E).
  - assert (Hi : i ∉ (concat (r :: rs)).*1).
    { intros ([i' m'] & -> & Hm)%list_elem_of_fmap. apply (rep_msgs _ _ _ R) in Hm. cbn in E. congruence. }
    rewrite decide_False by done. pose proof (slot_of_0 _ _ _ R) as S0.
    pose proof (rep_slots _ _ _ R 0 r eq_refl) as Hr. rewrite S0 in Hr.
    rewrite Hr; cbn [mbind option_bind].
    eexists. split; [done|]. pose proof (rep_length _ _ _ R) as Hlen.
    assert (Ep : concat ((r ++ [(i, m)]) :: rs) ≡ₚ (i, m) :: concat (r :: rs)).
    { cbn. rewrite <- app_assoc. cbn. by rewrite <- Permutation_middle. }
    split; cbn [windowSize history pos msgs].
    + apply R.
    + by rewrite length_insert.
    + exact Hp.
    + rewrite Ep. apply NoDup_cons. split; [done|apply R].
    + intros i' m'. rewrite Ep, lookup_insert_Some, elem_of_cons, (rep_msgs _ _ _ R). split.
      * intros [[-> ->]|[_ ?]]; [by left|by right].
      * intros [?|Hm]; [left; by simplify_eq|right]. split; [|done].
        intros ->. apply Hi, (list_elem_of_fmap_2 fst _ _ Hm).
    + intros j r' Hj. unfold slot_of; cbn [pos history]. rewrite length_insert.
      fold (slot_of c j). destruct j as [|j]; cbn in Hj.
      * injection Hj as <-. rewrite S0, list_lookup_insert_eq by (rewrite Hlen; exact Hp).
        by rewrite fmap_app.
      * rewrite list_lookup_insert_ne; [by apply (rep_slots _ _ _ R)|].
        intros Heq. apply (slot_of_ne _ _ _ (S j) R); [|done].
        apply lookup_lt_Some in Hj. cbn. lia.
Qed.

(** Deleting the messages of a slot. *)
Lemma delete_slot (r : round) (M : gmap MessageId Message) i m :
  foldl (fun m e => delete (ce_msgId e) m) M (entry_of <$> r) !! i = Some m <->
  M !! i = Some m /\ i ∉ r.*1.
Proof.
  revert M. induction r as [|[j n] r IH]; intros M; cbn.
  - split; [|tauto]. split; [done|]. apply not_elem_of_nil.
  - rewrite IH, lookup_delete_Some, not_elem_of_cons. naive_solver.
Qed.

Lemma rep_shift w c rs : rep w c rs -> exists c', shift c = Some c' /\ rep w c' (spec_shift rs).
Proof.
  intros R. pose proof (rep_pos _ _ _ R) as Hp. pose proof (rep_length _ _ _ R) as Hlen.
  destruct rs as [|r rs _] using rev_ind; [cbn in Hp; lia|]. rewrite length_app in *; cbn in *.
  unfold shift, spec_shift. rewrite length_app; cbn [length].
  replace (length rs + 1 - 1)%nat with (length rs) by lia. rewrite take_app_length.
  set (pos' := ((pos c + 1) mod (length rs + 1))%nat).
  assert (Hslot : slot_of c (length rs) = pos').
  { unfold slot_of, pos'. rewrite Hlen. f_equal. lia. }
  pose proof (rep_slots _ _ _ R (length rs) r) as Hr. rewrite Hslot in Hr.
  specialize (Hr ltac:(by apply list_lookup_middle)).
  assert (E1 : (length rs + 1)%nat = S (length rs)) by lia. unfold pos' in *. clear pos'. rewrite E1 in *.
  pose proof (Nat.mod_upper_bound (pos c + 1) (S (length rs)) ltac:(lia)) as Hpos'.
  rewrite Hlen. cbv beta iota zeta. set (pos' := ((pos c + 1) mod S (length rs))%nat) in *.
  rewrite Hr; cbn [mbind option_bind]. eexists. split; [done|].
  pose proof (rep_nodup _ _ _ R) as N. rewrite concat_app, fmap_app in N. cbn in N.
  rewrite app_nil_r in N. apply NoDup_app in N as (N1 & N2 & _).
  split; cbn [windowSize history pos msgs].
  - apply R.
  - rewrite length_insert. cbn. lia.
  - cbn. lia.
  - done.
  - intros i m. rewrite delete_slot, (rep_msgs _ _ _ R), concat_app. cbn.
    rewrite app_nil_r, elem_of_app. split.
    + intros [[?|Hm] Hn]; [done|]. exfalso. apply Hn, (list_elem_of_fmap_2 fst _ _ Hm).
    + intros Hm. split; [by left|]. apply (N2 i), (list_elem_of_fmap_2 fst _ _ Hm).
  - intros j r' Hj. unfold slot_of; cbn [pos history]. rewrite length_insert, Hlen.
    destruct j as [|j]; cbn in Hj.
    + injection Hj as <-. by rewrite back_0, list_lookup_insert_eq by lia.
    + pose proof (lookup_lt_Some _ _ _ Hj) as Hlt.
      rewrite list_lookup_insert_ne by (intros Heq; symmetry in Heq; revert Heq; apply back_ne; lia).
      unfold pos'. rewrite back_next by lia. rewrite <- Hlen. apply (rep_slots _ _ _ R).
      by rewrite lookup_app_l.
Qed.

Lemma rep_run w c rs ops : rep w c rs -> exists c', run c ops = Some c' /\ rep w c' (spec_run rs ops).
Proof.
  revert c rs. induction ops as [|o ops IH]; intros c rs R; [by exists c|]. cbn.
  destruct o as [i m|]; cbn.
  - destruct (rep_put w c rs i m R) as (c' & -> & R'). by apply IH.
  - destruct (rep_shift w c rs R) as (c' & -> & R'). by apply IH.
Qed.

(** ** Queries *)

Lemma window_slot_spec tp ids r :
  window_slot tp ids (entry_of <$> r) = list_to_set (fst <$> filter (fun x => topic x.2 = tp) r) ∪ ids.
Proof.
  unfold window_slot. revert ids. induction r as [|x r IH]; intros ids; cbn [fmap list_fmap foldl].
  - by rewrite filter_nil; cbn; rewrite union_empty_l_L.
  - rewrite IH, filter_cons. change (ce_topic (entry_of x)) with (topic x.2). case_decide; cbn; set_solver.
Qed.

Lemma window_loop_spec w c rs tp k i ids : rep w c rs -> (i + k <= length rs)%nat ->
  window_loop c tp (seq i k) ids = Some
    (list_to_set (fst <$> filter (fun x => topic x.2 = tp) (concat (take k (drop i rs)))) ∪ ids).
Proof.
  intros R. revert i ids. induction k as [|k IH]; intros i ids Hk; cbn [seq window_loop].
  - rewrite take_0; cbn. by rewrite union_empty_l_L.
  - destruct (lookup_lt_is_Some_2 rs i ltac:(lia)) as [r Hr]. fold (slot_of c i).
    rewrite (rep_slots _ _ _ R i r Hr); cbn [mbind option_bind]. rewrite IH by lia.
    rewrite window_slot_spec, (drop_S rs r i Hr); cbn. rewrite filter_app, fmap_app, list_to_set_app_L.
    f_equal. set_solver.
Qed.

Lemma window_rep w c rs tp : rep w c rs -> window c tp = Some (spec_window w rs tp).
Proof.
  intros R. unfold window. rewrite (rep_window _ _ _ R), (rep_length _ _ _ R).
  rewrite (window_loop_spec w c rs tp _ 0 ∅ R) by lia. unfold spec_window.
  rewrite union_empty_r_L, drop_0. do 5 f_equal.
  destruct (decide (w <= Z.of_nat (length rs))); [by rewrite Z.min_l by lia|].
  rewrite Z.min_r, Nat2Z.id by lia. by rewrite !take_ge by lia.
Qed.

Lemma get_rep w c rs i : rep w c rs -> get c i = spec_get rs i.
Proof.
  intros R. unfold get, spec_get. pose proof (rep_nodup _ _ _ R) as N.
  pose proof (rep_msgs _ _ _ R i) as M. destruct (msgs c !! i) as [m|].
  - assert (Hm : (i, m) ∈ concat rs) by (by apply M). clear M R. induction (concat rs) as [|[j n] l IH].
    + by apply elem_of_nil in Hm.
    + cbn. cbn in N. apply NoDup_cons in N as [Hj N]. apply elem_of_cons in Hm as [Hm|Hm].
      * simplify_eq. by rewrite bool_decide_eq_true_2.
      * rewrite bool_decide_eq_false_2; [by apply IH|]. intros ->.
        apply Hj, (list_elem_of_fmap_2 fst _ _ Hm).
  - destruct (List.find _ (concat rs)) as [[j n]|] eqn:F; [|done].
    apply List.find_some in F as [Hin Hj%bool_decide_eq_true]. cbn in Hj. subst j.
    apply list_elem_of_In, M in Hin. done.
Qed.

(** C39: After any sequence of puts and shifts from a new cache no index is out of range and no
modulo by zero is taken, [get] and [contains] find exactly the messages of the last
[history] rounds, and [window] gives the ids of a topic in the last [window] rounds. *)
Theorem mcache_refines w n ops : 0 < n -> 0 <= w ->
  exists c c', init w n = Some c /\ run c ops = Some c' /\
    let rounds := spec_run (replicate (Z.to_nat n) []) ops in
    length rounds = Z.to_nat n /\
    (forall i, get c' i = spec_get rounds i) /\
    (forall i, contains c' i = bool_decide (is_Some (spec_get rounds i))) /\
    (forall tp, window c' tp = Some (spec_window w rounds tp)).
Proof.
  intros Hn Hw. destruct (mcache_rep_init w n Hn Hw) as (c & Ei & R0).
  destruct (rep_run w c _ ops R0) as (c' & Er & R). exists c, c'. split; [done|]. split; [done|].
  intros rounds. split.
  - unfold rounds, spec_run. clear R Er. assert (Hl : length (replicate (Z.to_nat n) ([] : round)) = Z.to_nat n)
      by apply length_replicate. revert Hl. generalize (replicate (Z.to_nat n) ([] : round)).
    induction ops as [|o ops IH]; intros rs Hl; cbn; [done|]. apply IH. destruct o; cbn.
    + unfold spec_put. destruct rs; [done|]. by case_decide.
    + rewrite length_take. lia.
  - split; [intros i; by apply (get_rep w)|]. split; [|intros tp; by apply (window_rep w)].
    intros i. unfold contains. apply bool_decide_ext. by rewrite <- (get_rep w c' rounds i R).
Qed.

Definition demo_msg (tp : string) (d : Z) : Message := mkMessage [] [d] [] tp [] [].

Definition demo_ops : list Op :=
  [OpPut [1] (demo_msg "a" 1); OpShift; OpPut [2] (demo_msg "b" 2); OpPut [1] (demo_msg "a" 3);
   OpShift; OpPut [3] (demo_msg "a" 4); OpShift; OpPut [4] (demo_msg "a" 5)].

Lemma mcache_refines_witness :
  exists c c', init 2 3 = Some c /\ run c demo_ops = Some c' /\
    get c' [1] = None /\ get c' [2] = Some (demo_msg "b" 2) /\
    window c' "a" = Some {[ [3]; [4] ]} /\ window c' "b" = Some ∅.
Proof.
  destruct (mcache_refines 2 3 demo_ops ltac:(lia) ltac:(lia)) as (c & c' & Ei & Er & _ & Hg & _ & Hw).
  exists c, c'. split; [exact Ei|]. split; [exact Er|]. rewrite !Hg, !Hw.
  split_and!; vm_compute; reflexivity.
Defined.
