(* ===== verification/PeerTable.v ===== *)
(** * PeerTable: libp2p/protocols/pubsub/peertable.nim

A table from topics to sets of peers.  A peer stands for the one [PubSubPeer] object of its
[PeerId] (the code compares and hashes the objects by it), and a set that becomes empty leaves
the table. *)
From S2P Require Import Prelude.

#[local] Open Scope Z_scope.

(** [PeerId.data]. *)
Abbreviation PeerId := bytes.

Abbreviation PeerTable := (gmap string (gset PeerId)).

(** [table.getOrDefault(topic)]. *)
Definition peersOf (t : PeerTable) (topic : string) : gset PeerId := default ∅ (t !! topic).

(** [true] when the peer was added. *)
Definition addPeer (t : PeerTable) (topic : string) (p : PeerId) : bool * PeerTable :=
  (bool_decide (p ∉ peersOf t topic), <[topic := {[p]} ∪ peersOf t topic]> t).

Definition removePeer (t : PeerTable) (topic : string) (p : PeerId) : PeerTable :=
  match t !! topic with
  | None => t
  | Some s =>
      let s := s ∖ {[p]} in
      if (size s =? 0)%nat then delete topic t else <[topic := s]> t
  end.

Definition hasPeer (t : PeerTable) (topic : string) (p : PeerId) : bool :=
  match t !! topic with None => false | Some s => bool_decide (p ∈ s) end.

Definition peers (t : PeerTable) (topic : string) : Z :=
  match t !! topic with None => 0 | Some s => Z.of_nat (size s) end.

Definition outboundPeers (outbound : PeerId -> bool) (t : PeerTable) (topic : string) : Z :=
  match t !! topic with
  | None => 0
  | Some s => Z.of_nat (size (filter (fun p => outbound p) s))
  end.

(** ** Lemmas *)

Section Lemmas.
Implicit Types (t : PeerTable) (topic : string) (p : PeerId).

Lemma peers_size t topic : peers t topic = Z.of_nat (size (peersOf t topic)).
Proof. unfold peers, peersOf. by destruct (t !! topic). Qed.

Lemma hasPeer_spec t topic p : hasPeer t topic p = bool_decide (p ∈ peersOf t topic).
Proof. unfold hasPeer, peersOf. by destruct (t !! topic). Qed.

Lemma outboundPeers_size outbound t topic :
  outboundPeers outbound t topic = Z.of_nat (size (filter (fun p => outbound p) (peersOf t topic))).
Proof. unfold outboundPeers, peersOf. by destruct (t !! topic). Qed.

Lemma addPeer_same t topic p : peersOf (addPeer t topic p).2 topic = {[p]} ∪ peersOf t topic.
Proof. unfold peersOf. cbn. by rewrite lookup_insert_eq. Qed.

Lemma addPeer_other t topic topic' p : topic' <> topic ->
  (addPeer t topic p).2 !! topic' = t !! topic'.
Proof. intros H. cbn. by rewrite lookup_insert_ne by done. Qed.

Lemma removePeer_same t topic p : peersOf (removePeer t topic p) topic = peersOf t topic ∖ {[p]}.
Proof.
  unfold peersOf, removePeer. destruct (t !! topic) as [s|] eqn:E; cbn.
  - destruct (Nat.eqb_spec (size (s ∖ {[p]})) 0) as [Hs|].
    + rewrite lookup_delete_eq. symmetry. by apply leibniz_equiv, size_empty_inv.
    + by rewrite lookup_insert_eq.
  - rewrite E. set_solver.
Qed.

Lemma removePeer_other t topic topic' p : topic' <> topic ->
  removePeer t topic p !! topic' = t !! topic'.
Proof.
  intros H. unfold removePeer. destruct (t !! topic); [|done].
  case_match; by rewrite ?lookup_delete_ne, ?lookup_insert_ne by done.
Qed.

(** No topic maps to the empty set. *)
Definition trimmed t : Prop := forall topic s, t !! topic = Some s -> s <> ∅.

Lemma addPeer_trimmed t topic p : trimmed t -> trimmed (addPeer t topic p).2.
Proof.
  intros H topic' s. unfold addPeer. cbn [snd].
  intros [[<- <-]|[? Hs]]%lookup_insert_Some; [set_solver|by eapply H].
Qed.

Lemma removePeer_trimmed t topic p : trimmed t -> trimmed (removePeer t topic p).
Proof.
  intros H topic' s. unfold removePeer. destruct (t !! topic) as [s'|]; [|by apply H].
  destruct (Nat.eqb_spec (size (s' ∖ {[p]})) 0) as [Hs|Hs].
  - intros [_ Hs']%lookup_delete_Some. by eapply H.
  - intros [[<- <-]|[? Hs']]%lookup_insert_Some; [|by eapply H].
    intros E. apply Hs. by rewrite E.
Qed.

End Lemmas.
