(* ===== verification/GossipMesh.v ===== *)
(** * GossipMesh: libp2p/protocols/pubsub/gossipsub/behavior.nim

The mesh of a gossipsub node: who is grafted and pruned, by the remote side ([handleGraft],
[handlePrune]) and by the heartbeat ([rebalanceMesh] for each topic, then the fanout).

The state is [GossipSub]: the fields of the object that these procedures use, the objects of
its peers ([objs], one per peer id), the samples of the clock taken so far ([ticks]: the n-th
call of [Moment.now()] gives [clock n]) and the messages handed to [broadcastResponse] ([sent]).
A hash set has no order of its own: [ord k s] is the order in which the set [s] is enumerated
at the place [k] of the code.  Scores are IEEE 754 doubles ([SpecFloat]).  Of [score],
[outbound] and [connected] the procedures only read the current value.  Logs and metrics are
left out, and so is the decoding of the records a PRUNE carries: the calls of
[routingRecordsHandler] are recorded with the records as they came. *)
From stdpp Require Import functions.
From Stdlib Require Import SpecFloat.
From S2P Require Import Prelude Chronos Rng PeerTable.

#[local] Open Scope Z_scope.

(** ** Doubles *)

Abbreviation float64 := spec_float.

Definition flt (x y : float64) : bool := SFltb x y.

Definition fle (x y : float64) : bool := SFleb x y.

Definition fadd : float64 -> float64 -> float64 := SFadd 53 1024.

Definition fsub : float64 -> float64 -> float64 := SFsub 53 1024.

Definition fmul : float64 -> float64 -> float64 := SFmul 53 1024.

(** The literals [0.0] and [0.1]. *)
Definition f0 : float64 := S754_zero false.

Definition f0_1 : float64 := S754_finite false 7205759403792794 (-56).

(** ** Data *)

Record PubSubPeer : Type := mkPubSubPeer {
  score : float64;
  outbound : bool;
  connected : bool;
  behaviourPenalty : float64;
}.

Record TopicInfo : Type := mkTopicInfo {
  graftTime : Moment;
  meshTime : Duration;
  inMesh : bool;
  meshMessageDeliveriesActive : bool;
  firstMessageDeliveries : float64;
  meshMessageDeliveries : float64;
  meshFailurePenalty : float64;
  invalidMessageDeliveries : float64;
}.

(** The parameter that [pruned] reads. *)
Record TopicParams : Type := mkTopicParams { meshMessageDeliveriesThreshold : float64 }.

(** The fields of the statistics that the mesh uses. *)
Record PeerStats : Type := mkPeerStats {
  topicInfos : gmap string TopicInfo;
  expire : Moment;
}.

Record GossipSubParams : Type := mkGossipSubParams {
  pruneBackoff : Duration;
  unsubscribeBackoff : Duration;
  d : Z;
  dLow : Z;
  dHigh : Z;
  dScore : Z;
  dOut : Z;
  gossipThreshold : float64;
  publishThreshold : float64;
  opportunisticGraftThreshold : float64;
  retainScore : Duration;
  directPeers : gset PeerId;
  enablePX : bool;
}.

Record PeerInfoMsg : Type := mkPeerInfoMsg {
  pi_peerId : option PeerId;
  signedPeerRecord : option bytes;
}.

Record ControlPrune : Type := mkControlPrune {
  cp_topicID : string;
  cp_peers : list PeerInfoMsg;
  cp_backoff : Z;
}.

Inductive ControlMessage : Type :=
| withGraft (topicID : string)
| withPrune (prune : ControlPrune).

Abbreviation BackoffTable := (gmap string (gmap PeerId Moment)).

Definition BackoffSlackTime : Z := 2.

Definition MaxOpportunisticGraftPeers : nat := 2.

Record GossipSub `{D : Drbg} : Type := mkGossipSub {
  parameters : GossipSubParams;
  topics : gset string;
  topicParams : gmap string TopicParams;
  gossipsub : PeerTable;
  sprBook : gmap PeerId bytes;
  mesh : PeerTable;
  fanout : PeerTable;
  backingOff : BackoffTable;
  lastFanoutPubSub : gmap string Moment;
  peerStats : gmap PeerId PeerStats;
  objs : PeerId -> PubSubPeer;
  rng : drbg;
  ticks : nat;
  sent : list (list PeerId * ControlMessage);
  routed : list (PeerId * string * list PeerInfoMsg);
}.

(** [system.cmp] on the scores. *)
Definition byScore (objs : PeerId -> PubSubPeer) (x y : PeerId) : Z :=
  let a := score (objs x) in
  let b := score (objs y) in
  if SFeqb a b then 0 else if flt a b then -1 else 1.

(** [std/algorithm]'s [sort] is a stable merge sort. *)
Definition ascending (objs : PeerId -> PubSubPeer) (x y : PeerId) : Prop := byScore objs x y <= 0.

Definition descending (objs : PeerId -> PubSubPeer) (x y : PeerId) : Prop := - byScore objs x y <= 0.

#[global] Instance ascending_dec objs x y : Decision (ascending objs x y).
Proof. unfold ascending. apply _. Defined.

#[global] Instance descending_dec objs x y : Decision (descending objs x y).
Proof. unfold descending. apply _. Defined.

(** [l.setLen(n)]: a negative length is a defect; the code never grows these sequences (it
would fill them with nil). *)
Definition shrink {A} (n : Z) (l : list A) : option (list A) :=
  if (0 <=? n) && (n <=? Z.of_nat (length l)) then Some (take (Z.to_nat n) l) else None.

(** ** Operations *)

Section Operations.
Context `{C : Chronos} `{D : Drbg}.
Context (clock : nat -> Moment) (ord : nat -> gset PeerId -> list PeerId).
Implicit Types (g : GossipSub) (topic : string) (p : PeerId).

Definition set_mesh (x : PeerTable) g : GossipSub :=
  mkGossipSub _ (parameters g) (topics g) (topicParams g) (gossipsub g) (sprBook g) x (fanout g)
    (backingOff g) (lastFanoutPubSub g) (peerStats g) (objs g) (rng g) (ticks g) (sent g) (routed g).

Definition set_fanout (x : PeerTable) g : GossipSub :=
  mkGossipSub _ (parameters g) (topics g) (topicParams g) (gossipsub g) (sprBook g) (mesh g) x
    (backingOff g) (lastFanoutPubSub g) (peerStats g) (objs g) (rng g) (ticks g) (sent g) (routed g).

Definition set_backingOff (x : BackoffTable) g : GossipSub :=
  mkGossipSub _ (parameters g) (topics g) (topicParams g) (gossipsub g) (sprBook g) (mesh g)
    (fanout g) x (lastFanoutPubSub g) (peerStats g) (objs g) (rng g) (ticks g) (sent g) (routed g).

Definition set_lastFanoutPubSub (x : gmap string Moment) g : GossipSub :=
  mkGossipSub _ (parameters g) (topics g) (topicParams g) (gossipsub g) (sprBook g) (mesh g)
    (fanout g) (backingOff g) x (peerStats g) (objs g) (rng g) (ticks g) (sent g) (routed g).

Definition set_peerStats (x : gmap PeerId PeerStats) g : GossipSub :=
  mkGossipSub _ (parameters g) (topics g) (topicParams g) (gossipsub g) (sprBook g) (mesh g)
    (fanout g) (backingOff g) (lastFanoutPubSub g) x (objs g) (rng g) (ticks g) (sent g) (routed g).

Definition set_objs (x : PeerId -> PubSubPeer) g : GossipSub :=
  mkGossipSub _ (parameters g) (topics g) (topicParams g) (gossipsub g) (sprBook g) (mesh g)
    (fanout g) (backingOff g) (lastFanoutPubSub g) (peerStats g) x (rng g) (ticks g) (sent g) (routed g).

Definition set_rng (x : drbg) g : GossipSub :=
  mkGossipSub _ (parameters g) (topics g) (topicParams g) (gossipsub g) (sprBook g) (mesh g)
    (fanout g) (backingOff g) (lastFanoutPubSub g) (peerStats g) (objs g) x (ticks g) (sent g) (routed g).

(** [g.broadcastResponse(peers, msg, High)]. *)
Definition broadcastResponse (ps : list PeerId) (m : ControlMessage) g : GossipSub :=
  mkGossipSub _ (parameters g) (topics g) (topicParams g) (gossipsub g) (sprBook g) (mesh g)
    (fanout g) (backingOff g) (lastFanoutPubSub g) (peerStats g) (objs g) (rng g) (ticks g)
    (sent g ++ [(ps, m)]) (routed g).

(** [for handler in g.routingRecordsHandler: handler(...)]. *)
Definition routeRecords (p : PeerId) topic (records : list PeerInfoMsg) g : GossipSub :=
  mkGossipSub _ (parameters g) (topics g) (topicParams g) (gossipsub g) (sprBook g) (mesh g)
    (fanout g) (backingOff g) (lastFanoutPubSub g) (peerStats g) (objs g) (rng g) (ticks g)
    (sent g) (routed g ++ [(p, topic, records)]).

(** [Moment.now()]. *)
Definition now g : Moment * GossipSub :=
  (clock (ticks g),
   mkGossipSub _ (parameters g) (topics g) (topicParams g) (gossipsub g) (sprBook g) (mesh g)
     (fanout g) (backingOff g) (lastFanoutPubSub g) (peerStats g) (objs g) (rng g)
     (S (ticks g)) (sent g) (routed g)).

Definition fromNow (dur : Duration) g : Moment * GossipSub :=
  let '(t, g) := now g in (moment_add t dur, g).

(** [g.rng.shuffle(l)]. *)
Definition shuffle_g (l : list PeerId) g : option (list PeerId * GossipSub) :=
  '(l, s) ← Rng.shuffle l (rng g); Some (l, set_rng s g).

(** [uint64] of the backoff, in seconds. *)
Definition backoff_seconds (dur : Duration) : Z := wrap 64 (to_seconds dur).

(** [g.backingOff.mgetOrPut(topic, initTable[PeerId, Moment]())[p] = m]. *)
Definition setBackoff topic p (m : Moment) g : GossipSub :=
  set_backingOff (<[topic := <[p := m]> (default ∅ (backingOff g !! topic))]> (backingOff g)) g.

Definition getBackoff g topic p : Moment :=
  default moment_default (default ∅ (backingOff g !! topic) !! p).

Definition withPeerStats p (action : PeerStats -> GossipSub -> PeerStats * GossipSub) g : GossipSub :=
  let '(stats, g) :=
    match peerStats g !! p with
    | Some stats => action stats g
    | None =>
        let '(t, g) := now g in
        action (mkPeerStats ∅ (moment_add t (retainScore (parameters g)))) g
    end in
  set_peerStats (<[p := stats]> (peerStats g)) g.

(** [default(TopicInfo)]. *)
Definition noTopicInfo : TopicInfo := mkTopicInfo moment_default 0 false false f0 f0 f0 f0.

Definition grafted p topic g : GossipSub :=
  withPeerStats p (fun stats g =>
    let info := default noTopicInfo (topicInfos stats !! topic) in
    let '(t, g) := now g in
    (mkPeerStats
       (<[topic := mkTopicInfo t (of_seconds 0) true false (firstMessageDeliveries info)
           (meshMessageDeliveries info) (meshFailurePenalty info)
           (invalidMessageDeliveries info)]> (topicInfos stats))
       (expire stats), g)) g.

(** The statistics of a peer that leaves the mesh. *)
Definition pruned_info (tp : option TopicParams) (info : TopicInfo) : TopicInfo :=
  let penalty :=
    match tp with
    | Some tp =>
        let threshold := meshMessageDeliveriesThreshold tp in
        if inMesh info && meshMessageDeliveriesActive info &&
           flt (meshMessageDeliveries info) threshold
        then let deficit := fsub threshold (meshMessageDeliveries info) in
             fadd (meshFailurePenalty info) (fmul deficit deficit)
        else meshFailurePenalty info
    | None => meshFailurePenalty info
    end in
  mkTopicInfo (graftTime info) (meshTime info) false (meshMessageDeliveriesActive info)
    (firstMessageDeliveries info) (meshMessageDeliveries info) penalty
    (invalidMessageDeliveries info).

(** [backoff]: [None] is [setBackoff = false]. *)
Definition pruned p topic (backoff : option Duration) g : GossipSub :=
  let g :=
    match backoff with
    | Some dur => let '(m, g) := fromNow dur g in setBackoff topic p m g
    | None => g
    end in
  match peerStats g !! p with
  | None => g
  | Some stats =>
      match topicInfos stats !! topic with
      | None => g
      | Some info =>
          set_peerStats (<[p := mkPeerStats
            (<[topic := pruned_info (topicParams g !! topic) info]> (topicInfos stats))
            (expire stats)]> (peerStats g)) g
      end
  end.

(** Drops the backoffs of a topic that have expired. *)
Definition handleBackingOff topic g : GossipSub :=
  let '(t, g) := now g in
  match backingOff g !! topic with
  | None => g
  | Some v => set_backingOff (<[topic := filter (fun '(_, expire) => t < expire) v]> (backingOff g)) g
  end.

(** [dHigh] is not negative. *)
Definition peerExchangeList g topic : list PeerInfoMsg :=
  if negb (enablePX (parameters g)) then []
  else
    let ps := filter (fun p => fle f0 (score (objs g p))) (ord 5 (peersOf (gossipsub g) topic)) in
    (fun p => mkPeerInfoMsg (Some p) (sprBook g !! p)) <$>
      take (Z.to_nat (Z.min (Z.of_nat (length ps)) (dHigh (parameters g) * 2))) ps.

(** The PRUNE that answers a GRAFT, and the backoff that goes with it. *)
Definition reject p topic (px : list PeerInfoMsg) g : ControlPrune * GossipSub :=
  let prune := mkControlPrune topic px (backoff_seconds (pruneBackoff (parameters g))) in
  let '(m, g) := fromNow (pruneBackoff (parameters g)) g in
  (prune, setBackoff topic p m g).

(** [peer.behaviourPenalty += 0.1]. *)
Definition penalize p g : GossipSub :=
  let o := objs g p in
  set_objs (<[p := mkPubSubPeer (score o) (outbound o) (connected o)
                     (fadd (behaviourPenalty o) f0_1)]> (objs g)) g.

(** One GRAFT of the message. *)
Definition handleGraft_one p topic g : list ControlPrune * GossipSub :=
  if decide (p ∈ directPeers (parameters g)) then
    let '(prune, g) := reject p topic [] g in ([prune], penalize p g)
  else if hasPeer (mesh g) topic p then ([], g)
  else
    let '(t, g) := now g in
    if t <? moment_back (getBackoff g topic p) (of_seconds (BackoffSlackTime * 2)) then
      let '(prune, g) := reject p topic [] g in ([prune], penalize p g)
    else if flt (score (objs g p)) (publishThreshold (parameters g)) then ([], g)
    else if decide (topic ∈ topics g) then
      if (peers (mesh g) topic <? dHigh (parameters g)) ||
         (outbound (objs g p) &&
          (outboundPeers (fun q => outbound (objs g q)) (mesh g) topic <? dOut (parameters g)))
      then
        let '(added, m) := addPeer (mesh g) topic p in
        let g := set_mesh m g in
        if (added : bool) then
          let g := grafted p topic g in ([], set_fanout (removePeer (fanout g) topic p) g)
        else ([], g)
      else let '(prune, g) := reject p topic (peerExchangeList g topic) g in ([prune], g)
    else ([], g).

Fixpoint handleGraft p (grafts : list string) g : list ControlPrune * GossipSub :=
  match grafts with
  | [] => ([], g)
  | topic :: grafts =>
      let '(prunes, g) := handleGraft_one p topic g in
      let '(prunes', g) := handleGraft p grafts g in
      (prunes ++ prunes', g)
  end.

(** [clamp(prune.backoff + BackoffSlackTime, 0, 1.days.seconds)]; the sum is a [uint64]. *)
Definition prune_backoff (backoff : Z) : Z := Z.min (wrap 64 (backoff + BackoffSlackTime)) 86400.

(** One PRUNE of the message; [handlers] is [g.routingRecordsHandler.len > 0]. *)
Definition handlePrune_one (handlers : bool) p (prune : ControlPrune) g : GossipSub :=
  let topic := cp_topicID prune in
  if negb (bool_decide (topic ∈ topics g)) then g
  else if negb (hasPeer (mesh g) topic p) then g
  else
    let g :=
      if 0 <? cp_backoff prune then
        let '(backoff, g) := fromNow (of_seconds (prune_backoff (cp_backoff prune))) g in
        if getBackoff g topic p <? backoff then setBackoff topic p backoff g else g
      else g in
    let g := pruned p topic None g in
    let g := set_mesh (removePeer (mesh g) topic p) g in
    if flt (gossipThreshold (parameters g)) (score (objs g p)) &&
       (0 <? length (cp_peers prune))%nat && handlers
    then routeRecords p topic (cp_peers prune) g
    else g.

Definition handlePrune (handlers : bool) p (prunes : list ControlPrune) g : GossipSub :=
  fold_left (fun g prune => handlePrune_one handlers p prune g) prunes g.

(** *** rebalanceMesh *)

(** [if g.mesh.addPeer(topic, peer): g.grafted(peer, topic); ...; grafts &= peer]; the
opportunistic grafts leave the fanout as it is ([unfan] is [false]). *)
Fixpoint graft_all (unfan : bool) topic (candidates : list PeerId) g : list PeerId * GossipSub :=
  match candidates with
  | [] => ([], g)
  | p :: candidates =>
      let '(added, m) := addPeer (mesh g) topic p in
      let g := set_mesh m g in
      if (added : bool) then
        let g := grafted p topic g in
        let g := if unfan then set_fanout (removePeer (fanout g) topic p) g else g in
        let '(grafts, g) := graft_all unfan topic candidates g in
        (p :: grafts, g)
      else graft_all unfan topic candidates g
  end.

(** The peers that may be grafted: [n] is the place of the enumeration, [P] the condition of
the branch. *)
Definition candidates_of (n : nat) (P : PubSubPeer -> bool) topic
    (backingOff : gmap PeerId Moment) g : list PeerId :=
  filter (fun p => P (objs g p) = true /\ (p ∉ peersOf (mesh g) topic) /\
                   (p ∉ directPeers (parameters g)) /\ backingOff !! p = None)
    (ord n (peersOf (gossipsub g) topic)).

(** Shuffles, sorts and grafts the [n] best candidates. *)
Definition graft_best topic (candidates : list PeerId) (n : Z) g : option (list PeerId * GossipSub) :=
  '(candidates, g) ← shuffle_g candidates g;
  let candidates := merge_sort (descending (objs g)) candidates in
  candidates ← shrink (Z.min (Z.of_nat (length candidates)) n) candidates;
  Some (graft_all true topic candidates g).

Definition replenish topic g : option (list PeerId * GossipSub) :=
  let npeers := peers (mesh g) topic in
  let nOutPeers := outboundPeers (fun q => outbound (objs g q)) (mesh g) topic in
  let backingOff := default ∅ (backingOff g !! topic) in
  if npeers <? dLow (parameters g) then
    graft_best topic
      (candidates_of 0 (fun it => connected it && fle f0 (score it)) topic backingOff g)
      (d (parameters g) - npeers) g
  else if nOutPeers <? dOut (parameters g) then
    graft_best topic
      (candidates_of 1 (fun it => connected it && outbound it && fle f0 (score it))
         topic backingOff g)
      (dOut (parameters g) - nOutPeers) g
  else Some ([], g).

(** [g.pruned(peer, topic); g.mesh.removePeer(topic, peer)] for each peer. *)
Definition prune_all topic (prunes : list PeerId) g : GossipSub :=
  fold_left (fun g p =>
    let g := pruned p topic (Some (pruneBackoff (parameters g))) g in
    set_mesh (removePeer (mesh g) topic p) g) prunes g.

(** The cut: all but the [dScore] best, the outbound quota, and no more than leaves [d] of
them.  [None] in the second component: nothing is removed from the mesh. *)
Definition prune_list (prunes : list PeerId) g : option (list PeerId * bool * GossipSub) :=
  let params := parameters g in
  if dScore params <? Z.of_nat (length prunes) then
    prunes ← shrink (Z.of_nat (length prunes) - dScore params) prunes;
    let out := filter (fun p => outbound (objs g p)) prunes in
    let inbound := filter (fun p => negb (outbound (objs g p))) prunes in
    let maxOutboundPrunes := Z.of_nat (length out) - dOut params in
    out ← shrink (Z.min (Z.of_nat (length out)) (Z.max 0 maxOutboundPrunes)) out;
    let prunes := inbound ++ out in
    let pruneLen := Z.of_nat (length prunes) - d params in
    if 0 <? pruneLen then
      '(prunes, g) ← shuffle_g prunes g;
      prunes ← shrink pruneLen prunes;
      Some (prunes, true, g)
    else Some (prunes, true, g)
  else Some (prunes, false, g).

(** The peers to send a PRUNE, once they have left the mesh. *)
Definition prune_excess topic (grafts : list PeerId) g : option (list PeerId * GossipSub) :=
  if dHigh (parameters g) <? peers (mesh g) topic then
    s ← mesh g !! topic;
    let prunes := filter (fun x => x ∉ grafts) (ord 2 s) in
    '(prunes, g) ← shuffle_g prunes g;
    let prunes := merge_sort (ascending (objs g)) prunes in
    '(prunes, cut, g) ← prune_list prunes g;
    Some (prunes, (if (cut : bool) then prune_all topic prunes g else g))
  else Some ([], g).

(** [backingOff] is the copy read at the start, or after the prunes. *)
Definition opportunistic topic (backingOff : gmap PeerId Moment) g : option (list PeerId * GossipSub) :=
  if 1 <? peers (mesh g) topic then
    s ← mesh g !! topic;
    let ps := merge_sort (descending (objs g)) (ord 3 s) in
    median ← ps !! (length ps / 2)%nat;
    if flt (score (objs g median)) (opportunisticGraftThreshold (parameters g)) then
      let avail := take MaxOpportunisticGraftPeers
        (candidates_of 4 (fun it => fle (score (objs g median)) (score it)) topic backingOff g) in
      Some (graft_all false topic avail g)
    else Some ([], g)
  else Some ([], g).

(** [if grafts.len > 0: ...; if prunes.len > 0: ...]. *)
Definition announce topic (grafts prunes : list PeerId) g : GossipSub :=
  let g := if (0 <? length grafts)%nat then broadcastResponse grafts (withGraft topic) g else g in
  if (0 <? length prunes)%nat then
    broadcastResponse prunes
      (withPrune (mkControlPrune topic (peerExchangeList g topic)
        (backoff_seconds (pruneBackoff (parameters g))))) g
  else g.

(** The copy of the backoffs is refreshed when peers were pruned; when none was, it is still
the table of the start, which no graft changes. *)
Definition rebalanceMesh topic g : option GossipSub :=
  '(grafts, g) ← replenish topic g;
  '(prunes, g) ← prune_excess topic grafts g;
  '(grafts', g) ← opportunistic topic (default ∅ (backingOff g !! topic)) g;
  Some (announce topic (grafts ++ grafts') prunes g).

(** *** The rest of the heartbeat *)

(** The peers of the mesh whose score is negative. *)
Definition prune_negative topic g : GossipSub :=
  let prunes := filter (fun p => flt (score (objs g p)) f0) (ord 6 (peersOf (mesh g) topic)) in
  let g := prune_all topic prunes g in
  if (0 <? length prunes)%nat then
    broadcastResponse prunes
      (withPrune (mkControlPrune topic (peerExchangeList g topic)
        (backoff_seconds (pruneBackoff (parameters g))))) g
  else g.

(** The body of [for t in toSeq(g.topics.keys)] in [onHeartbeat]. *)
Definition heartbeat_topic topic g : option GossipSub :=
  rebalanceMesh topic (prune_negative topic (handleBackingOff topic g)).

Definition dropFanoutPeers g : GossipSub :=
  let '(t, g) := now g in
  let drops := filter (fun '(_, val) => val < t) (lastFanoutPubSub g) in
  set_lastFanoutPubSub (lastFanoutPubSub g ∖ drops)
    (set_fanout (filter (fun '(topic, _) => drops !! topic = None) (fanout g)) g).

(** [for peer in g.gossipsub.getOrDefault(topic)]. *)
Fixpoint replenishFanout_loop topic (currentMesh : gset PeerId) (ps : list PeerId) g : GossipSub :=
  match ps with
  | [] => g
  | p :: ps =>
      if decide (p ∈ currentMesh) then replenishFanout_loop topic currentMesh ps g
      else
        let '(added, f) := addPeer (fanout g) topic p in
        let g := set_fanout f g in
        if (added : bool) && (peers (fanout g) topic =? d (parameters g)) then g
        else replenishFanout_loop topic currentMesh ps g
  end.

Definition replenishFanout topic g : GossipSub :=
  if peers (fanout g) topic <? dLow (parameters g) then
    replenishFanout_loop topic (peersOf (mesh g) topic) (ord 7 (peersOf (gossipsub g) topic)) g
  else g.

End Operations.

(** [for t in toSeq(g.topics.keys)]: each turn enumerates its sets in its own order. *)
Fixpoint heartbeat_topics `{C : Chronos} `{D : Drbg} (clock : nat -> Moment)
    (ts : list (string * (nat -> gset PeerId -> list PeerId))) (g : GossipSub) : option GossipSub :=
  match ts with
  | [] => Some g
  | (topic, ord) :: ts => g ← heartbeat_topic clock ord topic g; heartbeat_topics clock ts g
  end.

(** ** Lemmas *)

(** *** The order of the scores *)

Definition not_nan (x : float64) : Prop := x <> S754_nan.

(** The class of a double: its sign, and whether it is zero or infinite. *)
Definition f_class (x : float64) : Z :=
  match x with
  | S754_nan | S754_zero _ => 0
  | S754_infinity s => if s then -2 else 2
  | S754_finite s _ _ => if s then -1 else 1
  end.

Definition f_exp (x : float64) : Z :=
  match x with S754_finite s _ e => if s then - e else e | _ => 0 end.

Definition f_man (x : float64) : Z :=
  match x with S754_finite s m _ => if s then - Zpos m else Zpos m | _ => 0 end.

(** The order of the doubles is lexicographic. *)
Lemma fle_lex x y : not_nan x -> not_nan y ->
  fle x y = true <->
  f_class x < f_class y \/
  f_class x = f_class y /\ (f_exp x < f_exp y \/ f_exp x = f_exp y /\ f_man x <= f_man y).
Proof.
  unfold fle, SFleb, not_nan.
  destruct x as [[]|[]| |[] m e], y as [[]|[]| |[] m' e']; try done; intros _ _; cbn;
    try (split; [intros _; lia|done]); try (split; [done|lia]).
  all: change (Pos.compare_cont Eq) with Pos.compare; destruct (Z.compare_spec e e');
    try (destruct (Pos.compare_spec m m')); cbn; split; intros; try done; lia.
Qed.

Lemma flt_fle x y : not_nan x -> not_nan y -> flt x y = negb (fle y x).
Proof.
  unfold flt, fle, SFltb, SFleb, not_nan.
  destruct x as [[]|[]| |[] m e], y as [[]|[]| |[] m' e']; try done; intros _ _; cbn.
  all: rewrite (Z.compare_antisym e e'); change (Pos.compare_cont Eq) with Pos.compare;
    rewrite (Pos.compare_antisym m m').
  all: destruct (e ?= e'), (m ?= m')%positive; done.
Qed.

Lemma byScore_nonpos objs x y :
  not_nan (score (objs x)) -> not_nan (score (objs y)) ->
  byScore objs x y <= 0 <-> fle (score (objs x)) (score (objs y)) = true.
Proof.
  unfold byScore, flt, fle, SFeqb, SFltb, SFleb. intros _ _.
  destruct (SFcompare _ _) as [[]|]; split; done || lia.
Qed.

Lemma byScore_nonneg objs x y :
  not_nan (score (objs x)) -> not_nan (score (objs y)) ->
  0 <= byScore objs x y <-> fle (score (objs y)) (score (objs x)) = true.
Proof.
  intros Hx Hy. pose proof (flt_fle _ _ Hx Hy) as E. revert E.
  unfold byScore. unfold flt at 1. unfold SFltb, SFeqb, flt, SFltb.
  destruct (SFcompare (score (objs x)) (score (objs y))) as [[]|], (fle _ _); cbn; intros;
    try done; split; done || lia.
Qed.

Lemma fle_trans x y z : not_nan x -> not_nan y -> not_nan z ->
  fle x y = true -> fle y z = true -> fle x z = true.
Proof. intros ???. rewrite !fle_lex by done. lia. Qed.

Section Scores.
Context (objs : PeerId -> PubSubPeer) (Hnan : forall p, not_nan (score (objs p))).

Lemma fle_refl p : fle (score (objs p)) (score (objs p)) = true.
Proof using Hnan. apply fle_lex; auto. lia. Qed.

#[local] Instance ascending_total : Total (ascending objs).
Proof using Hnan.
  intros x y. unfold ascending. rewrite !byScore_nonpos, !fle_lex by auto. lia.
Qed.

#[local] Instance ascending_trans : Transitive (ascending objs).
Proof using Hnan.
  intros x y z. unfold ascending. rewrite !byScore_nonpos by auto. apply fle_trans; auto.
Qed.

#[local] Instance descending_total : Total (descending objs).
Proof using Hnan.
  intros x y. unfold descending. rewrite <- !Z.opp_nonneg_nonpos, !Z.opp_involutive.
  rewrite !byScore_nonneg, !fle_lex by auto. lia.
Qed.

(** An ascending list cut in two: the scores of the first part are the lowest. *)
Lemma ascending_cut l n x y : x ∈ take n (merge_sort (ascending objs) l) ->
  y ∈ drop n (merge_sort (ascending objs) l) -> fle (score (objs x)) (score (objs y)) = true.
Proof using Hnan.
  intros Hx Hy. pose proof (StronglySorted_merge_sort (ascending objs) l) as Hs.
  rewrite <- (take_drop n (merge_sort _ l)) in Hs.
  apply byScore_nonpos; [auto..|].
  eapply (StronglySorted_app_1_elem_of (ascending objs)) in Hs; [exact Hs|done..].
Qed.

End Scores.

(** *** What the operations change *)

Lemma NoDup_take {A} n (l : list A) : NoDup l -> NoDup (take n l).
Proof. intros H. eapply sublist_NoDup; [exact H|apply sublist_take]. Qed.

Lemma elem_of_take_in {A} n (l : list A) x : x ∈ take n l -> x ∈ l.
Proof. apply subseteq_take. Qed.

Lemma elem_of_drop_in {A} n (l : list A) x : x ∈ drop n l -> x ∈ l.
Proof. apply subseteq_drop. Qed.

Section Effects.
Context `{C : Chronos} `{D : Drbg}.
Context (clock : nat -> Moment) (ord : nat -> gset PeerId -> list PeerId).
Implicit Types (g : GossipSub) (topic : string) (p : PeerId).

(** The fields that no procedure of the heartbeat changes; the clock goes on. *)
Record frame g g' : Prop := {
  f_parameters : parameters g' = parameters g;
  f_topics : topics g' = topics g;
  f_topicParams : topicParams g' = topicParams g;
  f_gossipsub : gossipsub g' = gossipsub g;
  f_sprBook : sprBook g' = sprBook g;
  f_objs : objs g' = objs g;
  f_lastFanout : lastFanoutPubSub g' = lastFanoutPubSub g;
  f_routed : routed g' = routed g;
  f_sent : sent g' = sent g;
  f_ticks : (ticks g <= ticks g')%nat;
}.

#[global] Instance frame_refl : Reflexive frame.
Proof. by split. Qed.

#[global] Instance frame_trans : Transitive frame.
Proof. intros g1 g2 g3 [] []. split; congruence || lia. Qed.

(** Only the statistics changed. *)
Record stats_only g g' : Prop := {
  so_frame :> frame g g';
  so_mesh : mesh g' = mesh g;
  so_fanout : fanout g' = fanout g;
  so_backingOff : backingOff g' = backingOff g;
}.

Lemma grafted_effect p topic g : stats_only g (grafted clock p topic g).
Proof.
  unfold grafted, withPeerStats, now.
  destruct (peerStats g !! p); cbn; repeat split; cbn; lia.
Qed.

(** The backoff of [p] in the table of [topic]. *)
Definition backoff_of g topic p : option Moment := default ∅ (backingOff g !! topic) !! p.

Lemma backoff_of_set topic p m g topic' p' :
  backoff_of (setBackoff topic p m g) topic' p' =
  if decide (topic' = topic /\ p' = p) then Some m else backoff_of g topic' p'.
Proof.
  unfold backoff_of, setBackoff. cbn. destruct (decide (topic' = topic)) as [->|].
  - rewrite lookup_insert_eq. cbn. destruct (decide (p' = p)) as [->|].
    + by rewrite lookup_insert_eq, decide_True by done.
    + rewrite lookup_insert_ne, decide_False by (try done; tauto). done.
  - rewrite lookup_insert_ne, decide_False by (try done; tauto). done.
Qed.

Lemma pruned_stats p topic g : stats_only g (pruned clock p topic None g).
Proof.
  unfold pruned. destruct (peerStats g !! p) as [st|]; cbn; [|by repeat split].
  destruct (topicInfos st !! topic); by repeat split.
Qed.

Lemma pruned_split p topic dur g :
  pruned clock p topic (Some dur) g =
  pruned clock p topic None
    (setBackoff topic p (moment_add (clock (ticks g)) dur) (now clock g).2).
Proof. reflexivity. Qed.

(** [G] has been added to the mesh of [topic]. *)
Record grafting topic (G : list PeerId) g g' : Prop := {
  gr_frame :> frame g g';
  gr_mesh : peersOf (mesh g') topic = peersOf (mesh g) topic ∪ list_to_set G;
  gr_other : forall topic', topic' <> topic -> mesh g' !! topic' = mesh g !! topic';
  gr_backingOff : backingOff g' = backingOff g;
}.

(** [P] has left the mesh of [topic], with a backoff from a moment on. *)
Record pruning topic (P : list PeerId) g g' : Prop := {
  pr_frame :> frame g g';
  pr_mesh : peersOf (mesh g') topic = peersOf (mesh g) topic ∖ list_to_set P;
  pr_other : forall topic', topic' <> topic -> mesh g' !! topic' = mesh g !! topic';
  pr_backoff : forall p, p ∈ P -> exists k, (ticks g <= k < ticks g')%nat /\
    backoff_of g' topic p = Some (moment_add (clock k) (pruneBackoff (parameters g)));
  pr_same : forall topic' p, topic' <> topic \/ p ∉ P ->
    backoff_of g' topic' p = backoff_of g topic' p;
}.

Lemma graft_all_effect unfan topic cs g : NoDup cs ->
  (forall p, p ∈ cs -> p ∉ peersOf (mesh g) topic) ->
  exists g', graft_all clock unfan topic cs g = (cs, g') /\ grafting topic cs g g'.
Proof.
  revert g. induction cs as [|p cs IH]; intros g Hnd Hout; cbn [graft_all].
  { exists g. split; [done|]. split; [reflexivity|set_solver|done|done]. }
  apply NoDup_cons in Hnd as [Hp Hnd].
  unfold addPeer at 1. rewrite bool_decide_true by (apply Hout; set_solver).
  set (g1 := set_mesh _ g). pose proof (grafted_effect p topic g1) as H2.
  set (g2 := grafted _ _ _ g1) in *.
  set (g3 := if unfan then _ else g2).
  assert (H3 : grafting topic [p] g g3).
  { destruct H2 as [[] Hm _ Hb]. subst g1 g3.
    split; [by destruct unfan; split| |intros topic' Ht|by destruct unfan].
    - assert (E : mesh (if unfan then set_fanout (removePeer (fanout g2) topic p) g2 else g2) =
        mesh g2) by (by destruct unfan). rewrite E, Hm. cbn.
      unfold peersOf. rewrite lookup_insert_eq. cbn. set_solver.
    - assert (E : mesh (if unfan then set_fanout (removePeer (fanout g2) topic p) g2 else g2) =
        mesh g2) by (by destruct unfan). rewrite E, Hm. cbn.
      by rewrite lookup_insert_ne by done. }
  destruct (IH g3) as (g' & -> & H4); [done| |].
  { intros q Hq. rewrite (gr_mesh _ _ _ _ H3). specialize (Hout q). set_solver. }
  exists g'. split; [done|]. destruct H3 as [F3 M3 O3 B3], H4 as [F4 M4 O4 B4]. split.
  - by transitivity g3.
  - rewrite M4, M3. set_solver.
  - intros topic' Ht. by rewrite O4, O3.
  - congruence.
Qed.

Lemma prune_all_effect topic P g : NoDup P ->
  pruning topic P g (prune_all clock topic P g).
Proof.
  revert g. induction P as [|p P IH]; intros g Hnd.
  { cbn. split; [reflexivity|set_solver|done|set_solver|done]. }
  apply NoDup_cons in Hnd as [Hp Hnd]. unfold prune_all. cbn [fold_left].
  set (g1 := setBackoff topic p (moment_add (clock (ticks g)) (pruneBackoff (parameters g)))
    (now clock g).2).
  rewrite pruned_split. fold g1. destruct (pruned_stats p topic g1) as [F2 M2 _ B2].
  set (g2 := pruned clock p topic None g1) in *.
  set (g3 := set_mesh _ g2).
  assert (F3 : frame g g3 /\ (ticks g < ticks g3)%nat).
  { destruct F2. cbn in *. split; [split; cbn; congruence || lia|cbn; lia]. }
  destruct F3 as [F3 Hlt].
  assert (E3 : forall topic' q, backoff_of g3 topic' q =
    if decide (topic' = topic /\ q = p)
    then Some (moment_add (clock (ticks g)) (pruneBackoff (parameters g)))
    else backoff_of g topic' q).
  { intros topic' q. transitivity (backoff_of g1 topic' q).
    { unfold backoff_of. cbn [g3 backingOff set_mesh]. by rewrite B2. }
    unfold g1. by rewrite backoff_of_set. }
  destruct (IH g3 Hnd) as [F4 M4 O4 K4 S4]. unfold prune_all in *. split.
  - by transitivity g3.
  - rewrite M4. cbn [g3 mesh set_mesh]. rewrite removePeer_same, M2. cbn. set_solver.
  - intros topic' Ht. rewrite O4 by done. cbn [g3 mesh set_mesh].
    rewrite removePeer_other by done. by rewrite M2.
  - intros q [->|Hq]%elem_of_cons.
    + exists (ticks g). split; [pose proof (f_ticks _ _ F4); lia|].
      rewrite S4 by (by right). by rewrite E3, decide_True.
    + destruct (K4 q Hq) as (k & Hk & ->). exists k. split; [lia|].
      by rewrite (f_parameters _ _ F3).
  - intros topic' q Hq. rewrite S4 by set_solver. rewrite E3, decide_False; [done|].
    set_solver.
Qed.

Context {L : DrbgLaws D}.

Lemma shuffle_g_ok (l : list PeerId) g : NoDup l ->
  exists l' s, shuffle_g l g = Some (l', set_rng s g) /\ l' ≡ₚ l.
Proof using L.
  intros Hl. destruct (shuffle_ok l (rng g) Hl) as (l' & s & E & Hp & _).
  exists l', s. unfold shuffle_g. by rewrite E.
Qed.

Lemma shrink_ok {A} n (l : list A) : 0 <= n <= Z.of_nat (length l) ->
  shrink n l = Some (take (Z.to_nat n) l).
Proof. intros H. unfold shrink. by rewrite (proj2 (Z.leb_le 0 n)), (proj2 (Z.leb_le n _)) by lia. Qed.

End Effects.

(** *** The steps of a rebalance *)

Section Rebalance.
Context `{D : Drbg} (ord : nat -> gset PeerId -> list PeerId).
Context (Hord : forall k s, ord k s ≡ₚ elements s).
Implicit Types (g : GossipSub) (topic : string) (p : PeerId).

Lemma candidates_of_spec n P topic b g :
  NoDup (candidates_of ord n P topic b g) /\
  forall p, p ∈ candidates_of ord n P topic b g <->
    P (objs g p) = true /\ (p ∉ peersOf (mesh g) topic) /\ (p ∉ directPeers (parameters g)) /\
    b !! p = None /\ p ∈ peersOf (gossipsub g) topic.
Proof using Hord.
  unfold candidates_of. split.
  - apply NoDup_filter. rewrite Hord. apply NoDup_elements.
  - intros p. rewrite list_elem_of_filter, Hord, elem_of_elements. tauto.
Qed.

Record well_configured (params : GossipSubParams) : Prop := {
  wc_dScore : 0 <= dScore params;
  wc_dOut : 0 <= dOut params;
  wc_dLow : dLow params <= d params;
  wc_d : 0 <= d params <= dHigh params;
  wc_sum : dScore params + dOut params <= dHigh params;
}.

Context {L : DrbgLaws D}.

Lemma partition_perm (f : PeerId -> bool) (l : list PeerId) :
  l ≡ₚ filter (fun p => negb (f p)) l ++ filter (fun p => f p) l.
Proof.
  induction l as [|p l IH]; [done|]. rewrite !filter_cons. destruct (f p); cbn.
  - rewrite decide_False by (cbn; tauto). rewrite decide_True by done.
    rewrite <- Permutation_middle. by f_equiv.
  - rewrite decide_True by done. rewrite decide_False by tauto. cbn. by f_equiv.
Qed.

(** [K] is the outbound quota: outbound peers that stay whatever their score. *)
Lemma prune_list_ok l g : NoDup l -> well_configured (parameters g) ->
  dScore (parameters g) < Z.of_nat (length l) ->
  exists P K s, prune_list l g = Some (P, true, set_rng s g) /\
    (P ++ K ⊆+ take (Z.to_nat (Z.of_nat (length l) - dScore (parameters g))) l) /\
    (forall p, p ∈ K -> outbound (objs g p) = true) /\
    Z.of_nat (length K) <= dOut (parameters g) /\
    (forall p, p ∈ P -> outbound (objs g p) = true ->
      Z.of_nat (length K) = dOut (parameters g)) /\
    let y := Z.of_nat (length l) - dScore (parameters g) - Z.of_nat (length K) in
    Z.of_nat (length P) = if d (parameters g) <? y then y - d (parameters g) else y.
Proof using L.
  intros Hnd [? ? ? ? ?] Hlt. unfold prune_list.
  rewrite (proj2 (Z.ltb_lt _ _) Hlt), shrink_ok by lia. cbn [mbind option_bind].
  set (cut := take _ l).
  assert (Hcut : Z.of_nat (length cut) = Z.of_nat (length l) - dScore (parameters g)).
  { unfold cut. rewrite length_take. lia. }
  assert (Hndc : NoDup cut) by (by apply NoDup_take).
  pose proof (partition_perm (fun p => outbound (objs g p)) cut) as Hpart.
  set (inb := filter _ cut) in *.
  set (out := filter (fun p => outbound (objs g p)) cut) in *.
  rewrite shrink_ok by lia. cbn [mbind option_bind].
  set (m := Z.to_nat (Z.min _ _)). set (K := drop m out).
  assert (HK : Z.of_nat (length K) = Z.min (Z.of_nat (length out)) (dOut (parameters g))).
  { unfold K, m. rewrite length_drop. lia. }
  assert (Hm : Z.of_nat (length (take m out)) = Z.of_nat (length out) - Z.of_nat (length K)).
  { unfold K. rewrite length_take, length_drop. lia. }
  assert (Hsum : (length cut = length inb + length out)%nat)
    by (rewrite Hpart at 1; apply length_app).
  set (l' := inb ++ take m out).
  assert (Hl' : l' ++ K ≡ₚ cut).
  { unfold l', K. rewrite Hpart, <- app_assoc. by rewrite take_drop. }
  assert (Hout : forall p, p ∈ l' -> outbound (objs g p) = true ->
    Z.of_nat (length K) = dOut (parameters g)).
  { intros p [Hp|Hp]%elem_of_app Ho.
    - apply list_elem_of_filter in Hp as [Hp _]. by rewrite Ho in Hp.
    - apply list_elem_of_lookup in Hp as [i Hp%lookup_lt_Some]. lia. }
  assert (HKo : forall p, p ∈ K -> outbound (objs g p) = true).
  { intros p Hp. assert (Hp' : p ∈ out) by (by eapply elem_of_drop_in).
    apply list_elem_of_filter in Hp' as [Hp' _]. by destruct (outbound (objs g p)). }
  assert (Hlen : Z.of_nat (length l') = Z.of_nat (length l) - dScore (parameters g) -
    Z.of_nat (length K)) by (unfold l'; rewrite length_app; lia).
  destruct (Z.ltb_spec 0 (Z.of_nat (length l') - d (parameters g))) as [Hd|Hd].
  - assert (Hnd' : NoDup l').
    { rewrite <- Hl' in Hndc. by apply NoDup_app in Hndc as [? _]. }
    destruct (shuffle_g_ok l' g Hnd') as (l'' & s & -> & Hp). cbn [mbind option_bind].
    assert (Hll : length l'' = length l') by (by rewrite Hp).
    rewrite shrink_ok by lia. cbn [mbind option_bind].
    exists (take (Z.to_nat (Z.of_nat (length l') - d (parameters g))) l''), K, s.
    split; [done|]. split.
    { rewrite <- Hl'. apply submseteq_app; [|done]. transitivity l''.
      - apply sublist_submseteq, sublist_take.
      - by apply Permutation_submseteq. }
    split; [done|]. split; [lia|]. split.
    { intros p Hpp. apply Hout. rewrite <- Hp. by eapply elem_of_take_in. }
    rewrite length_take. zbool; lia.
  - exists l', K, (rng g). split; [by destruct g|]. split; [by rewrite Hl'|].
    split; [done|]. split; [lia|]. split; [done|]. zbool; lia.
Qed.

Context `{C : Chronos} (clock : nat -> Moment).

Definition no_nan g : Prop := forall p, not_nan (score (objs g p)).

Lemma graft_best_effect topic cs n g : NoDup cs ->
  (forall p, p ∈ cs -> p ∉ peersOf (mesh g) topic) -> 0 <= n ->
  exists G g', graft_best clock topic cs n g = Some (G, g') /\ grafting topic G g g' /\
    NoDup G /\ (forall p, p ∈ G -> p ∈ cs) /\
    Z.of_nat (length G) = Z.min (Z.of_nat (length cs)) n.
Proof using L.
  intros Hnd Hout Hn. unfold graft_best.
  destruct (shuffle_g_ok cs g Hnd) as (l & s & -> & Hl). cbn [mbind option_bind].
  set (l' := merge_sort _ l).
  assert (Hl' : l' ≡ₚ cs) by (unfold l'; by rewrite merge_sort_Permutation).
  rewrite shrink_ok by lia. cbn [mbind option_bind].
  set (G := take _ l').
  assert (HG : forall p, p ∈ G -> p ∈ cs).
  { intros p Hp. rewrite <- Hl'. by eapply elem_of_take_in. }
  destruct (graft_all_effect clock true topic G (set_rng s g)) as (g' & -> & [F M O B]).
  { apply NoDup_take. by rewrite Hl'. }
  { intros p Hp. by apply Hout, HG. }
  exists G, g'. split; [done|]. split.
  { destruct F. split; [split; cbn in *; done|done..]. }
  split; [apply NoDup_take; by rewrite Hl'|].
  split; [done|]. unfold G. rewrite length_take, Hl'. lia.
Qed.

(** The peers that the branch for small meshes may graft. *)
Definition eligible g topic : gset PeerId :=
  filter (fun p => connected (objs g p) && fle f0 (score (objs g p)) = true /\
                   (p ∉ peersOf (mesh g) topic) /\ (p ∉ directPeers (parameters g)) /\
                   backoff_of g topic p = None)
    (peersOf (gossipsub g) topic).

Lemma replenish_effect topic g : well_configured (parameters g) ->
  exists G g', replenish clock ord topic g = Some (G, g') /\ grafting topic G g g' /\ NoDup G /\
    (forall p, p ∈ G -> p ∈ eligible g topic) /\
    let n := peers (mesh g) topic in
    (n < dLow (parameters g) -> Z.of_nat (length G) =
       Z.min (Z.of_nat (size (eligible g topic))) (d (parameters g) - n)) /\
    (dLow (parameters g) <= n -> Z.of_nat (length G) <= dOut (parameters g)) /\
    (dLow (parameters g) <= n ->
     dOut (parameters g) <= outboundPeers (fun q => outbound (objs g q)) (mesh g) topic -> G = []).
Proof using L Hord.
  intros [? ? ? ? ?]. unfold replenish. set (b := default ∅ _).
  destruct (Z.ltb_spec (peers (mesh g) topic) (dLow (parameters g))).
  - set (cs := candidates_of _ _ _ _ _ _).
    destruct (candidates_of_spec 0 (fun it => connected it && fle f0 (score it)) topic b g)
      as [Hnd Hcs]. fold cs in Hnd, Hcs.
    destruct (graft_best_effect topic cs (d (parameters g) - peers (mesh g) topic) g)
      as (G & g' & -> & HG & HndG & Hin & Hlen); [done|naive_solver|lia|].
    assert (E : length cs = size (eligible g topic)).
    { unfold eligible, size, set_size. cbn. apply Permutation_length, NoDup_Permutation;
        [done|apply NoDup_elements|].
      intros p. rewrite Hcs, elem_of_elements, elem_of_filter. unfold backoff_of. tauto. }
    exists G, g'. split_and!; try done; [|by rewrite <- E|lia|lia].
    intros p Hp%Hin%Hcs. apply elem_of_filter. unfold backoff_of. tauto.
  - case_match eqn:Hout; [apply Z.ltb_lt in Hout|apply Z.ltb_ge in Hout].
    + set (cs := candidates_of _ _ _ _ _ _).
      destruct (candidates_of_spec 1 (fun it => connected it && outbound it && fle f0 (score it))
        topic b g) as [Hnd Hcs]. fold cs in Hnd, Hcs.
      edestruct (graft_best_effect topic cs) as (G & g' & -> & HG & HndG & Hin & Hlen);
        [done|naive_solver| |].
      { apply Z.lt_le_incl, Z.lt_0_sub. exact Hout. }
      exists G, g'. split_and!; try done; [|lia| |lia].
      * intros p Hp%Hin%Hcs. apply elem_of_filter. unfold backoff_of.
        rewrite !andb_true_iff in Hp. rewrite andb_true_iff. tauto.
      * intros _. rewrite Hlen, outboundPeers_size. lia.
    + exists [], g. split_and!; try done;
        [split; [reflexivity|set_solver|done|done]|by apply NoDup_nil|set_solver|lia].
Qed.

End Rebalance.

Lemma size_NoDup (l : list PeerId) (s : gset PeerId) : NoDup l -> (forall p, p ∈ l -> p ∈ s) ->
  (length l <= size s)%nat.
Proof.
  intros Hl Hs. rewrite <- (size_list_to_set (C := gset PeerId)) by done.
  apply subseteq_size. set_solver.
Qed.

Lemma size_difference_list (s : gset PeerId) (l : list PeerId) : NoDup l ->
  (forall p, p ∈ l -> p ∈ s) ->
  Z.of_nat (size (s ∖ list_to_set l)) = Z.of_nat (size s) - Z.of_nat (length l).
Proof.
  intros Hl Hs. pose proof (size_NoDup l s Hl Hs).
  rewrite size_difference by set_solver. rewrite size_list_to_set by done. lia.
Qed.

Lemma size_union_list (s : gset PeerId) (l : list PeerId) : NoDup l ->
  (forall p, p ∈ l -> p ∉ s) ->
  Z.of_nat (size (s ∪ list_to_set l)) = Z.of_nat (size s) + Z.of_nat (length l).
Proof.
  intros Hl Hs. rewrite size_union by set_solver. rewrite size_list_to_set by done. lia.
Qed.

Lemma lookup_peersOf (t : PeerTable) topic : 0 < peers t topic -> t !! topic = Some (peersOf t topic).
Proof. unfold peers, peersOf. by destruct (t !! topic). Qed.

Section Steps.
Context `{C : Chronos} `{L : DrbgLaws}.
Context (clock : nat -> Moment) (ord : nat -> gset PeerId -> list PeerId).
Context (Hord : forall k s, ord k s ≡ₚ elements s).
Implicit Types (g : GossipSub) (topic : string) (p : PeerId).

Lemma prune_excess_effect topic G g : well_configured (parameters g) -> no_nan g -> NoDup G ->
  (forall p, p ∈ G -> p ∈ peersOf (mesh g) topic) ->
  (dHigh (parameters g) < peers (mesh g) topic ->
   dScore (parameters g) < peers (mesh g) topic - Z.of_nat (length G)) ->
  exists P g', prune_excess clock ord topic G g = Some (P, g') /\ pruning clock topic P g g' /\
    NoDup P /\ (forall p, p ∈ P -> p ∈ peersOf (mesh g) topic /\ p ∉ G) /\
    (peers (mesh g) topic <= dHigh (parameters g) -> P = []) /\
    (forall p, p ∈ P ->
      (exists B, NoDup B /\ Z.of_nat (length B) = dScore (parameters g) /\ forall q, q ∈ B ->
        q ∈ peersOf (mesh g') topic /\ fle (score (objs g p)) (score (objs g q)) = true) /\
      (outbound (objs g p) = true ->
       dOut (parameters g) <= outboundPeers (fun q => outbound (objs g q)) (mesh g') topic)) /\
    (dHigh (parameters g) < peers (mesh g) topic ->
     exists o, 0 <= o <= dOut (parameters g) /\
       let excess := peers (mesh g) topic - Z.of_nat (length G) - dScore (parameters g) - o in
       Z.of_nat (length P) =
         if d (parameters g) <? excess then excess - d (parameters g) else excess).
Proof using L Hord.
  intros Hwc Hnan HndG HG Hcut. unfold prune_excess.
  destruct (Z.ltb_spec (dHigh (parameters g)) (peers (mesh g) topic)) as [Hn|Hn].
  2: { exists [], g. split_and!; try done; [|by apply NoDup_nil|by intros ? ?%elem_of_nil..|lia].
       split; [reflexivity|set_solver|done|set_solver|done]. }
  specialize (Hcut Hn). pose proof (wc_d _ Hwc).
  rewrite lookup_peersOf by lia. cbn [mbind option_bind].
  set (S := peersOf (mesh g) topic) in *. set (l0 := filter _ _).
  assert (Hl0 : forall p, p ∈ l0 <-> p ∈ S /\ p ∉ G).
  { intros p. unfold l0. rewrite list_elem_of_filter, Hord, elem_of_elements. tauto. }
  assert (Hnd0 : NoDup l0).
  { apply NoDup_filter. rewrite Hord. apply NoDup_elements. }
  assert (Hlen0 : Z.of_nat (length l0) = peers (mesh g) topic - Z.of_nat (length G)).
  { rewrite peers_size. fold S. rewrite <- (size_difference_list S G) by done.
    rewrite <- (size_list_to_set (C := gset PeerId) l0) by done. do 2 f_equal. set_solver. }
  destruct (shuffle_g_ok l0 g Hnd0) as (l1 & s & -> & Hl1). cbn [mbind option_bind].
  set (l := merge_sort _ l1).
  assert (Hl : l ≡ₚ l0) by (unfold l; by rewrite merge_sort_Permutation).
  destruct (prune_list_ok l (set_rng s g)) as (P & K & s' & -> & Hsub & HK & HKl & HKo & HP);
    [by rewrite Hl|done|cbn; rewrite Hl; lia|]. cbn [mbind option_bind parameters objs set_rng] in *.
  assert (Hlen : length l = length l0) by (by rewrite Hl).
  assert (Hndl : NoDup l) by (by rewrite Hl).
  set (n := Z.to_nat _) in Hsub.
  assert (HndPK : NoDup (P ++ K)).
  { apply NoDup_take with (n := n) in Hndl. destruct (submseteq_Permutation _ _ Hsub) as [k Hk].
    rewrite Hk in Hndl. by apply NoDup_app in Hndl as [? _]. }
  apply NoDup_app in HndPK as (HndP & HPK & HndK).
  assert (Hin : forall p, p ∈ P ++ K -> p ∈ take n l) by (intros p Hp; by eapply elem_of_submseteq).
  assert (HinS : forall p, p ∈ P ++ K -> p ∈ S /\ p ∉ G).
  { intros p Hp%Hin%elem_of_take_in. by rewrite Hl, Hl0 in Hp. }
  set (gs := set_rng s' (set_rng s g)).
  destruct (prune_all_effect clock topic P gs HndP) as [F M O Kb Sb].
  set (g' := prune_all clock topic P gs) in *.
  assert (Mg : forall q, q ∈ peersOf (mesh g') topic <-> q ∈ S /\ q ∉ P).
  { intros q. rewrite M. cbn. fold S. set_solver. }
  exists P, g'. split; [done|]. split.
  { destruct F. split; [split; cbn in *; done|exact M|exact O|exact Kb|exact Sb]. }
  split; [done|]. split; [set_solver|]. split; [lia|]. split.
  - intros p Hp. split.
    + exists (drop n l). split; [|split].
      * rewrite <- (take_drop n l) in Hndl. by apply NoDup_app in Hndl as (_ & _ & ?).
      * rewrite length_drop. pose proof (wc_dScore _ Hwc). lia.
      * intros q Hq. split.
        -- apply Mg. split.
           { apply elem_of_drop_in in Hq. rewrite Hl in Hq. by apply Hl0 in Hq as [? _]. }
           intros HqP. rewrite <- (take_drop n l) in Hndl.
           apply NoDup_app in Hndl as (_ & Hd & _). apply (Hd q); [apply Hin; set_solver|done].
        -- unfold l in Hq. eapply ascending_cut; [done| |exact Hq].
           change (merge_sort _ l1) with l. apply Hin. set_solver.
    + intros Ho. rewrite outboundPeers_size, <- (HKo p Hp Ho). apply inj_le, size_NoDup; [done|].
      intros q Hq. apply elem_of_filter. split; [by apply Is_true_true, HK|].
      apply Mg. split; [apply HinS; set_solver|]. intros ?. by apply (HPK q).
  - intros _. exists (Z.of_nat (length K)). split; [lia|]. cbv zeta in *. by rewrite HP, Hlen, Hlen0.
Qed.

End Steps.

Section Plan.
Context `{C : Chronos} `{D : Drbg} (clock : nat -> Moment).
Implicit Types (g : GossipSub) (topic : string) (p : PeerId).

Lemma peers_grafting topic G g g' : grafting topic G g g' -> NoDup G ->
  (forall p, p ∈ G -> p ∉ peersOf (mesh g) topic) ->
  peers (mesh g') topic = peers (mesh g) topic + Z.of_nat (length G).
Proof. intros [_ M _ _] HG Hout. by rewrite !peers_size, M, size_union_list. Qed.

Lemma peers_pruning topic P g g' : pruning clock topic P g g' -> NoDup P ->
  (forall p, p ∈ P -> p ∈ peersOf (mesh g) topic) ->
  peers (mesh g') topic = peers (mesh g) topic - Z.of_nat (length P).
Proof. intros [_ M _ _ _] HP Hin. by rewrite !peers_size, M, size_difference_list. Qed.

(** The steps of a rebalance from [g]: [G] is grafted, [P] pruned, then [G'] grafted. *)
Record rebalanced topic g (G : list PeerId) g1 (P : list PeerId) g2 (G' : list PeerId) g3 : Prop := {
  rb_G : grafting topic G g g1;
  rb_GN : NoDup G;
  rb_Gel p : p ∈ G -> p ∈ eligible g topic;
  rb_Glow : peers (mesh g) topic < dLow (parameters g) -> Z.of_nat (length G) =
    Z.min (Z.of_nat (size (eligible g topic))) (d (parameters g) - peers (mesh g) topic);
  rb_Ghigh : dLow (parameters g) <= peers (mesh g) topic ->
    Z.of_nat (length G) <= dOut (parameters g);
  rb_Gout : dLow (parameters g) <= peers (mesh g) topic ->
    dOut (parameters g) <= outboundPeers (fun q => outbound (objs g q)) (mesh g) topic -> G = [];
  rb_P : pruning clock topic P g1 g2;
  rb_PN : NoDup P;
  rb_Pin p : p ∈ P -> p ∈ peersOf (mesh g) topic;
  rb_Psmall : peers (mesh g1) topic <= dHigh (parameters g) -> P = [];
  rb_Pbest p : p ∈ P -> exists B, NoDup B /\ Z.of_nat (length B) = dScore (parameters g) /\
    forall q, q ∈ B -> q ∈ peersOf (mesh g2) topic /\
      fle (score (objs g p)) (score (objs g q)) = true;
  rb_Pout p : p ∈ P -> outbound (objs g p) = true ->
    dOut (parameters g) <= outboundPeers (fun q => outbound (objs g q)) (mesh g2) topic;
  rb_Pexcess : dHigh (parameters g) < peers (mesh g1) topic ->
    exists o, 0 <= o <= dOut (parameters g) /\
      let excess := peers (mesh g1) topic - Z.of_nat (length G) - dScore (parameters g) - o in
      Z.of_nat (length P) =
        if d (parameters g) <? excess then excess - d (parameters g) else excess;
  rb_G' : grafting topic G' g2 g3;
  rb_GN' : NoDup G';
  rb_Glen' : Z.of_nat (length G') <= Z.of_nat MaxOpportunisticGraftPeers;
  rb_Gel' p : p ∈ G' -> p ∈ peersOf (gossipsub g) topic /\ (p ∉ peersOf (mesh g2) topic) /\
    (p ∉ directPeers (parameters g)) /\ backoff_of g2 topic p = None /\
    exists m, m ∈ peersOf (mesh g2) topic /\ fle (score (objs g m)) (score (objs g p)) = true;
}.

Context topic g G g1 P g2 G' g3 (R : rebalanced topic g G g1 P g2 G' g3).

Lemma rb_Gfresh p : p ∈ G -> p ∉ peersOf (mesh g) topic.
Proof using R. intros Hp%(rb_Gel _ _ _ _ _ _ _ _ R). unfold eligible in Hp. set_solver. Qed.

(** A peer pruned now has a backoff, so it is not grafted again. *)
Lemma rb_Gfresh' p : p ∈ G' -> (p ∉ peersOf (mesh g) topic) /\ (p ∉ G) /\ (p ∉ P).
Proof using R.
  intros Hp. destruct (rb_Gel' _ _ _ _ _ _ _ _ R p Hp) as (_ & Hm & _ & Hb & _).
  assert (HP : p ∉ P).
  { intros H. destruct (pr_backoff _ _ _ _ _ (rb_P _ _ _ _ _ _ _ _ R) p H) as (k & _ & E).
    congruence. }
  rewrite (pr_mesh _ _ _ _ _ (rb_P _ _ _ _ _ _ _ _ R)) in Hm.
  rewrite (gr_mesh _ _ _ _ (rb_G _ _ _ _ _ _ _ _ R)) in Hm. set_solver.
Qed.

Lemma rb_frame : frame g g3.
Proof using R.
  destruct R as [[F1 _ _ _] _ _ _ _ _ [F2 _ _ _ _] _ _ _ _ _ _ [F3 _ _ _] _ _ _].
  by repeat (etransitivity; [eassumption|]).
Qed.

Lemma rb_mesh : peersOf (mesh g3) topic =
  (peersOf (mesh g) topic ∪ list_to_set (G ++ G')) ∖ list_to_set P.
Proof using R.
  pose proof rb_Gfresh' as HG'. pose proof rb_Gfresh as HG.
  destruct R as [[_ M1 _ _] _ _ _ _ _ [_ M2 _ _ _] _ Hin _ _ _ _ [_ M3 _ _] _ _ _].
  rewrite M3, M2, M1, list_to_set_app_L. set_solver.
Qed.

Lemma rb_Gbackoff p : p ∈ G' -> backoff_of g topic p = None.
Proof using R.
  intros Hp. destruct (rb_Gfresh' p Hp) as (_ & _ & HP).
  destruct (rb_Gel' _ _ _ _ _ _ _ _ R p Hp) as (_ & _ & _ & Hb & _).
  rewrite (pr_same _ _ _ _ _ (rb_P _ _ _ _ _ _ _ _ R)) in Hb by (by right).
  unfold backoff_of in *. by rewrite (gr_backingOff _ _ _ _ (rb_G _ _ _ _ _ _ _ _ R)) in Hb.
Qed.

(** The size of the mesh after each step. *)
Lemma rb_sizes :
  peers (mesh g1) topic = peers (mesh g) topic + Z.of_nat (length G) /\
  peers (mesh g2) topic = peers (mesh g1) topic - Z.of_nat (length P) /\
  peers (mesh g3) topic = peers (mesh g2) topic + Z.of_nat (length G').
Proof using R.
  split; [|split].
  - apply peers_grafting; [apply R|apply R|apply rb_Gfresh].
  - apply peers_pruning; [apply R|apply R|]. intros p Hp%(rb_Pin _ _ _ _ _ _ _ _ R).
    rewrite (gr_mesh _ _ _ _ (rb_G _ _ _ _ _ _ _ _ R)). set_solver.
  - apply peers_grafting; [apply R|apply R|].
    intros p Hp%(rb_Gel' _ _ _ _ _ _ _ _ R). tauto.
Qed.

End Plan.

Section Whole.
Context `{C : Chronos} `{L : DrbgLaws}.
Context (clock : nat -> Moment) (ord : nat -> gset PeerId -> list PeerId).
Context (Hord : forall k s, ord k s ≡ₚ elements s).
Implicit Types (g : GossipSub) (topic : string) (p : PeerId).

Lemma opportunistic_effect topic b g :
  exists G g', opportunistic clock ord topic b g = Some (G, g') /\ grafting topic G g g' /\
    NoDup G /\ Z.of_nat (length G) <= Z.of_nat MaxOpportunisticGraftPeers /\
    (forall p, p ∈ G -> p ∈ peersOf (gossipsub g) topic /\ (p ∉ peersOf (mesh g) topic) /\
      (p ∉ directPeers (parameters g)) /\ b !! p = None /\
      exists m, m ∈ peersOf (mesh g) topic /\ fle (score (objs g m)) (score (objs g p)) = true).
Proof using L Hord.
  assert (H0 : exists G g', Some ([], g) = Some (G, g') /\ grafting topic G g g' /\
    NoDup G /\ Z.of_nat (length G) <= Z.of_nat MaxOpportunisticGraftPeers /\
    (forall p, p ∈ G -> p ∈ peersOf (gossipsub g) topic /\ (p ∉ peersOf (mesh g) topic) /\
      (p ∉ directPeers (parameters g)) /\ b !! p = None /\
      exists m, m ∈ peersOf (mesh g) topic /\ fle (score (objs g m)) (score (objs g p)) = true)).
  { exists [], g. split_and!; [done|split; [reflexivity|set_solver|done|done]|
      by apply NoDup_nil|cbn; lia|by intros ? ?%elem_of_nil]. }
  unfold opportunistic.
  destruct (Z.ltb_spec 1 (peers (mesh g) topic)) as [Hn|]; [|exact H0].
  rewrite lookup_peersOf by lia. cbn [mbind option_bind]. set (ps := merge_sort _ _).
  assert (Hps : ps ≡ₚ elements (peersOf (mesh g) topic))
    by (unfold ps; by rewrite merge_sort_Permutation, Hord).
  assert (Hlen : Z.of_nat (length ps) = peers (mesh g) topic)
    by (rewrite Hps, peers_size; done).
  destruct (lookup_lt_is_Some_2 ps (length ps / 2)) as [m Hm].
  { apply Nat.div_lt; lia. }
  rewrite Hm. cbn [mbind option_bind]. destruct (flt _ _); [|exact H0].
  destruct (candidates_of_spec ord Hord 4 (fun it => fle (score (objs g m)) (score it)) topic b g)
    as [Hnd Hcs].
  set (cs := candidates_of _ _ _ _ _ _) in *.
  destruct (graft_all_effect clock false topic (take MaxOpportunisticGraftPeers cs) g)
    as (g' & -> & HG).
  { by apply NoDup_take. }
  { intros p Hp%elem_of_take_in%Hcs. tauto. }
  exists (take MaxOpportunisticGraftPeers cs), g'. split_and!; [done|done|by apply NoDup_take| |].
  - rewrite length_take. lia.
  - intros p Hp%elem_of_take_in%Hcs. split_and!; try tauto. exists m. split; [|tauto].
    apply elem_of_elements. rewrite <- Hps. by eapply list_elem_of_lookup_2.
Qed.

(** The messages of a rebalance. *)
Definition announcement topic (grafts prunes : list PeerId) g : list (list PeerId * ControlMessage) :=
  (if decide (grafts = []) then [] else [(grafts, withGraft topic)]) ++
  (if decide (prunes = []) then []
   else [(prunes, withPrune (mkControlPrune topic (peerExchangeList ord g topic)
           (backoff_seconds (pruneBackoff (parameters g)))))]).

Lemma announcement_frame topic G P g g' : frame g g' ->
  announcement topic G P g' = announcement topic G P g.
Proof.
  intros []. unfold announcement, peerExchangeList.
  by rewrite f_parameters0, f_objs0, f_gossipsub0, f_sprBook0.
Qed.

Lemma announce_effect topic G P g :
  let g' := announce ord topic G P g in
  sent g' = sent g ++ announcement topic G P g /\
  mesh g' = mesh g /\ backingOff g' = backingOff g /\ objs g' = objs g.
Proof.
  unfold announce, announcement. destruct G, P; cbn; rewrite ?app_nil_r, <- ?app_assoc; done.
Qed.

Lemma rebalance_steps topic g : well_configured (parameters g) -> no_nan g ->
  exists G g1 P g2 G' g3,
    rebalanceMesh clock ord topic g = Some (announce ord topic (G ++ G') P g3) /\
    rebalanced clock topic g G g1 P g2 G' g3.
Proof using L Hord.
  intros Hwc Hnan.
  destruct (replenish_effect ord Hord clock topic g Hwc)
    as (G & g1 & E1 & HG & HndG & Hel & Hlow & Hge & Hempty).
  assert (HGout : forall p, p ∈ G -> p ∉ peersOf (mesh g) topic).
  { intros p Hp%Hel. unfold eligible in Hp. set_solver. }
  pose proof (peers_grafting topic G g g1 HG HndG HGout) as Hn1.
  destruct (prune_excess_effect clock ord Hord topic G g1)
    as (P & g2 & E2 & HP & HndP & HPin & Hsmall & Hbest & Hexc).
  - by rewrite (f_parameters _ _ (gr_frame _ _ _ _ HG)).
  - intros p. rewrite (f_objs _ _ (gr_frame _ _ _ _ HG)). apply Hnan.
  - done.
  - intros p Hp. rewrite (gr_mesh _ _ _ _ HG). set_solver.
  - rewrite (f_parameters _ _ (gr_frame _ _ _ _ HG)). destruct Hwc. intros Hhigh.
    destruct (Z.lt_ge_cases (peers (mesh g) topic) (dLow (parameters g))); [|lia].
    rewrite Hlow in Hn1 by done. lia.
  - destruct (opportunistic_effect topic (default ∅ (backingOff g2 !! topic)) g2)
      as (G' & g3 & E3 & HG' & HndG' & HlG' & Hel').
    exists G, g1, P, g2, G', g3. split.
    { unfold rebalanceMesh. rewrite E1. cbn [mbind option_bind].
      rewrite E2. cbn [mbind option_bind]. rewrite E3. done. }
    pose proof (gr_frame _ _ _ _ HG) as F1. pose proof (pr_frame _ _ _ _ _ HP) as F2.
    pose proof (transitivity F1 F2) as F.
    rewrite (f_parameters _ _ F1), (f_objs _ _ F1) in *.
    rewrite (f_gossipsub _ _ F), (f_parameters _ _ F), (f_objs _ _ F) in Hel'.
    split; try done.
    + intros p Hp. apply HPin in Hp as [Hp HpG]. rewrite (gr_mesh _ _ _ _ HG) in Hp. set_solver.
    + intros p Hp. by apply Hbest.
    + intros p Hp. by apply Hbest.
Qed.

(** A rebalance brings no negative score into the mesh. *)
Lemma rebalance_scores topic g : well_configured (parameters g) -> no_nan g ->
  (forall p, p ∈ peersOf (mesh g) topic -> fle f0 (score (objs g p))) ->
  exists g', rebalanceMesh clock ord topic g = Some g' /\ objs g' = objs g /\
    forall p, p ∈ peersOf (mesh g') topic -> fle f0 (score (objs g p)).
Proof using L Hord.
  intros Hwc Hnan Hold. destruct (rebalance_steps topic g Hwc Hnan)
    as (G & g1 & P & g2 & G' & g3 & -> & R). eexists. split; [done|].
  pose proof (rb_frame _ _ _ _ _ _ _ _ _ R) as F.
  destruct (announce_effect topic (G ++ G') P g3) as (_ & Em & _ & Eo). rewrite Em, Eo.
  split; [apply F|].
  destruct R as [R1 _ El _ _ _ R2 _ _ _ _ _ _ R3 _ _ El'].
  assert (H2 : forall p, p ∈ peersOf (mesh g2) topic -> fle f0 (score (objs g p)) = true).
  { intros p Hp. rewrite (pr_mesh _ _ _ _ _ R2), (gr_mesh _ _ _ _ R1) in Hp.
    apply elem_of_difference in Hp as [[Hp|Hp]%elem_of_union _].
    - by apply Is_true_true, Hold.
    - apply elem_of_list_to_set, El, elem_of_filter in Hp as [[H _] _].
      by apply andb_true_iff in H as [_ ?]. }
  intros p Hp. rewrite (gr_mesh _ _ _ _ R3) in Hp. apply Is_true_true.
  apply elem_of_union in Hp as [Hp|Hp]; [by apply H2|].
  apply elem_of_list_to_set, El' in Hp as (_ & _ & _ & _ & m & Hm' & Hs).
  apply (fle_trans f0 (score (objs g m))); [done|apply Hnan|apply Hnan|by apply H2|exact Hs].
Qed.

(** The turn of a topic in the heartbeat: it does not fail, and leaves in the mesh no peer whose
score is negative. *)
Theorem heartbeat_topic_scores topic g : well_configured (parameters g) -> no_nan g ->
  exists g', heartbeat_topic clock ord topic g = Some g' /\
    forall p, p ∈ peersOf (mesh g') topic -> fle f0 (score (objs g p)).
Proof using L Hord.
  intros Hwc Hnan. unfold heartbeat_topic.
  set (g1 := handleBackingOff clock topic g).
  assert (E1 : parameters g1 = parameters g /\ objs g1 = objs g /\ mesh g1 = mesh g).
  { unfold g1, handleBackingOff. cbn. by destruct (backingOff g !! topic). }
  destruct E1 as (Ep1 & Eo1 & Em1). unfold prune_negative.
  set (P := filter _ _). assert (HP : NoDup P).
  { apply NoDup_filter. rewrite Hord. apply NoDup_elements. }
  destruct (prune_all_effect clock topic P g1 HP) as [F M _ _ _].
  set (g2 := prune_all clock topic P g1) in *.
  match goal with |- context [rebalanceMesh clock ord topic ?x] => set (g3 := x) end.
  assert (E3 : parameters g3 = parameters g2 /\ objs g3 = objs g2 /\ mesh g3 = mesh g2).
  { unfold g3. by destruct (0 <? length P)%nat. }
  destruct E3 as (Ep3 & Eo3 & Em3).
  assert (Ep : parameters g3 = parameters g) by (rewrite Ep3, (f_parameters _ _ F); done).
  assert (Eo : objs g3 = objs g) by (rewrite Eo3, (f_objs _ _ F); done).
  destruct (rebalance_scores topic g3) as (g' & E & _ & Hs).
  - by rewrite Ep.
  - intros p. rewrite Eo. apply Hnan.
  - intros p Hp. rewrite Em3, M in Hp. rewrite Eo. apply elem_of_difference in Hp as [Hp HnP].
    apply Is_true_true. destruct (fle f0 (score (objs g p))) eqn:Hf; [done|]. destruct HnP.
    apply elem_of_list_to_set, list_elem_of_filter. split.
    + rewrite Eo1, flt_fle, Hf; [done|apply Hnan|done].
    + by rewrite Hord, elem_of_elements.
  - exists g'. split; [done|]. intros p Hp. rewrite <- Eo. by apply Hs.
Qed.

End Whole.

(** *** GRAFT messages *)

Section Graft.
Context `{C : Chronos} `{D : Drbg} (clock : nat -> Moment).
Implicit Types (g : GossipSub) (topic : string) (p : PeerId).

(** The mesh of a topic holds at most [dHigh] peers, and beyond them only outbound ones, up to
the outbound quota. *)
Definition graft_bound g topic : Prop :=
  peers (mesh g) topic <= dHigh (parameters g) + Z.max 0 (Z.min (dOut (parameters g))
    (outboundPeers (fun q => outbound (objs g q)) (mesh g) topic)).

(** What [handleGraft_one] may do. *)
Record admission p topic g (prunes : list ControlPrune) g' : Prop := {
  ad_parameters : parameters g' = parameters g;
  ad_topics : topics g' = topics g;
  ad_score q : score (objs g' q) = score (objs g q);
  ad_outbound q : outbound (objs g' q) = outbound (objs g q);
  ad_ticks : (ticks g <= ticks g')%nat;
  ad_other topic' : topic' <> topic -> mesh g' !! topic' = mesh g !! topic';
  ad_mesh : peersOf (mesh g') topic = peersOf (mesh g) topic \/
    peersOf (mesh g') topic = {[p]} ∪ peersOf (mesh g) topic /\ (p ∉ peersOf (mesh g) topic) /\
    topic ∈ topics g /\ (p ∉ directPeers (parameters g)) /\
    flt (score (objs g p)) (publishThreshold (parameters g)) = false /\
    (moment_back (getBackoff g topic p) (of_seconds (BackoffSlackTime * 2)) <= clock (ticks g)) /\
    (peers (mesh g) topic < dHigh (parameters g) \/
     outbound (objs g p) = true /\
     outboundPeers (fun q => outbound (objs g q)) (mesh g) topic < dOut (parameters g));
  ad_backoff topic' q : topic' <> topic \/ q <> p -> backoff_of g' topic' q = backoff_of g topic' q;
  ad_prunes : prunes = [] /\ backoff_of g' topic p = backoff_of g topic p \/
    exists px k, prunes =
        [mkControlPrune topic px (backoff_seconds (pruneBackoff (parameters g)))] /\
      (ticks g <= k < ticks g')%nat /\
      backoff_of g' topic p = Some (moment_add (clock k) (pruneBackoff (parameters g)));
}.

(** A rejected GRAFT: the backoff is set, and perhaps the penalty. *)
Lemma reject_admission p topic px (pen : bool) g :
  let '(prune, g') := reject clock p topic px g in
  admission p topic g [prune] (if pen then penalize p g' else g').
Proof.
  unfold reject, fromNow, now. cbn.
  assert (Hb : forall g0 topic' q, backoff_of (if pen then penalize p g0 else g0) topic' q =
    backoff_of g0 topic' q) by (by destruct pen).
  split; try (destruct pen; cbn; done || lia).
  - intros q. destruct pen; [|done]. cbn. unfold insert, fn_insert. by case_decide; subst.
  - intros q. destruct pen; [|done]. cbn. unfold insert, fn_insert. by case_decide; subst.
  - left. by destruct pen.
  - intros topic' q Hq. rewrite Hb, backoff_of_set, decide_False; [done|tauto].
  - right. exists px, (ticks g). split; [done|]. rewrite Hb, backoff_of_set, decide_True by done.
    split; [destruct pen; cbn; lia|done].
Qed.

Lemma no_change_admission p topic g : admission p topic g [] g.
Proof. split; try done; [by left|by left]. Qed.

Lemma tick_admission p topic g prunes g' : admission p topic (now clock g).2 prunes g' ->
  (moment_back (getBackoff g topic p) (of_seconds (BackoffSlackTime * 2)) <= clock (ticks g) \/
   peersOf (mesh g') topic = peersOf (mesh g) topic) ->
  admission p topic g prunes g'.
Proof.
  intros [] Hb. cbn in *. split; try done; [lia|naive_solver|].
  destruct ad_prunes0 as [?|(px & k & ? & ? & ?)]; [by left|right; exists px, k; cbn in *].
  split; [done|]. split; [lia|done].
Qed.

Lemma graft_admission p topic g0 : let g := (now clock g0).2 in
  topic ∈ topics g -> p ∉ peersOf (mesh g) topic -> (p ∉ directPeers (parameters g)) ->
  flt (score (objs g p)) (publishThreshold (parameters g)) = false ->
  (moment_back (getBackoff g topic p) (of_seconds (BackoffSlackTime * 2)) <= clock (ticks g0)) ->
  (peers (mesh g) topic < dHigh (parameters g) \/
   outbound (objs g p) = true /\
   outboundPeers (fun q => outbound (objs g q)) (mesh g) topic < dOut (parameters g)) ->
  let g1 := grafted clock p topic (set_mesh (addPeer (mesh g) topic p).2 g) in
  admission p topic g0 [] (set_fanout (removePeer (fanout g1) topic p) g1).
Proof.
  intros g Ht Hp Hd Hs Hb Hroom g1.
  pose proof (grafted_effect clock p topic (set_mesh (addPeer (mesh g) topic p).2 g)) as H.
  fold g1 in H. destruct H as [[] Em Ef Eb]. cbn in *.
  assert (Eb' : forall t q, backoff_of g1 t q = backoff_of g t q)
    by (intros t q; unfold backoff_of; by rewrite Eb).
  split; cbn; try done; rewrite ?f_objs0; try done; [lia| | | |].
  - intros t Htt. rewrite Em. by rewrite lookup_insert_ne.
  - right. split; [|done]. rewrite Em. unfold peersOf. by rewrite lookup_insert_eq.
  - intros t q _. apply Eb'.
  - left. split; [done|]. apply Eb'.
Qed.

Context (ord : nat -> gset PeerId -> list PeerId).

Lemma handleGraft_one_admission p topic g :
  let '(prunes, g') := handleGraft_one clock ord p topic g in admission p topic g prunes g'.
Proof.
  unfold handleGraft_one. case_decide as Hd.
  { pose proof (reject_admission p topic [] true g) as H. by destruct (reject _ _ _ _ _). }
  rewrite hasPeer_spec. case_bool_decide as Hm; [apply no_change_admission|].
  rewrite (surjective_pairing (now clock g)).
  set (g1 := (now clock g).2). change (now clock g).1 with (clock (ticks g)).
  assert (Hrej : forall px (pen : bool), let '(prune, g') := reject clock p topic px g1 in
    admission p topic g [prune] (if pen then penalize p g' else g')).
  { intros px pen. pose proof (reject_admission p topic px pen g1) as H.
    destruct (reject _ _ _ _ _) eqn:E. apply tick_admission; [exact H|right].
    unfold reject, fromNow, now in E. simplify_eq/=. by destruct pen. }
  destruct (Z.ltb_spec (clock (ticks g))
    (moment_back (getBackoff g1 topic p) (of_seconds (BackoffSlackTime * 2)))) as [|Hb].
  { specialize (Hrej [] true). by destruct (reject _ _ _ _ _). }
  assert (Hno : admission p topic g [] g1)
    by (apply tick_admission; [apply no_change_admission|by left]).
  destruct (flt _ _) eqn:Hs; [done|]. case_decide as Ht; [|done].
  destruct (_ || _) eqn:Hroom.
  - apply orb_true_iff in Hroom. rewrite andb_true_iff, !Z.ltb_lt in Hroom.
    unfold addPeer at 1. rewrite bool_decide_true by done.
    by apply graft_admission.
  - specialize (Hrej (peerExchangeList ord g1 topic) false). by destruct (reject _ _ _ _ _).
Qed.

Lemma outboundPeers_ext (f f' : PeerId -> bool) (t : PeerTable) topic :
  (forall q, f q = f' q) -> outboundPeers f t topic = outboundPeers f' t topic.
Proof.
  intros H. rewrite !outboundPeers_size. do 2 f_equal. apply set_eq. intros q.
  by rewrite !elem_of_filter, H.
Qed.

Lemma admission_bound p topic g prunes g' topic' : admission p topic g prunes g' ->
  graft_bound g topic' -> graft_bound g' topic'.
Proof.
  intros A. unfold graft_bound. rewrite (ad_parameters _ _ _ _ _ A).
  rewrite (outboundPeers_ext _ _ _ _ (ad_outbound _ _ _ _ _ A)).
  destruct (decide (topic' = topic)) as [->|Ht].
  2: { unfold peers, outboundPeers. by rewrite (ad_other _ _ _ _ _ A). }
  rewrite !outboundPeers_size, !peers_size.
  destruct (ad_mesh _ _ _ _ _ A) as [->|(-> & Hp & _ & _ & _ & _ & Hroom)]; [done|].
  rewrite outboundPeers_size, peers_size in Hroom.
  rewrite size_union, size_singleton by set_solver. intros Hb.
  cbv beta in *. set (S := peersOf (mesh g) topic) in *. set (f := fun q => Is_true (outbound (objs g q))) in *.
  destruct Hroom as [Hroom|[Ho Hroom]].
  - assert (Z.of_nat (size (filter f S)) <= Z.of_nat (size (filter f ({[p]} ∪ S)))).
    { apply inj_le, subseteq_size. set_solver. } lia.
  - assert (E : size (filter f ({[p]} ∪ S)) = (1 + size (filter f S))%nat).
    { assert (Hf : f p) by (unfold f; by apply Is_true_true).
      assert (filter f ({[p]} ∪ S) = {[p]} ∪ filter f S) as -> by set_solver.
      rewrite size_union by set_solver. by rewrite size_singleton. }
    rewrite E. lia.
Qed.

(** A whole message. *)
Lemma handleGraft_all p grafts g :
  let '(prunes, g') := handleGraft clock ord p grafts g in
  (forall topic, graft_bound g topic -> graft_bound g' topic) /\
  (forall topic, peersOf (mesh g) topic ⊆ peersOf (mesh g') topic) /\
  (forall topic q, q ∈ peersOf (mesh g') topic -> q ∉ peersOf (mesh g) topic ->
    q = p /\ topic ∈ grafts /\ topic ∈ topics g /\ (p ∉ directPeers (parameters g)) /\
    flt (score (objs g p)) (publishThreshold (parameters g)) = false /\
    (NoDup grafts -> exists k, (ticks g <= k)%nat /\
      moment_back (getBackoff g topic p) (of_seconds (BackoffSlackTime * 2)) <= clock k)) /\
  (forall prune, prune ∈ prunes -> cp_topicID prune ∈ grafts /\
    cp_backoff prune = backoff_seconds (pruneBackoff (parameters g)) /\
    exists k, (ticks g <= k)%nat /\ backoff_of g' (cp_topicID prune) p =
      Some (moment_add (clock k) (pruneBackoff (parameters g)))) /\
  (forall topic, topic ∉ grafts -> backoff_of g' topic p = backoff_of g topic p) /\
  (forall topic, backoff_of g' topic p = backoff_of g topic p \/
    exists k, (ticks g <= k)%nat /\ backoff_of g' topic p =
      Some (moment_add (clock k) (pruneBackoff (parameters g)))).
Proof.
  revert g. induction grafts as [|topic grafts IH]; intros g; cbn [handleGraft].
  { split_and!; try done. by intros ? ?%elem_of_nil. by left. }
  pose proof (handleGraft_one_admission p topic g) as A.
  destruct (handleGraft_one clock ord p topic g) as [prunes g1].
  specialize (IH g1). destruct (handleGraft clock ord p grafts g1) as [prunes' g'].
  destruct IH as (IB & IM & IN & IP & IO & IK).
  pose proof (fun t => admission_bound p topic g prunes g1 t A) as AB.
  destruct A as [Ep Et Es Eo Etk Ao Am Ab Apr]. rewrite !Ep, ?Et, ?Es in *.
  assert (Ao' : forall t, t <> topic -> peersOf (mesh g1) t = peersOf (mesh g) t).
  { intros t Ht. unfold peersOf. by rewrite Ao. }
  split_and!.
  - intros t Ht. by apply IB, AB.
  - intros t. transitivity (peersOf (mesh g1) t); [|apply IM].
    destruct (decide (t = topic)) as [->|Ht]; [|by rewrite Ao']. set_solver.
  - intros t q Hq Hq'. destruct (decide (q ∈ peersOf (mesh g1) t)) as [H1|H1].
    + destruct (decide (t = topic)) as [->|Ht]; [|by rewrite Ao' in H1].
      destruct Am as [E|(E & _ & ? & ? & ? & ? & _)]; rewrite E in H1; [done|].
      assert (q = p) as -> by set_solver. split_and!; try done; [set_solver|].
      intros _. by exists (ticks g).
    + destruct (IN t q Hq H1) as (-> & Hin & Htp & Hd & Hsc & Hk). split_and!; try done.
      { set_solver. }
      intros [Hnt Hnd]%NoDup_cons. destruct (Hk Hnd) as (k & Hk1 & Hk2).
      exists k. split; [lia|]. rewrite <- Hk2. do 2 f_equal. unfold getBackoff.
      fold (backoff_of g t p). fold (backoff_of g1 t p). rewrite Ab; [done|]. left. set_solver.
  - intros pr [Hpr|Hpr]%elem_of_app.
    + destruct Apr as [[-> _]|(px & k & -> & Hk & Hb)]; [by apply elem_of_nil in Hpr|].
      apply list_elem_of_singleton in Hpr as ->. cbn. split; [set_solver|]. split; [done|].
      destruct (IK topic) as [->|(k' & Hk' & ->)]; [exists k|exists k']; split; done || lia.
    + destruct (IP pr Hpr) as (H1 & H2 & k & Hk & H3). split; [set_solver|]. split; [done|].
      exists k. split; [lia|done].
  - intros t Ht. rewrite IO, Ab by set_solver. done.
  - intros t. destruct (IK t) as [->|(k & Hk & ->)]; [|right; exists k; split; [lia|done]].
    destruct (decide (t = topic)) as [->|Ht]; [|left; by apply Ab; left].
    destruct Apr as [[_ ?]|(px & k & _ & Hk & ->)]; [by left|right; exists k; split; [lia|done]].
Qed.

End Graft.

(** ** Properties *)

Section Properties.
Context `{C : Chronos} `{L : DrbgLaws}.
Context (clock : nat -> Moment) (ord : nat -> gset PeerId -> list PeerId).

(** C30: The rebalance of a topic by a node whose parameters are consistent does not fail, and
what it tells its peers is what it does: the peers it sends a GRAFT are new members of the
mesh, subscribed to the topic, not direct peers and not being backed off; those it sends a
PRUNE were members, leave the mesh, and are backed off for [pruneBackoff] from a moment of the
rebalance on; the mesh changes by exactly these two lists, no other backoff and no other topic
changes, and nothing else is sent. *)
Theorem rebalance_agrees (topic : string) (g : GossipSub) :
  (forall k s, ord k s ≡ₚ elements s) -> well_configured (parameters g) -> no_nan g ->
  exists g' grafts prunes, rebalanceMesh clock ord topic g = Some g' /\
    NoDup grafts /\ NoDup prunes /\
    (forall p, p ∈ grafts -> p ∈ peersOf (gossipsub g) topic /\ (p ∉ peersOf (mesh g) topic) /\
      (p ∉ directPeers (parameters g)) /\ backoff_of g topic p = None) /\
    (forall p, p ∈ prunes -> p ∈ peersOf (mesh g) topic) /\
    peersOf (mesh g') topic =
      (peersOf (mesh g) topic ∪ list_to_set grafts) ∖ list_to_set prunes /\
    (forall topic', topic' <> topic -> mesh g' !! topic' = mesh g !! topic') /\
    (forall p, p ∈ prunes -> exists k, (ticks g <= k)%nat /\
      backoff_of g' topic p = Some (moment_add (clock k) (pruneBackoff (parameters g)))) /\
    (forall topic' p, topic' <> topic \/ p ∉ prunes ->
      backoff_of g' topic' p = backoff_of g topic' p) /\
    sent g' = sent g ++ announcement ord topic grafts prunes g.
Proof using L.
  intros Hord Hwc Hnan.
  destruct (rebalance_steps clock ord Hord topic g Hwc Hnan)
    as (G & g1 & P & g2 & G' & g3 & E & R).
  pose proof (rb_Gfresh _ _ _ _ _ _ _ _ _ R) as HG.
  pose proof (rb_Gfresh' _ _ _ _ _ _ _ _ _ R) as HG'.
  pose proof (rb_frame _ _ _ _ _ _ _ _ _ R) as F.
  pose proof (rb_mesh _ _ _ _ _ _ _ _ _ R) as M.
  pose proof (rb_Gbackoff _ _ _ _ _ _ _ _ _ R) as HB.
  destruct (announce_effect ord topic (G ++ G') P g3) as (Es & Em & Eb & _).
  destruct R as [R1 N1 El _ _ _ R2 N2 HP _ _ _ _ R3 N3 _ El'].
  eexists _, (G ++ G'), P. split; [exact E|].
  assert (Eb' : forall t p, backoff_of (announce ord topic (G ++ G') P g3) t p = backoff_of g2 t p).
  { intros t p. unfold backoff_of. by rewrite Eb, (gr_backingOff _ _ _ _ R3). }
  split_and!.
  - apply NoDup_app. split_and!; [done| |done]. intros p Hp Hp'%HG'. tauto.
  - done.
  - intros p [Hp|Hp]%elem_of_app.
    + apply El in Hp. unfold eligible in Hp. apply elem_of_filter in Hp. tauto.
    + specialize (HG' p Hp). specialize (El' p Hp). rewrite HB by done. tauto.
  - done.
  - by rewrite Em, M.
  - intros t Ht. rewrite Em, (gr_other _ _ _ _ R3), (pr_other _ _ _ _ _ R2) by done.
    by apply R1.
  - intros p Hp. destruct (pr_backoff _ _ _ _ _ R2 p Hp) as (k & Hk & Ek).
    destruct R1 as [[] _ _ _]. exists k. split; [lia|]. rewrite Eb', Ek. congruence.
  - intros t p Hp. rewrite Eb', (pr_same _ _ _ _ _ R2) by done. unfold backoff_of.
    by rewrite (gr_backingOff _ _ _ _ R1).
  - rewrite Es, (f_sent _ _ F). f_equal. by apply announcement_frame.
Qed.

(** C31: Whom a rebalance chooses.  For a peer that it removes, [dScore] members of the new mesh
have at least its score, and if it is outbound then [dOut] outbound peers are left; and when
no member of the mesh had a negative score (the heartbeat has just pruned those), nor has a
new one. *)
Theorem rebalance_selects (topic : string) (g g' : GossipSub) :
  (forall k s, ord k s ≡ₚ elements s) -> well_configured (parameters g) -> no_nan g ->
  rebalanceMesh clock ord topic g = Some g' ->
  (forall p, p ∈ peersOf (mesh g) topic -> p ∉ peersOf (mesh g') topic ->
    dScore (parameters g) <= Z.of_nat (size
      (filter (fun q => fle (score (objs g p)) (score (objs g q))) (peersOf (mesh g') topic))) /\
    (outbound (objs g p) ->
     dOut (parameters g) <= outboundPeers (fun q => outbound (objs g q)) (mesh g') topic)) /\
  ((forall p, p ∈ peersOf (mesh g) topic -> fle f0 (score (objs g p))) ->
   forall p, p ∈ peersOf (mesh g') topic -> fle f0 (score (objs g p))).
Proof using L.
  intros Hord Hwc Hnan E'.
  destruct (rebalance_steps clock ord Hord topic g Hwc Hnan)
    as (G & g1 & P & g2 & G' & g3 & E & R).
  rewrite E in E'. simplify_eq.
  pose proof (rb_mesh _ _ _ _ _ _ _ _ _ R) as M.
  destruct (announce_effect ord topic (G ++ G') P g3) as (_ & Em & _). rewrite Em.
  destruct R as [R1 N1 El _ _ _ R2 N2 HP _ Hbest Hout _ R3 N3 _ El'].
  assert (Hm : peersOf (mesh g2) topic ⊆ peersOf (mesh g3) topic)
    by (rewrite (gr_mesh _ _ _ _ R3); set_solver).
  split.
  - intros p Hp Hp'. assert (HpP : p ∈ P) by (rewrite M in Hp'; set_solver). split.
    + destruct (Hbest p HpP) as (B & HB & <- & HBin). apply inj_le, size_NoDup; [done|].
      intros q Hq. destruct (HBin q Hq) as [Hq' Hs]. apply elem_of_filter.
      split; [by apply Is_true_true|]. by apply Hm.
    + intros Ho%Is_true_true. etrans; [by apply (Hout p)|]. rewrite !outboundPeers_size.
      apply inj_le, subseteq_size. set_solver.
  - intros Hold. destruct (rebalance_scores clock ord Hord topic g Hwc Hnan Hold)
      as (g'' & E2 & _ & Hs). rewrite E in E2. simplify_eq. by rewrite <- Em.
Qed.

(** C32: The size of the mesh that a rebalance leaves.  Below [dLow] it grows to [d], or by all
the eligible peers if they are fewer; between [dLow] and [dHigh], when the outbound quota is
met, nothing is pruned; opportunistic grafting adds at most two in each case.  Above [dHigh],
the [dScore] best stay and [o] outbound peers, the quota, whatever their score; of the others
[d] stay when there are more than [d], and none when there are not: the mesh may become
smaller than [d], and remain larger than [d]. *)
Theorem rebalance_size (topic : string) (g g' : GossipSub) :
  (forall k s, ord k s ≡ₚ elements s) -> well_configured (parameters g) -> no_nan g ->
  rebalanceMesh clock ord topic g = Some g' ->
  let params := parameters g in
  let n := peers (mesh g) topic in
  let n' := peers (mesh g') topic in
  (n < dLow params ->
    let m := Z.min (d params) (n + Z.of_nat (size (eligible g topic))) in m <= n' <= m + 2) /\
  (dLow params <= n -> dOut params <= outboundPeers (fun q => outbound (objs g q)) (mesh g) topic ->
    (n <= dHigh params -> n <= n' <= n + 2) /\
    (dHigh params < n -> exists o, 0 <= o <= dOut params /\
      let m := dScore params + o + (if d params <? n - dScore params - o then d params else 0) in
      m <= n' <= m + 2)).
Proof using L.
  intros Hord Hwc Hnan E'.
  destruct (rebalance_steps clock ord Hord topic g Hwc Hnan)
    as (G & g1 & P & g2 & G' & g3 & E & R).
  rewrite E in E'. simplify_eq. cbv zeta.
  destruct (announce_effect ord topic (G ++ G') P g3) as (_ & Em & _). rewrite Em.
  destruct (rb_sizes _ _ _ _ _ _ _ _ _ R) as (S1 & S2 & S3).
  destruct R as [_ _ _ Hlow _ Hout _ _ _ Hsmall _ _ Hexc _ _ Hlen _].
  change (Z.of_nat MaxOpportunisticGraftPeers) with 2 in Hlen. pose proof (wc_d _ Hwc).
  pose proof (wc_dLow _ Hwc). split; [|intros Hge Ho; split].
  - intros Hn. specialize (Hlow Hn). rewrite Hsmall in S2 by lia. cbn in S2. lia.
  - intros Hn. rewrite (Hout Hge Ho) in S1. cbn in S1. rewrite Hsmall in S2 by lia. cbn in S2. lia.
  - intros Hn. rewrite (Hout Hge Ho) in S1, Hexc. cbn [length Z.of_nat] in *.
    destruct Hexc as (o & Hoo & HP); [lia|]. exists o. split; [done|]. rewrite S1 in HP.
    revert HP. zbool; lia.
Qed.

(** C33: GRAFT messages.  Whatever its messages ask for, a remote peer only ever adds itself, to
topics of ours and while there is room: each mesh stays within [dHigh] peers plus the outbound
ones up to [dOut], and nobody leaves it.  A new member is not a direct peer and its score is
not under [publishThreshold]; and unless a topic is named twice in the message, the time is at
most four seconds short of its backoff.  Each PRUNE that answers announces [pruneBackoff], and
this backoff is recorded. *)
Theorem handleGraft_admits (p : PeerId) (grafts : list string) (g : GossipSub) :
  let '(prunes, g') := handleGraft clock ord p grafts g in
  (forall topic, graft_bound g topic -> graft_bound g' topic) /\
  (forall topic, peersOf (mesh g) topic ⊆ peersOf (mesh g') topic) /\
  (forall topic q, q ∈ peersOf (mesh g') topic -> q ∉ peersOf (mesh g) topic ->
    q = p /\ topic ∈ grafts /\ topic ∈ topics g /\ (p ∉ directPeers (parameters g)) /\
    flt (score (objs g p)) (publishThreshold (parameters g)) = false /\
    (NoDup grafts -> exists k, (ticks g <= k)%nat /\
      moment_back (getBackoff g topic p) (of_seconds (BackoffSlackTime * 2)) <= clock k)) /\
  (forall prune, prune ∈ prunes -> cp_topicID prune ∈ grafts /\
    cp_backoff prune = backoff_seconds (pruneBackoff (parameters g)) /\
    exists k, (ticks g <= k)%nat /\ backoff_of g' (cp_topicID prune) p =
      Some (moment_add (clock k) (pruneBackoff (parameters g)))).
Proof using Type.
  pose proof (handleGraft_all clock ord p grafts g) as H.
  destruct (handleGraft clock ord p grafts g) as [prunes g']. tauto.
Qed.

End Properties.

(** ** A node, for the witnesses *)

Definition demo_order (_ : nat) (s : gset PeerId) : list PeerId := elements s.

Definition demo_ids (n : nat) : gset PeerId := list_to_set ((fun i => [Z.of_nat i]) <$> seq 0 n).

(** The default parameters of gossipsub.nim, but for [d], [dLow], [dHigh], [dScore], [dOut]. *)
Definition demo_params (d dLow dHigh dScore dOut : Z) : GossipSubParams :=
  mkGossipSubParams 60000000000 10000000000 d dLow dHigh dScore dOut
    (S754_finite true 7036874417766400 (-46)) (S754_finite true 8796093022208000 (-43)) f0
    120000000000 ∅ false.

(** [n] peers in the mesh and [m] subscribed; those that [out] selects are outbound, and have
the score 0.0, the others 1.0. *)
Definition demo_node (params : GossipSubParams) (n m : nat) (out : Z -> bool) : @GossipSub counter_drbg :=
  @mkGossipSub counter_drbg params {["t"]} ∅ {["t" := demo_ids m]} ∅
    (if (n =? 0)%nat then ∅ else {["t" := demo_ids n]}) ∅ ∅ ∅ ∅
    (fun p => let o := out (default 0 (head p)) in
      mkPubSubPeer (if o then f0 else S754_finite false 4503599627370496 (-52)) o true f0)
    0 0 [] [].

Definition demo_rebalance (g : @GossipSub counter_drbg) : option GossipSub :=
  @rebalanceMesh plain_chronos counter_drbg (fun k => Z.of_nat k) demo_order "t" g.

(** The default parameters. *)
Definition demo_default : GossipSubParams := demo_params 6 4 12 4 3.

Lemma demo_configured : well_configured demo_default.
Proof. split; cbn; lia. Qed.

Lemma demo_no_nan params n m out : no_nan (demo_node params n m out).
Proof. intros p. cbn. by destruct (out _). Qed.

Lemma demo_order_perm k s : demo_order k s ≡ₚ elements s.
Proof. done. Qed.

Definition demo_size (g : option (@GossipSub counter_drbg)) : option (Z * list nat) :=
  g ← g; Some (peers (mesh g) "t", (fun x => length x.1) <$> sent g).

(** A mesh of two is filled up to [d]. *)
Example demo_replenish :
  demo_size (demo_rebalance (demo_node demo_default 2 20 (fun _ => false))) = Some (6, [4%nat]).
Proof. vm_compute. reflexivity. Qed.

(** Twenty members, the three outbound ones with the lowest score: 13 are left, more than
[dHigh]. *)
Example demo_above_dHigh :
  demo_size (demo_rebalance (demo_node demo_default 20 20 (fun i => i <? 3))) = Some (13, [7%nat]).
Proof. vm_compute. reflexivity. Qed.

(** With [d] = 8: thirteen members, one over [dHigh], and 5 are left, fewer than [dLow]. *)
Example demo_below_dLow :
  demo_size (demo_rebalance (demo_node (demo_params 8 6 12 4 1) 13 13 (fun i => i <? 1))) =
  Some (5, [8%nat]).
Proof. vm_compute. reflexivity. Qed.

(** Parameters that [validateParameters] accepts and are not [well_configured].  With
[dScore] + [dOut] above [dHigh], six peers are sent a PRUNE and stay in the mesh. *)
Example demo_prune_stays :
  demo_size (demo_rebalance (demo_node (demo_params 6 6 6 6 3) 6 9 (fun i => 6 <=? i))) =
  Some (9, [3%nat; 6%nat]).
Proof. vm_compute. reflexivity. Qed.

(** With [dLow] above [d], a negative [setLen]: the heartbeat ends with a defect. *)
Example demo_negative_setLen :
  demo_rebalance (demo_node (demo_params 4 6 12 4 2) 5 5 (fun _ => true)) = None.
Proof. vm_compute. reflexivity. Qed.

(** A backoff of 2^64 - 1 seconds in a PRUNE counts for one second. *)
Example demo_backoff_wraps : prune_backoff (2 ^ 64 - 1) = 1.
Proof. reflexivity. Qed.

Lemma rebalance_agrees_witness :
  exists g' grafts prunes,
    demo_rebalance (demo_node demo_default 2 20 (fun _ => false)) = Some g' /\
    peersOf (mesh g') "t" = (demo_ids 2 ∪ list_to_set grafts) ∖ list_to_set prunes.
Proof.
  destruct (@rebalance_agrees plain_chronos counter_drbg counter_laws (fun k => Z.of_nat k)
    demo_order "t" (demo_node demo_default 2 20 (fun _ => false)))
    as (g' & grafts & prunes & E & _ & _ & _ & _ & M & _).
  - exact demo_order_perm.
  - exact demo_configured.
  - apply demo_no_nan.
  - exists g', grafts, prunes. split; [exact E|exact M].
Defined.

Lemma rebalance_selects_witness :
  match demo_rebalance (demo_node demo_default 2 20 (fun _ => false)) with
  | Some g' => forall p, p ∈ peersOf (mesh g') "t" ->
      fle f0 (score (objs (demo_node demo_default 2 20 (fun _ => false)) p))
  | None => False
  end.
Proof.
  destruct (demo_rebalance _) as [g'|] eqn:E; [|vm_compute in E; discriminate E].
  destruct (@rebalance_selects plain_chronos counter_drbg counter_laws (fun k => Z.of_nat k)
    demo_order "t" (demo_node demo_default 2 20 (fun _ => false)) g') as [_ H].
  - exact demo_order_perm.
  - exact demo_configured.
  - apply demo_no_nan.
  - exact E.
  - apply H. intros p _. reflexivity.
Defined.

Lemma rebalance_size_witness :
  match demo_rebalance (demo_node demo_default 20 20 (fun i => i <? 3)) with
  | Some g' => exists o, 0 <= o <= 3 /\
      let m := 4 + o + (if 6 <? 20 - 4 - o then 6 else 0) in m <= peers (mesh g') "t" <= m + 2
  | None => False
  end.
Proof.
  destruct (demo_rebalance _) as [g'|] eqn:E; [|vm_compute in E; discriminate E].
  destruct (@rebalance_size plain_chronos counter_drbg counter_laws (fun k => Z.of_nat k)
    demo_order "t" (demo_node demo_default 20 20 (fun i => i <? 3)) g') as [_ H].
  - exact demo_order_perm.
  - exact demo_configured.
  - apply demo_no_nan.
  - exact E.
  - destruct H as [_ H].
    + vm_compute. discriminate.
    + vm_compute. discriminate.
    + apply H. reflexivity.
Defined.
