(* ===== verification/YamuxHeader.v ===== *)
(** * YamuxHeader: libp2p/muxers/yamux/yamux.nim, the frame header

The twelve bytes that precede every frame.  [stew/endians2] is the class [Endians];
[checkedEnumAssign] of stew/objects, which converts an integer to an enumeration when it is
the ordinal of one of its values, is the class [CheckedEnum]. *)
From S2P Require Import Prelude Endians.

#[local] Open Scope Z_scope.

Definition YamuxVersion : Z := 0.

Definition YamuxDefaultWindowSize : Z := 256 * 1024.

Definition MaxSendQueueSize : Z := YamuxDefaultWindowSize.

Definition MaxChannelCount : Z := 256.

Definition MaxSendWindow : Z := 2 ^ 32 - 1.

Inductive MsgType := Data | WindowUpdate | Ping | GoAway.

#[export] Instance MsgType_eq_dec : EqDecision MsgType.
Proof. solve_decision. Defined.

Definition MsgType_ord (t : MsgType) : Z :=
  match t with Data => 0 | WindowUpdate => 1 | Ping => 2 | GoAway => 3 end.

(** [set[MsgFlags]]: a flag per value. *)
Record Flags := mkFlags { Syn : bool; Ack : bool; Fin : bool; Rst : bool }.

#[export] Instance Flags_eq_dec : EqDecision Flags.
Proof. solve_decision. Defined.

Definition no_flags : Flags := mkFlags false false false false.
Definition fin_flag : Flags := mkFlags false false true false.
Definition rst_flag : Flags := mkFlags false false false true.
Definition syn_flag : Flags := mkFlags true false false false.
Definition ack_flag : Flags := mkFlags false true false false.

Inductive GoAwayStatus := NormalTermination | ProtocolError | InternalError.

Definition GoAwayStatus_ord (s : GoAwayStatus) : Z :=
  match s with NormalTermination => 0 | ProtocolError => 1 | InternalError => 2 end.

Record YamuxHeader := mkHeader {
  version : Z;
  msgType : MsgType;
  flags : Flags;
  streamId : Z;
  length_ : Z;
}.

(** [checkedEnumAssign]. *)
Class CheckedEnum := {
  checkedEnumAssign : Z -> option MsgType;
  checkedEnumAssign_ord z t : checkedEnumAssign z = Some t <-> MsgType_ord t = z;
}.

(** ** Operations *)

Section Operations.
Context `{Endians} `{CheckedEnum}.

Definition bit (b : bool) (n : Z) : Z := if b then Z.shiftl 1 n else 0.

(** [cast[uint8]] of a set: one bit per flag, from the first. *)
Definition flags_byte (f : Flags) : Z :=
  Z.lor (bit (Syn f) 0) (Z.lor (bit (Ack f) 1) (Z.lor (bit (Fin f) 2) (bit (Rst f) 3))).

(** [cast[set[MsgFlags]]] of a 16-bit integer. *)
Definition byte_flags (x : Z) : Flags :=
  mkFlags (Z.testbit x 0) (Z.testbit x 1) (Z.testbit x 2) (Z.testbit x 3).

Definition encode (header : YamuxHeader) : bytes :=
  let buf := replicate 12 0 in
  let buf := <[0%nat := version header]> buf in
  let buf := <[1%nat := MsgType_ord (msgType header)]> buf in
  let buf := blit 2 (toBytesBE 2 (flags_byte (flags header))) buf in
  let buf := blit 4 (toBytesBE 4 (streamId header)) buf in
  blit 8 (toBytesBE 4 (length_ header)) buf.

(** [buffer[a .. b]]. *)
Definition slice (buffer : bytes) (a b : nat) : bytes := take (b - a + 1) (drop a buffer).

(** [readHeader] after [readExactly] has filled the buffer; [None] is the [YamuxError]. *)
Definition readHeader (buffer : bytes) : option YamuxHeader :=
  v ← buffer !! 0%nat; t ← buffer !! 1%nat;
  let flags := fromBytesBE 2 (slice buffer 2 3) in
  match checkedEnumAssign t with
  | None => None
  | Some msgType =>
      if negb (v =? YamuxVersion) || negb ((0 <=? flags) && (flags <=? 15)) then None
      else Some (mkHeader v msgType (byte_flags flags) (fromBytesBE 4 (slice buffer 4 7))
                   (fromBytesBE 4 (slice buffer 8 11)))
  end.

Definition ping (flag : Flags) (pingData : Z) : YamuxHeader :=
  mkHeader YamuxVersion Ping flag 0 pingData.

Definition goAway (status : GoAwayStatus) : YamuxHeader :=
  mkHeader YamuxVersion GoAway no_flags 0 (GoAwayStatus_ord status).

Definition data (streamId length : Z) (flags : Flags) : YamuxHeader :=
  mkHeader YamuxVersion Data flags streamId length.

Definition windowUpdate (streamId delta : Z) (flags : Flags) : YamuxHeader :=
  mkHeader YamuxVersion WindowUpdate flags streamId delta.

(** A header whose fields fit their types. *)
Definition header_ok (h : YamuxHeader) : Prop :=
  version h = YamuxVersion /\ uint_ok 32 (streamId h) /\ uint_ok 32 (length_ h).

End Operations.

(** ** Lemmas *)

(** [bytes_ok] of a literal list. *)
Ltac bytes_tac := repeat (apply Forall_cons_2; [assumption|]); apply Forall_nil_2.

Lemma flags_byte_range f : 0 <= flags_byte f <= 15.
Proof. destruct f as [[] [] [] []]; split; vm_compute; congruence. Qed.

Lemma byte_flags_byte f : byte_flags (flags_byte f) = f.
Proof. by destruct f as [[] [] [] []]. Qed.

Lemma flags_byte_flags x : 0 <= x <= 15 -> flags_byte (byte_flags x) = x.
Proof.
  intros Hx. assert (H : forallb (fun n => flags_byte (byte_flags (Z.of_nat n)) =? Z.of_nat n)
    (seq 0 16) = true) by reflexivity.
  rewrite forallb_forall in H. specialize (H (Z.to_nat x) ltac:(apply in_seq; lia)).
  rewrite Z2Nat.id in H by lia. by apply Z.eqb_eq.
Qed.

Section Lemmas.
Context `{Endians} `{CheckedEnum}.

Lemma encode_eq h : encode h =
  version h :: MsgType_ord (msgType h) :: toBytesBE 2 (flags_byte (flags h))
    ++ toBytesBE 4 (streamId h) ++ toBytesBE 4 (length_ h).
Proof.
  unfold encode, blit.
  pose proof (toBytesBE_length 2 (flags_byte (flags h))) as H2.
  pose proof (toBytesBE_length 4 (streamId h)) as H4.
  pose proof (toBytesBE_length 4 (length_ h)) as H8.
  set (f := toBytesBE 2 _) in *. set (s := toBytesBE 4 (streamId h)) in *.
  set (l := toBytesBE 4 (length_ h)) in *. clearbody f s l.
  destruct f as [|f0 [|f1 [|]]]; try done. destruct s as [|s0 [|s1 [|s2 [|s3 [|]]]]]; try done.
  destruct l as [|a0 [|a1 [|a2 [|a3 [|]]]]]; done.
Qed.

Lemma encode_length h : length (encode h) = 12%nat.
Proof. rewrite encode_eq. cbn [length]. rewrite !length_app, !toBytesBE_length. done. Qed.

Lemma read_encode h : header_ok h -> readHeader (encode h) = Some h.
Proof.
  intros (Hv & Hs & Hl). rewrite encode_eq. unfold readHeader, slice.
  cbn [lookup list_lookup]. cbn [mbind option_bind].
  set (f := toBytesBE 2 (flags_byte (flags h))). set (s := toBytesBE 4 (streamId h)).
  set (l := toBytesBE 4 (length_ h)).
  assert (Hf : length f = 2%nat) by apply toBytesBE_length.
  assert (Hsl : length s = 4%nat) by apply toBytesBE_length.
  assert (E1 : drop 2 (version h :: MsgType_ord (msgType h) :: f ++ s ++ l) = f ++ s ++ l) by done.
  assert (E2 : drop 4 (version h :: MsgType_ord (msgType h) :: f ++ s ++ l) = s ++ l).
  { change (drop 2 (f ++ s ++ l) = s ++ l). rewrite <- Hf. apply drop_app_length. }
  assert (E3 : drop 8 (version h :: MsgType_ord (msgType h) :: f ++ s ++ l) = l).
  { change (drop 6 (f ++ s ++ l) = l).
    replace 6%nat with (length f + length s)%nat by lia.
    rewrite <- drop_drop, !drop_app_length. done. }
  rewrite E1, E2, E3. cbn [Nat.sub Nat.add].
  assert (Htake : forall n x r, take n (toBytesBE n x ++ r) = toBytesBE n x).
  { intros n x r. rewrite <- (toBytesBE_length n x) at 1. apply take_app_length. }
  assert (Hu : forall n x, uint_ok (8 * Z.of_nat n) x -> fromBytesBE n (toBytesBE n x) = x).
  { intros n x Hx. rewrite <- (app_nil_r (toBytesBE n x)). by apply fromBytesBE_toBytesBE. }
  rewrite (take_ge l) by (unfold l; rewrite toBytesBE_length; done).
  unfold f, s, l. rewrite !Htake, !Hu.
  - pose proof (flags_byte_range (flags h)). rewrite (proj2 (checkedEnumAssign_ord _ (msgType h))) by done.
    rewrite Hv, Z.eqb_refl. destruct (Z.leb_spec 0 (flags_byte (flags h))); [|lia].
    destruct (Z.leb_spec (flags_byte (flags h)) 15); [|lia]. cbn [negb andb orb].
    rewrite byte_flags_byte, <- Hv. by destruct h.
  - exact Hl.
  - exact Hs.
  - pose proof (flags_byte_range (flags h)). unfold uint_ok. change (8 * Z.of_nat 2) with 16. pow2. lia.
Qed.

Lemma encode_read b h : bytes_ok b -> length b = 12%nat -> readHeader b = Some h ->
  header_ok h /\ encode h = b.
Proof.
  intros Hb Hl. do 12 (destruct b as [|? b]; [discriminate|]). destruct b; [|discriminate].
  unfold readHeader. cbn [lookup list_lookup mbind option_bind].
  destruct (checkedEnumAssign z0) as [t|] eqn:Et; [|done]. unfold slice. cbn [drop take Nat.sub Nat.add].
  destruct (Z.eqb_spec z YamuxVersion) as [->|]; [|done]. cbn [negb orb].
  unfold bytes_ok in Hb. rewrite !Forall_cons in Hb. destruct_and!.
  assert (Hbytes : forall n l, bytes_ok l -> length l = n ->
    toBytesBE n (fromBytesBE n l) = l /\ uint_ok (8 * Z.of_nat n) (fromBytesBE n l)).
  { intros n l Hl' Hn. split; [by apply toBytesBE_fromBytesBE|].
    rewrite fromBytesBE_value, take_ge by lia. unfold uint_ok. rewrite <- Hn.
    by apply be_value_bound. }
  destruct (Hbytes 2%nat [z1; z2]) as [E2 U2]; [bytes_tac|done|].
  destruct (Hbytes 4%nat [z3; z4; z5; z6]) as [E4 U4]; [bytes_tac|done|].
  destruct (Hbytes 4%nat [z7; z8; z9; z10]) as [E8 U8]; [bytes_tac|done|].
  destruct (Z.leb_spec 0 (fromBytesBE 2 [z1; z2])); [|done].
  destruct (Z.leb_spec (fromBytesBE 2 [z1; z2]) 15); [|done]. cbn [negb andb].
  intros [= <-]. split; [done|]. rewrite encode_eq. cbn [version msgType flags streamId length_].
  rewrite flags_byte_flags by lia. apply checkedEnumAssign_ord in Et. by rewrite E2, E4, E8, Et.
Qed.

End Lemmas.

(** ** Properties *)

(** headers and their twelve bytes correspond one to one: [readHeader] gives back every
header that was encoded, and accepts only the bytes of the header it returns (in particular
version 0, one of the four message types and no flag bit but the first four). *)
Theorem yamux_header_roundtrip `{Endians} `{CheckedEnum} :
  (forall h, header_ok h -> length (encode h) = 12%nat /\ readHeader (encode h) = Some h) /\
  (forall b h, bytes_ok b -> length b = 12%nat ->
     readHeader b = Some h <-> header_ok h /\ encode h = b).
Proof.
  split.
  - intros h Hh. split; [apply encode_length|by apply read_encode].
  - intros b h Hb Hl. split; [by apply encode_read|]. intros [Hh <-]. by apply read_encode.
Qed.

Definition enum_ref : CheckedEnum.
Proof.
  refine {| checkedEnumAssign := fun z => if z =? 0 then Some Data else if z =? 1 then Some WindowUpdate
    else if z =? 2 then Some Ping else if z =? 3 then Some GoAway else None |}.
  intros z t. destruct (Z.eqb_spec z 0), (Z.eqb_spec z 1), (Z.eqb_spec z 2), (Z.eqb_spec z 3);
    destruct t; cbn; split; intros; (lia || congruence).
Defined.

Lemma yamux_header_roundtrip_witness :
  @readHeader endians_ref enum_ref (@encode endians_ref (data 5 7 fin_flag)) =
    Some (data 5 7 fin_flag).
Proof.
  destruct (@yamux_header_roundtrip endians_ref enum_ref) as [H _].
  apply H. split; [reflexivity|]. split; split; vm_compute; congruence.
Defined.
