(* ===== verification/YamuxChannel.v ===== *)
(** * YamuxChannel: libp2p/muxers/yamux/yamux.nim, one channel

A channel's state and the procedures that change it.  A procedure returns the channel and the
effects it has outside: frames handed to the connection and write futures that end.  Two
awaits are split, so that any other procedure can run in between: the write of a data frame,
up to which [sendLoop_iter] runs ([inflight] holds what the loop remembers across it) and after
which [sendDone] continues, and the write of the Fin of [closeImpl], after which [finDone]
continues ([closing]).  The writes of the other control frames (a Rst, a window update) end at
once, and [wok] says whether the connection accepts a frame: during the write of a Rst no other
procedure closes the channel, as [isReset] and [isClosed] are set before.  Futures are numbered by the
caller; [fut_done] is a write future its owner has cancelled.  Metrics, logging and the
inactivity timer are left out. *)
From S2P Require Import Prelude Endians ZeroQueue YamuxHeader.
Import ZeroQueue (ZeroQueue).

#[local] Open Scope Z_scope.

Module Yamux.

Record ToSend := mkToSend { ts_data : bytes; sent : Z; fut : nat; fut_done : bool }.

(** [closedRemotely] and [receivedData] are the state of the two events; [closeImpls] counts
the calls of [Connection.closeImpl], which fires [closeEvent]; [closing] says that [closeImpl] awaits the write of its Fin; [isClosed], [isEof],
[isClosedRemotely] and [isResetLocally] are fields of [LPStream]. *)
Record YamuxChannel := mkChannel {
  id : Z;
  recvWindow : Z;
  sendWindow : Z;
  maxRecvWindow : Z;
  maxSendQueueSize : Z;
  isSrc : bool;
  opened : bool;
  isSending : bool;
  sendQueue : list ToSend;
  recvQueue : ZeroQueue;
  isReset : bool;
  remoteReset : bool;
  closedRemotely : bool;
  closedLocally : bool;
  receivedData : bool;
  isClosed : bool;
  isEof : bool;
  isClosedRemotely : bool;
  isResetLocally : bool;
  closeImpls : nat;
  inflight : option (list nat * Z);
  closing : bool;
}.

Definition set_recvWindow (v : Z) (c : YamuxChannel) : YamuxChannel :=
  mkChannel (id c) v (sendWindow c) (maxRecvWindow c) (maxSendQueueSize c) (isSrc c) (opened
    c) (isSending c) (sendQueue c) (recvQueue c) (isReset c) (remoteReset c) (closedRemotely
    c) (closedLocally c) (receivedData c) (isClosed c) (isEof c) (isClosedRemotely c)
    (isResetLocally c) (closeImpls c) (inflight c) (closing c).

Definition set_sendWindow (v : Z) (c : YamuxChannel) : YamuxChannel :=
  mkChannel (id c) (recvWindow c) v (maxRecvWindow c) (maxSendQueueSize c) (isSrc c) (opened
    c) (isSending c) (sendQueue c) (recvQueue c) (isReset c) (remoteReset c) (closedRemotely
    c) (closedLocally c) (receivedData c) (isClosed c) (isEof c) (isClosedRemotely c)
    (isResetLocally c) (closeImpls c) (inflight c) (closing c).

Definition set_maxRecvWindow (v : Z) (c : YamuxChannel) : YamuxChannel :=
  mkChannel (id c) (recvWindow c) (sendWindow c) v (maxSendQueueSize c) (isSrc c) (opened c)
    (isSending c) (sendQueue c) (recvQueue c) (isReset c) (remoteReset c) (closedRemotely c)
    (closedLocally c) (receivedData c) (isClosed c) (isEof c) (isClosedRemotely c)
    (isResetLocally c) (closeImpls c) (inflight c) (closing c).

Definition set_opened (v : bool) (c : YamuxChannel) : YamuxChannel :=
  mkChannel (id c) (recvWindow c) (sendWindow c) (maxRecvWindow c) (maxSendQueueSize c)
    (isSrc c) v (isSending c) (sendQueue c) (recvQueue c) (isReset c) (remoteReset c)
    (closedRemotely c) (closedLocally c) (receivedData c) (isClosed c) (isEof c)
    (isClosedRemotely c) (isResetLocally c) (closeImpls c) (inflight c) (closing c).

Definition set_isSending (v : bool) (c : YamuxChannel) : YamuxChannel :=
  mkChannel (id c) (recvWindow c) (sendWindow c) (maxRecvWindow c) (maxSendQueueSize c)
    (isSrc c) (opened c) v (sendQueue c) (recvQueue c) (isReset c) (remoteReset c)
    (closedRemotely c) (closedLocally c) (receivedData c) (isClosed c) (isEof c)
    (isClosedRemotely c) (isResetLocally c) (closeImpls c) (inflight c) (closing c).

Definition set_sendQueue (v : list ToSend) (c : YamuxChannel) : YamuxChannel :=
  mkChannel (id c) (recvWindow c) (sendWindow c) (maxRecvWindow c) (maxSendQueueSize c)
    (isSrc c) (opened c) (isSending c) v (recvQueue c) (isReset c) (remoteReset c)
    (closedRemotely c) (closedLocally c) (receivedData c) (isClosed c) (isEof c)
    (isClosedRemotely c) (isResetLocally c) (closeImpls c) (inflight c) (closing c).

Definition set_recvQueue (v : ZeroQueue) (c : YamuxChannel) : YamuxChannel :=
  mkChannel (id c) (recvWindow c) (sendWindow c) (maxRecvWindow c) (maxSendQueueSize c)
    (isSrc c) (opened c) (isSending c) (sendQueue c) v (isReset c) (remoteReset c)
    (closedRemotely c) (closedLocally c) (receivedData c) (isClosed c) (isEof c)
    (isClosedRemotely c) (isResetLocally c) (closeImpls c) (inflight c) (closing c).

Definition set_isReset (v : bool) (c : YamuxChannel) : YamuxChannel :=
  mkChannel (id c) (recvWindow c) (sendWindow c) (maxRecvWindow c) (maxSendQueueSize c)
    (isSrc c) (opened c) (isSending c) (sendQueue c) (recvQueue c) v (remoteReset c)
    (closedRemotely c) (closedLocally c) (receivedData c) (isClosed c) (isEof c)
    (isClosedRemotely c) (isResetLocally c) (closeImpls c) (inflight c) (closing c).

Definition set_remoteReset (v : bool) (c : YamuxChannel) : YamuxChannel :=
  mkChannel (id c) (recvWindow c) (sendWindow c) (maxRecvWindow c) (maxSendQueueSize c)
    (isSrc c) (opened c) (isSending c) (sendQueue c) (recvQueue c) (isReset c) v
    (closedRemotely c) (closedLocally c) (receivedData c) (isClosed c) (isEof c)
    (isClosedRemotely c) (isResetLocally c) (closeImpls c) (inflight c) (closing c).

Definition set_closedRemotely (v : bool) (c : YamuxChannel) : YamuxChannel :=
  mkChannel (id c) (recvWindow c) (sendWindow c) (maxRecvWindow c) (maxSendQueueSize c)
    (isSrc c) (opened c) (isSending c) (sendQueue c) (recvQueue c) (isReset c) (remoteReset
    c) v (closedLocally c) (receivedData c) (isClosed c) (isEof c) (isClosedRemotely c)
    (isResetLocally c) (closeImpls c) (inflight c) (closing c).

Definition set_closedLocally (v : bool) (c : YamuxChannel) : YamuxChannel :=
  mkChannel (id c) (recvWindow c) (sendWindow c) (maxRecvWindow c) (maxSendQueueSize c)
    (isSrc c) (opened c) (isSending c) (sendQueue c) (recvQueue c) (isReset c) (remoteReset
    c) (closedRemotely c) v (receivedData c) (isClosed c) (isEof c) (isClosedRemotely c)
    (isResetLocally c) (closeImpls c) (inflight c) (closing c).

Definition set_receivedData (v : bool) (c : YamuxChannel) : YamuxChannel :=
  mkChannel (id c) (recvWindow c) (sendWindow c) (maxRecvWindow c) (maxSendQueueSize c)
    (isSrc c) (opened c) (isSending c) (sendQueue c) (recvQueue c) (isReset c) (remoteReset
    c) (closedRemotely c) (closedLocally c) v (isClosed c) (isEof c) (isClosedRemotely c)
    (isResetLocally c) (closeImpls c) (inflight c) (closing c).

Definition set_isClosed (v : bool) (c : YamuxChannel) : YamuxChannel :=
  mkChannel (id c) (recvWindow c) (sendWindow c) (maxRecvWindow c) (maxSendQueueSize c)
    (isSrc c) (opened c) (isSending c) (sendQueue c) (recvQueue c) (isReset c) (remoteReset
    c) (closedRemotely c) (closedLocally c) (receivedData c) v (isEof c) (isClosedRemotely
    c) (isResetLocally c) (closeImpls c) (inflight c) (closing c).

Definition set_isEof (v : bool) (c : YamuxChannel) : YamuxChannel :=
  mkChannel (id c) (recvWindow c) (sendWindow c) (maxRecvWindow c) (maxSendQueueSize c)
    (isSrc c) (opened c) (isSending c) (sendQueue c) (recvQueue c) (isReset c) (remoteReset
    c) (closedRemotely c) (closedLocally c) (receivedData c) (isClosed c) v
    (isClosedRemotely c) (isResetLocally c) (closeImpls c) (inflight c) (closing c).

Definition set_isClosedRemotely (v : bool) (c : YamuxChannel) : YamuxChannel :=
  mkChannel (id c) (recvWindow c) (sendWindow c) (maxRecvWindow c) (maxSendQueueSize c)
    (isSrc c) (opened c) (isSending c) (sendQueue c) (recvQueue c) (isReset c) (remoteReset
    c) (closedRemotely c) (closedLocally c) (receivedData c) (isClosed c) (isEof c) v
    (isResetLocally c) (closeImpls c) (inflight c) (closing c).

Definition set_isResetLocally (v : bool) (c : YamuxChannel) : YamuxChannel :=
  mkChannel (id c) (recvWindow c) (sendWindow c) (maxRecvWindow c) (maxSendQueueSize c)
    (isSrc c) (opened c) (isSending c) (sendQueue c) (recvQueue c) (isReset c) (remoteReset
    c) (closedRemotely c) (closedLocally c) (receivedData c) (isClosed c) (isEof c)
    (isClosedRemotely c) v (closeImpls c) (inflight c) (closing c).

Definition set_closeImpls (v : nat) (c : YamuxChannel) : YamuxChannel :=
  mkChannel (id c) (recvWindow c) (sendWindow c) (maxRecvWindow c) (maxSendQueueSize c)
    (isSrc c) (opened c) (isSending c) (sendQueue c) (recvQueue c) (isReset c) (remoteReset
    c) (closedRemotely c) (closedLocally c) (receivedData c) (isClosed c) (isEof c)
    (isClosedRemotely c) (isResetLocally c) v (inflight c) (closing c).

Definition set_inflight (v : option (list nat * Z)) (c : YamuxChannel) : YamuxChannel :=
  mkChannel (id c) (recvWindow c) (sendWindow c) (maxRecvWindow c) (maxSendQueueSize c)
    (isSrc c) (opened c) (isSending c) (sendQueue c) (recvQueue c) (isReset c) (remoteReset
    c) (closedRemotely c) (closedLocally c) (receivedData c) (isClosed c) (isEof c)
    (isClosedRemotely c) (isResetLocally c) (closeImpls c) v (closing c).

Definition set_closing (v : bool) (c : YamuxChannel) : YamuxChannel :=
  mkChannel (id c) (recvWindow c) (sendWindow c) (maxRecvWindow c) (maxSendQueueSize c)
    (isSrc c) (opened c) (isSending c) (sendQueue c) (recvQueue c) (isReset c) (remoteReset
    c) (closedRemotely c) (closedLocally c) (receivedData c) (isClosed c) (isEof c)
    (isClosedRemotely c) (isResetLocally c) (closeImpls c) (inflight c) v.

Inductive StreamError := EOFError | ResetError | ClosedError | ConnDownError | RemoteClosedError.

Inductive Effect :=
| Write (h : YamuxHeader) (payload : bytes)
| Complete (f : nat)
| Fail (f : nat) (e : StreamError).

(** A procedure, and its sequencing. *)
Definition proc : Type := YamuxChannel -> YamuxChannel * list Effect.

Definition andThen (m k : proc) : proc :=
  fun c => let '(c1, e1) := m c in let '(c2, e2) := k c1 in (c2, e1 ++ e2).

Definition pure (f : YamuxChannel -> YamuxChannel) : proc := fun c => (f c, []).

Definition emit (es : list Effect) : proc := fun c => (c, es).

(** [if cond: m]. *)
Definition when (cond : YamuxChannel -> bool) (m : proc) : proc :=
  fun c => if cond c then m c else (c, []).

Declare Scope proc_scope.
Notation "m >> k" := (andThen m k) (at level 67, right associativity) : proc_scope.
#[local] Open Scope proc_scope.

(** ** Procedures *)

Definition remaining (t : ToSend) : Z := Z.of_nat (length (ts_data t)) - sent t.

Definition lengthSendQueue (c : YamuxChannel) : Z :=
  foldl (fun a b => a + remaining b) 0 (sendQueue c).

Definition lengthSendQueueWithLimit (c : YamuxChannel) : Z :=
  foldl (fun a b => a + Z.min (remaining b) (Z.quot (maxSendQueueSize c) 3)) 0 (sendQueue c).

Definition no_sends (c : YamuxChannel) : bool := (length (sendQueue c) =? 0)%nat.

(** A control frame on the connection; a failure is ignored or raised by the caller. *)
Definition conn_write (wok : bool) (h : YamuxChannel -> YamuxHeader) : proc :=
  fun c => (c, if wok then [Write (h c) []] else []).

Definition actuallyClose : proc :=
  when (fun c => closedLocally c && no_sends c && closedRemotely c)
    (pure (fun c => set_closeImpls (S (closeImpls c)) c)).

Definition remoteClosed : proc :=
  when (fun c => negb (closedRemotely c)) (pure (set_closedRemotely true) >> actuallyClose) >>
  pure (set_isClosedRemotely true).

(** [closeImpl] up to its end, or up to the end of the write of its Fin. *)
Definition closeImpl (wok : bool) : proc :=
  when (fun c => negb (closedLocally c))
    (pure (set_closedLocally true) >>
     fun c =>
       if negb (isReset c) && no_sends c then
         (conn_write wok (fun c => data (id c) 0 fin_flag) >> pure (set_closing true)) c
       else actuallyClose c).

(** The write of the Fin ends, well or not, and [closeImpl] goes on. *)
Definition finDone : proc :=
  when closing (pure (set_closing false) >> actuallyClose).

(** [LPStream.close]. *)
Definition close (wok : bool) : proc :=
  when (fun c => negb (isClosed c)) (pure (set_isClosed true) >> closeImpl wok).

Definition clearQueues (error : option StreamError) : proc :=
  fun c =>
    (set_recvQueue (ZeroQueue.clear (recvQueue c)) (set_sendQueue [] c),
     (fun t => match error with
               | None => Complete (fut t)
               | Some e => Fail (fut t) e
               end) <$> sendQueue c).

Definition reset (wok isLocal : bool) : proc :=
  when (fun c => negb (isReset c))
    (pure (set_isReset true) >> pure (set_remoteReset (negb isLocal)) >>
     pure (set_isClosed true) >> clearQueues (Some EOFError) >>
     pure (set_sendWindow 0) >>
     when (fun c => negb (closedLocally c))
       (when (fun c => isLocal && negb (isSending c))
          (conn_write wok (fun c => data (id c) 0 rst_flag)) >>
        closeImpl wok) >>
     when (fun c => negb (closedRemotely c)) remoteClosed >>
     pure (set_receivedData true) >>
     when (fun _ => negb isLocal) (pure (set_recvWindow 0))).

(** [LPStream.reset]: [resetStream] with [resetImpl]. *)
Definition resetStream (wok : bool) : proc :=
  when (fun c => negb (isClosed c))
    (pure (set_isClosed true) >> pure (set_isResetLocally true) >> reset wok true).

(** The window update that makes room again; its failure is raised. *)
Definition inWindow (c : YamuxChannel) : Z := recvWindow c + ZeroQueue.len (recvQueue c).

Definition updateRecvWindow (wok : bool) : proc :=
  when (fun c => negb (Z.quot (maxRecvWindow c) 2 <? inWindow c))
    (fun c =>
       let delta := maxRecvWindow c - inWindow c in
       (set_recvWindow (recvWindow c + delta) c,
        if wok then [Write (windowUpdate (id c) (wrap 32 delta) no_flags) []] else [])).

(** [readOnce] up to its wait: an error, or whether it has to wait. *)
Inductive ReadStart := ReadRaise (e : StreamError) | ReadWait | ReadNow.

Definition readOnce_start (c : YamuxChannel) : YamuxChannel * list Effect * ReadStart :=
  if isReset c then
    (c, [], ReadRaise (if remoteReset c then ResetError
                       else if closedLocally c then ClosedError else ConnDownError))
  else if isEof c then
    let '(c, es) := clearQueues None c in (c, es, ReadRaise RemoteClosedError)
  else if ZeroQueue.isEmpty (recvQueue c) then (set_receivedData false c, [], ReadWait)
  else (c, [], ReadNow).

(** The wait ends when either event is set. *)
Definition wakes (c : YamuxChannel) : bool := closedRemotely c || receivedData c.

(** After the wait ([waited]) or directly: the bytes read; [None] is a defect. *)
Definition readOnce_finish (wok waited : bool) (nbytes : Z) (c : YamuxChannel) :
    option (bytes * YamuxChannel * list Effect) :=
  if waited && closedRemotely c && ZeroQueue.isEmpty (recvQueue c) then
    let '(c, es) := (pure (set_isEof true) >> clearQueues None) c in Some ([], c, es)
  else
    '(consumed, q) ← ZeroQueue.consumeTo (recvQueue c) nbytes;
    let '(c, es) := updateRecvWindow wok (set_recvQueue q c) in
    Some (consumed, c, es).

Definition gotDataFromRemote (wok : bool) (b : bytes) : proc :=
  pure (fun c => set_recvWindow (recvWindow c - Z.of_nat (length b)) c) >>
  pure (fun c => set_recvQueue (ZeroQueue.push (recvQueue c) b) c) >>
  pure (set_receivedData true) >>
  updateRecvWindow wok.

(** The inner loop of [sendLoop]: moves bytes of the first messages into the buffer.  Every
iteration fills the buffer or removes a message, so [S (length queue)] is enough fuel. *)
Fixpoint fill_buffer (fuel : nat) (n : Z) (queue : list ToSend) (buf : bytes) (futs : list nat) :
    bytes * list ToSend * list nat :=
  match fuel, queue with
  | S fuel, t :: rest =>
      if Z.of_nat (length buf) <? n then
        let k := Z.min (remaining t) (n - Z.of_nat (length buf)) in
        let buf := buf ++ take (Z.to_nat k) (drop (Z.to_nat (sent t)) (ts_data t)) in
        let t := mkToSend (ts_data t) (sent t + k) (fut t) (fut_done t) in
        if Z.of_nat (length (ts_data t)) <=? sent t then
          fill_buffer fuel n rest buf (futs ++ [fut t])
        else fill_buffer fuel n (t :: rest) buf futs
      else (buf, queue, futs)
  | _, _ => (buf, queue, futs)
  end.

Definition sendLoop_done : proc := pure (set_isSending false).

(** One iteration of [sendLoop], up to the write. *)
Definition sendLoop_iter : proc :=
  fun c =>
    if no_sends c then sendLoop_done c
    else
      let c := set_sendQueue (filter (fun t => fut_done t = false) (sendQueue c)) c in
      if sendWindow c <=? 0 then
        (when (fun c => maxSendQueueSize c <? lengthSendQueueWithLimit c) (reset true true) >>
         sendLoop_done) c
      else
        let bytesAvailable := lengthSendQueue c in
        let numBytesToSend := Z.min (sendWindow c) bytesAvailable in
        let fl := if (bytesAvailable <=? numBytesToSend) && closedLocally c then fin_flag
                  else no_flags in
        let '(buf, queue, futs) :=
          fill_buffer (S (length (sendQueue c))) numBytesToSend (sendQueue c) [] [] in
        (set_inflight (Some (futs, Z.of_nat (length buf))) (set_sendQueue queue c),
         [Write (data (id c) (wrap 32 numBytesToSend) fl) buf]).

Definition sendLoop : proc :=
  when (fun c => negb (isSending c)) (pure (set_isSending true) >> sendLoop_iter).

(** The write of a data frame ends, and the loop goes on or stops. *)
Definition sendDone (ok : bool) : proc :=
  fun c =>
    match inflight c with
    | None => (c, [])
    | Some (futs, inBuffer) =>
        if ok then
          (pure (set_inflight None) >>
           pure (fun c => set_sendWindow (sendWindow c - inBuffer) c) >>
           emit (Complete <$> futs) >> sendLoop_iter) c
        else
          (pure (set_inflight None) >>
           emit ((fun f => Fail f ConnDownError) <$> futs) >> reset true false >>
           sendLoop_done) c
    end.

Definition write (f : nat) (msg : bytes) : proc :=
  fun c =>
    if remoteReset c then (c, [Fail f ResetError])
    else if closedLocally c || isReset c then (c, [Fail f ClosedError])
    else if (length msg =? 0)%nat then (c, [Complete f])
    else
      (pure (fun c => set_sendQueue (sendQueue c ++ [mkToSend msg 0 f false]) c) >>
       when (fun c => negb (isSending c)) sendLoop) c.

Definition open (wok : bool) : proc :=
  when (fun c => negb (opened c))
    (pure (set_opened true) >> pure (set_isReset false) >>
     conn_write wok (fun c =>
       windowUpdate (id c) (wrap 32 (Z.max (maxRecvWindow c - YamuxDefaultWindowSize) 0))
         (if isSrc c then syn_flag else ack_flag))).

(** The owner of a write future cancels it. *)
Definition cancelWrite (f : nat) : proc :=
  pure (fun c => set_sendQueue
    ((fun t => if (fut t =? f)%nat then mkToSend (ts_data t) (sent t) (fut t) true else t) <$>
      sendQueue c) c).

Definition createStream (id : Z) (isSrc : bool) (recvWindow maxSendQueueSize : Z) : YamuxChannel :=
  mkChannel id (if YamuxDefaultWindowSize <? recvWindow then recvWindow else YamuxDefaultWindowSize)
    YamuxDefaultWindowSize recvWindow maxSendQueueSize isSrc false false [] ZeroQueue.empty
    false false false false false false false false false 0 None false.

(** What [handle] does with a frame of an existing channel; [None] is the [YamuxError] of a
window exceeded.  The payload has the length of the header. *)
Definition on_window_update (length : Z) : proc :=
  pure (fun c => set_sendWindow (Z.min (sendWindow c + length) MaxSendWindow) c) >>
  when (fun c => negb (isSending c)) sendLoop.

Definition on_flags (wok : bool) (f : Flags) : proc :=
  when (fun _ => Fin f) remoteClosed >> when (fun _ => Rst f) (reset wok false).

Definition on_frame (wok : bool) (h : YamuxHeader) (payload : bytes) (c : YamuxChannel) :
    option (YamuxChannel * list Effect) :=
  match msgType h with
  | WindowUpdate => Some ((on_window_update (length_ h) >> on_flags wok (flags h)) c)
  | _ =>
      if recvWindow c <? length_ h then None
      else Some ((when (fun _ => 0 <? length_ h) (gotDataFromRemote wok payload) >>
                  on_flags wok (flags h)) c)
  end.

Definition setMaxRecvWindow (n : Z) : proc := pure (set_maxRecvWindow n).

(** [close] of the muxer, for one channel. *)
Definition forceClose : proc :=
  pure (set_closedRemotely true) >> pure (set_isClosedRemotely true) >>
  when (fun c => (closeImpls c =? 0)%nat) actuallyClose >>
  pure (set_receivedData true).

Definition shutdown : proc :=
  clearQueues (Some EOFError) >> pure (set_recvWindow 0) >> pure (set_sendWindow 0) >>
  pure (set_closedLocally true) >> pure (set_isReset true) >> pure (set_opened false) >>
  pure (set_isClosed true) >> forceClose.

End Yamux.
