(* ===== verification/YamuxAccounts.v ===== *)
(** * YamuxAccounts: what a channel of yamux.nim owes its peer

The accounts of one channel: the bytes and the window its frames carry, the bytes and the
futures it still holds, and the invariant of its state.  [trans] relates a channel, what it is
given and what it does; every procedure of YamuxChannel satisfies it and keeps [chan_ok]. *)
From S2P Require Import Prelude Endians ZeroQueue YamuxHeader YamuxChannel.
Import ZeroQueue (ZeroQueue).
Import Yamux.

#[local] Open Scope Z_scope.
#[local] Open Scope proc_scope.

(** ** What a procedure sends *)

Abbreviation Frame := (YamuxHeader * bytes)%type.

Definition frames (es : list Effect) : list Frame :=
  omap (fun e => match e with Write h p => Some (h, p) | _ => None end) es.

(** The write futures that end. *)
Definition ended (es : list Effect) : list nat :=
  omap (fun e => match e with Complete f | Fail f _ => Some f | _ => None end) es.

(** The stream bytes, and the window, frames give to the peer. *)
Definition payload1 (f : Frame) : bytes :=
  match msgType f.1 with Data => f.2 | _ => [] end.

Definition payload (fs : list Frame) : bytes := concat (payload1 <$> fs).

Definition update1 (f : Frame) : Z :=
  match msgType f.1 with WindowUpdate => length_ f.1 | _ => 0 end.

Definition updates (fs : list Frame) : Z := foldr (fun f n => update1 f + n) 0 fs.

(** A frame that ends the stream: no byte of the stream may follow it. *)
Definition ends1 (f : Frame) : bool := Fin (flags f.1) || Rst (flags f.1).

Fixpoint ends_last (fs : list Frame) : Prop :=
  match fs with
  | [] => True
  | f :: r => (ends1 f = true -> payload r = []) /\ ends_last r
  end.

(** A frame a channel sends after it was opened: the length of a data frame is that of its
payload; a window update has neither payload nor flag. *)
Definition frame_ok (i : Z) (f : Frame) : Prop :=
  header_ok f.1 /\ streamId f.1 = i /\ Syn (flags f.1) = false /\
  match msgType f.1 with
  | Data => length_ f.1 = Z.of_nat (length f.2)
  | WindowUpdate => f.2 = [] /\ ends1 f = false
  | _ => False
  end.

Lemma frames_app a b : frames (a ++ b) = frames a ++ frames b.
Proof. apply omap_app. Qed.

Lemma ended_app a b : ended (a ++ b) = ended a ++ ended b.
Proof. apply omap_app. Qed.

Lemma payload_app a b : payload (a ++ b) = payload a ++ payload b.
Proof. unfold payload. by rewrite fmap_app, concat_app. Qed.

Lemma payload_cons f r : payload (f :: r) = payload1 f ++ payload r.
Proof. done. Qed.

Lemma updates_app a b : updates (a ++ b) = updates a + updates b.
Proof. unfold updates. induction a as [|e a IH]; cbn; [lia|]. rewrite IH. lia. Qed.

Lemma ends_last_app a b : ends_last a -> ends_last b ->
  (existsb ends1 a = true -> payload b = []) -> ends_last (a ++ b).
Proof.
  induction a as [|e a IH]; cbn; [done|]. intros [He Ha] Hb Hab. split.
  - intros E. rewrite payload_app, (He E), Hab; [done|]. by rewrite E.
  - apply IH; [done..|]. intros E. apply Hab. rewrite E. apply orb_true_r.
Qed.

(** Futures that end write no frame. *)
Lemma frames_fails {A} (g : A -> Effect) (l : list A) :
  (forall x, frames [g x] = []) -> frames (g <$> l) = [].
Proof.
  intros H. induction l as [|x l IH]; [done|].
  change (g <$> x :: l) with ([g x] ++ (g <$> l)). by rewrite frames_app, H, IH.
Qed.

Lemma ended_map {A} (g : A -> Effect) (k : A -> nat) (l : list A) :
  (forall x, ended [g x] = [k x]) -> ended (g <$> l) = k <$> l.
Proof.
  intros H. induction l as [|x l IH]; [done|].
  change (g <$> x :: l) with ([g x] ++ (g <$> l)). rewrite ended_app, H, IH. done.
Qed.

(** ** The invariant of a channel *)

Definition infl (c : YamuxChannel) : Z := match inflight c with Some (_, n) => n | None => 0 end.

(** The bytes the channel may still hand to the connection. *)
Definition avail (c : YamuxChannel) : Z := if isReset c then 0 else sendWindow c - infl c.

(** The part of the receive window the peer does not know of until the channel is opened. *)
Definition unannounced (c : YamuxChannel) : Z :=
  if opened c then 0 else Z.max (maxRecvWindow c - YamuxDefaultWindowSize) 0.

Definition granted (c : YamuxChannel) : Z := recvWindow c - unannounced c.

(** The largest window the channel offers. *)
Definition room (c : YamuxChannel) : Z := Z.max YamuxDefaultWindowSize (maxRecvWindow c).

(** The channel sends no more bytes. *)
Definition finished (c : YamuxChannel) : bool := isReset c || closedLocally c && no_sends c.

Definition send_ok (t : ToSend) : Prop := 0 <= sent t < Z.of_nat (length (ts_data t)).

(** The bytes accepted and not yet handed to the connection. *)
Definition pending1 (t : ToSend) : bytes := drop (Z.to_nat (sent t)) (ts_data t).

Definition pending (c : YamuxChannel) : bytes := concat (pending1 <$> sendQueue c).

Definition received (c : YamuxChannel) : bytes := ZeroQueue.contents (recvQueue c).

(** No owner of a queued write has cancelled it. *)
Definition live (c : YamuxChannel) : Prop := Forall (fun t => fut_done t = false) (sendQueue c).

(** The write futures that have not ended. *)
Definition futs (c : YamuxChannel) : list nat :=
  match inflight c with Some (fs, _) => fs | None => [] end ++ (fut <$> sendQueue c).

(** [Connection.closeImpl] has run, or will when the write of the Fin ends, at most twice, and
only with both directions closed and nothing queued. *)
Definition close_ok (c : YamuxChannel) : Prop :=
  (closeImpls c + (if closing c then 1 else 0) <= 2)%nat /\
  ((1 <= closeImpls c)%nat ->
     closedLocally c = true /\ closedRemotely c = true /\ sendQueue c = []) /\
  (closing c = true -> closedLocally c = true /\ sendQueue c = []).

(** The part of the invariant that also holds inside [sendLoop]. *)
Record core_ok (c : YamuxChannel) : Prop := {
  ok_id : uint_ok 32 (id c);
  ok_queue : ZeroQueue.queue_ok (recvQueue c);
  ok_sends : Forall send_ok (sendQueue c);
  ok_infl : 0 <= infl c;
  ok_window : isReset c = false -> infl c <= sendWindow c <= MaxSendWindow;
  ok_reset : isReset c = true ->
    sendQueue c = [] /\ closedLocally c = true /\ closedRemotely c = true;
  ok_close : close_ok c;
  ok_max : 1 <= maxRecvWindow c <= MaxSendWindow;
  ok_recv : 0 <= recvWindow c;
  ok_half : isReset c = false -> isEof c = false -> Z.quot (maxRecvWindow c) 2 < inWindow c;
  ok_room : inWindow c <= room c;
}.

Record chan_ok (c : YamuxChannel) : Prop := {
  ok_core : core_ok c;
  ok_sending : isSending c = bool_decide (is_Some (inflight c));
  ok_progress : isReset c = false -> isSending c = false ->
    sendQueue c = [] \/ sendWindow c <= 0;
}.

(** What a channel is given: bytes and window from the peer, a frame that ends the stream, a
write with its future, or the cancellation of a write. *)
Record Input := mkInput {
  in_data : bytes;
  in_window : Z;
  in_end : bool;
  in_write : bytes;
  in_futs : list nat;
  in_cancel : bool;
}.

Definition no_input : Input := mkInput [] 0 false [] [] false.

Definition input_app (i j : Input) : Input :=
  mkInput (in_data i ++ in_data j) (in_window i + in_window j) (in_end i || in_end j)
    (in_write i ++ in_write j) (in_futs i ++ in_futs j) (in_cancel i || in_cancel j).

(** What a procedure does with its input: [out] is what a reader gets. *)
Record trans (c : YamuxChannel) (i : Input) (out : bytes) (es : list Effect)
    (c' : YamuxChannel) : Prop := {
  t_const : id c' = id c /\ maxRecvWindow c' = maxRecvWindow c /\ (opened c = true -> opened c' = true);
  t_reset : isReset c = true -> isReset c' = true /\ remoteReset c' = remoteReset c;
  t_remote : closedRemotely c = true -> closedRemotely c' = true;
  t_remote_in : closedRemotely c' = true ->
    closedRemotely c = true \/ in_end i = true \/ isReset c' = true;
  t_reset_in : isReset c' = true -> remoteReset c' = true -> isReset c = true \/ in_end i = true;
  t_eof : isEof c = true -> isEof c' = true;
  t_eof_in : isEof c' = true ->
    isEof c = true \/ closedRemotely c' = true /\ (isReset c' = false -> received c' = []);
  t_local : closedLocally c = true -> closedLocally c' = true;
  t_close : closedLocally c = true -> closedRemotely c = true -> closing c = false ->
    closeImpls c' = closeImpls c;
  t_closing : closedLocally c = true -> closing c = false -> closing c' = false;
  t_count : (closeImpls c <= closeImpls c')%nat;
  t_quiet : finished c = true -> payload (frames es) = [] /\ finished c' = true;
  t_avail : avail c' + Z.of_nat (length (payload (frames es))) <= avail c + in_window i;
  t_avail_eq : isReset c' = false -> infl c + avail c + in_window i <= MaxSendWindow ->
    avail c' + Z.of_nat (length (payload (frames es))) = avail c + in_window i;
  t_infl : infl c' <= Z.max (infl c) (Z.of_nat (length (payload (frames es))));
  t_ends : ends_last (frames es);
  t_ends_finished : existsb ends1 (frames es) = true -> finished c' = true;
  t_updates : 0 <= updates (frames es);
  t_granted : isReset c' = true /\ remoteReset c' = true \/
    granted c' = granted c - Z.of_nat (length (in_data i)) + updates (frames es);
  t_stream : sublist (payload (frames es) ++ pending c') (pending c ++ in_write i);
  t_stream_eq : isReset c' = false -> isEof c' = false -> live c ->
    payload (frames es) ++ pending c' = pending c ++ in_write i;
  t_live : in_cancel i = false -> live c -> live c';
  t_futs : live c -> ended es ++ futs c' ≡ₚ futs c ++ in_futs i;
  t_received : sublist (out ++ received c') (received c ++ in_data i);
  t_received_eq : isReset c' = false -> (isEof c = true -> received c ++ in_data i = []) ->
    out ++ received c' = received c ++ in_data i;
}.

(** The frames of a procedure of an opened channel. *)
Definition sends_ok (c : YamuxChannel) (es : list Effect) : Prop := Forall (frame_ok (id c)) (frames es).

Lemma avail_nonneg c : core_ok c -> 0 <= avail c.
Proof.
  intros H. unfold avail. destruct (isReset c) eqn:E; [lia|]. pose proof (ok_window c H E). lia.
Qed.

Lemma trans_app c i o es c1 j o' es' c2 : core_ok c1 ->
  trans c i o es c1 -> trans c1 j o' es' c2 -> in_window j = 0 -> isEof c1 = isEof c ->
  in_cancel i = false ->
  trans c (input_app i j) (o ++ o') (es ++ es') c2.
Proof.
  intros Hok A B Hw He Hc. pose proof (avail_nonneg c1 Hok) as Hav.
  assert (Hr : isReset c2 = false -> isReset c1 = false).
  { intros E. destruct (isReset c1) eqn:E1; [|done]. by destruct (t_reset _ _ _ _ _ B E1) as [? _]; congruence. }
  assert (Hef : isEof c2 = false -> isEof c1 = false).
  { intros E. destruct (isEof c1) eqn:E1; [|done]. rewrite (t_eof _ _ _ _ _ B E1) in E. done. }
  assert (Hfin : existsb ends1 (frames es) = true -> payload (frames es') = [] /\ finished c2 = true).
  { intros E. apply (t_quiet _ _ _ _ _ B), (t_ends_finished _ _ _ _ _ A E). }
  split; rewrite ?frames_app, ?ended_app, ?payload_app, ?updates_app;
    cbn [in_data in_window in_end in_write in_futs in_cancel input_app]; rewrite ?Hw, ?Z.add_0_r.
  - destruct (t_const _ _ _ _ _ B) as (-> & -> & Hb), (t_const _ _ _ _ _ A) as (-> & -> & Ha). auto.
  - intros E. destruct (t_reset _ _ _ _ _ A E) as [E1 <-]. apply (t_reset _ _ _ _ _ B E1).
  - intros E. apply (t_remote _ _ _ _ _ B), (t_remote _ _ _ _ _ A E).
  - intros E. rewrite orb_true_iff. destruct (t_remote_in _ _ _ _ _ B E) as [E1|[E1|E1]]; auto.
    destruct (t_remote_in _ _ _ _ _ A E1) as [E2|[E2|E2]]; auto.
    right. right. apply (t_reset _ _ _ _ _ B E2).
  - intros E E'. rewrite orb_true_iff. destruct (t_reset_in _ _ _ _ _ B E E') as [E1|E1]; [|by auto].
    destruct (t_reset _ _ _ _ _ B E1) as [_ E2].
    destruct (t_reset_in _ _ _ _ _ A E1) as [|]; [congruence|auto..].
  - intros E. apply (t_eof _ _ _ _ _ B), (t_eof _ _ _ _ _ A E).
  - intros E. destruct (t_eof_in _ _ _ _ _ B E) as [E1|]; [|by auto]. left. congruence.
  - intros E. apply (t_local _ _ _ _ _ B), (t_local _ _ _ _ _ A E).
  - intros E E' E2. rewrite (t_close _ _ _ _ _ B); [by apply (t_close _ _ _ _ _ A)|..].
    + apply (t_local _ _ _ _ _ A E).
    + apply (t_remote _ _ _ _ _ A E').
    + apply (t_closing _ _ _ _ _ A E E2).
  - intros E E'. apply (t_closing _ _ _ _ _ B); [apply (t_local _ _ _ _ _ A E)|].
    apply (t_closing _ _ _ _ _ A E E').
  - etransitivity; [apply A|apply B].
  - intros E. destruct (t_quiet _ _ _ _ _ A E) as [-> E1]. apply (t_quiet _ _ _ _ _ B E1).
  - pose proof (t_avail _ _ _ _ _ A). pose proof (t_avail _ _ _ _ _ B). rewrite length_app. lia.
  - intros E HM. specialize (Hr E). pose proof (t_avail_eq _ _ _ _ _ A Hr HM).
    pose proof (t_avail_eq _ _ _ _ _ B E) as HB. pose proof (ok_window _ Hok Hr).
    assert (avail c1 = sendWindow c1 - infl c1) by (unfold avail; by rewrite Hr).
    rewrite length_app. rewrite Hw in HB. lia.
  - pose proof (t_infl _ _ _ _ _ A). pose proof (t_infl _ _ _ _ _ B). rewrite length_app. lia.
  - apply ends_last_app; [apply A|apply B|]. intros E. by apply Hfin.
  - rewrite existsb_app, orb_true_iff. intros [E|E]; [by apply Hfin|]. apply (t_ends_finished _ _ _ _ _ B E).
  - pose proof (t_updates _ _ _ _ _ A). pose proof (t_updates _ _ _ _ _ B). lia.
  - destruct (t_granted _ _ _ _ _ B) as [?|HB]; [by left|].
    destruct (t_granted _ _ _ _ _ A) as [[E1 E2]|HA].
    { left. destruct (t_reset _ _ _ _ _ B E1). split; congruence. }
    right. rewrite length_app. lia.
  - rewrite <- app_assoc. etransitivity; [apply sublist_app; [reflexivity|apply (t_stream _ _ _ _ _ B)]|].
    rewrite !app_assoc. apply sublist_app; [apply (t_stream _ _ _ _ _ A)|reflexivity].
  - intros E E' HL. rewrite <- app_assoc, (t_stream_eq _ _ _ _ _ B E E').
    + rewrite !app_assoc. f_equal. apply (t_stream_eq _ _ _ _ _ A); auto.
    + by apply (t_live _ _ _ _ _ A).
  - rewrite orb_false_iff. intros [E E'] HL. apply (t_live _ _ _ _ _ B E'), (t_live _ _ _ _ _ A E HL).
  - intros HL. rewrite <- app_assoc, (t_futs _ _ _ _ _ B (t_live _ _ _ _ _ A Hc HL)), !app_assoc.
    by rewrite (t_futs _ _ _ _ _ A HL).
  - rewrite <- app_assoc. etransitivity; [apply sublist_app; [reflexivity|apply (t_received _ _ _ _ _ B)]|].
    rewrite !app_assoc. apply sublist_app; [apply (t_received _ _ _ _ _ A)|reflexivity].
  - intros E HE. specialize (Hr E). rewrite <- app_assoc, (t_received_eq _ _ _ _ _ B E).
    + rewrite !app_assoc. f_equal. apply (t_received_eq _ _ _ _ _ A Hr). intros E1.
      specialize (HE E1). rewrite app_assoc in HE. by apply app_eq_nil in HE as [? _].
    + intros E1. rewrite He in E1. specialize (HE E1). rewrite app_assoc in HE.
      apply app_eq_nil in HE as [HE ->]. rewrite app_nil_r.
      rewrite <- (t_received_eq _ _ _ _ _ A Hr) in HE by done. by apply app_eq_nil in HE as [_ ?].
Qed.

(** ** The procedures, in closed form *)

Lemma remoteClosed_eq c : remoteClosed c =
  (mkChannel (id c) (recvWindow c) (sendWindow c) (maxRecvWindow c) (maxSendQueueSize c) (isSrc c)
    (opened c) (isSending c) (sendQueue c) (recvQueue c) (isReset c) (remoteReset c) true
    (closedLocally c) (receivedData c) (isClosed c) (isEof c) true (isResetLocally c)
    (if negb (closedRemotely c) && (closedLocally c && no_sends c) then S (closeImpls c)
     else closeImpls c) (inflight c) (closing c), []).
Proof.
  destruct c as [? ? ? ? ? ? ? ? q ? ? ? cr cl ? ? ? ? ? ? ? ?]. unfold no_sends. cbn.
  destruct cr, cl, q; reflexivity.
Qed.

Lemma closeImpl_eq wok c : closeImpl wok c =
  if closedLocally c then (c, [])
  else
    (set_closedLocally true
       (set_closeImpls (if isReset c && no_sends c && closedRemotely c then S (closeImpls c)
          else closeImpls c)
       (set_closing (negb (isReset c) && no_sends c || closing c) c)),
     if negb (isReset c) && no_sends c && wok then [Write (data (id c) 0 fin_flag) []] else []).
Proof.
  destruct c as [? ? ? ? ? ? ? ? q ? r ? cr cl ? ? ? ? ? ? ? ?]. unfold no_sends.
  destruct wok, r, cr, cl, q; reflexivity.
Qed.

Lemma finDone_eq c : finDone c =
  if closing c then
    (set_closing false
       (set_closeImpls (if closedLocally c && no_sends c && closedRemotely c then S (closeImpls c)
          else closeImpls c) c), [])
  else (c, []).
Proof.
  destruct c as [? ? ? ? ? ? ? ? q ? r ? cr cl ? ? ? ? ? ? ? f]. unfold no_sends.
  destruct f, cr, cl, q; reflexivity.
Qed.

Definition failures (e : StreamError) (c : YamuxChannel) : list Effect :=
  (fun t => Fail (fut t) e) <$> sendQueue c.

Lemma reset_eq wok isLocal c : reset wok isLocal c =
  if isReset c then (c, [])
  else
    (mkChannel (id c) (if isLocal then recvWindow c else 0) 0 (maxRecvWindow c) (maxSendQueueSize c)
      (isSrc c) (opened c) (isSending c) [] ZeroQueue.empty true (negb isLocal) true true true true
      (isEof c) (isClosedRemotely c || negb (closedRemotely c)) (isResetLocally c)
      (if closedLocally c && closedRemotely c then closeImpls c else S (closeImpls c)) (inflight c)
      (closing c),
     failures EOFError c ++
     if negb (closedLocally c) && (isLocal && negb (isSending c)) && wok
     then [Write (data (id c) 0 rst_flag) []] else []).
Proof.
  destruct c as [? ? ? ? ? ? ? s q ? r ? cr cl ? ? ? icr ? ? ? ?].
  destruct wok, isLocal, s, r, cr, cl, icr; vm_compute; reflexivity.
Qed.

(** ** The send queue *)

Lemma remaining_pending t : send_ok t -> remaining t = Z.of_nat (length (pending1 t)) /\ 0 < remaining t.
Proof. unfold send_ok, remaining, pending1. rewrite length_drop. lia. Qed.

Lemma foldl_remaining q a : Forall send_ok q ->
  foldl (fun a b => a + remaining b) a q = a + Z.of_nat (length (concat (pending1 <$> q))).
Proof.
  intros H. revert a. induction H as [|t q Ht Hq IH]; intros a; cbn; [lia|].
  rewrite IH, length_app. destruct (remaining_pending t Ht). lia.
Qed.

Lemma lengthSendQueue_ok c : Forall send_ok (sendQueue c) ->
  lengthSendQueue c = Z.of_nat (length (pending c)).
Proof. intros H. unfold lengthSendQueue, pending. rewrite foldl_remaining by done. lia. Qed.

(** The buffer takes the first [n] bytes of the queue. *)
Lemma fill_buffer_ok fuel n q buf fs : Forall send_ok q -> (length q < fuel)%nat ->
  Z.of_nat (length buf) <= n <= Z.of_nat (length (buf ++ concat (pending1 <$> q))) ->
  exists buf' q' fs', fill_buffer fuel n q buf fs = (buf', q', fs') /\
    buf' ++ concat (pending1 <$> q') = buf ++ concat (pending1 <$> q) /\
    Z.of_nat (length buf') = n /\ Forall send_ok q' /\
    fs' ++ (fut <$> q') = fs ++ (fut <$> q) /\
    (Forall (fun t => fut_done t = false) q -> Forall (fun t => fut_done t = false) q').
Proof.
  revert q buf fs. induction fuel as [|fuel IH]; intros q buf fs Hq Hf Hn; [lia|].
  destruct q as [|t q]; cbn [fill_buffer].
  { exists buf, [], fs. cbn in *. rewrite app_nil_r in *. split_and!; auto. lia. }
  destruct (Z.ltb_spec (Z.of_nat (length buf)) n) as [Hlt|Hge].
  2:{ exists buf, (t :: q), fs. split_and!; auto. lia. }
  pose proof Hq as Hq0. apply Forall_cons in Hq as [Ht Hq]. destruct (remaining_pending t Ht) as [Hr Hr0].
  cbn [fmap list_fmap concat] in Hn. rewrite !length_app in Hn.
  set (k := Z.min (remaining t) (n - Z.of_nat (length buf))).
  assert (Hk : take (Z.to_nat k) (drop (Z.to_nat (sent t)) (ts_data t)) = take (Z.to_nat k) (pending1 t)) by done.
  cbn [ts_data sent fut fut_done]. unfold send_ok, remaining in *.
  destruct (Z.leb_spec (Z.of_nat (length (ts_data t))) (sent t + k)) as [Hall|Hpart].
  - assert (Ek : take (Z.to_nat k) (pending1 t) = pending1 t) by (apply take_ge; lia).
    destruct (IH q (buf ++ take (Z.to_nat k) (pending1 t)) (fs ++ [fut t]) Hq) as
      (buf' & q' & fs' & E & E1 & E2 & E3 & E4 & E5).
    + cbn in Hf. lia.
    + rewrite Ek, !length_app. cbn in *. lia.
    + exists buf', q', fs'. rewrite Hk, E. split; [done|]. rewrite E1, E4, Ek, <- !app_assoc.
      split_and!; try done. intros HL. by apply Forall_cons in HL as [_ HL]; auto.
  - set (t' := mkToSend (ts_data t) (sent t + k) (fut t) (fut_done t)).
    assert (El : Z.of_nat (length (take (Z.to_nat k) (pending1 t))) = k)
      by (rewrite length_take; lia).
    assert (Ep : take (Z.to_nat k) (pending1 t) ++ pending1 t' = pending1 t).
    { unfold t', pending1. cbn [ts_data sent].
      replace (Z.to_nat (sent t + k)) with (Z.to_nat (sent t) + Z.to_nat k)%nat by lia.
      rewrite <- drop_drop. apply take_drop. }
    exists (buf ++ take (Z.to_nat k) (pending1 t)), (t' :: q), fs.
    assert (Hstop : Z.of_nat (length (buf ++ take (Z.to_nat k) (pending1 t))) = n)
      by (rewrite length_app; lia).
    split_and!; try done.
    + rewrite Hk. destruct fuel; cbn [fill_buffer]; [done|]. rewrite Hstop, Z.ltb_irrefl. done.
    + rewrite <- app_assoc. f_equal. cbn. rewrite app_assoc. by rewrite Ep.
    + apply Forall_cons. split; [|done]. unfold t', send_ok. cbn. lia.
    + intros HL. apply Forall_cons in HL as [? ?]. by apply Forall_cons.
Qed.

(** ** What the procedures do *)

(** A change of fields no account depends on. *)
Record silent (c c' : YamuxChannel) : Prop := {
  s_id : id c' = id c;
  s_max : maxRecvWindow c' = maxRecvWindow c;
  s_opened : opened c' = opened c;
  s_reset : isReset c' = isReset c;
  s_remote : remoteReset c' = remoteReset c;
  s_closed : closedRemotely c' = closedRemotely c;
  s_local : closedLocally c' = closedLocally c;
  s_eof : isEof c' = isEof c;
  s_closes : closeImpls c' = closeImpls c;
  s_closing : closing c' = closing c;
  s_queue : sendQueue c' = sendQueue c;
  s_window : sendWindow c' = sendWindow c;
  s_infl : inflight c' = inflight c;
  s_recvW : recvWindow c' = recvWindow c;
  s_recvQ : recvQueue c' = recvQueue c;
}.

Ltac accounts := unfold finished, avail, infl, granted, unannounced, pending, live, futs, received,
  no_sends, room, inWindow in *.

Lemma silent_core c c' : silent c c' -> core_ok c -> core_ok c'.
Proof.
  intros [] []. split; unfold close_ok in *; accounts; repeat match goal with H : _ = _ |- _ => rewrite ?H; clear H end; auto.
Qed.

Lemma trans_refl c : trans c no_input [] [] c.
Proof. split; cbn; try rewrite !app_nil_r; auto; try done; try lia. Qed.

Lemma trans_silent c c' : silent c c' -> trans c no_input [] [] c'.
Proof.
  intros [E1 E2 E3 E4 E5 E6 E7 E8 E9 E10 E11 E12 E13 E14 E15]. pose proof (trans_refl c) as [].
  split; accounts; rewrite ?E1, ?E2, ?E3, ?E4, ?E5, ?E6, ?E7, ?E8, ?E9, ?E10, ?E11, ?E12, ?E13, ?E14, ?E15; auto.
Qed.

Lemma control_frame_ok i len f : uint_ok 32 i -> Syn f = false -> len = 0 ->
  frame_ok i (data i len f, []).
Proof.
  intros Hi Hs ->. by split_and!.
Qed.

Ltac split_trans := split; cbn [fst snd in_data in_window in_end in_write in_futs in_cancel
  no_input frames ended omap list_omap payload payload1 updates update1 ends_last ends1 existsb
  fmap list_fmap concat foldr app msgType flags length data windowUpdate set_closedLocally set_closeImpls].

(** Nothing was released, and no Fin is being written, while a direction is open. *)
Lemma close_open c : close_ok c -> closedLocally c && closedRemotely c = false -> closeImpls c = 0%nat.
Proof.
  intros (H1 & H2 & H3) E. destruct (closeImpls c) as [|n]; [done|].
  destruct H2 as (E1 & E2 & _); [lia|]. by rewrite E1, E2 in E.
Qed.

Lemma closing_open c : close_ok c -> closedLocally c = false -> closing c = false.
Proof. intros (_ & _ & H3) E. destruct (closing c); [|done]. destruct H3; [done|congruence]. Qed.

Lemma close_ok_same c c' : close_ok c -> closeImpls c' = closeImpls c -> closing c' = closing c ->
  (closedLocally c = true -> closedLocally c' = true) ->
  (closedRemotely c = true -> closedRemotely c' = true) ->
  (sendQueue c = [] -> sendQueue c' = []) -> close_ok c'.
Proof.
  intros (H1 & H2 & H3) E E' Hl Hr Hq. unfold close_ok. rewrite E, E'. split; [done|]. split.
  - intros Hn. destruct (H2 Hn) as (? & ? & ?). auto.
  - intros Hc. destruct (H3 Hc). auto.
Qed.

(** A release when both directions are closed and nothing is queued. *)
Lemma close_ok_release c c' : closeImpls c = 0%nat ->
  closeImpls c' = (if closedLocally c' && no_sends c' && closedRemotely c' then 1 else 0)%nat ->
  (closing c' = true -> closedLocally c' = true /\ sendQueue c' = []) -> close_ok c'.
Proof.
  intros E E' H. unfold close_ok. rewrite E'. split; [by do 2 case_match; lia|]. split; [|done].
  destruct (closedLocally c'), (closedRemotely c'); unfold no_sends;
    destruct (sendQueue c'); cbn; try lia; done.
Qed.

Lemma closeImpl_ok wok c c' es : core_ok c -> closeImpl wok c = (c', es) ->
  trans c no_input [] es c' /\ sends_ok c es /\ core_ok c' /\
  isSending c' = isSending c /\ inflight c' = inflight c /\ sendQueue c' = sendQueue c /\
  sendWindow c' = sendWindow c /\ isReset c' = isReset c /\ closedLocally c' = true /\ isEof c' = isEof c.
Proof.
  intros Hok. rewrite closeImpl_eq. destruct (closedLocally c) eqn:El.
  { intros [= <- <-]. split_and!; try done; [apply trans_refl|constructor]. }
  intros [= <- <-]. set (b := negb (isReset c) && no_sends c && wok).
  assert (Hb : b = true -> no_sends c = true) by (unfold b; destruct (no_sends c); [done|by rewrite andb_false_r]).
  assert (Hes : frames (if b then [Write (data (id c) 0 fin_flag) []] else []) =
    if b then [(data (id c) 0 fin_flag, [])] else []) by by destruct b.
  clearbody b. set (es := if b then [Write _ _] else []) in *.
  assert (Hended : ended es = []) by (unfold es; by destruct b).
  assert (Hpay : payload (frames es) = [] /\ updates (frames es) = 0 /\ ends_last (frames es))
    by (rewrite Hes; by destruct b).
  destruct Hpay as (Hpay & Hupd & Hends). clearbody es.
  destruct Hok. split_and!; try done.
  - split; rewrite ?Hpay, ?Hupd, ?Hended; auto; accounts; cbn; rewrite ?app_nil_r; auto; try lia.
    + congruence.
    + congruence.
    + destruct (isReset c && _ && _); lia.
    + intros E. rewrite El in E. cbn in E. rewrite orb_false_r in E. rewrite E. done.
    + rewrite Hes. destruct b; [|done]. intros _. rewrite Hb by done. apply orb_true_r.
  - unfold sends_ok. rewrite Hes. destruct b; [|constructor]. constructor; [|constructor].
    by apply control_frame_ok.
  - split; accounts; cbn; auto.
    + intros E. destruct (ok_reset0 E) as (? & ? & ?). done.
    + pose proof (close_open c ok_close0 ltac:(by rewrite El)) as Hn.
      pose proof (closing_open c ok_close0 El) as Hc. unfold close_ok. cbn. rewrite Hn, Hc.
      destruct (Nat.eqb_spec (length (sendQueue c)) 0) as [Eq|Eq]; [apply nil_length_inv in Eq|];
        destruct (isReset c), (closedRemotely c); cbn; split_and!; try done; lia.
Qed.

Lemma close_count c : core_ok c -> closedLocally c && closedRemotely c = false -> closeImpls c = 0%nat.
Proof. intros Hok. apply close_open, Hok. Qed.

Lemma finDone_ok c c' es : core_ok c -> finDone c = (c', es) ->
  trans c no_input [] es c' /\ core_ok c' /\ es = [].
Proof.
  intros Hok. rewrite finDone_eq. destruct (closing c) eqn:Ec.
  2:{ intros [= <- <-]. split_and!; [apply trans_refl|done..]. }
  intros [= <- <-]. split_and!; [| |done].
  - pose proof (trans_refl c) as []. split; auto; cbn; [congruence|]. case_match; lia.
  - destruct Hok. split; auto. destruct ok_close0 as (H1 & H2 & H3). destruct (H3 Ec) as [El Eq].
    rewrite Ec in H1. unfold close_ok, no_sends. cbn. rewrite El, Eq. cbn.
    destruct (closedRemotely c); split_and!; try done; lia.
Qed.

Definition end_input : Input := mkInput [] 0 true [] [] false.

(** What stays of a channel that only closes. *)
Definition same_sends (c c' : YamuxChannel) : Prop :=
  isSending c' = isSending c /\ inflight c' = inflight c /\ isEof c' = isEof c /\
  (sendQueue c' = sendQueue c /\ sendWindow c' = sendWindow c \/ isReset c' = true) /\
  (isReset c = true -> isReset c' = true).

Lemma remoteClosed_ok c c' es : core_ok c -> remoteClosed c = (c', es) ->
  trans c end_input [] es c' /\ sends_ok c es /\ core_ok c' /\ same_sends c c' /\
  isReset c' = isReset c /\ closedRemotely c' = true /\ sendQueue c' = sendQueue c /\
  sendWindow c' = sendWindow c.
Proof.
  intros Hok. rewrite remoteClosed_eq. intros [= <- <-].
  pose proof (close_count c Hok) as Hcnt.
  split_and!; try done; [|constructor| |by split_and!; auto].
  - split; accounts; cbn; rewrite ?app_nil_r; auto; try lia.
    + intros _ E. by rewrite E.
    + case_match; lia.
  - destruct Hok. split; accounts; cbn; auto.
    + intros E. destruct (ok_reset0 E) as (? & ? & ?). done.
    + destruct (closedRemotely c) eqn:Er; cbn [negb andb]; [by apply (close_ok_same c)|].
      pose proof (Hcnt (andb_false_r _)) as E0. destruct ok_close0 as (H1 & H2 & H3).
      apply (close_ok_release c); cbn; [done| |done]. rewrite E0, andb_true_r. done.
Qed.

Lemma reset_ok wok isLocal c c' es : core_ok c -> reset wok isLocal c = (c', es) ->
  trans c (if isLocal then no_input else end_input) [] es c' /\ sends_ok c es /\ core_ok c' /\
  same_sends c c' /\ isReset c' = true.
Proof.
  intros Hok. rewrite reset_eq. destruct (isReset c) eqn:Er.
  { intros [= <- <-]. split_and!; try done; [|constructor|by split_and!; auto].
    destruct isLocal; [apply trans_refl|].
    pose proof (trans_refl c) as []. split; auto. }
  intros [= <- <-]. set (b := negb (closedLocally c) && _ && wok). clearbody b.
  set (tail := if b then [Write (data (id c) 0 rst_flag) []] else []).
  assert (Hf : frames (failures EOFError c) = []) by (by apply frames_fails).
  assert (He : ended (failures EOFError c ++ tail) = fut <$> sendQueue c).
  { rewrite ended_app. unfold failures. rewrite (ended_map _ fut) by done.
    unfold tail. destruct b; cbn; by rewrite app_nil_r. }
  assert (Htail : payload (frames tail) = [] /\ updates (frames tail) = 0 /\ ends_last (frames tail) /\
    (uint_ok 32 (id c) -> Forall (frame_ok (id c)) (frames tail))).
  { unfold tail. destruct b; split_and!; try done. intros Hi.
    constructor; [|constructor]. by apply control_frame_ok. }
  destruct Htail as (Hpay & Hupd & Hends & Hfr). clearbody tail.
  pose proof (close_count c Hok) as Hcnt. pose proof (avail_nonneg c Hok) as Hav. destruct Hok.
  split_and!; [| |split|by split_and!; auto|done];
    rewrite ?frames_app, ?Hf, ?He, ?Hpay, ?Hupd; cbn [app].
  - split; rewrite ?frames_app, ?Hf, ?He, ?Hpay, ?Hupd; cbn [app in_data in_window in_end in_write in_futs].
    all: cbn; try (intros; congruence).
    all: try (destruct isLocal; accounts; cbn in *; rewrite ?app_nil_r; auto; done || lia).
    + intros E E' _. by rewrite E, E'.
    + case_match; lia.
    + rewrite Hpay. destruct isLocal; cbn; lia.
    + rewrite Hpay. apply sublist_nil_l.
    + intros _. unfold futs. destruct isLocal; cbn; by rewrite !app_nil_r, Permutation_app_comm.
    + apply sublist_nil_l.
  - unfold sends_ok. rewrite frames_app, Hf. by apply Hfr.
  - done.
  - apply ZeroQueue.empty_ok.
  - constructor.
  - done.
  - done.
  - done.
  - destruct (closedLocally c && closedRemotely c) eqn:E.
    + by apply (close_ok_same c).
    + rewrite Hcnt by done. split; cbn; [destruct (closing c); lia|done].
  - done.
  - cbn. by destruct isLocal.
  - done.
  - accounts; cbn. assert (0 <= ZeroQueue.len (recvQueue c)) by (destruct ok_queue0 as [_ E]; unfold ZeroQueue.len; lia).
    destruct isLocal; lia.
Qed.

Lemma pending_nil q : Forall send_ok q -> concat (pending1 <$> q) = [] -> q = [].
Proof.
  intros H E. destruct H as [|t q Ht Hq]; [done|]. cbn in E. apply app_eq_nil in E as [E _].
  destruct (remaining_pending t Ht) as [El Hpos]. rewrite E in El. cbn in El. lia.
Qed.

Definition drop_cancelled (c : YamuxChannel) : YamuxChannel :=
  set_sendQueue (filter (fun t => fut_done t = false) (sendQueue c)) c.

Lemma filter_live (q : list ToSend) : Forall (fun t => fut_done t = false) q ->
  filter (fun t => fut_done t = false) q = q.
Proof. induction 1 as [|t q Ht Hq IH]; [done|]. rewrite filter_cons_True by done. by rewrite IH. Qed.

Lemma filter_pending (q : list ToSend) :
  sublist (concat (pending1 <$> filter (fun t => fut_done t = false) q)) (concat (pending1 <$> q)).
Proof.
  induction q as [|t q IH]; [done|]. rewrite filter_cons. case_decide; cbn.
  - by apply sublist_app.
  - by apply sublist_inserts_l.
Qed.

Lemma drop_cancelled_ok c : core_ok c ->
  trans c no_input [] [] (drop_cancelled c) /\ core_ok (drop_cancelled c) /\ live (drop_cancelled c).
Proof.
  intros Hok. split_and!.
  - pose proof (trans_refl c) as []. split; auto.
    + unfold finished, no_sends in *. cbn. intros E. split; [done|].
      destruct (isReset c); [done|]. destruct (closedLocally c); [|done]. cbn in *.
      apply Nat.eqb_eq, nil_length_inv in E. by rewrite E.
    + done.
    + cbn [in_write no_input]. rewrite app_nil_r. apply filter_pending.
    + cbn [in_write no_input]. rewrite app_nil_r. intros _ _ HL. unfold pending, drop_cancelled. cbn.
      by rewrite filter_live.
    + intros _ HL. unfold live. cbn. by rewrite filter_live.
    + cbn [in_futs no_input]. rewrite app_nil_r. intros HL. unfold futs. cbn. by rewrite filter_live.
  - destruct Hok. split; auto.
    + cbn. apply Forall_forall. intros t [_ Ht]%list_elem_of_filter.
      by apply (Forall_forall send_ok (sendQueue c)).
    + cbn. intros E. destruct (ok_reset0 E) as (-> & ? & ?). done.
    + apply (close_ok_same c); try done. cbn. by intros ->.
  - unfold live. cbn. apply Forall_forall. by intros t [? _]%list_elem_of_filter.
Qed.

(** What [sendLoop_iter] does once the cancelled writes are gone and the window is open. *)
Lemma send_frame_ok c buf queue fs fl n : core_ok c -> inflight c = None -> 0 < sendWindow c ->
  isReset c = false ->
  n = Z.min (sendWindow c) (lengthSendQueue c) ->
  fl = (if (lengthSendQueue c <=? n) && closedLocally c then fin_flag else no_flags) ->
  fill_buffer (S (length (sendQueue c))) n (sendQueue c) [] [] = (buf, queue, fs) ->
  let c' := set_inflight (Some (fs, Z.of_nat (length buf))) (set_sendQueue queue c) in
  let es := [Write (data (id c) (wrap 32 n) fl) buf] in
  trans c no_input [] es c' /\ sends_ok c es /\ core_ok c'.
Proof.
  intros Hok Hinf Hw Hr Hn Hfl Hfill c' es.
  pose proof (lengthSendQueue_ok c (ok_sends c Hok)) as Hlen. unfold pending in Hlen.
  assert (Hnw : n <= sendWindow c) by lia. destruct (fill_buffer_ok (S (length (sendQueue c))) n (sendQueue c) [] [])
    as (buf' & q' & fs' & E & E1 & E2 & E3 & E4 & E5); [apply Hok|lia|cbn; lia|].
  assert (buf' = buf /\ q' = queue /\ fs' = fs) as (-> & -> & ->) by (split_and!; congruence).
  clear E Hfill. cbn in E1, E4.
  destruct (ok_window c Hok Hr) as [_ Hmax].
  assert (Hwrap : wrap 32 (Z.of_nat (length buf)) = Z.of_nat (length buf)).
  { apply wrap_small. unfold uint_ok, MaxSendWindow in *. pow2. lia. }
  assert (Hinf0 : infl c = 0) by (unfold infl; by rewrite Hinf).
  clear Hn. rename E2 into Hn0. revert fl es Hfl; subst n; intros fl es Hfl; subst fl.
  assert (Hfin : lengthSendQueue c <= Z.of_nat (length buf) -> queue = []).
  { intros Hle. apply pending_nil; [done|]. apply nil_length_inv.
    apply (f_equal length) in E1. rewrite length_app in E1. lia. }
  assert (Hends : forall b : bool, ends1 (data (id c) (wrap 32 (Z.of_nat (length buf)))
    (if b then fin_flag else no_flags), buf) = b) by by intros [].
  split_and!.
  - split; auto; try done; unfold es, c'.
    + unfold finished, no_sends. cbn. rewrite Hr. cbn. intros E0.
      apply andb_prop in E0 as [-> E0]. apply Nat.eqb_eq, nil_length_inv in E0. rewrite E0 in *.
      cbn in E1. apply app_eq_nil in E1 as [-> E1]. apply pending_nil in E1 as ->; done.
    + unfold avail, infl. cbn. rewrite Hr, Hinf, app_nil_r. lia.
    + intros _ _. unfold avail, infl. cbn. rewrite Hr, Hinf, app_nil_r. lia.
    + unfold infl. cbn. rewrite Hinf, app_nil_r. lia.
    + cbn [frames omap list_omap existsb]. rewrite Hends, orb_false_r. intros E0.
      apply andb_prop in E0 as [E0 El]. unfold finished, no_sends. cbn. rewrite El, Hfin by lia.
      by rewrite orb_true_r.
    + right. unfold granted, unannounced. cbn. lia.
    + unfold pending. cbn. rewrite !app_nil_r. by rewrite E1.
    + intros _ _ _. unfold pending. cbn. by rewrite !app_nil_r.
    + intros _. unfold futs. cbn. rewrite Hinf, app_nil_r. by rewrite E4.
    + cbn. unfold received. cbn. by rewrite app_nil_r.
    + intros _ _. unfold received. cbn. by rewrite app_nil_r.
  - unfold sends_ok, es. constructor; [|constructor]. cbn. split_and!; [split_and!|..]; cbn; try done.
    + apply Hok.
    + rewrite Hwrap. unfold uint_ok, MaxSendWindow in *. pow2. lia.
    + by destruct (_ && _).
  - pose proof Hok as Hok0. destruct Hok. split; auto; unfold c'; cbn.
    + unfold infl. cbn. lia.
    + intros E0. congruence.
    + apply (close_ok_same c); try done. cbn. intros Eq.
      rewrite Eq in E1. cbn in E1. apply app_eq_nil in E1 as [_ E1]. by apply pending_nil.
Qed.

(** The transition relation is closed under silent changes. *)
Lemma trans_app_silent_l c c1 i o es c2 : core_ok c1 -> silent c c1 -> trans c1 i o es c2 ->
  in_window i = 0 -> trans c i o es c2.
Proof.
  intros Hok Hs H Hw. destruct i as [? w ? ? ? ?]. cbn in Hw. subst w.
  exact (trans_app c no_input [] [] c1 _ o es c2 Hok (trans_silent _ _ Hs) H eq_refl (s_eof _ _ Hs) eq_refl).
Qed.

Lemma trans_app_l c c1 o es es' c2 i : core_ok c1 -> trans c no_input [] es c1 -> trans c1 i o es' c2 ->
  isEof c1 = isEof c -> in_window i = 0 -> trans c i o (es ++ es') c2.
Proof.
  intros Hok H1 H2 He Hw. destruct i as [? w ? ? ? ?]. cbn in Hw. subst w.
  exact (trans_app c no_input [] es c1 _ o es' c2 Hok H1 H2 eq_refl He eq_refl).
Qed.

Lemma trans_app_r c c1 c2 o es es' i : core_ok c1 -> trans c i o es c1 ->
  trans c1 no_input [] es' c2 -> isEof c1 = isEof c -> in_cancel i = false -> trans c i o (es ++ es') c2.
Proof.
  intros Hok H1 H2 He Hc. pose proof (trans_app c i o es c1 no_input [] es' c2 Hok H1 H2 eq_refl He Hc) as H.
  rewrite app_nil_r in H. destruct i. unfold input_app in H. cbn in H.
  by rewrite !app_nil_r, Z.add_0_r, !orb_false_r in H.
Qed.

Lemma trans_silent_r c c1 c2 o es i : core_ok c1 -> trans c i o es c1 -> silent c1 c2 ->
  isEof c1 = isEof c -> in_cancel i = false -> trans c i o es c2.
Proof.
  intros Hok H1 H2 He Hc. rewrite <- (app_nil_r es). eapply trans_app_r; try done.
  by apply trans_silent.
Qed.

Lemma silent_sending c b : silent c (set_isSending b c).
Proof. by split. Qed.

Lemma trans_id c i o es c' : trans c i o es c' -> id c' = id c.
Proof. intros H. apply H. Qed.

Lemma sends_ok_app c c1 es es' : id c1 = id c -> sends_ok c es -> sends_ok c1 es' ->
  sends_ok c (es ++ es').
Proof. unfold sends_ok. intros <- H1 H2. rewrite frames_app. by apply Forall_app. Qed.

(** ** The send loop *)

Lemma sendLoop_iter_ok c c' es : core_ok c -> inflight c = None -> isSending c = true ->
  sendLoop_iter c = (c', es) ->
  trans c no_input [] es c' /\ sends_ok c es /\ chan_ok c' /\ isEof c' = isEof c.
Proof.
  intros Hok Hinf Hs. unfold sendLoop_iter, sendLoop_done, pure.
  destruct (no_sends c) eqn:En.
  { intros [= <- <-]. split_and!; [apply trans_silent, silent_sending|constructor| |done].
    split; [by eapply silent_core; [apply silent_sending|]|cbn; by rewrite Hinf|].
    intros _ _. left. apply Nat.eqb_eq in En. by apply nil_length_inv. }
  destruct (drop_cancelled_ok c Hok) as (T1 & Hok1 & _).
  fold (drop_cancelled c). set (c1 := drop_cancelled c) in *.
  assert (Hinf1 : inflight c1 = None) by done. assert (Hs1 : isSending c1 = true) by done.
  destruct (Z.leb_spec (sendWindow c1) 0) as [Hw|Hw].
  - unfold andThen, when. destruct (_ <? _).
    + destruct (reset true true c1) as [c2 e2] eqn:Er. intros [= <- <-].
      destruct (reset_ok true true c1 c2 e2 Hok1 Er) as (T2 & S2 & Hok2 & (Hs2 & Hi2 & He2 & _) & Hr2).
      rewrite app_nil_r. split_and!; [| |split|done].
      * eapply (trans_app_l c c1 [] [] e2); [done|exact T1| |done|done].
        eapply trans_silent_r; [exact Hok2|exact T2|apply silent_sending|done|done].
      * done.
      * by eapply silent_core; [apply silent_sending|].
      * cbn. by rewrite Hi2, Hinf1.
      * cbn. by rewrite Hr2.
    + intros [= <- <-]. split_and!; [|constructor|split|done].
      * eapply trans_silent_r; [exact Hok1|exact T1|apply silent_sending|done|done].
      * by eapply silent_core; [apply silent_sending|].
      * cbn. by rewrite Hinf.
      * by right.
  - assert (Hr : isReset c1 = false).
    { destruct (isReset c1) eqn:E; [|done]. destruct (ok_reset c1 Hok1 E) as (Eq & _).
      destruct (ok_reset c Hok E) as (Eq' & _). unfold no_sends in En. by rewrite Eq' in En. }
    set (fl := if _ && _ then _ else _). set (n := Z.min _ _) in *.
    destruct (fill_buffer _ _ _ _ _) as [[buf queue] fs] eqn:Ef. intros [= <- <-].
    destruct (send_frame_ok c1 buf queue fs fl n Hok1 Hinf1 Hw Hr eq_refl eq_refl Ef) as (T2 & S2 & Hok2).
    split_and!; [|done|split|done].
    + eapply (trans_app_l c c1 [] []); [done|exact T1|exact T2|done|done].
    + done.
    + cbn. by rewrite Hs.
    + cbn. by rewrite Hs.
Qed.

Lemma sendLoop_ok c c' es : core_ok c -> isSending c = bool_decide (is_Some (inflight c)) ->
  when (fun c => negb (isSending c)) sendLoop c = (c', es) ->
  trans c no_input [] es c' /\ sends_ok c es /\
  (isSending c = true \/ chan_ok c') /\ (isSending c = true -> c' = c) /\ isEof c' = isEof c.
Proof.
  intros Hok Hs. unfold when, sendLoop. destruct (isSending c) eqn:E; cbn [negb].
  { intros [= <- <-]. split_and!; auto; [apply trans_refl|constructor]. }
  unfold when, andThen, pure. rewrite E. cbn [negb].
  destruct (sendLoop_iter (set_isSending true c)) as [c2 e2] eqn:Ei. intros [= <- <-].
  symmetry in Hs. apply bool_decide_eq_false in Hs.
  destruct (sendLoop_iter_ok (set_isSending true c) c2 e2) as (T & S & Hok2 & He); [| | |exact Ei|].
  - by eapply silent_core; [apply silent_sending|].
  - cbn. by apply eq_None_not_Some.
  - done.
  - split_and!; auto; [|done]. eapply trans_app_silent_l; [|apply silent_sending|exact T|done].
    by eapply silent_core; [apply silent_sending|].
Qed.

(** ** The entry points *)

Lemma chan_ok_intro c : core_ok c -> isSending c = bool_decide (is_Some (inflight c)) ->
  (isReset c = false -> isSending c = false -> sendQueue c = [] \/ sendWindow c <= 0) -> chan_ok c.
Proof. by split. Qed.

(** An entry point: from a good channel, the transition, the frames and a good channel. *)
Definition step_ok (c : YamuxChannel) (i : Input) (o : bytes) (es : list Effect) (c' : YamuxChannel) : Prop :=
  trans c i o es c' /\ sends_ok c es /\ chan_ok c'.

(** Closing keeps what the send loop relies on. *)
Lemma same_sends_ok c c' : chan_ok c -> core_ok c' -> same_sends c c' -> chan_ok c'.
Proof.
  intros H Hok (E1 & E2 & _ & E3 & E4). apply chan_ok_intro; [done|rewrite E1, E2; apply H|].
  rewrite E1. intros Er Es. destruct E3 as [[-> ->]|E3]; [|congruence].
  apply (ok_progress c H); [|done]. destruct (isReset c); [by rewrite E4 in Er|done].
Qed.

Lemma closeImpl_step wok c c' es : chan_ok c -> closeImpl wok c = (c', es) ->
  step_ok c no_input [] es c' /\ closedLocally c' = true.
Proof.
  intros H E. destruct (closeImpl_ok wok c c' es (ok_core c H) E)
    as (T & S & Hok & E1 & E2 & E3 & E4 & E5 & E6 & E7).
  split; [|done]. split_and!; [done..|]. eapply same_sends_ok; [done..|]. split_and!; auto. congruence.
Qed.

Lemma close_step wok c c' es : chan_ok c -> close wok c = (c', es) -> step_ok c no_input [] es c'.
Proof.
  intros H. unfold close, when, andThen, pure. destruct (isClosed c); cbn [negb].
  { intros [= <- <-]. split_and!; [apply trans_refl|constructor|done]. }
  assert (Hs : silent c (set_isClosed true c)) by by split.
  assert (H1 : chan_ok (set_isClosed true c)).
  { destruct H as [H1 H2 H3]. split; [by eapply silent_core|done|done]. }
  destruct (closeImpl wok _) as [c2 e2] eqn:E. intros [= <- <-].
  destruct (closeImpl_step _ _ _ _ H1 E) as [(T & S & Hok) _]. split_and!; [|done|done].
  eapply trans_app_silent_l; [|exact Hs|exact T|done]. apply H1.
Qed.

Lemma finDone_step c c' es : chan_ok c -> finDone c = (c', es) -> step_ok c no_input [] es c'.
Proof.
  intros H E. destruct (finDone_ok c c' es (ok_core c H) E) as (T & Hok & ->).
  split_and!; [done|constructor|]. eapply same_sends_ok; [done..|].
  rewrite finDone_eq in E. destruct (closing c); injection E as <-; split_and!; auto.
Qed.

Lemma reset_step wok isLocal c c' es : chan_ok c -> reset wok isLocal c = (c', es) ->
  step_ok c (if isLocal then no_input else end_input) [] es c' /\ isReset c' = true /\ isEof c' = isEof c.
Proof.
  intros H E. destruct (reset_ok wok isLocal c c' es (ok_core c H) E) as (T & S & Hok & Hs & Hr).
  split; [|by split; [|apply Hs]]. split_and!; [done..|]. by eapply same_sends_ok.
Qed.

Lemma resetStream_step wok c c' es : chan_ok c -> resetStream wok c = (c', es) ->
  step_ok c no_input [] es c'.
Proof.
  intros H. unfold resetStream, when, andThen, pure. destruct (isClosed c); cbn [negb].
  { intros [= <- <-]. split_and!; [apply trans_refl|constructor|done]. }
  set (c1 := set_isResetLocally true (set_isClosed true c)).
  assert (Hs : silent c c1) by by split.
  assert (H1 : chan_ok c1). { destruct H as [H1 H2 H3]. split; [by eapply silent_core|done|done]. }
  destruct (reset wok true c1) as [c2 e2] eqn:E. intros [= <- <-]. cbn [app].
  destruct (reset_step _ _ _ _ _ H1 E) as [(T & S & Hok) _]. split_and!; [|done|done].
  eapply trans_app_silent_l; [|exact Hs|exact T|done]. apply H1.
Qed.

Lemma remoteClosed_step c c' es : chan_ok c -> remoteClosed c = (c', es) ->
  step_ok c end_input [] es c' /\ isEof c' = isEof c.
Proof.
  intros H E. destruct (remoteClosed_ok c c' es (ok_core c H) E) as (T & S & Hok & Hs & Hr).
  split; [|apply Hs]. split_and!; [done..|]. by eapply same_sends_ok.
Qed.

(** A write: an error changes nothing; otherwise the bytes join the queue. *)
Definition write_accepted (c : YamuxChannel) (msg : bytes) : bool :=
  negb (remoteReset c || (closedLocally c || isReset c) || (length msg =? 0)%nat).

Definition write_input (c : YamuxChannel) (f : nat) (msg : bytes) : Input :=
  if write_accepted c msg then mkInput [] 0 false msg [f] false else mkInput [] 0 false [] [f] false.

Lemma push_write_ok c f msg : core_ok c -> write_accepted c msg = true ->
  let c1 := set_sendQueue (sendQueue c ++ [mkToSend msg 0 f false]) c in
  trans c (write_input c f msg) [] [] c1 /\ core_ok c1.
Proof.
  intros Hok Ha c1. unfold write_input. rewrite Ha. unfold write_accepted in Ha.
  apply negb_true_iff in Ha. rewrite !orb_false_iff in Ha. destruct Ha as ((_ & El & Er) & Hl).
  apply Nat.eqb_neq in Hl. split.
  - pose proof (trans_refl c) as []. split; auto; unfold c1.
    + unfold finished. cbn. by rewrite El, Er.
    + done.
    + unfold pending. cbn. rewrite fmap_app, concat_app. cbn. by rewrite app_nil_r.
    + intros _ _ _. unfold pending. cbn. rewrite fmap_app, concat_app. cbn. by rewrite app_nil_r.
    + intros _ HL. unfold live in *. cbn. apply Forall_app. split; [done|]. by constructor.
    + intros _. unfold futs. cbn. by rewrite fmap_app, app_assoc.
  - destruct Hok. split; auto; unfold c1; cbn.
    + apply Forall_app. split; [done|]. constructor; [|constructor]. unfold send_ok. cbn. lia.
    + intros E. congruence.
    + destruct ok_close0 as (? & H2 & H3). split; [done|]. cbn. split; intros E.
      * destruct (H2 E) as (? & ? & ?). congruence.
      * destruct (H3 E). congruence.
Qed.

Lemma write_step f msg c c' es : chan_ok c -> write f msg c = (c', es) ->
  step_ok c (write_input c f msg) [] es c'.
Proof.
  intros H. unfold write.
  assert (Hno : forall e, write_accepted c msg = false -> ended [e] = [f] -> frames [e] = [] ->
    (c, [e]) = (c', es) -> step_ok c (write_input c f msg) [] es c').
  { intros e Ha He Hf [= <- <-]. unfold write_input. rewrite Ha.
    split_and!; [|unfold sends_ok; rewrite Hf; constructor|done].
    pose proof (trans_refl c) as []. split; rewrite ?Hf, ?He; auto.
    intros _. cbn. by rewrite Permutation_app_comm. }
  unfold write_accepted in Hno. destruct (remoteReset c) eqn:E1; [by apply Hno|].
  destruct (closedLocally c || isReset c) eqn:E2; [by apply Hno|].
  destruct (length msg =? 0)%nat eqn:E3; [by apply Hno|]. clear Hno.
  assert (Ha : write_accepted c msg = true) by (unfold write_accepted; by rewrite E1, E2, E3).
  unfold andThen, pure.
  destruct (push_write_ok c f msg (ok_core c H) Ha) as (T & Hok). set (c1 := set_sendQueue _ c) in *.
  destruct (when _ sendLoop c1) as [c2 e2] eqn:Es. intros [= <- <-]. cbn [app].
  destruct (sendLoop_ok c1 c2 e2 Hok (ok_sending c H) Es) as (T2 & S2 & Hc & Hc2 & He).
  split_and!; [|done|].
  - change e2 with ([] ++ e2). eapply trans_app_r; [exact Hok|exact T|exact T2|done|].
    unfold write_input. by rewrite Ha.
  - destruct Hc as [Hc|]; [|done]. rewrite Hc2 by done. apply chan_ok_intro; [done|apply H|congruence].
Qed.

(** Bytes move between the peer, the queue and the reader, and the window is updated. *)
Lemma feed_ok c d out q c' es : chan_ok c -> Z.of_nat (length d) <= recvWindow c ->
  ZeroQueue.queue_ok q -> out ++ ZeroQueue.contents q = received c ++ d -> opened c = true ->
  updateRecvWindow true (set_recvQueue q (set_recvWindow (recvWindow c - Z.of_nat (length d)) c)) = (c', es) ->
  step_ok c (mkInput d 0 false [] [] false) out es c' /\ isEof c' = isEof c.
Proof.
  intros H Hd Hq Hout Ho. set (c1 := set_recvQueue _ _).
  assert (Hlen : ZeroQueue.len q + Z.of_nat (length out) = ZeroQueue.len (recvQueue c) + Z.of_nat (length d)).
  { destruct Hq as [_ Eq]. destruct (ok_queue c (ok_core c H)) as [_ Ec].
    apply (f_equal length) in Hout. rewrite !length_app in Hout. unfold ZeroQueue.len, received in *. lia. }
  assert (Hq0 : 0 <= ZeroQueue.len q) by (destruct Hq as [_ Eq]; unfold ZeroQueue.len; lia).
  assert (Hin : inWindow c1 + Z.of_nat (length out) = inWindow c) by (unfold inWindow, c1; cbn; lia).
  destruct H as [[] Hs Hp].
  assert (Hquot : 0 <= Z.quot (maxRecvWindow c) 2 < maxRecvWindow c).
  { split; [apply Z.quot_pos; lia|apply Z.quot_lt; lia]. }
  unfold updateRecvWindow, when.
  change (maxRecvWindow c1) with (maxRecvWindow c).
  set (delta := maxRecvWindow c - inWindow c1).
  assert (Hstep : forall c2 es2 g, 0 <= g ->
    c2 = set_recvWindow (recvWindow c1 + g) c1 ->
    payload (frames es2) = [] -> updates (frames es2) = g -> ended es2 = [] -> ends_last (frames es2) ->
    existsb ends1 (frames es2) = false -> sends_ok c es2 ->
    (isReset c = false -> isEof c = false -> Z.quot (maxRecvWindow c) 2 < inWindow c1 + g) ->
    inWindow c1 + g <= room c ->
    step_ok c (mkInput d 0 false [] [] false) out es2 c2 /\ isEof c2 = isEof c).
  { intros c2 es2 g Hg -> Ep Eu Een Eel Eex Hso Hhalf Hroom. split; [split_and!|done].
    - pose proof (trans_refl c) as []. split; auto; rewrite ?Ep, ?Eu, ?Een, ?Eex; auto; try done.
      + right. unfold granted, unannounced, c1. cbn. lia.
      + unfold received at 1. cbn. by rewrite <- Hout.
    - done.
    - split; [split; auto|done|done]; unfold c1; cbn; try lia.
      + intros Er Ee. specialize (Hhalf Er Ee). unfold inWindow, c1 in *. cbn in *. lia.
      + unfold room, inWindow, c1 in *. cbn in *. lia. }
  destruct (Z.ltb_spec (Z.quot (maxRecvWindow c) 2) (inWindow c1)) as [Hw|Hw]; cbn [negb].
  - intros [= <- <-]. apply (Hstep c1 [] 0); try done; try lia.
    + unfold c1. cbn. by rewrite Z.add_0_r.
    + unfold sends_ok. constructor.
  - intros [= <- <-].
    assert (Hin0 : 0 <= inWindow c1) by (unfold inWindow, c1; cbn; lia).
    assert (Hwrap : wrap 32 delta = delta).
    { apply wrap_small. unfold uint_ok, delta, MaxSendWindow in *. pow2. lia. }
    fold delta. rewrite Hwrap. apply (Hstep _ _ delta); try done; unfold delta; try lia.
    + cbn. lia.
    + unfold sends_ok. constructor; [|constructor]. split_and!; try done.
      unfold MaxSendWindow in *. split; [done|]. split; [done|].
      unfold uint_ok. cbn [windowUpdate length_ fst]. pow2. lia.
    + unfold room. lia.
Qed.

Lemma sendDone_step c c' es : chan_ok c -> sendDone true c = (c', es) ->
  step_ok c no_input [] es c' /\ isEof c' = isEof c.
Proof.
  intros H. unfold sendDone. destruct (inflight c) as [[fs n]|] eqn:Ei.
  2:{ intros [= <- <-]. split_and!; [split_and!|done]; [apply trans_refl|constructor|done]. }
  assert (Hs : isSending c = true) by (rewrite (ok_sending c H), Ei; done).
  assert (Hin : infl c = n) by (unfold infl; by rewrite Ei).
  set (c1 := set_sendWindow (sendWindow c - n) (set_inflight None c)).
  assert (Hf : frames (Complete <$> fs) = []) by by apply frames_fails.
  assert (He : ended (Complete <$> fs) = fs) by (rewrite (ended_map _ Datatypes.id) by done; apply list_fmap_id).
  assert (T1 : trans c no_input [] (Complete <$> fs) c1).
  { pose proof (trans_refl c) as []. pose proof (ok_infl c (ok_core c H)).
    split; rewrite ?Hf, ?He; auto; unfold c1; cbn.
    - unfold avail, infl. cbn. rewrite Ei. destruct (isReset c); lia.
    - intros _ _. unfold avail, infl. cbn. rewrite Ei. destruct (isReset c); lia.
    - unfold infl at 1. cbn. lia.
    - intros _. unfold futs. cbn. by rewrite Ei, app_nil_r. }
  assert (Hok1 : core_ok c1).
  { destruct H as [[] _ _]. split; auto; unfold c1; cbn.
    - unfold infl. cbn. lia.
    - intros Er. specialize (ok_window0 Er). unfold infl in *. cbn. lia. }
  unfold andThen, pure, emit.
  change (set_sendWindow _ (set_inflight None c)) with c1.
  destruct (sendLoop_iter c1) as [c2 e2] eqn:E2. intros [= <- <-]. cbn [app].
  destruct (sendLoop_iter_ok c1 c2 e2 Hok1 eq_refl Hs E2) as (T2 & S2 & Hok2 & He2).
  split; [split_and!|done]; [by eapply trans_app_l| |done].
  eapply (sends_ok_app c c1); [done| |done]. unfold sends_ok. by rewrite Hf.
Qed.

Definition cancel_input : Input := mkInput [] 0 false [] [] true.

Lemma cancelWrite_step f c c' es : chan_ok c -> cancelWrite f c = (c', es) ->
  step_ok c cancel_input [] es c' /\ isEof c' = isEof c.
Proof.
  intros H. unfold cancelWrite, pure. intros [= <- <-]. set (g := fun t : ToSend => _).
  assert (Eg : forall t, sent (g t) = sent t /\ ts_data (g t) = ts_data t /\ fut (g t) = fut t)
    by (intros t; unfold g; by destruct (_ =? _)%nat).
  assert (Ep : pending1 <$> (g <$> sendQueue c) = pending1 <$> sendQueue c).
  { rewrite <- list_fmap_compose. apply list_fmap_ext. intros i t _. unfold pending1. cbn.
    by destruct (Eg t) as (-> & -> & _). }
  assert (Ef : fut <$> (g <$> sendQueue c) = fut <$> sendQueue c).
  { rewrite <- list_fmap_compose. apply list_fmap_ext. intros i t _. cbn. apply Eg. }
  split; [|done]. split_and!; [|constructor|].
  - pose proof (trans_refl c) as []. split; auto.
    + unfold finished, no_sends in *. cbn. rewrite length_fmap. auto.
    + done.
    + unfold pending. cbn. by rewrite Ep, app_nil_r.
    + intros _ _ _. unfold pending. cbn. by rewrite Ep, app_nil_r.
    + done.
    + intros _. unfold futs. cbn. by rewrite Ef, app_nil_r.
  - destruct H as [[] ? Hp]. split; [split; auto; cbn|done|].
    + apply Forall_fmap. eapply Forall_impl; [exact ok_sends0|]. intros t. unfold send_ok. cbn.
      by destruct (Eg t) as (-> & -> & _).
    + intros E. destruct (ok_reset0 E) as (-> & ? & ?). done.
    + apply (close_ok_same c); try done. cbn. by intros ->.
    + cbn. intros Er Es. destruct (Hp Er Es) as [->|]; [by left|by right].
Qed.

(** The end of the stream at a reader: both queues are dropped. *)
Lemma clearQueues_step c c' es : chan_ok c -> isEof c = true -> (isReset c = false -> received c = []) ->
  clearQueues None c = (c', es) -> step_ok c no_input [] es c' /\ isEof c' = true.
Proof.
  intros H He Hrec. unfold clearQueues. intros [= <- <-]. split; [|done].
  set (es := _ <$> sendQueue c).
  assert (Hf : frames es = []) by by apply frames_fails.
  assert (Hd : ended es = fut <$> sendQueue c) by by apply ended_map.
  clearbody es. split_and!.
  - pose proof (trans_refl c) as []. split; rewrite ?Hf, ?Hd; auto; cbn.
    + unfold finished, no_sends. cbn. intros E. split; [done|]. rewrite andb_true_r.
      destruct (isReset c), (closedLocally c); done.
    + done.
    + apply sublist_nil_l.
    + intros _ E. congruence.
    + intros _ _. constructor.
    + intros _. unfold futs. cbn. by rewrite !app_nil_r, Permutation_app_comm.
    + apply sublist_nil_l.
    + intros Er _. by rewrite Hrec.
  - unfold sends_ok. rewrite Hf. constructor.
  - destruct H as [[] ? Hp]. split; [split; auto; cbn|done|by left].
    + apply ZeroQueue.empty_ok.
    + intros E. destruct (ok_reset0 E) as (_ & ? & ?). done.
    + by apply (close_ok_same c).
    + congruence.
    + unfold inWindow, room in *. cbn.
      assert (0 <= ZeroQueue.len (recvQueue c)) by (destruct ok_queue0 as [_ E]; unfold ZeroQueue.len; lia).
      unfold ZeroQueue.len in *. cbn. lia.
Qed.

Lemma readOnce_start_step c c' es r : chan_ok c -> (isEof c = true -> isReset c = false -> received c = []) ->
  readOnce_start c = (c', es, r) -> step_ok c no_input [] es c' /\ isEof c' = isEof c.
Proof.
  intros H He. unfold readOnce_start.
  assert (Hrefl : step_ok c no_input [] [] c) by (split_and!; [apply trans_refl|constructor|done]).
  destruct (isReset c) eqn:Er; [by intros [= <- <- _]|].
  destruct (isEof c) eqn:Ee.
  { destruct (clearQueues None c) as [c1 e1] eqn:E. intros [= <- <- _].
    destruct (clearQueues_step c c1 e1 H Ee) as [H1 H2]; [auto|done|]. split; [done|congruence]. }
  destruct (ZeroQueue.isEmpty (recvQueue c)); [|by intros [= <- <- _]].
  intros [= <- <- _]. split; [|done]. assert (Hs : silent c (set_receivedData false c)) by by split.
  split_and!; [by apply trans_silent|constructor|]. destruct H as [H1 H2 H3].
  split; [by eapply silent_core|done|done].
Qed.

Lemma step_ok_app c c1 c2 i j o es es' : step_ok c i o es c1 -> step_ok c1 j [] es' c2 ->
  in_window j = 0 -> isEof c1 = isEof c -> in_cancel i = false ->
  step_ok c (input_app i j) o (es ++ es') c2.
Proof.
  intros (T & S & H) (T' & S' & H') Hw He Hc. split_and!; [| |done].
  - rewrite <- (app_nil_r o). apply (trans_app c i o es c1 j [] es' c2 (ok_core c1 H) T T' Hw He Hc).
  - eapply sends_ok_app; [eapply trans_id, T|done|done].
Qed.

Lemma step_ok_refl c : chan_ok c -> step_ok c no_input [] [] c.
Proof. intros H. split_and!; [apply trans_refl|constructor|done]. Qed.

Lemma readOnce_finish_step waited nbytes c : chan_ok c -> opened c = true ->
  exists o c' es, readOnce_finish true waited nbytes c = Some (o, c', es) /\
    step_ok c no_input o es c'.
Proof.
  intros H Ho. unfold readOnce_finish.
  destruct (waited && closedRemotely c && ZeroQueue.isEmpty (recvQueue c)) eqn:E.
  - rewrite !andb_true_iff in E. destruct E as [[_ Hcr] Hem].
    apply ZeroQueue.isEmpty_contents in Hem; [|apply H].
    unfold andThen, pure. destruct (clearQueues None _) as [c1 e1] eqn:Ec.
    set (c0 := set_isEof true c) in *.
    assert (H0 : chan_ok c0).
    { destruct H as [[] ? ?]. split; [split; auto|done|done]. cbn. congruence. }
    destruct (clearQueues_step c0 c1 e1 H0 eq_refl) as [(T & S & H1) He1]; [done|done|].
    exists [], c1, e1. split; [done|]. split_and!; [|done|done].
    change (@nil Z) with (@nil Z ++ []). change e1 with ([] ++ e1).
    pose proof (trans_refl c) as R. destruct T. split; auto.
    + intros _. right. split; [by apply t_remote0|]. intros Er. unfold clearQueues in Ec.
      injection Ec as <- _. done.
    + intros Er _. apply t_received_eq0; [done|]. intros _. cbn. by rewrite app_nil_r.
  - destruct (ZeroQueue.consumeTo_ok (recvQueue c) nbytes) as (q & Eq & Hq & Ecq); [apply H|].
    rewrite Eq. cbn [mbind option_bind].
    destruct (updateRecvWindow true (set_recvQueue q c)) as [c1 e1] eqn:Eu.
    eexists _, c1, e1. split; [done|].
    replace (set_recvQueue q c) with (set_recvQueue q (set_recvWindow (recvWindow c - Z.of_nat (@length Z [])) c)) in Eu
      by (cbn; rewrite Z.sub_0_r; by destruct c).
    apply (feed_ok c [] (take (Z.to_nat nbytes) (ZeroQueue.contents (recvQueue c))) q c1 e1) in Eu;
      [apply Eu|done| |done| |done].
    + cbn. apply H.
    + rewrite Ecq, take_drop, app_nil_r. done.
Qed.

Definition window_input (n : Z) : Input := mkInput [] n false [] [] false.

Lemma on_window_update_step n c c' es : chan_ok c -> 0 <= n ->
  on_window_update n c = (c', es) -> step_ok c (window_input n) [] es c' /\ isEof c' = isEof c.
Proof.
  intros H Hn. unfold on_window_update, andThen, pure.
  set (c1 := set_sendWindow _ c).
  assert (Hw : isReset c = false -> 0 <= infl c <= sendWindow c /\ sendWindow c <= MaxSendWindow).
  { intros Er. pose proof (ok_window c (ok_core c H) Er). pose proof (ok_infl c (ok_core c H)). lia. }
  assert (T1 : trans c (window_input n) [] [] c1).
  { pose proof (trans_refl c) as []. split; auto; unfold c1; cbn.
    - unfold avail, infl in *. cbn. destruct (isReset c); [lia|]. lia.
    - intros Er. specialize (Hw Er). unfold avail, infl in *. cbn. rewrite Er. lia. }
  assert (Hok1 : core_ok c1).
  { destruct H as [[] ? ?]. split; auto. unfold c1. cbn. intros Er. specialize (Hw Er).
    unfold infl in *. cbn. lia. }
  destruct (when _ sendLoop c1) as [c2 e2] eqn:Es. intros [= <- <-].
  destruct (sendLoop_ok c1 c2 e2 Hok1 (ok_sending c H) Es) as (T2 & S2 & Hc & Hc2 & He).
  split; [split_and!|done]; [|done|].
  - cbn [app]. change e2 with ([] ++ e2). by eapply trans_app_r; [exact Hok1|exact T1|exact T2|..].
  - destruct Hc as [Hc|]; [|done]. rewrite Hc2 by done. apply chan_ok_intro; [done|apply H|].
    intros _. cbn. cbn in Hc. congruence.
Qed.

Definition data_input (d : bytes) : Input := mkInput d 0 false [] [] false.

Lemma gotData_step d c c' es : chan_ok c -> opened c = true -> Z.of_nat (length d) <= recvWindow c ->
  gotDataFromRemote true d c = (c', es) -> step_ok c (data_input d) [] es c' /\ isEof c' = isEof c.
Proof.
  intros H Ho Hd. unfold gotDataFromRemote, andThen, pure.
  set (c0 := set_receivedData true c).
  assert (H0 : chan_ok c0).
  { destruct H as [H1 H2 H3]. split; [|done|done]. apply (silent_core c); [by split|done]. }
  destruct (ZeroQueue.push_ok (recvQueue c) d) as [Hq Eq]; [apply H|].
  change (set_receivedData true _) with
    (set_recvQueue (ZeroQueue.push (recvQueue c) d) (set_recvWindow (recvWindow c0 - Z.of_nat (length d)) c0)).
  destruct (updateRecvWindow true _) as [c1 e1] eqn:Eu. intros [= <- <-]. cbn [app].
  destruct (feed_ok c0 d [] _ c1 e1 H0 Hd Hq Eq Ho Eu) as [(T & S & H1) He].
  split; [split_and!|done]; [|done|done].
  eapply trans_app_silent_l; [apply H0| |exact T|done]. by split.
Qed.

Definition flags_input (b : bool) : Input := mkInput [] 0 b [] [] false.

Lemma on_flags_step f c c' es : chan_ok c -> on_flags true f c = (c', es) ->
  step_ok c (flags_input (Fin f || Rst f)) [] es c' /\ isEof c' = isEof c.
Proof.
  intros H. unfold on_flags, andThen, when.
  destruct (Fin f) eqn:Ef, (Rst f) eqn:Er; cbn [orb].
  - destruct (remoteClosed c) as [c1 e1] eqn:E1. destruct (reset true false c1) as [c2 e2] eqn:E2.
    intros [= <- <-]. destruct (remoteClosed_step c c1 e1 H E1) as [H1 He1].
    destruct (reset_step true false c1 c2 e2 (proj2 (proj2 H1)) E2) as (H2 & _ & He2).
    split; [|congruence]. by apply (step_ok_app c c1 c2 end_input end_input).
  - destruct (remoteClosed c) as [c1 e1] eqn:E1. intros [= <- <-]. rewrite app_nil_r.
    by apply remoteClosed_step.
  - destruct (reset true false c) as [c1 e1] eqn:E1. intros [= <- <-].
    by destruct (reset_step true false c c1 e1 H E1) as (H1 & _ & He1).
  - intros [= <- <-]. split; [by apply step_ok_refl|done].
Qed.

(** What a frame gives to the channel that receives it. *)
Definition frame_input (f : Frame) : Input :=
  mkInput (payload1 f) (update1 f) (ends1 f) [] [] false.

(** A frame whose announced length is that of its data. *)
Definition frame_fits (f : Frame) : Prop :=
  match msgType f.1 with
  | Data => length_ f.1 = Z.of_nat (length f.2)
  | WindowUpdate => 0 <= length_ f.1
  | _ => False
  end.

Lemma on_frame_step h p c : chan_ok c -> opened c = true -> frame_fits (h, p) ->
  (msgType h = Data -> length_ h <= recvWindow c) ->
  exists c' es, on_frame true h p c = Some (c', es) /\
    step_ok c (frame_input (h, p)) [] es c' /\ isEof c' = isEof c.
Proof.
  intros H Ho Hf Hw. unfold on_frame, frame_fits, frame_input, payload1, update1, ends1 in *.
  cbn [fst snd] in *. destruct (msgType h) eqn:Em; try done.
  - rewrite Hf in *. specialize (Hw eq_refl). destruct (Z.ltb_spec (recvWindow c) (Z.of_nat (length p))); [lia|].
    unfold andThen. destruct (when _ _ c) as [c1 e1] eqn:E1.
    assert (H1 : step_ok c (data_input p) [] e1 c1 /\ isEof c1 = isEof c).
    { unfold when in E1. destruct (Z.ltb_spec 0 (Z.of_nat (length p))) as [Hp|Hp].
      - by apply (gotData_step p).
      - injection E1 as <- <-. destruct p; [|cbn in Hp; lia]. split; [by apply step_ok_refl|done]. }
    destruct H1 as [H1 He1]. destruct (on_flags true (flags h) c1) as [c2 e2] eqn:E2.
    destruct (on_flags_step _ _ _ _ (proj2 (proj2 H1)) E2) as [H2 He2].
    exists c2, (e1 ++ e2). split; [done|]. split; [|congruence].
    pose proof (step_ok_app c c1 c2 (data_input p) _ [] e1 e2 H1 H2 eq_refl He1 eq_refl) as H3.
    unfold input_app in H3. cbn in H3. by rewrite app_nil_r in H3.
  - unfold andThen. destruct (on_window_update (length_ h) c) as [c1 e1] eqn:E1.
    destruct (on_window_update_step _ _ _ _ H Hf E1) as [H1 He1].
    destruct (on_flags true (flags h) c1) as [c2 e2] eqn:E2.
    destruct (on_flags_step _ _ _ _ (proj2 (proj2 H1)) E2) as [H2 He2].
    exists c2, (e1 ++ e2). split; [done|]. split; [|congruence].
    pose proof (step_ok_app c c1 c2 (window_input (length_ h)) _ [] e1 e2 H1 H2 eq_refl He1 eq_refl) as H3.
    unfold input_app in H3. cbn in H3. by rewrite Z.add_0_r in H3.
Qed.

(** ** Opening *)

Lemma createStream_ok i src ws mq : uint_ok 32 i -> 1 <= ws <= MaxSendWindow ->
  chan_ok (createStream i src ws mq).
Proof.
  intros Hi Hws. assert (0 <= Z.quot ws 2 < ws) by (split; [apply Z.quot_pos; lia|apply Z.quot_lt; lia]).
  unfold MaxSendWindow in *.
  split; [split|done|by left]; try done; unfold createStream; cbn.
  - unfold close_ok. cbn. split_and!; try done; lia.
  - case_match; unfold YamuxDefaultWindowSize in *; lia.
  - intros _ _. unfold inWindow, YamuxDefaultWindowSize in *. cbn. zbool; lia.
  - unfold inWindow, room, YamuxDefaultWindowSize in *. cbn. zbool; lia.
Qed.

(** A channel that was created and not yet opened. *)
Definition fresh (c : YamuxChannel) : Prop :=
  c = createStream (id c) (isSrc c) (maxRecvWindow c) (maxSendQueueSize c).

Definition open_frame (c : YamuxChannel) : Frame :=
  (windowUpdate (id c) (Z.max (maxRecvWindow c - YamuxDefaultWindowSize) 0)
     (if isSrc c then syn_flag else ack_flag), []).

Lemma open_fresh c : chan_ok c -> fresh c ->
  exists c' es, open true c = (c', es) /\ frames es = [open_frame c] /\
    trans c no_input [] es c' /\ chan_ok c' /\ opened c' = true /\ isEof c' = isEof c /\
    granted c' = recvWindow c'.
Proof.
  intros H Hf. unfold open, when, andThen, pure, conn_write.
  assert (Eo : opened c = false) by by rewrite Hf.
  assert (Er : isReset c = false) by by rewrite Hf.
  rewrite Eo. cbn [negb]. eexists _, _. split; [done|]. cbn [app frames omap list_omap].
  destruct (ok_max c (ok_core c H)) as [Hm1 Hm2].
  assert (Hw : wrap 32 (Z.max (maxRecvWindow c - YamuxDefaultWindowSize) 0) =
    Z.max (maxRecvWindow c - YamuxDefaultWindowSize) 0).
  { apply wrap_small. unfold uint_ok, MaxSendWindow, YamuxDefaultWindowSize in *. pow2. lia. }
  cbn [maxRecvWindow id isSrc set_isReset set_opened]. rewrite Hw.
  set (c1 := set_isReset false _). set (h := windowUpdate _ _ _).
  assert (Hends : ends1 (h, []) = false) by (unfold ends1, h; by destruct (isSrc c)).
  split; [done|]. split; [|split; [|split_and!; try done; unfold granted, unannounced; cbn; lia]].
  - pose proof (trans_refl c) as []. split; auto; unfold c1; cbn [frames omap list_omap].
    + congruence.
    + unfold finished. cbn. rewrite Er. auto.
    + unfold avail, infl. cbn. rewrite Er. lia.
    + intros _ _. unfold avail, infl. cbn. rewrite Er. lia.
    + done.
    + cbn [existsb]. by rewrite Hends.
    + cbn. lia.
    + right. unfold granted, unannounced. cbn. rewrite Eo. lia.
  - destruct H as [[] Hs Hp]. split; [split; auto|done|]; unfold c1; cbn; auto.
    done.
Qed.

(** ** The channel of a muxer that closes *)

Lemma shutdown_eq c : shutdown c =
  (mkChannel (id c) 0 0 (maxRecvWindow c) (maxSendQueueSize c) (isSrc c) false (isSending c) []
     ZeroQueue.empty true (remoteReset c) true true true true (isEof c) true (isResetLocally c)
     (match closeImpls c with O => 1%nat | n => n end) (inflight c) (closing c),
   failures EOFError c ++ []).
Proof. destruct c as [? ? ? ? ? ? ? ? ? ? ? ? ? ? ? ? ? ? ? n ? ?]. destruct n; vm_compute; reflexivity. Qed.

(** The channel is released, its writes have failed, and a Fin still being written releases it at
most once more. *)
Lemma shutdown_ok c c' es : close_ok c -> shutdown c = (c', es) ->
  (1 <= closeImpls c' /\ closeImpls (finDone c').1 <= 2)%nat /\ close_ok c' /\
  sendQueue c' = [] /\ isReset c' = true /\ ended es = fut <$> sendQueue c /\ frames es = [].
Proof.
  intros (H1 & H2 & H3). rewrite shutdown_eq, app_nil_r. intros [= <- <-].
  rewrite finDone_eq. unfold close_ok, no_sends. cbn. destruct (closing c), (closeImpls c) as [|[|[|n]]];
    cbn in *; split_and!; try done; try lia; try (by apply frames_fails); by apply ended_map.
Qed.
