(* ===== verification/YamuxStream.v ===== *)
(** * YamuxStream: a yamux stream between its two ends

Two muxers of yamux.nim joined by a connection that keeps frames in order, seen from one
stream: the channel of each side, what its muxer remembers of it, and the frames on their way
to the peer.  The steps are the calls of the application and of the timers, the ends of the
writes, and [handle] of the next frame.  The connection does not fail, the limit on channels
is not reached, and a reader that was woken runs before its channel leaves the muxer's table;
histories record what was written and read. *)
From S2P Require Import Prelude Endians ZeroQueue YamuxHeader YamuxChannel YamuxAccounts.
Import ZeroQueue (ZeroQueue).
Import Yamux.

#[local] Open Scope Z_scope.

(** What the tables of the muxer hold for the stream: nothing yet, the channel, the window
left after a reset ([flushed]), or nothing any more. *)
Inductive Slot := Absent | InMux | Flushed (budget : Z) | Gone.

(** [wire] is what the side has written and its peer has not read; [reading] the size of a read
that waits; then the histories: bytes accepted by [write], handed to the connection and
returned by [readOnce], write futures made and ended, and whether one was cancelled. *)
Record Side := mkSide {
  chan : YamuxChannel;
  slot : Slot;
  wire : list Frame;
  reading : option Z;
  accepted : bytes;
  handed : bytes;
  got : bytes;
  issued : list nat;
  over : list nat;
  cancelled : bool;
}.

(** A Nim [Defect] and the [YamuxError] that ends the connection are separate results. *)
Inductive Outcome (A : Type) := Next (a : A) | Violation | Defect.
Arguments Next {A} a.
Arguments Violation {A}.
Arguments Defect {A}.

(** The side after a procedure of its channel. *)
Definition after (s : Side) (i : Input) (out : bytes) (r : option Z)
    (p : YamuxChannel * list Effect) : Side :=
  let '(c, es) := p in
  mkSide c (slot s) (wire s ++ frames es) r (accepted s ++ in_write i)
    (handed s ++ payload (frames es)) (got s ++ out) (issued s ++ in_futs i) (over s ++ ended es)
    (cancelled s || in_cancel i).

Definition set_slot (v : Slot) (s : Side) : Side :=
  mkSide (chan s) v (wire s) (reading s) (accepted s) (handed s) (got s) (issued s) (over s) (cancelled s).

Definition set_wire (v : list Frame) (s : Side) : Side :=
  mkSide (chan s) (slot s) v (reading s) (accepted s) (handed s) (got s) (issued s) (over s) (cancelled s).

Definition set_chan (v : YamuxChannel) (s : Side) : Side :=
  mkSide v (slot s) (wire s) (reading s) (accepted s) (handed s) (got s) (issued s) (over s) (cancelled s).

Inductive Act :=
| AWrite (f : nat) (msg : bytes)
| AWriteDone
| ARead (nbytes : Z)
| AWake
| AClose
| ACloseDone
| AReset
| ATimeout
| ACancel (f : nat)
| ACleanup
| AEvict.

(** The rest of [readOnce]. *)
Definition finish_read (waited : bool) (nbytes : Z) (s : Side) : Outcome Side :=
  match readOnce_finish true waited nbytes (chan s) with
  | Some (o, c, es) => Next (after s no_input o None (c, es))
  | None => Defect
  end.

(** [cleanupChannel], once [join] has returned. *)
Definition cleanupChannel (c : YamuxChannel) : Slot :=
  if isReset c && (0 <? recvWindow c) then Flushed (recvWindow c) else Gone.

Definition is_absent (s : Side) : bool := match slot s with Absent => true | _ => false end.

(** A step of one side that has the channel; one that is not enabled changes nothing.  The
closing of the muxer ([Yamux.close]) is not a step: it ends the connection, and with it the
run; [shutdown] is what it does to the channel. *)
Definition act_present (a : Act) (s : Side) : Outcome Side :=
  let c := chan s in
  match a with
  | AWrite f msg => Next (after s (write_input c f msg) [] (reading s) (write f msg c))
  | AWriteDone => Next (after s no_input [] (reading s) (sendDone true c))
  | ARead n =>
      match reading s with
      | Some _ => Next s
      | None =>
          match readOnce_start c with
          | (c, es, ReadRaise _) => Next (after s no_input [] None (c, es))
          | (c, es, ReadWait) => Next (after s no_input [] (Some n) (c, es))
          | (c, es, ReadNow) => finish_read false n s
          end
      end
  | AWake =>
      match reading s with
      | Some n => if wakes c then finish_read true n s else Next s
      | None => Next s
      end
  | AClose => Next (after s no_input [] (reading s) (close true c))
  | ACloseDone => Next (after s no_input [] (reading s) (finDone c))
  | AReset => Next (after s no_input [] (reading s) (resetStream true c))
  | ATimeout => Next (after s no_input [] (reading s) (reset true true c))
  | ACancel f => Next (after s cancel_input [] (reading s) (cancelWrite f c))
  | ACleanup =>
      match slot s, reading s with
      | InMux, None => if (1 <=? closeImpls c)%nat then Next (set_slot (cleanupChannel c) s) else Next s
      | _, _ => Next s
      end
  | AEvict => match slot s with Flushed _ => Next (set_slot Gone s) | _ => Next s end
  end.

Definition act (a : Act) (s : Side) : Outcome Side :=
  if is_absent s then Next s else act_present a s.

(** [handle] of one frame of an existing channel. *)
Definition receive_frame (f : Frame) (s : Side) : Outcome Side :=
  match on_frame true f.1 f.2 (chan s) with
  | Some p => Next (after s no_input [] (reading s) p)
  | None => Violation
  end.

(** [handle] of one [Data] or [WindowUpdate] frame. *)
Definition receive (f : Frame) (s : Side) : Outcome Side :=
  match slot s with
  | InMux => receive_frame f s
  | _ =>
      if Syn (flags f.1) then
        let c := createStream (id (chan s)) false (maxRecvWindow (chan s)) (maxSendQueueSize (chan s)) in
        receive_frame f (after (set_slot InMux (set_chan c s)) no_input [] None (open true c))
      else
        match slot s, msgType f.1 with
        | Flushed budget, Data =>
            if budget <? length_ f.1 then Violation
            else if budget - length_ f.1 =? 0 then Next (set_slot Gone s)
            else Next (set_slot (Flushed (budget - length_ f.1)) s)
        | _, _ => Next s
        end
  end.

(** The next frame of [x] reaches [y]. *)
Definition deliver (x y : Side) : Outcome (Side * Side) :=
  match wire x with
  | [] => Next (x, y)
  | f :: r =>
      match receive f y with
      | Next y => Next (set_wire r x, y)
      | Violation => Violation
      | Defect => Defect
      end
  end.

(** A step of the pair; [left] says whose. *)
Inductive Step := Local (left : bool) (a : Act) | Deliver (left : bool).

Definition swap {A B} (p : A * B) : B * A := (p.2, p.1).

Definition map_outcome {A B} (g : A -> B) (o : Outcome A) : Outcome B :=
  match o with Next a => Next (g a) | Violation => Violation | Defect => Defect end.

Definition step (st : Step) (p : Side * Side) : Outcome (Side * Side) :=
  match st with
  | Local true a => map_outcome (fun x => (x, p.2)) (act a p.1)
  | Local false a => map_outcome (fun y => (p.1, y)) (act a p.2)
  | Deliver true => deliver p.1 p.2
  | Deliver false => map_outcome swap (deliver p.2 p.1)
  end.

Fixpoint run (steps : list Step) (p : Side * Side) : Outcome (Side * Side) :=
  match steps with
  | [] => Next p
  | st :: rest => match step st p with Next q => run rest q | Violation => Violation | Defect => Defect end
  end.

(** [newStream] of one side; the other side knows nothing of the stream yet.  [wsA] and [wsB]
are the window sizes of the two muxers. *)
Definition start (i wsA mqA wsB mqB : Z) : Side * Side :=
  let c := createStream i true wsA mqA in
  let d := createStream i false wsB mqB in
  (after (mkSide c InMux [] None [] [] [] [] [] false) no_input [] None (open true c),
   mkSide d Absent [] None [] [] [] [] [] false).

(** ** The invariant *)

(** [frame_ok] without the condition on [Syn]. *)
Definition frame_sound (i : Z) (f : Frame) : Prop :=
  header_ok f.1 /\ streamId f.1 = i /\
  match msgType f.1 with
  | Data => length_ f.1 = Z.of_nat (length f.2)
  | WindowUpdate => f.2 = [] /\ ends1 f = false
  | _ => False
  end.

Definition no_syn (fs : list Frame) : Prop := Forall (fun f => Syn (flags f.1) = false) fs.

Definition present (s : Side) : Prop := match slot s with Absent | InMux => True | _ => False end.

(** A side that knows nothing of the stream yet. *)
Definition unborn (s : Side) : Prop :=
  fresh (chan s) /\ isSrc (chan s) = false /\
  s = mkSide (chan s) Absent [] None [] [] [] [] [] false.

Record side_ok (s : Side) : Prop := {
  so_chan : chan_ok (chan s);
  so_room : 2 * room (chan s) <= MaxSendWindow;
  so_absent : slot s = Absent -> unborn s;
  so_frames : Forall (frame_sound (id (chan s))) (wire s);
  so_ends : ends_last (wire s);
  so_finished : existsb ends1 (wire s) = true -> finished (chan s) = true;
  so_stream : sublist (handed s ++ pending (chan s)) (accepted s);
  so_stream_eq : cancelled s = false -> isReset (chan s) = false -> isEof (chan s) = false ->
    handed s ++ pending (chan s) = accepted s;
  so_live : cancelled s = false -> live (chan s);
  so_futs : cancelled s = false -> over s ++ futs (chan s) ≡ₚ issued s;
  so_gone : ~ present s -> (1 <= closeImpls (chan s))%nat;
  so_eof : isEof (chan s) = true ->
    closedRemotely (chan s) = true /\ (isReset (chan s) = false -> received (chan s) = []);
  so_flushed : forall b, slot s = Flushed b ->
    isReset (chan s) = true /\ 0 <= b /\ reading s = None;
}.

(** The window [y] still accepts is at least what [x] has sent and may send. *)
Definition covers (y : Side) (n : Z) : Prop :=
  match slot y with
  | Absent | InMux => n <= granted (chan y)
  | Flushed b => n <= b
  | Gone => True
  end.

Record link (x y : Side) : Prop := {
  l_id : id (chan x) = id (chan y);
  l_closed : closedRemotely (chan y) = true -> isReset (chan y) = false ->
    finished (chan x) = true /\ payload (wire x) = [];
  l_remote : isReset (chan y) = true -> remoteReset (chan y) = true ->
    finished (chan x) = true /\ payload (wire x) = [];
  l_credit : covers y (Z.of_nat (length (payload (wire x))) +
    if finished (chan x) then 0 else avail (chan x) + updates (wire y));
  l_credit_eq : isReset (chan x) = false -> isReset (chan y) = false -> present x -> present y ->
    avail (chan x) + updates (wire y) + Z.of_nat (length (payload (wire x))) = granted (chan y) /\
    infl (chan x) <= room (chan y);
  l_got : sublist (got y ++ received (chan y) ++ payload (wire x)) (handed x);
  l_got_eq : isReset (chan y) = false ->
    got y ++ received (chan y) ++ payload (wire x) = handed x;
}.

(** Only the first frame has the flag [Syn], and it creates the channel of the peer. *)
Definition syn_ok (x y : Side) : Prop :=
  if is_absent y then
    exists f r, wire x = f :: r /\ Syn (flags f.1) = true /\ msgType f.1 = WindowUpdate /\ no_syn r
  else opened (chan y) = true /\ no_syn (wire x).

Definition pair_ok (p : Side * Side) : Prop :=
  side_ok p.1 /\ side_ok p.2 /\ link p.1 p.2 /\ link p.2 p.1 /\ syn_ok p.1 p.2 /\ syn_ok p.2 p.1.

(** What no step of a side undoes; a channel that was not closed stays in the table. *)
Record evolves (s s' : Side) : Prop := {
  e_max : maxRecvWindow (chan s') = maxRecvWindow (chan s);
  e_local : closedLocally (chan s) = true -> closedLocally (chan s') = true;
  e_remote : closedRemotely (chan s) = true -> closedRemotely (chan s') = true;
  e_close : closedLocally (chan s) = true -> closedRemotely (chan s) = true ->
    closing (chan s) = false -> closeImpls (chan s') = closeImpls (chan s);
  e_closing : closedLocally (chan s) = true -> closing (chan s) = false -> closing (chan s') = false;
  e_gone : ~ present s -> ~ present s';
  e_slot : closedLocally (chan s) = true -> closedRemotely (chan s) = true ->
    closing (chan s) = false -> slot s = InMux -> closeImpls (chan s) = 0%nat -> slot s' = InMux;
}.

Definition good (p q : Side * Side) : Prop :=
  pair_ok q /\ evolves p.1 q.1 /\ evolves p.2 q.2.

(** ** Lemmas *)

#[export] Instance evolves_preorder : PreOrder evolves.
Proof.
  split; [by intros s; split|]. intros s1 s2 s3 [] []. split; auto; [congruence|..].
  - intros H1 H2 H3. rewrite e_close1; auto.
  - intros H1 H2 H3 H4 H5. apply e_slot1; auto. rewrite e_close0; auto.
Qed.

Lemma good_refl p : pair_ok p -> good p p.
Proof. intros H. split; [done|]. split; reflexivity. Qed.

Lemma frame_ok_sound i f : frame_ok i f -> frame_sound i f /\ Syn (flags f.1) = false.
Proof. intros (H1 & H2 & H3 & H4). done. Qed.

Lemma frame_sound_fits i f : frame_sound i f -> frame_fits f.
Proof.
  intros (H1 & _ & H3). unfold frame_fits. destruct (msgType f.1); try done. apply H1.
Qed.

Lemma update1_nonneg i f : frame_sound i f -> 0 <= update1 f.
Proof. intros (H1 & _). unfold update1. destruct (msgType f.1); try done. apply H1. Qed.

Lemma updates_nonneg i fs : Forall (frame_sound i) fs -> 0 <= updates fs.
Proof.
  induction 1 as [|f fs Hf Hfs IH]; [done|]. pose proof (update1_nonneg i f Hf).
  change (updates (f :: fs)) with (update1 f + updates fs). lia.
Qed.

Lemma ends_last_inv a b : ends_last (a ++ b) -> existsb ends1 a = true -> payload b = [].
Proof.
  induction a as [|f a IH]; cbn; [done|]. intros [H1 H2] E. apply orb_true_iff in E as [E|E]; [|auto].
  specialize (H1 E). rewrite payload_app in H1. by apply app_eq_nil in H1 as [_ ?].
Qed.

Lemma ends_last_tail a b : ends_last (a ++ b) -> ends_last b.
Proof. induction a as [|f a IH]; cbn; [done|]. intros [_ H]. auto. Qed.

Lemma side_ok_pop x a r : side_ok x -> wire x = a ++ r -> side_ok (set_wire r x).
Proof.
  intros [] E. split; cbn; auto.
  - intros Ea. destruct (so_absent0 Ea) as (H1 & H2 & H3). rewrite H3 in E. cbn in E.
    symmetry in E. apply app_eq_nil in E as [_ ->]. split_and!; try done. rewrite H3 at 1. done.
  - rewrite E in so_frames0. by apply Forall_app in so_frames0 as [_ ?].
  - rewrite E in so_ends0. by apply ends_last_tail in so_ends0.
  - intros Er. apply so_finished0. rewrite E, existsb_app, Er. apply orb_true_r.
Qed.

Lemma granted_le_room c : core_ok c -> granted c <= room c.
Proof.
  intros H. pose proof (ok_room c H) as Hr. destruct (ok_queue c H) as [_ E].
  unfold granted, unannounced, room, inWindow, ZeroQueue.len in *. destruct (opened c); lia.
Qed.

Lemma granted_nonneg c : core_ok c -> opened c = true -> 0 <= granted c.
Proof.
  intros H Ho. pose proof (ok_recv c H). unfold granted, unannounced. rewrite Ho. lia.
Qed.

Lemma evolves_after y i i' o r es c es' : trans (chan y) i o es c -> evolves y (after y i' o r (c, es')).
Proof. intros T. by split; cbn; try apply T. Qed.

(** The side after a transition of its channel. *)
Lemma side_ok_after y i o r c es : side_ok y -> slot y <> Absent -> step_ok (chan y) i o es c ->
  (forall b, slot y = Flushed b -> r = None) ->
  (isEof (chan y) = true -> isReset (chan y) = false -> in_data i = []) ->
  side_ok (after y i o r (c, es)).
Proof.
  intros Hy Hs (T & S & Hc) Hr Hd. pose proof (t_const _ _ _ _ _ T) as (Hid & Hmax & Hop).
  pose proof (so_gone y Hy) as Hgone. destruct Hy.
  split; cbn [after chan slot wire reading accepted handed got issued over cancelled].
  - done.
  - unfold room in *. by rewrite Hmax.
  - done.
  - rewrite Hid. apply Forall_app. split; [done|]. eapply Forall_impl; [exact S|].
    intros f Hf. by apply frame_ok_sound in Hf as [? _].
  - apply ends_last_app; [done|apply T|]. intros E. apply (t_quiet _ _ _ _ _ T). auto.
  - rewrite existsb_app, orb_true_iff. intros [E|E]; [apply (t_quiet _ _ _ _ _ T); auto|].
    apply (t_ends_finished _ _ _ _ _ T E).
  - rewrite <- app_assoc. etransitivity; [apply sublist_app; [reflexivity|apply (t_stream _ _ _ _ _ T)]|].
    rewrite app_assoc. by apply sublist_app.
  - rewrite orb_false_iff. intros [E _] Er Ee. rewrite <- app_assoc.
    rewrite (t_stream_eq _ _ _ _ _ T Er Ee) by auto. rewrite app_assoc. f_equal. apply so_stream_eq0; [done|..].
    + destruct (isReset (chan y)) eqn:E1; [|done]. destruct (t_reset _ _ _ _ _ T E1). congruence.
    + destruct (isEof (chan y)) eqn:E1; [|done]. rewrite (t_eof _ _ _ _ _ T E1) in Ee. done.
  - rewrite orb_false_iff. intros [E E']. apply (t_live _ _ _ _ _ T E'). auto.
  - rewrite orb_false_iff. intros [E _]. rewrite <- app_assoc, (t_futs _ _ _ _ _ T) by auto.
    rewrite app_assoc. by rewrite so_futs0.
  - intros Hp. etransitivity; [exact (Hgone Hp)|apply T].
  - intros E. destruct (t_eof_in _ _ _ _ _ T E) as [E1|]; [|done].
    destruct (so_eof0 E1) as [H1 H2]. split; [by apply (t_remote _ _ _ _ _ T)|]. intros Er.
    assert (Ery : isReset (chan y) = false).
    { destruct (isReset (chan y)) eqn:E2; [|done]. destruct (t_reset _ _ _ _ _ T E2). congruence. }
    assert (E0 : o ++ received c = []).
    { rewrite (t_received_eq _ _ _ _ _ T Er); intros; by rewrite H2, Hd. }
    by apply app_eq_nil in E0 as [_ ?].
  - intros b E. destruct (so_flushed0 b E) as (H1 & H2 & _). destruct (t_reset _ _ _ _ _ T H1). eauto.
Qed.

Lemma reset_back c i o es c' : trans c i o es c' -> isReset c' = false -> isReset c = false.
Proof.
  intros T E. destruct (isReset c) eqn:E1; [|done]. destruct (t_reset _ _ _ _ _ T E1). congruence.
Qed.

Section LinkAfter.
Context (x y : Side) (a r : list Frame) (i : Input) (o : bytes) (rd : option Z) (c : YamuxChannel)
  (es : list Effect).
Context (Hx : side_ok x) (Hy : side_ok y) (Hxy : link x y) (Hyx : link y x).
Context (Hwire : wire x = a ++ r) (Hdata : payload a = in_data i) (Hupd : updates a = in_window i)
  (Hend : in_end i = existsb ends1 a).
Context (Hstep : step_ok (chan y) i o es c) (Hslot : slot y <> Absent) (Hopen : opened c = true).
Context (Hpop : a = [] \/ slot y = InMux).
Context (Hdead : forall b, slot y = Flushed b -> frames es = []).

Let y' := after y i o rd (c, es).
Let x' := set_wire r x.

(** What [y] receives that ends the stream was sent by a channel that is finished. *)
Lemma ended_by_peer : in_end i = true -> finished (chan x) = true /\ payload r = [].
Proof using Hx Hwire Hend.
  rewrite Hend. intros E. split; [apply (so_finished x Hx)|].
  - by rewrite Hwire, existsb_app, E.
  - pose proof (so_ends x Hx) as H. rewrite Hwire in H. by eapply ends_last_inv.
Qed.

Lemma payload_rest : payload (wire x) = [] -> payload r = [].
Proof using Hwire. rewrite Hwire, payload_app. intros E. by apply app_eq_nil in E as [_ ?]. Qed.

Lemma link_after_closed : closedRemotely c = true -> isReset c = false ->
  finished (chan x) = true /\ payload r = [].
Proof using All.
  destruct Hstep as (T & _ & _). intros E Er. pose proof (reset_back _ _ _ _ _ T Er) as Ery.
  destruct (t_remote_in _ _ _ _ _ T E) as [E1|[E1|E1]]; [|by apply ended_by_peer|congruence].
  destruct (l_closed x y Hxy E1 Ery) as [H1 H2]. split; [done|by apply payload_rest].
Qed.

Lemma link_after_remote : isReset c = true -> remoteReset c = true ->
  finished (chan x) = true /\ payload r = [].
Proof using All.
  destruct Hstep as (T & _ & _). intros E Er.
  destruct (t_reset_in _ _ _ _ _ T E Er) as [E1|E1]; [|by apply ended_by_peer].
  destruct (t_reset _ _ _ _ _ T E1) as [_ E2].
  destruct (l_remote x y Hxy E1) as [H1 H2]; [congruence|]. split; [done|by apply payload_rest].
Qed.

Lemma rest_nonneg : 0 <= updates r /\ 0 <= updates a.
Proof using Hx Hwire.
  pose proof (so_frames x Hx) as H. rewrite Hwire in H. apply Forall_app in H as [H1 H2].
  split; by eapply updates_nonneg.
Qed.

Lemma link_after_l : link x' y'.
Proof using All.
  pose proof Hstep as (T & S & Hc). pose proof rest_nonneg as [Hr0 Ha0].
  assert (Hlen : Z.of_nat (length (payload (wire x))) =
    Z.of_nat (length (payload r)) + Z.of_nat (length (in_data i)))
    by (rewrite Hwire, payload_app, Hdata, length_app; lia).
  split; unfold x', y'; cbn [after set_wire chan wire got handed].
  - rewrite (l_id x y Hxy). symmetry. apply (trans_id _ _ _ _ _ T).
  - apply link_after_closed.
  - apply link_after_remote.
  - pose proof (l_credit x y Hxy) as H. pose proof link_after_remote as Hrem.
    pose proof Hpop as Hp. pose proof Hdead as Hd. unfold covers in *. cbn [after slot chan].
    clear Hpop Hdead. destruct (slot y) as [| |b|] eqn:Es; [done| | |done].
    + destruct (t_granted _ _ _ _ _ T) as [[E1 E2]|E].
      { destruct Hrem as [-> ->]; [done..|]. cbn.
        pose proof (granted_nonneg c (ok_core c Hc) Hopen). lia. }
      rewrite E, updates_app. destruct (finished (chan x)); [|lia].
      pose proof (t_updates _ _ _ _ _ T). lia.
    + destruct Hp as [Ea|]; [|congruence]. rewrite (Hd b eq_refl), app_nil_r.
      rewrite Ea in Hwire. cbn in Hwire. by rewrite <- Hwire.
  - intros Ex Ec Px Py. destruct (l_credit_eq x y Hxy) as [E1 E2]; [done| |done| |].
    + by eapply reset_back.
    + unfold present in *. cbn in Py. done.
    + destruct (t_granted _ _ _ _ _ T) as [[E _]|E]; [congruence|].
      destruct (t_const _ _ _ _ _ T) as (_ & Em & _). unfold room in *. rewrite Em.
      rewrite E, updates_app. lia.
  - replace ((got y ++ o) ++ received c ++ payload r) with (got y ++ (o ++ received c) ++ payload r)
      by by rewrite !app_assoc.
    etransitivity; [|apply (l_got x y Hxy)]. rewrite Hwire, payload_app, Hdata.
    apply sublist_app; [done|]. rewrite app_assoc. apply sublist_app; [|done].
    apply (t_received _ _ _ _ _ T).
  - intros Er. pose proof (reset_back _ _ _ _ _ T Er) as Ery.
    rewrite <- (l_got_eq x y Hxy Ery), Hwire, payload_app, Hdata.
    replace ((got y ++ o) ++ received c ++ payload r) with (got y ++ (o ++ received c) ++ payload r)
      by by rewrite !app_assoc.
    f_equal. rewrite app_assoc. f_equal.
    apply (t_received_eq _ _ _ _ _ T Er). intros Ee.
    destruct (so_eof y Hy Ee) as [E1 E2]. rewrite E2 by done.
    destruct (l_closed x y Hxy E1 Ery) as [_ Ep]. rewrite Hwire, payload_app, Hdata in Ep.
    by apply app_eq_nil in Ep as [-> _].
Qed.

Lemma link_after_r : link y' x'.
Proof using All.
  pose proof Hstep as (T & S & Hc). pose proof rest_nonneg as [Hr0 Ha0].
  pose proof (avail_nonneg c (ok_core c Hc)) as Hav.
  assert (Hup : updates (wire x) = in_window i + updates r) by (by rewrite Hwire, updates_app, Hupd).
  assert (Hquiet : finished (chan y) = true -> payload (frames es) = [] /\ finished c = true)
    by apply (t_quiet _ _ _ _ _ T).
  split; unfold x', y'; cbn [after set_wire chan wire got handed]; rewrite ?payload_app.
  - rewrite <- (l_id y x Hyx). apply (trans_id _ _ _ _ _ T).
  - intros E1 E2. destruct (l_closed y x Hyx E1 E2) as [E3 ->]. by destruct (Hquiet E3) as [-> ->].
  - intros E1 E2. destruct (l_remote y x Hyx E1 E2) as [E3 ->]. by destruct (Hquiet E3) as [-> ->].
  - pose proof (l_credit y x Hyx) as H. rewrite length_app.
    assert (Hle : Z.of_nat (length (payload (wire y)) + length (payload (frames es))) +
        (if finished c then 0 else avail c + updates r) <=
      Z.of_nat (length (payload (wire y))) +
        (if finished (chan y) then 0 else avail (chan y) + updates (wire x))).
    { pose proof (t_avail _ _ _ _ _ T). destruct (finished (chan y)).
      - destruct Hquiet as [-> ->]; [done|]. cbn. lia.
      - destruct (finished c); lia. }
    unfold covers in *. cbn [set_wire slot chan]. destruct (slot x); (done || lia).
  - intros Ec Ex Py Px. pose proof (reset_back _ _ _ _ _ T Ec) as Ery.
    assert (Ppy : present y) by (unfold present in *; cbn in Py; done).
    destruct (l_credit_eq y x Hyx Ery Ex Ppy Px) as [E1 E2].
    pose proof (ok_window c (ok_core c Hc) Ec) as Hwin.
    pose proof (granted_le_room _ (ok_core _ (so_chan x Hx))) as Hgr.
    pose proof (so_room x Hx) as Hroom.
    pose proof (t_avail_eq _ _ _ _ _ T Ec) as He. pose proof (t_infl _ _ _ _ _ T) as Hi.
    rewrite length_app. split; [|].
    + rewrite Hup in E1. lia.
    + rewrite Hup in E1. lia.
  - rewrite app_assoc, app_assoc. rewrite <- (app_assoc (got x)).
    apply sublist_app; [|done]. apply (l_got y x Hyx).
  - intros Er. rewrite app_assoc, app_assoc. rewrite <- (app_assoc (got x)).
    f_equal. by apply (l_got_eq y x Hyx).
Qed.

End LinkAfter.

Lemma set_wire_same x : set_wire (wire x) x = x.
Proof. by destruct x. Qed.

Lemma sends_no_syn c es : sends_ok c es -> no_syn (frames es).
Proof. intros H. eapply Forall_impl; [exact H|]. intros f Hf. by apply frame_ok_sound in Hf as [_ ?]. Qed.

Lemma opened_step c i o es c' : trans c i o es c' -> opened c = true -> opened c' = true.
Proof. intros T. apply T. Qed.

(** A procedure of one side that is given nothing by its peer. *)
Lemma local_ok x y i o rd c es : pair_ok (x, y) -> slot y <> Absent -> step_ok (chan y) i o es c ->
  in_data i = [] -> in_window i = 0 -> in_end i = false ->
  (forall b, slot y = Flushed b -> frames es = [] /\ rd = None) ->
  good (x, y) (x, after y i o rd (c, es)).
Proof.
  intros (Hx & Hy & Hxy & Hyx & Sxy & Syx) Hs Hst Hd Hw He Hdead. cbn [fst snd] in *.
  split; [|split; [reflexivity|eapply evolves_after; apply Hst]].
  assert (Ea : is_absent y = false) by (unfold is_absent; by destruct (slot y)).
  unfold syn_ok in Sxy. rewrite Ea in Sxy. destruct Sxy as [Ho Hn].
  assert (Hop : opened c = true) by (eapply opened_step; [apply Hst|done]).
  assert (L : link x (after y i o rd (c, es)) /\ link (after y i o rd (c, es)) x).
  { rewrite <- (set_wire_same x). split.
    - eapply (link_after_l x y [] (wire x) i); try done; [by left|]. intros b Eb. by apply (Hdead b).
    - eapply (link_after_r x y [] (wire x) i); try done; [by left|]. intros b Eb. by apply (Hdead b). }
  destruct L as [L1 L2]. split_and!; cbn [fst snd]; [done| |done|done| |].
  - apply side_ok_after; try done. intros b Eb. by apply (Hdead b).
  - unfold syn_ok. by replace (is_absent _) with false.
  - pose proof (sends_no_syn _ _ (proj1 (proj2 Hst))) as Hns. unfold syn_ok in *. cbn [after wire].
    destruct (is_absent x).
    + destruct Syx as (f & r & -> & H1 & H2 & H3). exists f, (r ++ frames es). split_and!; try done.
      by apply Forall_app.
    + destruct Syx as [H1 H2]. split; [done|]. by apply Forall_app.
Qed.

(** ** A channel that was reset sends nothing *)

Lemma dead_facts c : core_ok c -> isReset c = true -> no_sends c = true /\ closedLocally c = true.
Proof. intros H E. destruct (ok_reset c H E) as (E1 & E2 & _). unfold no_sends. by rewrite E1. Qed.

Lemma dead_write f msg c : isReset c = true -> frames (write f msg c).2 = [].
Proof. intros E. unfold write. destruct (remoteReset c); [done|]. by rewrite E, orb_true_r. Qed.

Lemma dead_sendDone c : core_ok c -> isReset c = true -> frames (sendDone true c).2 = [].
Proof.
  intros H E. destruct (dead_facts c H E) as [E1 _]. unfold sendDone.
  destruct (inflight c) as [[fs n]|]; [|done]. unfold andThen, pure, emit, sendLoop_iter, no_sends in *.
  change (sendQueue (set_sendWindow _ (set_inflight None c))) with (sendQueue c). rewrite E1.
  unfold sendLoop_done, pure. cbn [snd app]. rewrite app_nil_r. by apply frames_fails.
Qed.

Lemma dead_closeImpl wok c : core_ok c -> isReset c = true -> (closeImpl wok c).2 = [].
Proof. intros H E. destruct (dead_facts c H E) as [_ E1]. by rewrite closeImpl_eq, E1. Qed.

Lemma dead_close wok c : core_ok c -> isReset c = true -> frames (close wok c).2 = [].
Proof.
  intros H E. destruct (dead_facts c H E) as [_ E1]. unfold close, when, andThen, pure.
  destruct (isClosed c); [done|]. cbn [negb]. rewrite closeImpl_eq. cbn [closedLocally set_isClosed].
  by rewrite E1.
Qed.

Lemma dead_resetStream wok c : isReset c = true -> frames (resetStream wok c).2 = [].
Proof.
  intros E. unfold resetStream, when, andThen, pure. destruct (isClosed c); [done|]. cbn [negb].
  rewrite reset_eq. cbn [isReset set_isResetLocally set_isClosed]. by rewrite E.
Qed.

Lemma dead_reset wok l c : isReset c = true -> (reset wok l c).2 = [].
Proof. intros E. by rewrite reset_eq, E. Qed.

(** ** The steps *)

Lemma finish_read_ok x y waited n : pair_ok (x, y) -> slot y <> Absent -> (forall b, slot y <> Flushed b) ->
  exists y', finish_read waited n y = Next y' /\ good (x, y) (x, y').
Proof.
  intros H Hs Hf. pose proof H as (Hx & Hy & Hxy & Hyx & Sxy & Syx). cbn [fst snd] in *.
  unfold syn_ok in Sxy. replace (is_absent y) with false in Sxy by (unfold is_absent; by destruct (slot y)).
  destruct (readOnce_finish_step waited n (chan y) (so_chan y Hy) (proj1 Sxy)) as (o & c & es & E & Hst).
  unfold finish_read. rewrite E. eexists. split; [done|]. apply local_ok; try done.
  intros b Eb. by destruct (Hf b).
Qed.

(** A side leaves the table of its muxer, or is forgotten. *)
Lemma set_slot_ok x y v : pair_ok (x, y) -> slot y <> Absent -> (1 <= closeImpls (chan y))%nat ->
  (v = Gone \/ slot y = InMux /\ v = Flushed (recvWindow (chan y)) /\ isReset (chan y) = true /\ reading y = None) ->
  good (x, y) (x, set_slot v y).
Proof.
  intros (Hx & Hy & Hxy & Hyx & Sxy & Syx) Hs Hcl Hv. cbn [fst snd] in *.
  assert (Hnp : ~ present (set_slot v y)) by (unfold present; cbn; destruct Hv as [->|(_ & -> & _)]; tauto).
  split; [|split; [reflexivity|split; cbn; auto; intros; lia]].
  assert (Hv' : v <> Absent /\ v <> InMux) by (destruct Hv as [->|(_ & -> & _)]; done).
  assert (Ea : is_absent y = false) by (unfold is_absent; by destruct (slot y)).
  assert (Ea' : is_absent (set_slot v y) = false) by (unfold is_absent; cbn; destruct v; naive_solver).
  unfold syn_ok in *. rewrite Ea in Sxy.
  split_and!; cbn [fst snd]; [done| | | | |].
  - destruct Hy. split; cbn [set_slot chan slot wire reading accepted handed got issued over cancelled]; auto.
    + intros E. by destruct Hv'.
    + intros b E. destruct Hv as [->|(_ & -> & H1 & H2)]; [done|]. injection E as <-.
      pose proof (ok_recv _ (ok_core _ so_chan0)). done.
  - destruct Hxy. split; cbn [set_slot chan wire got handed]; auto.
    + destruct Hv as [->|(E & -> & _)]; [done|]. unfold covers in *. cbn. rewrite E in l_credit0.
      unfold granted, unannounced in l_credit0. rewrite (proj1 Sxy) in l_credit0. lia.
    + done.
  - destruct Hyx. split; cbn [set_slot chan wire got handed]; auto. done.
  - unfold syn_ok. by rewrite Ea'.
  - done.
Qed.

Lemma act_ok a x y : pair_ok (x, y) -> exists y', act a y = Next y' /\ good (x, y) (x, y').
Proof.
  intros H. pose proof H as (Hx & Hy & Hxy & Hyx & _). cbn [fst snd] in *.
  pose proof (so_chan y Hy) as Hc. pose proof (ok_core _ Hc) as Hok. unfold act.
  assert (Hkeep : exists y', Next y = Next y' /\ good (x, y) (x, y')) by (eexists; split; [done|by apply good_refl]).
  destruct (is_absent y) eqn:Ea; [done|].
  assert (Hs : slot y <> Absent) by (unfold is_absent in Ea; by destruct (slot y)).
  assert (Hdead : forall b, slot y = Flushed b -> isReset (chan y) = true /\ reading y = None).
  { intros b Eb. by destruct (so_flushed y Hy b Eb) as (? & _ & ?). }
  assert (Hdo : forall i o rd p, step_ok (chan y) i o p.2 p.1 ->
    in_data i = [] -> in_window i = 0 -> in_end i = false ->
    (isReset (chan y) = true -> reading y = None -> frames p.2 = [] /\ rd = None) ->
    exists y', Next (after y i o rd p) = Next y' /\ good (x, y) (x, y')).
  { intros i o rd [c es] Hst Hd Hw He Hfr. eexists. split; [done|]. apply local_ok; try done.
    intros b Eb. destruct (Hdead b Eb). auto. }
  assert (Hwi : forall f msg, in_data (write_input (chan y) f msg) = [] /\
    in_window (write_input (chan y) f msg) = 0 /\ in_end (write_input (chan y) f msg) = false)
    by (intros; unfold write_input; by destruct (write_accepted _ _)).
  destruct a as [f msg| |n| | | | | |f| |]; unfold act_present.
  - destruct (Hwi f msg) as (? & ? & ?). apply Hdo; try done.
    + eapply write_step; [done|apply surjective_pairing].
    + intros E Er. split; [by apply dead_write|done].
  - apply Hdo; try done.
    + eapply sendDone_step; [done|apply surjective_pairing].
    + intros E Er. split; [by apply dead_sendDone|done].
  - destruct (reading y) eqn:Er; [done|].
    destruct (readOnce_start (chan y)) as [[c es] r] eqn:E.
    assert (Hst : step_ok (chan y) no_input [] es c).
    { eapply readOnce_start_step; [done| |exact E]. intros E1 E2. by apply (so_eof y Hy). }
    destruct r.
    + apply (Hdo no_input [] None (c, es)); try done. cbn. intros E1 _. split; [|done].
      unfold readOnce_start in E. rewrite E1 in E. by injection E as _ <- _.
    + apply (Hdo no_input [] (Some n) (c, es)); try done. cbn. intros E1 _.
      unfold readOnce_start in E. by rewrite E1 in E.
    + apply finish_read_ok; try done. intros b Eb. destruct (Hdead b Eb) as [E1 _].
      unfold readOnce_start in E. by rewrite E1 in E.
  - destruct (reading y) eqn:Er; [|done]. destruct (wakes (chan y)); [|done].
    apply finish_read_ok; try done. intros b Eb. by destruct (Hdead b Eb).
  - apply Hdo; try done.
    + eapply close_step; [done|apply surjective_pairing].
    + intros E Er. split; [by apply dead_close|done].
  - apply Hdo; try done.
    + eapply finDone_step; [done|apply surjective_pairing].
    + intros _ Er. split; [|done]. rewrite finDone_eq. by destruct (closing (chan y)).
  - apply Hdo; try done.
    + eapply resetStream_step; [done|apply surjective_pairing].
    + intros E Er. split; [by apply dead_resetStream|done].
  - apply Hdo; try done.
    + eapply (reset_step true true); [done|apply surjective_pairing].
    + intros E Er. split; [by rewrite dead_reset|done].
  - apply Hdo; try done. by eapply cancelWrite_step; [|apply surjective_pairing].
  - destruct (slot y) eqn:Es; try done. destruct (reading y) eqn:Er; [done|].
    destruct (Nat.leb_spec 1 (closeImpls (chan y))) as [H1|]; [|done].
    eexists. split; [done|]. apply set_slot_ok; [done|congruence|done|]. unfold cleanupChannel.
    destruct (isReset (chan y)) eqn:E1; cbn [andb]; [|by left].
    destruct (0 <? recvWindow (chan y)); [by right|by left].
  - destruct (slot y) eqn:Es; try done. eexists. split; [done|].
    apply set_slot_ok; [done|congruence| |by left]. apply (so_gone y Hy). unfold present. rewrite Es. tauto.
Qed.

(** A frame of a stream whose channel has left the table: its payload is dropped. *)
Lemma receive_gone f r x y : pair_ok (x, y) -> wire x = f :: r -> slot y <> Absent -> slot y <> InMux ->
  exists y', receive f y = Next y' /\ good (x, y) (set_wire r x, y').
Proof.
  intros (Hx & Hy & Hxy & Hyx & Sxy & Syx) Hw Hs Hs'. cbn [fst snd] in *.
  assert (Hnp : ~ present y) by (unfold present; destruct (slot y); naive_solver).
  assert (Ea : is_absent y = false) by (unfold is_absent; by destruct (slot y)).
  unfold syn_ok in Sxy. rewrite Ea in Sxy. destruct Sxy as [Ho Hn]. rewrite Hw in Hn.
  apply Forall_cons in Hn as [Hf Hn].
  assert (Hfs : frame_sound (id (chan x)) f /\ Forall (frame_sound (id (chan x))) r).
  { pose proof (so_frames x Hx) as H. rewrite Hw in H. by apply Forall_cons in H. }
  destruct Hfs as [Hfs Hrs]. pose proof (update1_nonneg _ _ Hfs) as Hu.
  assert (Hpay : payload (wire x) = payload1 f ++ payload r) by by rewrite Hw.
  assert (Hupd : updates (wire x) = update1 f + updates r) by by rewrite Hw.
  destruct (ok_close _ (ok_core _ (so_chan y Hy))) as (_ & Hcl & _).
  destruct (Hcl (so_gone y Hy Hnp)) as (Hcl1 & Hcl2 & Hcl3).
  (* whatever the slot becomes, as long as it covers the rest *)
  assert (Hgoal : forall v, v <> Absent -> v <> InMux ->
    (forall b, v = Flushed b -> isReset (chan y) = true /\ 0 <= b /\ reading y = None) ->
    covers (set_slot v y) (Z.of_nat (length (payload r)) +
      if finished (chan x) then 0 else avail (chan x) + updates (wire y)) ->
    good (x, y) (set_wire r x, set_slot v y)).
  { intros v Hv Hv' Hfl Hcov.
    assert (Ev : is_absent (set_slot v y) = false) by (unfold is_absent; cbn; by destruct v).
    assert (Hnp' : ~ present (set_slot v y)) by (unfold present; cbn; destruct v; naive_solver).
    split; [|split; [by split|split; cbn; auto; congruence]].
    split_and!; cbn [fst snd].
    - by apply (side_ok_pop x [f]).
    - destruct Hy. split; cbn [set_slot chan slot wire reading accepted handed got issued over cancelled]; auto.
      intros E. by destruct Hv.
    - destruct Hxy. rewrite Hpay in *.
      split; cbn [set_slot set_wire chan wire got handed]; auto.
      + intros E1 E2. destruct (l_closed0 E1 E2) as [? E]. by apply app_eq_nil in E as [_ ->].
      + intros E1 E2. destruct (l_remote0 E1 E2) as [? E]. by apply app_eq_nil in E as [_ ->].
      + done.
      + etransitivity; [|exact l_got0]. apply sublist_app; [done|]. apply sublist_app; [done|].
        by apply sublist_inserts_l.
      + intros E. rewrite <- (l_got_eq0 E). destruct (l_closed0 Hcl2 E) as [_ E'].
        apply app_eq_nil in E' as [-> ->]. done.
    - destruct Hyx. split; cbn [set_slot set_wire chan wire got handed]; auto.
      + unfold covers in *. cbn [set_wire slot chan]. destruct (finished (chan y)); [done|].
        destruct (slot x); (done || lia).
      + done.
    - unfold syn_ok. by rewrite Ev.
    - unfold syn_ok in *. cbn [set_wire is_absent slot chan set_slot wire] in *.
      destruct (slot x) eqn:Ex; unfold is_absent in *; cbn [slot set_wire]; rewrite Ex in *; done. }
  assert (Hkeep : covers y (Z.of_nat (length (payload r)) +
      if finished (chan x) then 0 else avail (chan x) + updates (wire y))).
  { pose proof (l_credit x y Hxy) as H. rewrite Hpay, length_app in H. unfold covers in *.
    destruct (slot y); (done || lia). }
  assert (Hsame : good (x, y) (set_wire r x, y)).
  { assert (Ey : y = set_slot (slot y) y) by by destruct y. rewrite Ey at 2. apply Hgoal; try done.
    intros b Eb. by apply (so_flushed y Hy). }
  unfold receive. rewrite Hf. destruct (slot y) as [| |b|] eqn:Es; try done; [|by eauto].
  destruct Hfs as (Hh & _ & Hm). destruct (msgType f.1) eqn:Em; try done; [|by eauto].
  pose proof (l_credit x y Hxy) as H. unfold covers in H. rewrite Es, Hpay, length_app in H.
  assert (Hpl : payload1 f = f.2) by (unfold payload1; by rewrite Em).
  assert (Hnn : 0 <= if finished (chan x) then 0 else avail (chan x) + updates (wire y)).
  { pose proof (avail_nonneg _ (ok_core _ (so_chan x Hx))).
    pose proof (updates_nonneg _ _ (so_frames y Hy)). destruct (finished (chan x)); lia. }
  rewrite Hpl in H. destruct (so_flushed y Hy b Es) as (Hr & Hb & Hrd).
  destruct (Z.ltb_spec b (length_ f.1)); [lia|].
  destruct (Z.eqb_spec (b - length_ f.1) 0); (eexists; split; [done|]; apply Hgoal; try done).
  - intros b' [= <-]. split_and!; try done. lia.
  - unfold covers. cbn [set_slot slot]. lia.
Qed.

(** A frame of a channel in the table. *)
Lemma receive_present f r x y : side_ok x -> side_ok y -> link x y -> link y x -> wire x = f :: r ->
  slot y = InMux -> opened (chan y) = true ->
  exists y', receive_frame f y = Next y' /\ side_ok y' /\ link (set_wire r x) y' /\ link y' (set_wire r x) /\
    slot y' = InMux /\ opened (chan y') = true /\ evolves y y' /\
    exists es, wire y' = wire y ++ es /\ no_syn es.
Proof.
  intros Hx Hy Hxy Hyx Hw Hs Ho.
  assert (Hfs : frame_sound (id (chan x)) f).
  { pose proof (so_frames x Hx) as H. rewrite Hw in H. by apply Forall_cons in H as [? _]. }
  pose proof (frame_sound_fits _ _ Hfs) as Hfit.
  assert (Hlen : msgType f.1 = Data -> length_ f.1 <= recvWindow (chan y)).
  { intros Em. pose proof (l_credit x y Hxy) as H. unfold covers in H. rewrite Hs, Hw in H.
    rewrite payload_cons, length_app in H. unfold payload1 in H. rewrite Em in H.
    unfold frame_fits in Hfit. rewrite Em in Hfit.
    assert (0 <= if finished (chan x) then 0 else avail (chan x) + updates (wire y)).
    { pose proof (avail_nonneg _ (ok_core _ (so_chan x Hx))).
      pose proof (updates_nonneg _ _ (so_frames y Hy)). destruct (finished (chan x)); lia. }
    unfold granted, unannounced in H. rewrite Ho in H. lia. }
  destruct f as [h p]. destruct (on_frame_step h p (chan y) (so_chan y Hy) Ho Hfit Hlen)
    as (c & es & E & Hst & He). unfold receive_frame. cbn [fst snd] in *. rewrite E.
  assert (Hi : forall i, in_write i = [] -> in_futs i = [] -> in_cancel i = false ->
    after y no_input [] (reading y) (c, es) = after y i [] (reading y) (c, es)).
  { intros i E1 E2 E3. unfold after. by rewrite E1, E2, E3. }
  eexists. split; [done|]. rewrite (Hi (frame_input (h, p))) by done.
  assert (Hop : opened c = true) by (eapply opened_step; [apply Hst|done]).
  assert (Hd : isEof (chan y) = true -> isReset (chan y) = false -> payload1 (h, p) = []).
  { intros E1 E2. destruct (so_eof y Hy E1) as [E3 _]. destruct (l_closed x y Hxy E3 E2) as [_ E4].
    rewrite Hw, payload_cons in E4. by apply app_eq_nil in E4 as [? _]. }
  split_and!; cbn [after slot chan wire]; try done.
  - apply side_ok_after; try done; [congruence|]. intros b Eb. congruence.
  - eapply (link_after_l x y [(h, p)] r (frame_input (h, p))); try done.
    + cbn. by rewrite app_nil_r.
    + cbn. lia.
    + cbn. by rewrite orb_false_r.
    + congruence.
    + by right.
    + intros b Eb. congruence.
  - eapply (link_after_r x y [(h, p)] r (frame_input (h, p))); try done.
    + cbn. by rewrite app_nil_r.
    + cbn. lia.
    + cbn. by rewrite orb_false_r.
    + congruence.
    + by right.
    + intros b Eb. congruence.
  - eapply evolves_after. apply Hst.
  - eexists. split; [done|]. eapply sends_no_syn. apply Hst.
Qed.

(** The first frame of a stream creates the channel of the peer. *)
Lemma open_absent x y : pair_ok (x, y) -> slot y = Absent ->
  let y1 := after (set_slot InMux (set_chan (createStream (id (chan y)) false
    (maxRecvWindow (chan y)) (maxSendQueueSize (chan y))) y)) no_input [] None
    (open true (createStream (id (chan y)) false (maxRecvWindow (chan y)) (maxSendQueueSize (chan y)))) in
  side_ok y1 /\ link x y1 /\ link y1 x /\ slot y1 = InMux /\ opened (chan y1) = true /\ evolves y y1 /\
  exists es, wire y1 = wire y ++ es /\ no_syn es.
Proof.
  intros (Hx & Hy & Hxy & Hyx & Sxy & Syx) Hs y1. cbn [fst snd] in *.
  destruct (so_absent y Hy Hs) as (Hf & Hsrc & Hy0).
  assert (Ec : createStream (id (chan y)) false (maxRecvWindow (chan y)) (maxSendQueueSize (chan y)) = chan y)
    by (unfold fresh in Hf; rewrite Hsrc in Hf; done).
  unfold y1. clear y1. rewrite Ec. replace (set_chan (chan y) y) with y by by destruct y.
  destruct (open_fresh (chan y) (so_chan y Hy) Hf) as (c & es & E & Efr & T & Hc & Ho & He & _). rewrite E.
  set (y0 := set_slot InMux y).
  assert (Hy0' : side_ok y0).
  { destruct Hy. split; unfold y0; cbn [set_slot chan slot wire reading accepted handed got issued over cancelled]; auto.
    - done.
    - intros H. by destruct H.
    - done. }
  assert (Hxy0 : link x y0).
  { destruct Hxy. split; unfold y0; cbn [set_slot chan wire got handed]; auto.
    - unfold covers in *. by rewrite Hs in l_credit0.
    - unfold present in *. rewrite Hs in l_credit_eq0. auto. }
  assert (Hyx0 : link y0 x).
  { destruct Hyx. split; unfold y0; cbn [set_slot chan wire got handed]; auto.
    unfold present in *. rewrite Hs in l_credit_eq0. auto. }
  assert (Hst : step_ok (chan y0) no_input [] es c).
  { split_and!; [done| |done]. unfold sends_ok. rewrite Efr. constructor; [|constructor].
    destruct (ok_max _ (ok_core _ (so_chan y Hy))) as [Hm1 Hm2]. unfold MaxSendWindow in Hm2.
    unfold open_frame. rewrite Hsrc. split_and!; try done. split_and!; try done.
    - apply (so_chan y Hy).
    - cbn. unfold uint_ok, YamuxDefaultWindowSize. pow2. lia. }
  split_and!.
  - apply side_ok_after; done.
  - rewrite <- (set_wire_same x). eapply (link_after_l x y0 [] (wire x) no_input); try done. by left.
  - rewrite <- (set_wire_same x). eapply (link_after_r x y0 [] (wire x) no_input); try done. by left.
  - done.
  - done.
  - destruct (evolves_after y no_input no_input [] None es c es T).
    split; try done. unfold present. rewrite Hs. tauto.
  - eexists. split; [done|]. eapply sends_no_syn. apply Hst.
Qed.

Lemma deliver_ok x y : pair_ok (x, y) -> exists p, deliver x y = Next p /\ good (x, y) p.
Proof.
  intros H. unfold deliver. destruct (wire x) as [|f r] eqn:Hw; [by eexists; split; [done|apply good_refl]|].
  pose proof H as (Hx & Hy & Hxy & Hyx & Sxy & Syx). cbn [fst snd] in *.
  assert (Hsx : slot x <> Absent).
  { intros E. destruct (so_absent x Hx E) as (_ & _ & E'). by rewrite E' in Hw. }
  assert (Eax : forall v, is_absent (set_wire v x) = false)
    by (intros v; unfold is_absent; cbn; by destruct (slot x)).
  assert (Eax' : is_absent x = false) by (unfold is_absent; by destruct (slot x)).
  assert (Hpop : side_ok (set_wire r x)) by by apply (side_ok_pop x [f]).
  unfold syn_ok in *. rewrite Eax' in Syx.
  assert (Hfin : forall y0, side_ok y0 -> link x y0 -> link y0 x -> slot y0 = InMux ->
    opened (chan y0) = true -> no_syn r -> no_syn (wire y0) ->
    evolves y y0 ->
    exists y', receive_frame f y0 = Next y' /\ good (x, y) (set_wire r x, y')).
  { intros y0 H0 H1 H2 H3 H4 H5 H6 H7.
    destruct (receive_present f r x y0 Hx H0 H1 H2 Hw H3 H4) as (y' & E & Hy' & L1 & L2 & Hs' & Ho' & Hev & es & Ew & Hes).
    exists y'. split; [done|]. split; [|split; [by split|by transitivity y0]].
    split_and!; cbn [fst snd]; try done.
    - unfold syn_ok. unfold is_absent. rewrite Hs'. done.
    - unfold syn_ok. rewrite Eax. cbn [set_wire chan]. split; [apply Syx|]. rewrite Ew. by apply Forall_app. }
  assert (Hcase : exists y', receive f y = Next y' /\ good (x, y) (set_wire r x, y')).
  { destruct (slot y) eqn:Hs.
    - unfold is_absent in Sxy. rewrite Hs in Sxy. destruct Sxy as (f' & r' & E & E1 & E2 & E3).
      rewrite Hw in E. injection E as <- <-.
      destruct (open_absent x y H Hs) as (O1 & O2 & O3 & O4 & O5 & O8 & es & O6 & O7).
      unfold receive. rewrite Hs, E1. apply Hfin; try done. rewrite O6. apply Forall_app. split; [|done].
      destruct (so_absent y Hy Hs) as (_ & _ & E). rewrite E. constructor.
    - unfold is_absent in Sxy. rewrite Hs in Sxy. destruct Sxy as [Ho Hn]. rewrite Hw in Hn.
      apply Forall_cons in Hn as [_ Hn]. unfold receive. rewrite Hs. apply Hfin; try done. apply Syx.
    - apply (receive_gone f r x y); [done..|congruence|congruence].
    - apply (receive_gone f r x y); [done..|congruence|congruence]. }
  destruct Hcase as (y' & -> & Hp). by eauto.
Qed.

Lemma pair_ok_swap p : pair_ok p -> pair_ok (swap p).
Proof. intros (H1 & H2 & H3 & H4 & H5 & H6). by split_and!. Qed.

Lemma good_swap p q : good p q -> good (swap p) (swap q).
Proof. intros (H1 & H2 & H3). split; [by apply pair_ok_swap|by split]. Qed.

Lemma good_trans p q r : good p q -> good q r -> good p r.
Proof. intros (_ & A1 & A2) (H & B1 & B2). split; [done|]. split; by etransitivity. Qed.

Lemma step_pair_ok st p : pair_ok p -> exists q, step st p = Next q /\ good p q.
Proof.
  intros H. destruct p as [x y]. destruct st as [[] a|[]]; cbn [step fst snd].
  - destruct (act_ok a y x (pair_ok_swap _ H)) as (x' & -> & H'). eexists. split; [done|].
    by apply (good_swap (y, x) (y, x')).
  - destruct (act_ok a x y H) as (y' & -> & H'). by eauto.
  - by apply deliver_ok.
  - destruct (deliver_ok y x (pair_ok_swap _ H)) as (p & -> & H'). eexists. split; [done|].
    by apply (good_swap (y, x) p).
Qed.

Lemma run_pair_ok steps p : pair_ok p -> exists q, run steps p = Next q /\ good p q.
Proof.
  revert p. induction steps as [|st rest IH]; intros p H; cbn; [by eexists; split; [done|apply good_refl]|].
  destruct (step_pair_ok st p H) as (q & -> & H'). destruct (IH q (proj1 H')) as (q' & E & H'').
  exists q'. split; [done|]. by eapply good_trans.
Qed.

(** The parameters of the two muxers: a stream id of 32 bits and windows of at least one byte
and less than half the largest window. *)
Definition config_ok (i wsA wsB : Z) : Prop :=
  uint_ok 32 i /\ 1 <= wsA < 2 ^ 31 /\ 1 <= wsB < 2 ^ 31.

Lemma start_ok i wsA mqA wsB mqB : config_ok i wsA wsB -> pair_ok (start i wsA mqA wsB mqB).
Proof.
  intros (Hi & HA & HB). unfold start.
  set (c := createStream i true wsA mqA). set (d := createStream i false wsB mqB).
  assert (HcA : chan_ok c) by (apply createStream_ok; [done|unfold MaxSendWindow; pow2; lia]).
  assert (HcB : chan_ok d) by (apply createStream_ok; [done|unfold MaxSendWindow; pow2; lia]).
  destruct (open_fresh c HcA eq_refl) as (c1 & es & E & Efr & T & Hc & Ho & He & Hg). rewrite E.
  assert (E1 : c1 = set_isReset false (set_opened true c))
    by (unfold open, when, andThen, pure, conn_write in E; cbn in E; by injection E as <- _).
  assert (Hw1 : forall ws, 1 <= ws < 2 ^ 31 -> 2 * Z.max YamuxDefaultWindowSize ws <= MaxSendWindow).
  { unfold YamuxDefaultWindowSize, MaxSendWindow. intros ws. pow2. lia. }
  assert (Hgd : granted d = YamuxDefaultWindowSize).
  { unfold granted, unannounced, d, createStream, YamuxDefaultWindowSize. cbn. zbool; lia. }
  assert (Hgc : granted c1 = Z.max YamuxDefaultWindowSize wsA).
  { rewrite Hg, E1. unfold c, createStream, YamuxDefaultWindowSize. cbn. zbool; lia. }
  assert (Hup : updates (frames es) = Z.max (wsA - YamuxDefaultWindowSize) 0).
  { rewrite Efr. cbn. lia. }
  assert (Hp : payload (frames es) = []) by by rewrite Efr.
  split_and!; cbn [fst snd].
  - split; cbn [after chan slot wire reading accepted handed got issued over cancelled no_input
      in_write in_futs app]; rewrite ?Hp; try done.
    + rewrite E1. apply Hw1, HA.
    + rewrite Efr, E1. constructor; [|constructor]. split_and!; try done. split_and!; try done.
      cbn. unfold uint_ok, YamuxDefaultWindowSize. pow2. lia.
    + by rewrite Efr.
    + by rewrite Efr.
    + by rewrite E1.
    + by rewrite E1.
    + intros _. rewrite E1. constructor.
    + intros _. rewrite E1. unfold open, when, andThen, pure, conn_write in E. cbn in E.
      injection E as _ <-. done.
    + by rewrite E1.
  - split; cbn; try done; [apply Hw1, HB|]. intros _. constructor.
  - split; cbn [after chan slot wire reading accepted handed got issued over cancelled no_input
      in_write in_futs app]; rewrite ?Hp, ?E1; try done.
    + unfold covers. cbn. rewrite Hgd. done.
    + intros _ _ _ _. rewrite Hgd. split; [done|]. unfold infl, room. cbn. lia.
  - split; cbn [after chan slot wire reading accepted handed got issued over cancelled no_input
      in_write in_futs app]; rewrite ?Hp; try done; try (rewrite E1; done).
    + unfold covers. cbn [after slot chan finished]. rewrite Hgc, Hup.
      change (avail d) with YamuxDefaultWindowSize. cbn. lia.
    + intros _ _ _ _. rewrite Hgc, Hup. change (avail d) with YamuxDefaultWindowSize.
      split; [cbn; lia|]. rewrite E1. unfold infl, room. cbn. unfold YamuxDefaultWindowSize. lia.
  - unfold syn_ok. cbn. exists (open_frame c), []. rewrite Efr. split_and!; try done. constructor.
  - unfold syn_ok. cbn. split; [done|constructor].
Qed.

(** ** Properties *)

Definition reaches (i wsA mqA wsB mqB : Z) (steps : list Step) (p : Side * Side) : Prop :=
  run steps (start i wsA mqA wsB mqB) = Next p.

Lemma reaches_ok i wsA mqA wsB mqB steps p : config_ok i wsA wsB ->
  reaches i wsA mqA wsB mqB steps p -> good (start i wsA mqA wsB mqB) p.
Proof.
  intros Hc. unfold reaches. destruct (run_pair_ok steps _ (start_ok i wsA mqA wsB mqB Hc)) as (q & -> & H).
  by intros [= <-].
Qed.

Lemma start_max i wsA mqA wsB mqB :
  maxRecvWindow (chan (start i wsA mqA wsB mqB).1) = wsA /\
  maxRecvWindow (chan (start i wsA mqA wsB mqB).2) = wsB.
Proof. done. Qed.

(** The bytes a side holds for its reader, and the window it still grants. *)
Definition holds_at_most (s : Side) (n : Z) : Prop :=
  0 <= recvWindow (chan s) /\
  Z.of_nat (length (received (chan s))) + recvWindow (chan s) <= n.

Lemma holds_room s ws : side_ok s -> maxRecvWindow (chan s) = ws ->
  holds_at_most s (Z.max YamuxDefaultWindowSize ws).
Proof.
  intros H <-. destruct (so_chan s H) as [Hok _ _]. pose proof (ok_room _ Hok) as Hr.
  destruct (ok_queue _ Hok) as [_ E]. unfold holds_at_most, received, room, inWindow, ZeroQueue.len in *.
  pose proof (ok_recv _ Hok). lia.
Qed.

(** C1: flow control is never violated between two muxers of this program: whatever the
applications, the timers and the scheduler do on a stream, no side takes a frame of the other
for a protocol error (a window exceeded, before or after a reset) and no assertion fails; a
side never holds more unread bytes than the larger of 256 KiB and its window size. *)
Theorem stream_no_violation i wsA mqA wsB mqB steps : config_ok i wsA wsB ->
  exists a b, reaches i wsA mqA wsB mqB steps (a, b) /\
    holds_at_most a (Z.max YamuxDefaultWindowSize wsA) /\
    holds_at_most b (Z.max YamuxDefaultWindowSize wsB).
Proof.
  intros Hc. destruct (run_pair_ok steps _ (start_ok i wsA mqA wsB mqB Hc)) as ([a b] & E & H).
  exists a, b. split; [done|]. destruct H as ((Ha & Hb & _) & Ea & Eb).
  split; (apply holds_room; [done|]); [apply (e_max _ _ Ea)|apply (e_max _ _ Eb)].
Qed.

(** What [x] wrote, by where it is: read by [y], queued there, on its way, waiting at [x]. *)
Definition delivery (x y : Side) : bytes :=
  got y ++ received (chan y) ++ payload (wire x) ++ pending (chan x).

(** Nothing made [x] or [y] drop bytes: no reset, no cancelled write, and [x] has not read the
end of the other direction, where [readOnce] also drops the send queue. *)
Definition undisturbed (x y : Side) : Prop :=
  isReset (chan x) = false /\ isReset (chan y) = false /\ cancelled x = false /\
  isEof (chan x) = false.

Lemma delivered_sublist x y : side_ok x -> link x y -> sublist (got y) (accepted x).
Proof.
  intros Hx Hxy. etransitivity; [|apply (so_stream x Hx)]. apply sublist_inserts_r.
  etransitivity; [|apply (l_got x y Hxy)]. by apply sublist_inserts_r.
Qed.

Lemma delivered_eq x y : side_ok x -> link x y -> undisturbed x y -> accepted x = delivery x y.
Proof.
  intros Hx Hxy (H1 & H2 & H3 & H4). unfold delivery.
  by rewrite <- (so_stream_eq x Hx H3 H1 H4), <- (l_got_eq x y Hxy H2), <- !app_assoc.
Qed.

(** C2: the bytes a side has read are bytes the other side wrote, in the order they were
written, never invented, duplicated or reordered; and while nothing is reset or cancelled and
the writer has not read the end of its own stream, every byte written is accounted for: read,
queued at the reader, on the way, or waiting to be sent, in this order. *)
Theorem stream_in_order i wsA mqA wsB mqB steps a b : config_ok i wsA wsB ->
  reaches i wsA mqA wsB mqB steps (a, b) ->
  (sublist (got b) (accepted a) /\ sublist (got a) (accepted b)) /\
  (undisturbed a b -> accepted a = delivery a b) /\
  (undisturbed b a -> accepted b = delivery b a).
Proof.
  intros Hc H. destruct (reaches_ok _ _ _ _ _ _ _ Hc H) as ((Ha & Hb & Hab & Hba & _) & _).
  split; [split; by apply delivered_sublist|]. split; by apply delivered_eq.
Qed.

(** Nothing is left to happen but calls of the application. *)
Definition quiescent (a b : Side) : Prop :=
  wire a = [] /\ wire b = [] /\ inflight (chan a) = None /\ inflight (chan b) = None.

Lemma quiet_delivered x y : side_ok x -> side_ok y -> link x y -> undisturbed x y -> quiescent x y ->
  opened (chan y) = true -> received (chan y) = [] ->
  got y = accepted x /\ sendQueue (chan x) = [] /\ over x ≡ₚ issued x.
Proof.
  intros Hx Hy Hxy Hu (Ew & Ew' & Ei & _) Ho Hr. pose proof Hu as (R1 & R2 & Hc & He).
  pose proof (so_chan x Hx) as [Hok Hs Hp].
  assert (Eq : sendQueue (chan x) = []).
  { destruct (Hp R1) as [|Hw]; [by rewrite Hs, Ei|done|].
    assert (Hfin : finished (chan x) = true -> sendQueue (chan x) = []).
    { unfold finished, no_sends. rewrite R1. cbn. intros E. apply andb_prop in E as [_ E].
      apply Nat.eqb_eq in E. by apply nil_length_inv. }
    assert (Hgone : ~ present x -> sendQueue (chan x) = []).
    { intros E. destruct (ok_close _ Hok) as (_ & H & _). by apply H, (so_gone x Hx). }
    assert (Hgone' : closedRemotely (chan y) = true -> sendQueue (chan x) = []).
    { intros E. apply Hfin. by apply (l_closed x y Hxy). }
    destruct (slot x) eqn:Es.
    3,4: apply Hgone; unfold present; rewrite Es; tauto.
    all: destruct (slot y) eqn:Es'.
    3,4,7,8: apply Hgone'; destruct (ok_close _ (ok_core _ (so_chan y Hy))) as (_ & H & _);
      apply H, (so_gone y Hy); unfold present; rewrite Es'; tauto.
    all: assert (Px : present x) by (unfold present; by rewrite Es);
      assert (Py : present y) by (unfold present; by rewrite Es');
      destruct (l_credit_eq x y Hxy R1 R2 Px Py) as [E _]; rewrite Ew, Ew' in E; cbn in E.
    all: destruct (isEof (chan y)) eqn:Ey; [apply Hgone', (so_eof y Hy Ey)|].
    all: pose proof (ok_core _ (so_chan y Hy)) as Hoky; pose proof (ok_half _ Hoky R2 Ey) as Hh.
    all: pose proof (ok_max _ Hoky) as Hm; pose proof (Z.quot_pos (maxRecvWindow (chan y)) 2 ltac:(lia) ltac:(lia)).
    all: destruct (ok_queue _ Hoky) as [_ El]; unfold received in Hr.
    all: unfold inWindow, ZeroQueue.len in Hh; rewrite El, Hr in Hh; cbn in Hh.
    all: unfold avail in E; rewrite R1 in E; unfold infl in E; rewrite Ei in E.
    all: unfold granted, unannounced in E; rewrite Ho in E; lia. }
  split_and!; [|done|].
  - rewrite (delivered_eq x y Hx Hxy Hu). unfold delivery, pending. by rewrite Hr, Ew, Eq, app_nil_r.
  - rewrite <- (so_futs x Hx Hc). unfold futs. by rewrite Ei, Eq, app_nil_r.
Qed.

Lemma quiet_opened x y : syn_ok x y -> wire x = [] -> opened (chan y) = true.
Proof.
  unfold syn_ok. destruct (is_absent y); [|by intros []].
  intros (f & r & E & _) E'. congruence.
Qed.

(** C3: a stream never deadlocks: when nothing is left to happen (no frame on the way, no write
of a frame under way) and the reader has read all it was given, the reader has got everything
that was written, every write future has ended, and nothing waits for a window update that
will not come. *)
Theorem stream_no_deadlock i wsA mqA wsB mqB steps a b : config_ok i wsA wsB ->
  reaches i wsA mqA wsB mqB steps (a, b) -> quiescent a b ->
  (undisturbed a b -> received (chan b) = [] ->
     got b = accepted a /\ sendQueue (chan a) = [] /\ over a ≡ₚ issued a) /\
  (undisturbed b a -> received (chan a) = [] ->
     got a = accepted b /\ sendQueue (chan b) = [] /\ over b ≡ₚ issued b).
Proof.
  intros Hc H Hq. destruct (reaches_ok _ _ _ _ _ _ _ Hc H) as ((Ha & Hb & Hab & Hba & Sab & Sba) & _).
  assert (Hq' : quiescent b a) by (destruct Hq as (? & ? & ? & ?); by split_and!).
  split; intros Hu Hr; apply quiet_delivered; try done; eapply quiet_opened; try done; apply Hq.
Qed.

(** ** The life of a channel *)

(** Both directions are closed, no Fin is being written, and the channel was not released when
the second direction was closed. *)
Definition stuck (s : Side) : Prop :=
  slot s = InMux /\ closedLocally (chan s) = true /\ closedRemotely (chan s) = true /\
  closing (chan s) = false /\ closeImpls (chan s) = 0%nat.


Lemma stuck_evolves s s' : evolves s s' -> stuck s -> stuck s'.
Proof. intros [] (H1 & H2 & H3 & H4 & H5). split_and!; auto. rewrite e_close0; auto. Qed.

Lemma run_evolves p more q : pair_ok p -> run more p = Next q -> evolves p.1 q.1.
Proof.
  intros Hp E. destruct (run_pair_ok more p Hp) as (q' & E' & _ & Hev & _).
  rewrite E in E'. by injection E' as <-.
Qed.

Lemma stuck_forever p more q : pair_ok p -> stuck p.1 -> run more p = Next q -> stuck q.1.
Proof. intros Hp Hs E. eapply stuck_evolves; [by eapply run_evolves|done]. Qed.





(** ** Runs *)

(** Two writes, the second while the first is under way; both sides close before the second is
sent. *)
Definition leak_steps : list Step :=
  [Deliver true; Local true (AWrite 1 [1; 2]); Local true (AWrite 2 [3]); Local true AClose;
   Local false AClose; Local false ACloseDone; Deliver false; Deliver false; Local true AWriteDone;
   Local true AWriteDone; Deliver true; Deliver true; Local false (ARead 10); Local false ACleanup].

(** The stream is over, everything was delivered and the other side has released it, but the
channel stays in the table of its muxer as long as the connection lasts. *)
Theorem closed_stream_leaks : exists a b,
  reaches 1 1024 1024 1024 1024 leak_steps (a, b) /\ quiescent a b /\
  got b = accepted a /\ slot b = Gone /\ over a = issued a /\
  (forall more q, run more (a, b) = Next q -> stuck q.1).
Proof.
  eexists _, _. split; [vm_compute; reflexivity|]. split; [by split_and!|]. split_and!; [done..|].
  intros more q E. refine (stuck_forever _ more q _ _ E); [|by split_and!].
  eapply (reaches_ok 1 1024 1024 1024 1024 leak_steps).
  - unfold config_ok, uint_ok. pow2. lia.
  - vm_compute. reflexivity.
Qed.

(** The peer closes, and its Fin is handled while the Fin of this side is being written. *)
Definition race_steps : list Step :=
  [Deliver true; Deliver false; Local false AClose; Local true AClose; Deliver false;
   Local true ACloseDone].

(** [Connection.closeImpl], which must run once, runs twice: [libp2p_open_streams] is decremented
and the tracker of the stream is untracked twice. *)
Theorem close_races_with_fin : exists a b,
  reaches 1 1024 1024 1024 1024 race_steps (a, b) /\ closeImpls (chan a) = 2%nat /\
  isReset (chan a) = false /\ accepted a = [] /\ accepted b = [].
Proof. eexists _, _. split; [vm_compute; reflexivity|]. by split_and!. Qed.

(** The peer closes its direction while bytes are still queued here; reading the end of the
stream then drops them. *)
Definition eof_steps : list Step :=
  [Deliver true; Local true (AWrite 1 [1; 2]); Local true (AWrite 2 [3]);
   Local false AClose; Local false ACloseDone; Deliver false; Deliver false; Local true (ARead 10); Local true AWake;
   Local true AWriteDone; Deliver true; Local false (ARead 10)].

(** Both write futures have ended ([clearQueues] without an error completes them), nothing is on the way, no side was reset or has
cancelled or closed its own direction of the writes, and the second write was never sent. *)
Theorem eof_drops_writes : exists a b,
  reaches 1 1024 1024 1024 1024 eof_steps (a, b) /\ quiescent a b /\
  isReset (chan a) = false /\ isReset (chan b) = false /\ cancelled a = false /\
  closedLocally (chan a) = false /\
  accepted a = [1; 2; 3] /\ got b = [1; 2] /\ sendQueue (chan a) = [] /\ over a ≡ₚ issued a.
Proof.
  eexists _, _. split; [vm_compute; reflexivity|]. split; [by split_and!|]. split_and!; [done..|].
  cbn. apply Permutation_swap.
Qed.

(** A complete exchange in both directions. *)
Definition exchange_steps : list Step :=
  [Deliver true; Deliver false; Local true (AWrite 1 [1; 2]); Local true AWriteDone; Deliver true;
   Local false (ARead 1); Local false (ARead 5); Local false (AWrite 2 [7]); Local false AWriteDone;
   Deliver false; Local true (ARead 5); Local true AClose; Local true ACloseDone; Deliver true;
   Local false AClose; Local false ACloseDone; Deliver false; Local true ACleanup;
   Local false ACleanup].

Lemma small_config : config_ok 1 1024 1024.
Proof. unfold config_ok, uint_ok. pow2. lia. Qed.

Lemma exchange_reaches : exists a b, reaches 1 1024 1024 1024 1024 exchange_steps (a, b).
Proof. eexists _, _. vm_compute. reflexivity. Qed.

(** The two ends of a stream after the steps of [exchange_steps] that read everything. *)
Definition quiet_steps : list Step :=
  [Deliver true; Deliver false; Local true (AWrite 1 [1; 2]); Local true AWriteDone; Deliver true;
   Local false (ARead 5)].

Lemma stream_no_violation_witness : exists a b,
  reaches 1 1024 1024 300000 1024 exchange_steps (a, b) /\
  holds_at_most a 262144 /\ holds_at_most b 300000.
Proof.
  apply (stream_no_violation 1 1024 1024 300000 1024 exchange_steps).
  unfold config_ok, uint_ok. pow2. lia.
Defined.

Lemma stream_in_order_witness : exists a b,
  reaches 1 1024 1024 1024 1024 quiet_steps (a, b) /\ accepted a = delivery a b /\ accepted a = [1; 2].
Proof.
  eexists _, _. split; [vm_compute; reflexivity|]. split; [|reflexivity].
  refine (proj1 (proj2 (stream_in_order 1 1024 1024 1024 1024 quiet_steps _ _ small_config _)) _).
  - vm_compute. reflexivity.
  - split_and!; reflexivity.
Defined.

Lemma stream_no_deadlock_witness : exists a b,
  reaches 1 1024 1024 1024 1024 quiet_steps (a, b) /\
  got b = accepted a /\ sendQueue (chan a) = [] /\ over a ≡ₚ issued a.
Proof.
  eexists _, _. split; [vm_compute; reflexivity|].
  refine (proj1 (stream_no_deadlock 1 1024 1024 1024 1024 quiet_steps _ _ small_config _ _) _ _).
  - vm_compute. reflexivity.
  - split_and!; reflexivity.
  - split_and!; reflexivity.
  - reflexivity.
Defined.

